(* ===== verification/_CoqProject ===== *)
-Q . S2P
Prelude.v
Std.v
Frame.v
Kernel.v
Connection.v
ConnectionSpecs.v
Listener.v
Session.v
SessionLaws.v
Termination.v
Cypher.v
Handshake.v
Descriptors.v
Split.v
Examples.v
HandshakeExamples.v
Transport.v
TransportLaws.v
TransportSpecs.v
TransportExamples.v
Accept.v
ServiceExamples.v
Tunnel.v
TunnelSpecs.v
TunnelExamples.v
