(* ===== verification/Prelude.v ===== *)
(** * netservices: a verification development

    [netservices] (the crate under [src/], eight Rust files) turns TCP
    connections into sessions: byte streams with a peer, a stack of handshakes,
    and wrappers that put them under an event loop.  This library models the
    crate and proves what its parts promise.

    ** The program and its model

    Every operation is an executable function in the monad [M E St A] of this
    file: code that owns a state [St] (a [&mut self] and the operating system),
    and returns a [Result], panics, or does not return.  The state survives an
    error, as in Rust.  Types keep the names of the source; traits are classes,
    and what one part relies on in another is a class of laws which the
    implementations discharge.

    - [Prelude]: results, outcomes, the monad, and three logics for it: [wp] (no
      panic, and a postcondition on every return), [twp] (it returns), and
      [evolves] (a relation kept between the states before and after).
    - [Std]: [io::Error], [VecDeque<u8>] with its two slices, [usize], the build
      profile ([debug_assert!], overflow checks).
    - [Kernel]: the state of the operating system a process sees, [World]:
      descriptor table, sockets, and a script of what the network will do; the
      system calls; [std::net::TcpStream]; [io::Read] and [io::Write] as the
      class [Stream], with [read_exact] and [write_all].
    - [Frame] ([src/frame.rs]): [Frame] and [Marshaller].
    - [Connection], [ConnectionSpecs] ([src/connection.rs]): [NetConnection] for
      [TcpStream] and [socket2::Socket].
    - [Listener] ([src/listener.rs]): [NetListener] for [TcpListener] and
      [socket2::Socket].
    - [Session], [SessionLaws], [Termination], [Handshake] ([src/session.rs]):
      [NetSession], [NetStateMachine], [NetProtocol], [run_handshake].
    - [Cypher] ([src/session.rs], the modules [impl_socks5], [impl_noise],
      [imp_eidolon] and [CypherSession]): SOCKS5, Noise and Eidolon over TCP, and
      the constructors of the stack; [Descriptors]: the descriptors these open.
    - [Split] ([src/split.rs], and [SplitIo] of [src/session.rs]): splitting a
      session into halves and joining them.
    - [Transport], [TransportLaws], [TransportSpecs] ([src/resource.rs]):
      [NetTransport], a session under the reactor.
    - [Accept] ([src/resource.rs]): [NetAccept], a listener under the reactor.
    - [Tunnel], [TunnelSpecs] ([src/tunnel.rs]): [Tunnel], which copies bytes
      between a local connection and a session.
    - [Examples], [HandshakeExamples], [TransportExamples], [ServiceExamples],
      [TunnelExamples]: concrete instances of all parameters, and for each
      theorem with hypotheses a run to which it applies.

    The parts call each other as in the source: a [NetProtocol] calls the session
    below it, down to the [TcpStream]; [NetTransport] and [Tunnel] call a session
    through [NetSession]; [NetAccept] calls a [NetListener].  Clients are proved
    against [NetSessionLaws] (and [WireLaws], [DirectSession], [StableSession]),
    which hold for [TcpStream] and pass through [NetProtocol].

    ** What the theorems show

    - Framing ([Frame.Pipe], [Frame.MarshalSpecs]): two marshallers joined by a
      byte stream that is cut in any way refine a FIFO queue of frames, every
      frame pushed is eventually popped, no failing operation loses bytes, and
      [drain] accounts for the bytes at both ends.
    - Handshakes ([Handshake.HandshakeContract], [Cypher.CypherSpecs]): the
      blocking handshake carries out the dialogues of the three machines in order
      over any fragmentation, sends exactly their acts and takes exactly the
      replies; its loops end, so that it returns unless a blocking socket without
      timeouts waits for a silent peer.  Before it is over no application byte is
      delivered, and none is sent unless the machine whose turn it is has nothing
      to say (the branch of [NetProtocol::write] that takes this for the end of
      the handshake).  [connect_blocking] returns established sessions only.  In
      non-blocking mode an act that arrives in pieces is lost, and [write_all] can
      spin.  Data of an established session goes to the socket as it is.
    - Descriptors ([Descriptors.DescriptorSpecs],
      [ConnectionSpecs.ConnectionContract], [Accept.AcceptContract],
      [Split.SplitContract]): which sockets the constructors, listeners and
      splits hand out, how they are configured, and that failing paths leave no
      descriptor open; that a failing [set_tcp_keepalive] closes a descriptor it
      does not own, that a non-blocking connect that failed with [EAGAIN] is
      returned as a session, and that a listener on [socket2::Socket] never
      listens.
    - The transport ([TransportSpecs.TransportContract]): [handle_io] refines a
      four-state automaton, the event trace over a whole life is orderly, the
      write path is a FIFO across partial writes and transient errors, bytes that
      wait are always watched for, how the constructors configure the socket, and
      when exactly [handle_io] panics.
    - The tunnel ([TunnelSpecs.TunnelContract]): the copying loop refines two
      byte queues that are run on the events of the poller, the copying returns,
      the accepted connection is closed on every way out; at the end of the local
      stream, buffered bytes are abandoned.

    ** Parameters

    Code that is not in the repository is a class without instances outside the
    examples: [Socket2] (socket2, with [Socket2Laws]), [NetAddrApi] (addresses of
    cyphernet), [Socks5Api], [NoiseApi], [EidolonApi] (its handshake machines),
    [IoTypeApi], [Reactor], [PollApi] (the reactor crate, with [IoTypeLaws],
    [ReactorLaws], [CalmPoll], [FinitePoll], [ObservedPoll]), [Random] (rand), [AddrDisplay], and
    the implementation of [Frame] by a user of the crate (with [FrameLaws], the
    contract in its documentation).  [Deque.Layout] is the allocation-dependent
    place where a ring buffer wraps; [BuildProfile] chooses debug or release;
    [Target] is the platform.

    ** Fuel and bounds

    A loop of the source that has no structural measure takes fuel, and running
    out of it is the outcome [NoReturn], like a system call that blocks forever.
    [loop_fuel] of the class [Fuel] is arbitrary; the theorems that something
    returns state how much suffices: for the handshake the number of acts, and
    for one act its length plus the number of network events still scripted; for
    a tunnel the rounds of the poller and the events of a round.  Theorems that
    speak of a returned result hold for every fuel.  [usize] is 64 bits wide;
    [relay_conserves] asks for less than 2^64 bytes to arrive, which keeps the
    counters of the tunnel from overflowing.  Error codes are those of Linux.

    ** What is not modelled

    Logging (the feature [log]) and the texts of [Display] beyond those that
    identify a session: they do not change any state.  Drops are modelled where
    they close a descriptor.  Memory exhaustion, and threads: the crate has no
    concurrency of its own; what the rest of the world does between two calls is
    the arbitrary change of [World] in the theorems about traces.

    ** Further plan

    The transport over a [CypherSession] against the blocking dialogue (when a
    non-blocking handshake succeeds), and [tunnel_once] from [accept] to the
    returned counters in one theorem. *)

From stdpp Require Export base tactics list gmap strings numbers.
From Stdlib Require Export Strings.Byte.
From Stdlib Require Import Lia.

(** ** Results and outcomes *)

(** Rust's [Result<A, E>]. *)
Inductive result (E A : Type) : Type :=
| Ok (a : A)
| Err (e : E).
Arguments Ok {E A} a.
Arguments Err {E A} e.

(** What a call does: it returns a value, it panics, or it has not returned
    (a loop that has used up its fuel, or a system call that blocks forever). *)
Inductive outcome (A : Type) : Type :=
| Ret (a : A)
| Panic (msg : string)
| NoReturn.
Arguments Ret {A} a.
Arguments Panic {A} msg.
Arguments NoReturn {A}.

(** ** The state monad of [&mut] code

    [M E St A] is a piece of Rust code that owns a state [St] (a [&mut self],
    the operating system, or both) and evaluates to a [Result<A, E>].  The
    state survives an [Err]: Rust does not roll mutations back. *)
Definition M (E St A : Type) : Type := St → outcome (result E A) * St.

Definition ret {E St A} (a : A) : M E St A := λ st, (Ret (Ok a), st).
Definition fail {E St A} (e : E) : M E St A := λ st, (Ret (Err e), st).
Definition panic {E St A} (msg : string) : M E St A := λ st, (Panic msg, st).
Definition no_return {E St A} : M E St A := λ st, (NoReturn, st).

(** Sequencing with the [?] operator: [Err] leaves the function. *)
Definition bind {E St A B} (m : M E St A) (k : A → M E St B) : M E St B :=
  λ st, match m st with
        | (Ret (Ok a), st') => k a st'
        | (Ret (Err e), st') => (Ret (Err e), st')
        | (Panic msg, st') => (Panic msg, st')
        | (NoReturn, st') => (NoReturn, st')
        end.

(** A call whose [Result] is inspected by a [match] instead of [?]. *)
Definition attempt {E E' St A} (m : M E St A) : M E' St (result E A) :=
  λ st, match m st with
        | (Ret r, st') => (Ret (Ok r), st')
        | (Panic msg, st') => (Panic msg, st')
        | (NoReturn, st') => (NoReturn, st')
        end.

(** [Result::map_err]. *)
Definition map_err {E E' St A} (f : E → E') (m : M E St A) : M E' St A :=
  λ st, match m st with
        | (Ret (Ok a), st') => (Ret (Ok a), st')
        | (Ret (Err e), st') => (Ret (Err (f e)), st')
        | (Panic msg, st') => (Panic msg, st')
        | (NoReturn, st') => (NoReturn, st')
        end.

Definition gets {E St A} (f : St → A) : M E St A := λ st, (Ret (Ok (f st)), st).
Definition modify {E St} (f : St → St) : M E St unit := λ st, (Ret (Ok tt), f st).
Definition of_result {E St A} (r : result E A) : M E St A := λ st, (Ret r, st).

(** Running code on a part of the state: a method call on a field. *)
Definition zoom {E St T A} (get : St → T) (put : T → St → St) (m : M E T A) : M E St A :=
  λ st, let '(r, t) := m (get st) in (r, put t st).

Declare Scope rust_scope.
Delimit Scope rust_scope with rust.
Open Scope rust_scope.

Notation "'let!' x ':=' m 'in' k" := (bind m (λ x, k))
  (at level 10, x pattern, m at level 100, k at level 200,
   format "'[v' 'let!'  x  ':='  m  'in' '/' k ']'") : rust_scope.
Notation "'run!' m 'in' k" := (bind m (λ _, k))
  (at level 10, m at level 100, k at level 200,
   format "'[v' 'run!'  m  'in' '/' k ']'") : rust_scope.

Definition is_ok {E A} (r : result E A) : bool :=
  match r with Ok _ => true | Err _ => false end.

(** Panics and endless waits are the two ways not to come back with a value. *)
Definition returns {A} (o : outcome A) : bool :=
  match o with Ret _ => true | _ => false end.

(** ** Monad laws, stated pointwise *)

Lemma bind_ret_l {E St A B} (a : A) (k : A → M E St B) st :
  bind (ret a) k st = k a st.
Proof. reflexivity. Qed.

Lemma bind_gets {E St A B} (h : St → A) (k : A → M E St B) st : bind (gets h) k st = k (h st) st.
Proof. done. Qed.

Lemma bind_assoc {E St A B C} (m : M E St A) (k : A → M E St B) (l : B → M E St C) st :
  bind (bind m k) l st = bind m (λ a, bind (k a) l) st.
Proof. unfold bind. destruct (m st) as [[[]| |] ?]; reflexivity. Qed.

(** Inversion of a sequence that returned [Ok]. *)
Lemma bind_ok_inv {E St A B} (m : M E St A) (k : A → M E St B) st b st' :
  bind m k st = (Ret (Ok b), st') →
  ∃ a st1, m st = (Ret (Ok a), st1) ∧ k a st1 = (Ret (Ok b), st').
Proof. unfold bind. destruct (m st) as [[[]| |] ?]; naive_solver. Qed.

Lemma bind_ok {E St A B} (m : M E St A) (k : A → M E St B) st a st1 :
  m st = (Ret (Ok a), st1) → bind m k st = k a st1.
Proof. unfold bind. by intros ->. Qed.

Lemma bind_err {E St A B} (m : M E St A) (k : A → M E St B) st e st1 :
  m st = (Ret (Err e), st1) → bind m k st = (Ret (Err e), st1).
Proof. unfold bind. by intros ->. Qed.

(** ** Weakest preconditions

    [wp m Q st]: run from [st], [m] does not panic, and if it returns, the
    result and the final state satisfy [Q]. *)
Definition wp {E St A} (m : M E St A) (Q : result E A → St → Prop) (st : St) : Prop :=
  match m st with
  | (Ret r, st') => Q r st'
  | (Panic _, _) => False
  | (NoReturn, _) => True
  end.

Section wp_rules.
Context {E St : Type}.

Lemma wp_run {A} (m : M E St A) Q st r st' : wp m Q st → m st = (Ret r, st') → Q r st'.
Proof. unfold wp. intros Hw Heq. by rewrite Heq in Hw. Qed.

Lemma wp_no_panic {A} (m : M E St A) Q st msg st' : wp m Q st → m st ≠ (Panic msg, st').
Proof. unfold wp. intros Hw Heq. by rewrite Heq in Hw. Qed.

(** From the behaviour of a call to its [wp]. *)
Lemma wp_intro {A} (m : M E St A) (Q : result E A → St → Prop) st :
  (∀ msg st', m st ≠ (Panic msg, st')) → (∀ r st', m st = (Ret r, st') → Q r st') → wp m Q st.
Proof. intros Hp Hr. unfold wp. destruct (m st) as [[r|msg|] st'] eqn:Heq; [by apply Hr|by destruct (Hp msg st')|done]. Qed.

Lemma wp_mono {A} (m : M E St A) (P Q : result E A → St → Prop) st :
  wp m P st → (∀ r st', P r st' → Q r st') → wp m Q st.
Proof. unfold wp. destruct (m st) as [[]]; auto. Qed.

Lemma wp_ret {A} (a : A) (Q : result E A → St → Prop) st : Q (Ok a) st → wp (ret a) Q st.
Proof. done. Qed.

Lemma wp_fail {A} (e : E) (Q : result E A → St → Prop) st : Q (Err e) st → wp (fail e) Q st.
Proof. done. Qed.

Lemma wp_gets {A} (f : St → A) (Q : result E A → St → Prop) st : Q (Ok (f st)) st → wp (gets f) Q st.
Proof. done. Qed.

Lemma wp_modify f (Q : result E unit → St → Prop) st : Q (Ok tt) (f st) → wp (modify f) Q st.
Proof. done. Qed.

Lemma wp_of_result {A} (r : result E A) (Q : result E A → St → Prop) st : Q r st → wp (of_result r) Q st.
Proof. done. Qed.

Lemma wp_bind {A B} (m : M E St A) (k : A → M E St B) Q st :
  wp m (λ r st', match r with Ok a => wp (k a) Q st' | Err e => Q (Err e) st' end) st →
  wp (bind m k) Q st.
Proof. unfold wp, bind. by destruct (m st) as [[[]| |] st']. Qed.

Lemma wp_attempt {E' A} (m : M E' St A) (Q : result E (result E' A) → St → Prop) st :
  wp m (λ r st', Q (Ok r) st') st → wp (attempt m) Q st.
Proof. unfold wp, attempt. by destruct (m st) as [[] st']. Qed.

Lemma wp_map_err {E' A} (h : E' → E) (m : M E' St A) (Q : result E A → St → Prop) st :
  wp m (λ r st', Q (match r with Ok a => Ok a | Err e => Err (h e) end) st') st → wp (map_err h m) Q st.
Proof. unfold wp, map_err. by destruct (m st) as [[[]| |] st']. Qed.

Lemma wp_zoom {T A} (get : St → T) put (m : M E T A) (Q : result E A → St → Prop) st :
  wp m (λ r t, Q r (put t st)) (get st) → wp (zoom get put m) Q st.
Proof. unfold wp, zoom. by destruct (m (get st)) as [[] t]. Qed.

End wp_rules.

(** [twp m Q st]: [m] does not hang, and if it returns, the result and the final
    state satisfy [Q].  Together with a [wp] it gives total correctness. *)
Definition twp {E St A} (m : M E St A) (Q : result E A → St → Prop) (st : St) : Prop :=
  match m st with
  | (Ret r, st') => Q r st'
  | (Panic _, _) => True
  | (NoReturn, _) => False
  end.

Section twp_rules.
Context {E St : Type}.

Lemma twp_mono {A} (m : M E St A) (P Q : result E A → St → Prop) st :
  twp m P st → (∀ r st', P r st' → Q r st') → twp m Q st.
Proof. unfold twp. destruct (m st) as [[]]; auto. Qed.

Lemma twp_ret {A} (a : A) (Q : result E A → St → Prop) st : Q (Ok a) st → twp (ret a) Q st.
Proof. done. Qed.

Lemma twp_fail {A} (e : E) (Q : result E A → St → Prop) st : Q (Err e) st → twp (fail e) Q st.
Proof. done. Qed.

Lemma twp_gets {A} (f : St → A) (Q : result E A → St → Prop) st : Q (Ok (f st)) st → twp (gets f) Q st.
Proof. done. Qed.

Lemma twp_modify f (Q : result E unit → St → Prop) st : Q (Ok tt) (f st) → twp (modify f) Q st.
Proof. done. Qed.

Lemma twp_bind {A B} (m : M E St A) (k : A → M E St B) Q st :
  twp m (λ r st', match r with Ok a => twp (k a) Q st' | Err e => Q (Err e) st' end) st →
  twp (bind m k) Q st.
Proof. unfold twp, bind. by destruct (m st) as [[[]| |] st']. Qed.

Lemma twp_attempt {E' A} (m : M E' St A) (Q : result E (result E' A) → St → Prop) st :
  twp m (λ r st', Q (Ok r) st') st → twp (attempt m) Q st.
Proof. unfold twp, attempt. by destruct (m st) as [[] st']. Qed.

Lemma twp_map_err {E' A} (h : E' → E) (m : M E' St A) (Q : result E A → St → Prop) st :
  twp m (λ r st', Q (match r with Ok a => Ok a | Err e => Err (h e) end) st') st → twp (map_err h m) Q st.
Proof. unfold twp, map_err. by destruct (m st) as [[[]| |] st']. Qed.

Lemma twp_zoom {T A} (get : St → T) put (m : M E T A) (Q : result E A → St → Prop) st :
  twp m (λ r t, Q r (put t st)) (get st) → twp (zoom get put m) Q st.
Proof. unfold twp, zoom. by destruct (m (get st)) as [[] t]. Qed.

(** Total correctness from the two halves. *)
Lemma total {A} (m : M E St A) (P Q : result E A → St → Prop) st :
  wp m P st → twp m Q st → ∃ r st', m st = (Ret r, st') ∧ P r st' ∧ Q r st'.
Proof. unfold wp, twp. destruct (m st) as [[r|msg|] st'] eqn:Hm; [eauto|done|done]. Qed.

End twp_rules.

(** ** Stability

    [evolves R m]: however [m] ends, the final state is [R]-related to the
    initial one. *)
Definition evolves {E St A} (R : relation St) (m : M E St A) : Prop :=
  ∀ st o st', m st = (o, st') → R st st'.

Section evolves_rules.
Context {E St : Type} (R : relation St) `{!PreOrder R}.

Lemma evolves_pure {A} (m : M E St A) : (∀ st, (m st).2 = st) → evolves R m.
Proof. intros Hm st o st' Heq. specialize (Hm st). rewrite Heq in Hm. simpl in Hm. by subst. Qed.

Lemma evolves_bind {A B} (m : M E St A) (k : A → M E St B) :
  evolves R m → (∀ a, evolves R (k a)) → evolves R (bind m k).
Proof.
  intros Hm Hk st o st' Heq. unfold bind in Heq.
  destruct (m st) as [[[a|e]|msg|] st1] eqn:Hr; apply Hm in Hr; [|by simplify_eq..].
  etrans; [exact Hr|]. by eapply Hk.
Qed.

Lemma evolves_attempt {E' A} (m : M E' St A) : evolves R m → evolves R (attempt (E':=E) m).
Proof. intros Hm st o st' Heq. unfold attempt in Heq. destruct (m st) as [[] st1] eqn:Hr; apply Hm in Hr; by simplify_eq. Qed.

Lemma evolves_zoom {T A} (RT : relation T) (get : St → T) put (m : M E T A) :
  (∀ st t, RT (get st) t → R st (put t st)) → evolves RT m → evolves R (zoom get put m).
Proof.
  intros HR Hm st o st' Heq. unfold zoom in Heq. destruct (m (get st)) as [r t] eqn:Hr.
  injection Heq as <- <-. apply HR. by eapply Hm.
Qed.

Lemma evolves_if {A} (b : bool) (m1 m2 : M E St A) :
  evolves R m1 → evolves R m2 → evolves R (if b then m1 else m2).
Proof. by destruct b. Qed.

End evolves_rules.

(** Split a program along the rules; what is left are its primitive calls. *)
Ltac evolve :=
  repeat first
    [ apply evolves_bind; [try apply _| |intros ?]
    | apply evolves_if
    | apply evolves_attempt
    | apply evolves_pure; [try apply _|done] ].

(** One step of symbolic execution with the rules. *)
Ltac wp_step :=
  lazymatch goal with
  | |- wp (bind _ _) _ _ => apply wp_bind
  | |- wp (ret _) _ _ => apply wp_ret
  | |- wp (fail _) _ _ => apply wp_fail
  | |- wp (gets _) _ _ => apply wp_gets
  | |- wp (modify _) _ _ => apply wp_modify
  | |- wp (of_result _) _ _ => apply wp_of_result
  | |- wp (attempt _) _ _ => apply wp_attempt
  | |- wp (map_err _ _) _ _ => apply wp_map_err
  | |- wp (zoom _ _ _) _ _ => apply wp_zoom
  end; cbv beta iota; cbn [fst snd].

Ltac twp_step :=
  lazymatch goal with
  | |- twp (bind _ _) _ _ => apply twp_bind
  | |- twp (attempt _) _ _ => apply twp_attempt
  | |- twp (map_err _ _) _ _ => apply twp_map_err
  | |- twp (zoom _ _ _) _ _ => apply twp_zoom
  | |- twp (ret _) _ _ => apply twp_ret
  | |- twp (fail _) _ _ => apply twp_fail
  | |- twp (gets _) _ _ => apply twp_gets
  | |- twp (modify _) _ _ => apply twp_modify
  end; cbv beta iota; cbn [fst snd].

(** ** Lists of bytes *)

Abbreviation bytes := (list byte).

Instance byte_eq_dec : EqDecision byte := Byte.byte_eq_dec.

Definition is_empty {A} (l : list A) : bool :=
  match l with [] => true | _ => false end.

Lemma is_empty_true {A} (l : list A) : is_empty l = true ↔ l = [].
Proof. by destruct l. Qed.

Lemma is_empty_false {A} (l : list A) : is_empty l = false ↔ l ≠ [].
Proof. by destruct l. Qed.

Definition is_some {A} (o : option A) : bool :=
  match o with Some _ => true | None => false end.

Lemma is_some_true {A} (o : option A) : is_some o = true ↔ ∃ a, o = Some a.
Proof. destruct o; split; [eauto|done|done|by intros [? ?]]. Qed.

Lemma is_some_false {A} (o : option A) : is_some o = false ↔ o = None.
Proof. by destruct o. Qed.

(** ** Automation *)

Create HintDb rust.
Create Rewrite HintDb rust.
Create Rewrite HintDb refl.
#[export] Hint Rewrite @take_app_length @drop_app_length @length_app @length_take
  @length_drop @app_nil_r @take_drop : rust.
#[export] Hint Rewrite @is_empty_true @is_empty_false @is_some_true @is_some_false
  @Bool.negb_true_iff @Bool.negb_false_iff
  @Bool.andb_true_iff @Bool.andb_false_iff @Bool.orb_true_iff @Bool.orb_false_iff
  @bool_decide_eq_true @bool_decide_eq_false : refl.

(** Unfold the plumbing of the monad. *)
Ltac munfold :=
  unfold bind, ret, fail, panic, no_return, attempt, map_err, gets, modify,
    of_result, zoom in *.

(** Split the innermost scrutinee of a [match] in a hypothesis or the goal and
    clean up; the workhorse for symbolic execution of the models. *)
Ltac mstep_in H :=
  match type of H with
  | context [match ?x with _ => _ end] =>
      lazymatch x with
      | context [match _ with _ => _ end] => fail
      | _ => let E := fresh "E" in destruct x eqn:E; simplify_eq/=
      end
  end.

Ltac mrun H := repeat (mstep_in H).

Ltac mgoal :=
  repeat match goal with
  | |- context [match ?x with _ => _ end] =>
      lazymatch x with
      | context [match _ with _ => _ end] => fail
      | _ => let E := fresh "E" in destruct x eqn:E; simplify_eq/=
      end
  end.
