(* ===== verification/Std.v ===== *)
(** * The parts of Rust's standard library the crate is written against

    [io::Error] and [io::ErrorKind], [Option::expect], slices, [VecDeque<u8>]
    with its [Read] and [Write] implementations, [usize] arithmetic and the
    build profile that decides about [debug_assert!] and overflow checks.

    A [VecDeque] is a ring buffer: its bytes lie in memory as a front and a
    back slice, and [Read for VecDeque<u8>] only reads the front one.  The
    model keeps the contents and where the front slice ends; where [extend]
    puts the boundary depends on the allocation and is left open: it is the
    answer of an arbitrary layout function, an instance of [Layout]. *)

From S2P Require Import Prelude.

(** ** Errors *)

(** [std::io::ErrorKind]. *)
Inductive ErrorKind : Set :=
| NotFound | PermissionDenied | ConnectionRefused | ConnectionReset
| HostUnreachable | NetworkUnreachable | ConnectionAborted | NotConnected
| AddrInUse | AddrNotAvailable | NetworkDown | BrokenPipe | AlreadyExists
| WouldBlock | NotADirectory | IsADirectory | DirectoryNotEmpty
| ReadOnlyFilesystem | StaleNetworkFileHandle | InvalidInput | InvalidData
| TimedOut | WriteZero | StorageFull | NotSeekable | QuotaExceeded
| FileTooLarge | ResourceBusy | ExecutableFileBusy | Deadlock
| CrossesDevices | TooManyLinks | InvalidFilename | ArgumentListTooLong
| Interrupted | Unsupported | UnexpectedEof | OutOfMemory | Other
| Uncategorized.

#[export] Instance ErrorKind_eq_dec : EqDecision ErrorKind.
Proof. solve_decision. Defined.

(** [std::io::Error]: a kind, the OS error code when it came from a system
    call, and the message of a custom error. *)
Record io_error : Set := mk_io_error {
  kind : ErrorKind;
  raw_os_error : option Z;
  message : option string
}.

#[export] Instance io_error_eq_dec : EqDecision io_error.
Proof. solve_decision. Defined.

(** [io::Error::from(kind)], [io::Error::new(kind, payload)] and
    [io::Error::from_raw_os_error(code)] (the decoding of the code into a kind
    is the platform's). *)
Definition error_from (k : ErrorKind) : io_error := mk_io_error k None None.
Definition error_new (k : ErrorKind) (msg : string) : io_error := mk_io_error k None (Some msg).
Definition os_error (k : ErrorKind) (code : Z) : io_error := mk_io_error k (Some code) None.

Definition io_result (A : Type) : Type := result io_error A.

Definition is_interrupted (e : io_error) : bool := bool_decide (kind e = Interrupted).

(** [Option::ok_or] and [Option::expect]. *)
Definition ok_or {E A} (o : option A) (e : E) : result E A :=
  match o with Some a => Ok a | None => Err e end.

Definition expect {E St A} (o : option A) (msg : string) : M E St A :=
  match o with Some a => ret a | None => panic msg end.

(** ** Build profile and machine integers *)

(** Which checks the build performs: [debug_assert!] and integer overflow. *)
Class BuildProfile := {
  debug_assertions : bool;
  overflow_checks : bool
}.

Definition debug_profile : BuildProfile := {| debug_assertions := true; overflow_checks := true |}.
Definition release_profile : BuildProfile := {| debug_assertions := false; overflow_checks := false |}.

Definition debug_assert `{BuildProfile} {E St} (b : bool) (msg : string) : M E St unit :=
  if debug_assertions && negb b then panic msg else ret tt.

(** [usize] on a 64-bit target. *)
Definition usize_modulus : Z := 2 ^ 64.

(** [a + b] on [usize]: a panic or a wrap-around on overflow. *)
Definition usize_add `{BuildProfile} {E St} (a b : Z) : M E St Z :=
  if (a + b <? usize_modulus)%Z then ret (a + b)%Z
  else if overflow_checks then panic "attempt to add with overflow"
  else ret ((a + b) `mod` usize_modulus)%Z.

Lemma usize_add_small `{BuildProfile} {E St} (a b : Z) (st : St) :
  (a + b < usize_modulus)%Z → usize_add (E:=E) a b st = (Ret (Ok (a + b)%Z), st).
Proof. intros Hlt. unfold usize_add. by rewrite (proj2 (Z.ltb_lt _ _) Hlt). Qed.

(** [&buf[..n]]: out of range it panics. *)
Definition slice_to {E St} (n : nat) (l : bytes) : M E St bytes :=
  if n <=? length l then ret (take n l) else panic "range end index out of range for slice".

(** ** [VecDeque<u8>] *)

Record VecDeque : Set := mk_deque {
  vd_content : bytes;   (* the bytes, front to back *)
  vd_front : nat        (* how many of them the front slice holds *)
}.

Module Deque.

(** Where the front slice ends after an [extend]: the allocator's choice. *)
Class Layout := layout : VecDeque → bytes → nat.

Definition new : VecDeque := mk_deque [] 0.

Definition len (d : VecDeque) : nat := length (vd_content d).

Definition as_slices (d : VecDeque) : bytes * bytes :=
  (take (vd_front d) (vd_content d), drop (vd_front d) (vd_content d)).

(** The front slice is never empty while the deque is not. *)
Definition wf (d : VecDeque) : Prop :=
  vd_front d ≤ len d ∧ (vd_content d ≠ [] → 0 < vd_front d).

(** [extend]: append, with the boundary clipped to a legal place. *)
Definition extend `{Layout} (d : VecDeque) (b : bytes) : VecDeque :=
  let c := vd_content d ++ b in
  mk_deque c (match c with [] => 0 | _ => Nat.max 1 (Nat.min (length c) (layout d b)) end).

Definition make_contiguous (d : VecDeque) : VecDeque := mk_deque (vd_content d) (len d).

(** [drain(..n)]: once the front slice is used up, the back slice, which
    starts at the beginning of the allocation, becomes the front slice. *)
Definition drain_to {E} (n : nat) : M E VecDeque bytes := λ d,
  if n <=? len d then
    (Ret (Ok (take n (vd_content d))),
     mk_deque (drop n (vd_content d)) (if n <? vd_front d then vd_front d - n else len d - n))
  else (Panic "range end index out of range for slice", d).

(** [Read for VecDeque<u8>]: fills the buffer from the front slice. *)
Definition read {E} (n : nat) : M E VecDeque bytes := λ d,
  let front := (as_slices d).1 in
  drain_to (Nat.min n (length front)) d.

(** [Write for VecDeque<u8>]: takes everything. *)
Definition write `{Layout} {E} (b : bytes) : M E VecDeque nat := λ d,
  (Ret (Ok (length b)), extend d b).

(** *** Lemmas *)

Lemma content_extend `{Layout} d b : vd_content (extend d b) = vd_content d ++ b.
Proof. reflexivity. Qed.

Lemma wf_empty_deque : wf new.
Proof. done. Qed.

Lemma wf_extend `{Layout} d b : wf (extend d b).
Proof.
  unfold wf, extend, len. simpl. destruct (vd_content d ++ b) eqn:E; simpl; [done|].
  split; [|lia]. destruct (layout d b); lia.
Qed.

Lemma wf_make_contiguous d : wf (make_contiguous d).
Proof. unfold wf, make_contiguous, len. simpl. destruct (vd_content d); simpl; [done|lia]. Qed.

(** [drain(..n)] within bounds never panics; beyond them it does. *)
Lemma drain_to_ok {E} n d : n ≤ len d →
  ∃ f, drain_to (E:=E) n d =
    (Ret (Ok (take n (vd_content d))), mk_deque (drop n (vd_content d)) f) ∧
    (wf d → wf (mk_deque (drop n (vd_content d)) f)).
Proof.
  intros Hn. unfold drain_to. rewrite (proj2 (Nat.leb_le _ _) Hn). eexists. split; [done|].
  unfold wf, len in *. simpl. rewrite length_drop. intros [Hf Hne].
  destruct (Nat.ltb_spec n (vd_front d)); split; try lia; intros Hd.
  destruct (decide (length (vd_content d) - n = 0)) as [H0|]; [|lia].
  contradict Hd. by apply drop_ge; lia.
Qed.

(** Reading hands over a prefix of the contents and keeps the rest. *)
Lemma deque_read_spec {E} n d : wf d →
  ∃ k d', read (E:=E) n d = (Ret (Ok (take k (vd_content d))), d') ∧
    vd_content d' = drop k (vd_content d) ∧ wf d' ∧
    k ≤ n ∧ k ≤ len d ∧ (0 < n → vd_content d ≠ [] → 0 < k).
Proof.
  intros Hwf. unfold read, as_slices. simpl.
  set (k := Nat.min n (length (take (vd_front d) (vd_content d)))).
  assert (Hk : k ≤ len d) by (subst k; rewrite length_take; unfold len; lia).
  destruct (drain_to_ok (E:=E) k d Hk) as (f & -> & Hwf').
  exists k. eexists. split_and!; [done|done|by apply Hwf'|subst k; lia|done|].
  intros Hn Hne. destruct Hwf as [Hf Hpos]. specialize (Hpos Hne).
  subst k. rewrite length_take. unfold len in *. lia.
Qed.

(** A contiguous deque is read up to the size of the buffer in one call. *)
Lemma read_contiguous {E} n d : vd_front d = len d →
  ∃ f, read (E:=E) n d =
    (Ret (Ok (take n (vd_content d))), mk_deque (drop n (vd_content d)) f).
Proof.
  intros Hc. unfold read, as_slices. simpl. rewrite Hc. unfold len.
  rewrite take_ge by lia.
  destruct (drain_to_ok (E:=E) (Nat.min n (length (vd_content d))) d) as (f & -> & _);
    [unfold len; lia|].
  exists f. destruct (Nat.min_spec n (length (vd_content d))) as [[_ ->]|[? ->]]; [done|].
  rewrite !take_ge, !drop_ge by lia. done.
Qed.

End Deque.
