(* ===== verification/Frame.v ===== *)
(** * [src/frame.rs]: frames and the [Marshaller]

    A [Marshaller] turns frames into bytes and back.  [push] serialises a frame
    into [write_queue], from which the [Read] implementation hands the bytes to
    the network; the [Write] implementation puts bytes from the network into
    [read_queue], from which [pop] parses frames.

    The trait [Frame] is implemented by the users of the crate: it is a class
    here, and its documented contract ([unmarshall] "must return [Ok(None)]"
    while the message is incomplete, and inverts [marshall]) is the class
    [FrameLaws].  The theorems show that two marshallers connected by a byte
    stream, cut into chunks in any way, refine a FIFO queue of frames. *)

From S2P Require Import Prelude Std.

(** ** The trait [Frame]

    [marshall f] is the sequence of bytes [f.marshall(writer)] writes and the
    [Result] it returns; [unmarshall bs] is the [Result] of reading a frame
    from a cursor at the start of [bs] and the cursor's final position. *)
Class Frame (F : Type) := {
  FError : Type;
  marshall : F → bytes * result FError nat;
  unmarshall : bytes → result FError (option F) * nat
}.
Arguments FError F {_}.

(** The bytes of a frame. *)
Definition encoding `{Frame F} (f : F) : bytes := (marshall f).1.

(** The contract of the trait. *)
Class FrameLaws (F : Type) `{Frame F} := {
  (** writing into memory cannot fail *)
  marshall_ok (f : F) : ∃ n, (marshall f).2 = Ok n;
  (** a complete message is read back, and the cursor stops behind it *)
  unmarshall_complete (f : F) (rest : bytes) :
    unmarshall (encoding f ++ rest) = (Ok (Some f), length (encoding f));
  (** "If the stream doesn't contain the whole message yet must return [Ok(None)]" *)
  unmarshall_incomplete (f : F) (p rest : bytes) :
    encoding f = p ++ rest → rest ≠ [] → ∃ pos, unmarshall p = (Ok None, pos);
  unmarshall_nothing : ∃ pos, unmarshall [] = (@Ok (FError F) _ (@None F), pos)
}.

(** ** The struct [Marshaller] *)

Record Marshaller : Set := mk_marshaller {
  read_queue : VecDeque;
  write_queue : VecDeque
}.

Module Marshal.
Section operations.
Context `{Deque.Layout}.

Definition on_read_queue {E A} (m : M E VecDeque A) : M E Marshaller A :=
  zoom read_queue (λ q s, mk_marshaller q (write_queue s)) m.

Definition on_write_queue {E A} (m : M E VecDeque A) : M E Marshaller A :=
  zoom write_queue (λ q s, mk_marshaller (read_queue s) q) m.

Definition new : Marshaller := mk_marshaller Deque.new Deque.new.

(** Allocating ahead does not change the contents. *)
Definition with_capacity (capacity : nat) : Marshaller := mk_marshaller Deque.new Deque.new.

Definition push {E} `{Frame F} (frame : F) : M E Marshaller unit :=
  let '(written, res) := marshall frame in
  run! on_write_queue (Deque.write written) in
  match res with
  | Ok _ => ret tt
  | Err _ => panic "in-memory write operation"
  end.

Definition pop `{Frame F} : M (FError F) Marshaller (option F) :=
  run! on_read_queue (modify Deque.make_contiguous) in
  let! slice := gets (λ s, vd_content (read_queue s)) in
  let '(res, pos) := unmarshall slice in
  let! frame := of_result res in
  run! (if is_some frame
        then on_read_queue (run! Deque.drain_to pos in ret tt)
        else ret tt) in
  ret frame.

Definition queue_len (self : Marshaller) : nat := Deque.len (write_queue self).

(** [drain] consumes the marshaller and gives it back on failure. *)
Definition drain (self : Marshaller) : result Marshaller bytes :=
  if is_empty (vd_content (write_queue self))
  then Ok (vd_content (read_queue self))
  else Err self.

(** [Read for Marshaller] and [Write for Marshaller]. *)
Definition read {E} (n : nat) : M E Marshaller bytes := on_write_queue (Deque.read n).
Definition write {E} (buf : bytes) : M E Marshaller nat := on_read_queue (Deque.write buf).
Definition flush {E} : M E Marshaller unit := ret tt.

(** ** The invariant *)

Definition wf (m : Marshaller) : Prop := Deque.wf (read_queue m) ∧ Deque.wf (write_queue m).

(** What is waiting to be parsed, and what is waiting to be sent. *)
Definition unread (m : Marshaller) : bytes := vd_content (read_queue m).
Definition unsent (m : Marshaller) : bytes := vd_content (write_queue m).

Lemma wf_new : wf new.
Proof. split; apply Deque.wf_empty_deque. Qed.

Lemma push_spec {E} `{FrameLaws F} (f : F) m : wf m →
  ∃ m', push (E:=E) f m = (Ret (Ok tt), m') ∧ wf m' ∧
    unsent m' = unsent m ++ encoding f ∧ read_queue m' = read_queue m.
Proof.
  intros [Hr Hw]. unfold push, encoding. destruct (marshall_ok f) as [n Hn].
  destruct (marshall f) as [b r]. simpl in *. subst r.
  eexists. split; [reflexivity|]. split_and!; [|done..].
  split; simpl; [done|apply Deque.wf_extend].
Qed.

Lemma read_spec {E} n m : wf m →
  ∃ k m', read (E:=E) n m = (Ret (Ok (take k (unsent m))), m') ∧ wf m' ∧
    unsent m' = drop k (unsent m) ∧ read_queue m' = read_queue m ∧
    k ≤ n ∧ k ≤ length (unsent m) ∧ (0 < n → unsent m ≠ [] → 0 < k).
Proof.
  intros [Hr Hw]. unfold read, on_write_queue, zoom.
  destruct (Deque.deque_read_spec (E:=E) n (write_queue m) Hw) as (k & d' & -> & Hc & Hwf & Hk).
  exists k. eexists. split; [reflexivity|]. destruct_and!. by split_and!.
Qed.

Lemma write_spec {E} b m : wf m →
  ∃ m', write (E:=E) b m = (Ret (Ok (length b)), m') ∧ wf m' ∧
    unread m' = unread m ++ b ∧ write_queue m' = write_queue m.
Proof.
  intros [Hr Hw]. eexists. split; [reflexivity|].
  split_and!; [|done..]. split; simpl; [apply Deque.wf_extend|done].
Qed.

(** [pop] on the three kinds of input. *)
Lemma pop_some `{Frame F} (f : F) pos m :
  unmarshall (unread m) = (Ok (Some f), pos) → pos ≤ length (unread m) →
  ∃ m', pop m = (Ret (Ok (Some f)), m') ∧ wf (mk_marshaller (read_queue m') Deque.new) ∧
    unread m' = drop pos (unread m) ∧ write_queue m' = write_queue m.
Proof.
  unfold unread. intros Hu Hpos. unfold pop, on_read_queue. munfold. simpl. rewrite Hu.
  destruct (Deque.drain_to_ok (E:=FError F) pos (Deque.make_contiguous (read_queue m)))
    as (fr & Hd & Hwf); [done|].
  simpl in *. rewrite Hd. eexists. split; [reflexivity|]. split_and!; [|done..].
  split; [apply Hwf, Deque.wf_make_contiguous|apply Deque.wf_empty_deque].
Qed.

Lemma pop_none `{Frame F} pos m :
  unmarshall (unread m) = (@Ok (FError F) _ (@None F), pos) →
  pop (F:=F) m = (Ret (Ok None),
    mk_marshaller (Deque.make_contiguous (read_queue m)) (write_queue m)).
Proof. unfold unread. intros Hu. unfold pop, on_read_queue. munfold. simpl. by rewrite Hu. Qed.

Lemma pop_err `{Frame F} e pos m :
  unmarshall (unread m) = (@Err (FError F) (option F) e, pos) →
  pop (F:=F) m = (Ret (Err e),
    mk_marshaller (Deque.make_contiguous (read_queue m)) (write_queue m)).
Proof. unfold unread. intros Hu. unfold pop, on_read_queue. munfold. simpl. by rewrite Hu. Qed.

End operations.
End Marshal.

(** ** Two marshallers joined by a byte stream *)

Module Pipe.

(** The sender's marshaller, the bytes in flight and the receiver's. *)
Record pipe : Set := mk_pipe {
  sender : Marshaller;
  wire : bytes;
  receiver : Marshaller
}.

Definition empty : pipe := mk_pipe Marshal.new [] Marshal.new.

Inductive action (F : Type) : Type :=
| APush (f : F)          (* the sending application pushes a frame *)
| APull (n : nat)        (* the network reads up to [n] bytes *)
| ADeliver (n : nat)     (* the network delivers the next [n] bytes *)
| APop.                  (* the receiving application pops *)
Arguments APush {F} f.
Arguments APull {F} n.
Arguments ADeliver {F} n.
Arguments APop {F}.

(** What an action returned. *)
Inductive reply (F E : Type) : Type :=
| RPush (o : outcome (result E unit))
| RPull (o : outcome (result E bytes))
| RDeliver (o : outcome (result E nat))
| RPop (o : outcome (result E (option F))).
Arguments RPush {F E} o.
Arguments RPull {F E} o.
Arguments RDeliver {F E} o.
Arguments RPop {F E} o.

Section run.
Context `{Deque.Layout} `{Frame F}.

Definition step (a : action F) (p : pipe) : reply F (FError F) * pipe :=
  match a with
  | APush f =>
      let '(o, m) := Marshal.push f (sender p) in (RPush o, mk_pipe m (wire p) (receiver p))
  | APull n =>
      let '(o, m) := Marshal.read n (sender p) in
      let pulled := match o with Ret (Ok b) => b | _ => [] end in
      (RPull o, mk_pipe m (wire p ++ pulled) (receiver p))
  | ADeliver n =>
      let '(o, m) := Marshal.write (take n (wire p)) (receiver p) in
      (RDeliver o, mk_pipe (sender p) (drop n (wire p)) m)
  | APop =>
      let '(o, m) := Marshal.pop (receiver p) in (RPop o, mk_pipe (sender p) (wire p) m)
  end.

Fixpoint run (acts : list (action F)) (p : pipe) : list (reply F (FError F)) * pipe :=
  match acts with
  | [] => ([], p)
  | a :: acts =>
      let '(r, p) := step a p in
      let '(rs, p) := run acts p in
      (r :: rs, p)
  end.

(** *** The abstract specification: a FIFO queue of frames

    [fifo q a r q'] says that a queue holding [q] may answer [r] to [a] and
    then hold [q'].  A [pop] may come too early, but it never fails, and what it
    returns is the oldest frame. *)
Inductive fifo : list F → action F → reply F (FError F) → list F → Prop :=
| fifo_push q f : fifo q (APush f) (RPush (Ret (Ok tt))) (q ++ [f])
| fifo_pull q n b : length b ≤ n → fifo q (APull n) (RPull (Ret (Ok b))) q
| fifo_deliver q n k : k ≤ n → fifo q (ADeliver n) (RDeliver (Ret (Ok k))) q
| fifo_pop q f : fifo (f :: q) APop (RPop (Ret (Ok (Some f)))) q
| fifo_early q : fifo q APop (RPop (Ret (Ok None))) q.

Inductive fifo_run : list F → list (action F) → list (reply F (FError F)) → list F → Prop :=
| fifo_run_nil q : fifo_run q [] [] q
| fifo_run_cons q a r q1 acts rs q2 :
    fifo q a r q1 → fifo_run q1 acts rs q2 → fifo_run q (a :: acts) (r :: rs) q2.

(** The frames pushed by a script, and the frames handed out by a run. *)
Fixpoint pushed (acts : list (action F)) : list F :=
  match acts with
  | [] => []
  | APush f :: acts => f :: pushed acts
  | _ :: acts => pushed acts
  end.

Fixpoint popped (rs : list (reply F (FError F))) : list F :=
  match rs with
  | [] => []
  | RPop (Ret (Ok (Some f))) :: rs => f :: popped rs
  | _ :: rs => popped rs
  end.

(** *** The refinement relation *)

Definition in_transit (p : pipe) : bytes :=
  Marshal.unread (receiver p) ++ wire p ++ Marshal.unsent (sender p).

Definition represents (p : pipe) (q : list F) : Prop :=
  Marshal.wf (sender p) ∧ Marshal.wf (receiver p) ∧
  in_transit p = concat (encoding <$> q).

Lemma represents_empty : represents empty [].
Proof. split_and!; [apply Marshal.wf_new..|done]. Qed.

Context `{!FrameLaws F}.

Lemma encoding_nonempty (f : F) : encoding f ≠ [].
Proof.
  intros He. pose proof (unmarshall_complete f []) as Hc. rewrite He in Hc.
  destruct (unmarshall_nothing (F:=F)) as [pos Hn]. simpl in Hc. congruence.
Qed.

(** What [pop] finds at the head of the stream: nothing, a part of the first
    frame, or all of it. *)
Lemma unmarshall_stream (q : list F) (u rest : bytes) :
  u ++ rest = concat (encoding <$> q) →
  (∃ pos, unmarshall u = (@Ok (FError F) _ (@None F), pos)) ∨
  (∃ f q' u', q = f :: q' ∧ u = encoding f ++ u' ∧
     unmarshall u = (@Ok (FError F) _ (Some f), length (encoding f)) ∧
     u' ++ rest = concat (encoding <$> q')).
Proof.
  intros Hu. destruct q as [|f q]; simpl in Hu.
  { apply app_nil in Hu as [-> _]. left. apply unmarshall_nothing. }
  destruct (decide (length (encoding f) ≤ length u)) as [Hle|Hlt].
  - right. assert (Hpre : u = encoding f ++ drop (length (encoding f)) u).
    { pose proof (f_equal (take (length (encoding f))) Hu) as Ht.
      rewrite take_app_le, take_app_length in Ht by lia.
      rewrite <-Ht at 1. by rewrite take_drop. }
    exists f, q, (drop (length (encoding f)) u). split_and!; [done|done| |].
    + rewrite Hpre. apply unmarshall_complete.
    + rewrite Hpre, <-app_assoc in Hu. by apply app_inv_head in Hu.
  - left. apply (unmarshall_incomplete f u (drop (length u) (encoding f))).
    + pose proof (f_equal (take (length u)) Hu) as Ht.
      rewrite take_app_length, take_app_le in Ht by lia.
      rewrite Ht at 1. by rewrite take_drop.
    + intros Hd. apply (f_equal length) in Hd. rewrite length_drop in Hd. simpl in Hd. lia.
Qed.

Lemma step_refines a p q r p' :
  represents p q → step a p = (r, p') → ∃ q', fifo q a r q' ∧ represents p' q'.
Proof.
  intros (Hs & Hr & Ht) Hstep. unfold in_transit in Ht. destruct a as [f|n|n|]; cbn [step] in Hstep.
  - destruct (Marshal.push_spec (E:=FError F) f _ Hs) as (m' & Hp & Hwf & Hun & Hrq).
    rewrite Hp in Hstep. simplify_eq/=. exists (q ++ [f]). split; [constructor|].
    split_and!; [done..|]. unfold in_transit. simpl.
    rewrite Hun, fmap_app, concat_app. simpl. rewrite app_nil_r, <-Ht. by rewrite !app_assoc.
  - destruct (Marshal.read_spec (E:=FError F) n _ Hs) as (k & m' & Hp & Hwf & Hun & Hrq & Hk & _).
    rewrite Hp in Hstep. simplify_eq/=. exists q. split.
    { constructor. rewrite length_take. lia. }
    split_and!; [done..|]. unfold in_transit. simpl. rewrite Hun, <-Ht.
    by rewrite <-!app_assoc, take_drop.
  - destruct (Marshal.write_spec (E:=FError F) (take n (wire p)) _ Hr) as (m' & Hp & Hwf & Hun & Hwq).
    rewrite Hp in Hstep. simplify_eq/=. exists q. split.
    { constructor. rewrite length_take. lia. }
    split_and!; [done..|]. unfold in_transit. simpl. rewrite Hun, <-Ht.
    by rewrite <-!app_assoc, (app_assoc (take n (wire p))), take_drop.
  - destruct (unmarshall_stream q _ _ Ht) as [[pos Hu]|(f & q' & u' & -> & Hpre & Hu & Hrest)].
    + rewrite (Marshal.pop_none _ _ Hu) in Hstep. simplify_eq/=. exists q.
      split; [constructor|]. split_and!; [done| |done].
      split; [apply Deque.wf_make_contiguous|apply Hr].
    + destruct (Marshal.pop_some _ _ _ Hu) as (m' & Hp & Hwf & Hun & Hwq).
      { rewrite Hpre, length_app. lia. }
      rewrite Hp in Hstep. simplify_eq/=. exists q'. split; [constructor|].
      split_and!; [done| |].
      * split; [apply Hwf|simpl; rewrite Hwq; apply Hr].
      * unfold in_transit. simpl. rewrite Hun, Hpre, drop_app_length. done.
Qed.

Lemma run_refines acts p q rs p' :
  represents p q → run acts p = (rs, p') → ∃ q', fifo_run q acts rs q' ∧ represents p' q'.
Proof.
  revert p q rs p'. induction acts as [|a acts IH]; simpl; intros p q rs p' Hrep Hrun.
  { simplify_eq. exists q. split; [constructor|done]. }
  destruct (step a p) as [r p1] eqn:Hs. destruct (run acts p1) as [rs1 p2] eqn:Hr.
  simplify_eq. destruct (step_refines _ _ _ _ _ Hrep Hs) as (q1 & Hf & Hrep1).
  destruct (IH _ _ _ _ Hrep1 Hr) as (q2 & Hf2 & Hrep2). eauto using fifo_run.
Qed.

Lemma fifo_run_conserves q acts rs q' :
  fifo_run q acts rs q' → q ++ pushed acts = popped rs ++ q'.
Proof.
  induction 1 as [q|q a r q1 acts rs q2 Hf _ IH]; simpl; [by rewrite app_nil_r|].
  destruct Hf; simpl; rewrite <-?IH; rewrite <-?app_assoc; done.
Qed.

(** C1: two [Marshaller]s joined by a byte stream that is cut into chunks in any
    way refine a FIFO queue of frames.  Every action of every script answers
    [Ok]: a [pop] yields the oldest frame not yet popped or, when its bytes have
    not all arrived, [None]; never an error, a panic or a garbled frame. *)
Theorem pipe_refines_fifo (acts : list (action F)) rs p' :
  run acts empty = (rs, p') →
  ∃ q, fifo_run [] acts rs q ∧ pushed acts = popped rs ++ q ∧
       in_transit p' = concat (encoding <$> q).
Proof.
  intros Hrun. destruct (run_refines _ _ _ _ _ represents_empty Hrun) as (q & Hf & _ & _ & Ht).
  exists q. split_and!; [done| |done]. apply (fifo_run_conserves _ _ _ _ Hf).
Qed.

(** Popping [n] times when everything has arrived. *)
Lemma pops_deliver_all q p :
  represents p q → wire p = [] → Marshal.unsent (sender p) = [] →
  ∃ p', run (replicate (length q) APop) p = ((λ f, RPop (Ret (Ok (Some f)))) <$> q, p').
Proof.
  revert p. induction q as [|f q IH]; simpl; intros p Hrep Hw Hs; [by eexists|].
  destruct (Hrep) as (Hsw & Hrw & Ht). unfold in_transit in Ht. rewrite Hw, Hs in Ht.
  simpl in Ht. rewrite app_nil_r in Ht.
  assert (Hu : unmarshall (Marshal.unread (receiver p)) =
    (@Ok (FError F) _ (Some f), length (encoding f))).
  { rewrite Ht. apply unmarshall_complete. }
  destruct (Marshal.pop_some _ _ _ Hu) as (m' & Hp & Hwf & Hun & Hwq).
  { rewrite Ht, length_app. lia. }
  rewrite Hp. destruct (IH (mk_pipe (sender p) (wire p) m')) as [p' Hrun]; [|done..|].
  - split_and!; [done|split; [apply Hwf|simpl; rewrite Hwq; apply Hrw]|].
    unfold in_transit. simpl. rewrite Hun, Ht, drop_app_length, Hw, Hs. by rewrite !app_nil_r.
  - simpl in Hrun. rewrite Hrun. by eexists.
Qed.

(** C13: once the stream has been carried over completely, popping returns every
    frame that was pushed and not yet popped, in order. *)
Theorem pipe_delivers (acts : list (action F)) rs p :
  run acts empty = (rs, p) →
  wire p = [] → Marshal.queue_len (sender p) = 0 →
  ∃ q p', pushed acts = popped rs ++ q ∧
    run (replicate (length q) APop) p = ((λ f, RPop (Ret (Ok (Some f)))) <$> q, p').
Proof.
  intros Hrun Hw Hlen. destruct (run_refines _ _ _ _ _ represents_empty Hrun) as (q & Hf & Hrep).
  apply fifo_run_conserves in Hf. simpl in Hf.
  destruct (pops_deliver_all q p Hrep Hw) as [p' Hp]; [by apply nil_length_inv in Hlen|eauto].
Qed.

(** *** [drain] at the two ends *)

(** The bytes the network has read from the sender. *)
Fixpoint pulled (rs : list (reply F (FError F))) : bytes :=
  match rs with
  | [] => []
  | RPull (Ret (Ok b)) :: rs => b ++ pulled rs
  | _ :: rs => pulled rs
  end.

Definition encodings (q : list F) : bytes := concat (encoding <$> q).

Lemma step_sender a p r p' :
  Marshal.wf (sender p) → Marshal.wf (receiver p) → step a p = (r, p') →
  read_queue (sender p') = read_queue (sender p) ∧ write_queue (receiver p') = write_queue (receiver p) ∧
  pulled [r] ++ Marshal.unsent (sender p') = Marshal.unsent (sender p) ++ encodings (pushed [a]).
Proof.
  intros Hs Hr Hstep. unfold encodings. destruct a as [f|n|n|]; cbn [step] in Hstep.
  - destruct (Marshal.push_spec (E:=FError F) f _ Hs) as (m' & Hp & Hwf & Hun & Hrq).
    rewrite Hp in Hstep. simplify_eq/=. by rewrite app_nil_r.
  - destruct (Marshal.read_spec (E:=FError F) n _ Hs) as (k & m' & Hp & _ & Hun & Hrq & _).
    rewrite Hp in Hstep. simplify_eq/=. by rewrite Hun, !app_nil_r, take_drop.
  - destruct (Marshal.write_spec (E:=FError F) (take n (wire p)) _ Hr) as (m' & Hp & _ & _ & Hwq).
    rewrite Hp in Hstep. simplify_eq/=. by rewrite app_nil_r.
  - destruct (Marshal.pop (receiver p)) as [o m'] eqn:Hp. simplify_eq/=. rewrite app_nil_r.
    assert (Hwq : write_queue m' = write_queue (receiver p)).
    { unfold Marshal.pop, Marshal.on_read_queue in Hp. munfold. simpl in Hp.
      destruct (unmarshall _) as [[[f|]|e] pos]; simpl in Hp; [|by simplify_eq..].
      destruct (Deque.drain_to _ _) as [[[]| |] d]; by simplify_eq. }
    split_and!; [done|done|by destruct o as [[[]|]| |]].
Qed.

Lemma run_sender acts p q rs p' :
  represents p q → run acts p = (rs, p') →
  read_queue (sender p') = read_queue (sender p) ∧ write_queue (receiver p') = write_queue (receiver p) ∧
  pulled rs ++ Marshal.unsent (sender p') = Marshal.unsent (sender p) ++ encodings (pushed acts).
Proof.
  revert p q rs p'. induction acts as [|a acts IH]; intros p q rs p' Hrep Hrun; cbn [run] in Hrun.
  { simplify_eq/=. by rewrite app_nil_r. }
  destruct (step a p) as [r p1] eqn:Hs. destruct (run acts p1) as [rs1 p2] eqn:Hr. simplify_eq.
  destruct (step_refines _ _ _ _ _ Hrep Hs) as (q1 & _ & Hrep1). destruct Hrep as (Hws & Hwr & _).
  destruct (step_sender _ _ _ _ Hws Hwr Hs) as (Hq & Hu & Hb).
  destruct (IH _ _ _ _ Hrep1 Hr) as (Hq2 & Hu2 & Hb2). split_and!; [congruence..|].
  assert (Hr1 : pulled (r :: rs1) = pulled [r] ++ pulled rs1).
  { by destruct r as [|[[|]| |]| |]; simpl; rewrite ?app_nil_r. }
  assert (Ha1 : encodings (pushed (a :: acts)) = encodings (pushed [a]) ++ encodings (pushed acts)).
  { unfold encodings. by destruct a; simpl; rewrite ?app_nil_r. }
  rewrite Hr1, Ha1, <-app_assoc, Hb2, !app_assoc. by rewrite Hb.
Qed.

(** C30: what [drain] finds at the two ends of a connection, after any script.
    At the sending end it succeeds exactly when the network has taken every byte
    of every frame that was pushed, and otherwise gives the marshaller back as
    it was.  At the receiving end it always succeeds, with exactly the bytes
    that have arrived beyond the frames already popped: popped frames, drained
    bytes and bytes on the way make up what the network has taken. *)
Theorem drain_accounts (acts : list (action F)) rs p :
  run acts empty = (rs, p) →
  (if decide (pulled rs = encodings (pushed acts)) then Marshal.drain (sender p) = Ok []
   else Marshal.drain (sender p) = Err (sender p)) ∧
  ∃ b, Marshal.drain (receiver p) = Ok b ∧ encodings (popped rs) ++ b ++ wire p = pulled rs.
Proof.
  intros Hrun. destruct (run_refines _ _ _ _ _ represents_empty Hrun) as (q & Hf & _ & _ & Ht).
  apply fifo_run_conserves in Hf. simpl in Hf.
  destruct (run_sender _ _ _ _ _ represents_empty Hrun) as (Hq & Hu & Hb). simpl in Hq, Hu, Hb.
  unfold Marshal.drain, in_transit in *. rewrite Hq, Hu. simpl. split.
  - unfold Marshal.unsent in Hb. destruct (vd_content (write_queue (sender p))) as [|x b] eqn:Hw; simpl.
    + rewrite app_nil_r in Hb. by rewrite decide_True.
    + rewrite decide_False; [done|]. intros Heq. rewrite <-Heq in Hb.
      apply (f_equal length) in Hb. rewrite length_app in Hb. simpl in Hb. lia.
  - exists (Marshal.unread (receiver p)). split; [done|].
    assert (Hall : encodings (popped rs) ++ Marshal.unread (receiver p) ++ wire p ++ Marshal.unsent (sender p) =
      pulled rs ++ Marshal.unsent (sender p)).
    { rewrite Hb, Hf, Ht. unfold encodings. by rewrite fmap_app, concat_app. }
    rewrite (app_assoc _ (wire p)), app_assoc in Hall. by apply app_inv_tail in Hall.
Qed.

End run.
End Pipe.

(** ** Failing [pop]s *)

Module MarshalSpecs.
Section specs.
Context `{Deque.Layout} `{Frame F}.

(** C29: a [pop] that does not return a frame, because the message is incomplete
    or because it is malformed, loses nothing: both queues keep their bytes. *)
Theorem pop_keeps_bytes (m m' : Marshaller) (r : result (FError F) (option F)) :
  Marshal.pop m = (Ret r, m') → r = Ok None ∨ is_ok r = false →
  Marshal.unread m' = Marshal.unread m ∧ Marshal.unsent m' = Marshal.unsent m.
Proof.
  intros Hpop Hr. destruct (unmarshall (Marshal.unread m)) as [[[f|]|e] pos] eqn:Hu.
  - destruct (decide (pos ≤ length (Marshal.unread m))) as [Hle|Hgt].
    + destruct (Marshal.pop_some _ _ _ Hu Hle) as (m1 & Hp & _). rewrite Hp in Hpop.
      simplify_eq. by destruct Hr.
    + unfold Marshal.pop, Marshal.on_read_queue, Marshal.unread in *. munfold. simpl in Hpop.
      rewrite Hu in Hpop. simpl in Hpop. unfold Deque.drain_to in Hpop. simpl in Hpop.
      unfold Deque.len in Hpop. simpl in Hpop.
      rewrite (proj2 (Nat.leb_gt _ _)) in Hpop by lia. done.
  - rewrite (Marshal.pop_none _ _ Hu) in Hpop. by simplify_eq.
  - rewrite (Marshal.pop_err _ _ _ Hu) in Hpop. by simplify_eq.
Qed.
End specs.
End MarshalSpecs.

(** ** A concrete frame type: tagged messages of one, two or three bytes *)

Module Toy.

Inductive msg : Set :=
| Ping
| Put (a : byte)
| Swap (a b : byte).

Definition msg_marshall (m : msg) : bytes * result unit nat :=
  match m with
  | Ping => ([x00], Ok 1)
  | Put a => ([x01; a], Ok 2)
  | Swap a b => ([x02; a; b], Ok 3)
  end.

Definition msg_unmarshall (bs : bytes) : result unit (option msg) * nat :=
  match bs with
  | [] => (Ok None, 0)
  | x00 :: _ => (Ok (Some Ping), 1)
  | x01 :: a :: _ => (Ok (Some (Put a)), 2)
  | x02 :: a :: b :: _ => (Ok (Some (Swap a b)), 3)
  | x01 :: _ | x02 :: _ => (Ok None, length bs)
  | _ => (Err tt, 1)
  end.

#[export] Instance msg_frame : Frame msg :=
  {| FError := unit; marshall := msg_marshall; unmarshall := msg_unmarshall |}.

#[export] Instance msg_frame_laws : FrameLaws msg.
Proof.
  constructor.
  - intros []; eexists; reflexivity.
  - intros [] rest; reflexivity.
  - intros [] p rest; destruct p as [|? [|? [|? [|? ?]]]]; unfold encoding; simpl;
      intros Heq Hne; simplify_eq; try done; eexists; reflexivity.
  - eexists; reflexivity.
Qed.

(** A ring buffer whose front slice is as short as it can be. *)
Definition one_byte_front : Deque.Layout := λ _ _, 1.

Definition script : list (Pipe.action msg) :=
  [Pipe.APush (Put x07); Pipe.APush (Swap x08 x09); Pipe.APull 9; Pipe.APull 2;
   Pipe.ADeliver 1; Pipe.APop; Pipe.ADeliver 2; Pipe.APop; Pipe.APop; Pipe.APull 9;
   Pipe.ADeliver 9].

Definition replies : list (Pipe.reply msg (FError msg)) :=
  [Pipe.RPush (Ret (Ok tt)); Pipe.RPush (Ret (Ok tt)); Pipe.RPull (Ret (Ok [x01]));
   Pipe.RPull (Ret (Ok [x07; x02]));
   Pipe.RDeliver (Ret (Ok 1)); Pipe.RPop (Ret (Ok None)); Pipe.RDeliver (Ret (Ok 2));
   Pipe.RPop (Ret (Ok (Some (Put x07)))); Pipe.RPop (Ret (Ok None));
   Pipe.RPull (Ret (Ok [x08; x09])); Pipe.RDeliver (Ret (Ok 2))].

Lemma pipe_refines_fifo_witness :
  ∃ q, Pipe.fifo_run [] script replies q ∧
       Pipe.pushed script = Pipe.popped replies ++ q ∧
       Pipe.in_transit (Pipe.run (H:=one_byte_front) script Pipe.empty).2 =
         concat (encoding <$> q).
Proof.
  apply (Pipe.pipe_refines_fifo (H:=one_byte_front) script replies). vm_compute. reflexivity.
Defined.

Lemma pipe_delivers_witness :
  ∃ q p', Pipe.pushed script = Pipe.popped replies ++ q ∧
    Pipe.run (H:=one_byte_front) (replicate (length q) Pipe.APop)
      (Pipe.run (H:=one_byte_front) script Pipe.empty).2 =
      ((λ f, Pipe.RPop (Ret (Ok (Some f)))) <$> q, p').
Proof.
  apply (Pipe.pipe_delivers (H:=one_byte_front)); vm_compute; reflexivity.
Defined.

Definition after_script : Pipe.pipe := (Pipe.run (H:=one_byte_front) script Pipe.empty).2.

Lemma drain_accounts_witness :
  (if decide (Pipe.pulled replies = Pipe.encodings (Pipe.pushed script))
   then Marshal.drain (Pipe.sender after_script) = Ok []
   else Marshal.drain (Pipe.sender after_script) = Err (Pipe.sender after_script)) ∧
  ∃ b, Marshal.drain (Pipe.receiver after_script) = Ok b ∧
    Pipe.encodings (Pipe.popped replies) ++ b ++ Pipe.wire after_script = Pipe.pulled replies.
Proof. apply (Pipe.drain_accounts (H:=one_byte_front)). vm_compute. reflexivity. Defined.

Definition half_arrived : Marshaller :=
  mk_marshaller (mk_deque [x02; x05] 1) (mk_deque [x00] 1).

Lemma pop_keeps_bytes_witness :
  Marshal.unread (Marshal.pop (F:=msg) half_arrived).2 = [x02; x05] ∧
  Marshal.unsent (Marshal.pop (F:=msg) half_arrived).2 = [x00].
Proof.
  apply (MarshalSpecs.pop_keeps_bytes (F:=msg) half_arrived _ (Ok None));
    [vm_compute; reflexivity|left; reflexivity].
Defined.

End Toy.
