(* ===== verification/Kernel.v ===== *)
(** * The operating system under [std::net], and the I/O traits

    [World] is the state of the kernel the process sees: the file-descriptor
    table, the open sockets the descriptors refer to (two descriptors made by
    [try_clone] refer to one socket), and what the network is going to do.
    The network's behaviour is a script: the results of the coming [recv] and
    [send] calls of each socket, of the coming [connect] and [accept] calls, and
    the failures of the coming configuration calls.  A theorem that holds for
    every [World] holds for every behaviour of the network.

    On top of it: [std::net::TcpStream], the traits [io::Read] and [io::Write]
    as the class [Stream], and their provided methods [read_exact] and
    [write_all], whose loops retry on [Interrupted] and take fuel. *)

From S2P Require Import Prelude Std.

(** ** Addresses and times *)

Inductive IpAddr : Set := V4 (bits : Z) | V6 (bits : Z).
Record SocketAddr : Set := mk_addr { ip : IpAddr; port : Z }.

#[export] Instance IpAddr_eq_dec : EqDecision IpAddr.
Proof. solve_decision. Defined.
#[export] Instance SocketAddr_eq_dec : EqDecision SocketAddr.
Proof. solve_decision. Defined.

(** [std::time::Duration], in milliseconds. *)
Definition Duration : Set := Z.
Definition from_secs (s : Z) : Duration := (s * 1000)%Z.

Definition RawFd : Set := nat.

(** ** Sockets *)

Inductive rx_event : Set :=
| RxData (b : bytes)     (* bytes waiting in the receive queue *)
| RxEof                  (* the peer has shut down its side *)
| RxFail (e : io_error)  (* [recv] fails once *)
| RxReset.               (* the peer resets the connection *)

Inductive tx_event : Set :=
| TxAccept (n : nat)     (* the send buffer has room for [n] bytes *)
| TxFail (e : io_error). (* [send] fails once *)

Inductive link : Set :=
| Unconnected
| Connecting
| Connected (peer : SocketAddr)
| Disconnected.

(** A connection the network is about to hand out. *)
Record incoming : Set := mk_incoming {
  in_peer : SocketAddr;
  in_local : SocketAddr;
  in_rx : list rx_event;
  in_tx : list tx_event
}.

Record socket : Type := mk_socket {
  sk_link : link;
  sk_local : option SocketAddr;
  sk_rx : list rx_event;
  sk_tx : list tx_event;
  sk_sent : bytes;                            (* everything [send] has accepted *)
  sk_received : bytes;                        (* everything [recv] has handed out *)
  sk_shut_wr : bool;                          (* [shutdown(Write)] was called *)
  sk_nonblocking : bool;
  sk_read_timeout : option Duration;
  sk_write_timeout : option Duration;
  sk_nodelay : bool;
  sk_ttl : Z;
  sk_error : option io_error;
  sk_backlog : option Z;                      (* [Some _] on a listening socket *)
  sk_pending : list (io_result incoming)      (* results of the coming [accept]s *)
}.

Definition fresh_socket : socket :=
  mk_socket Unconnected None [] [] [] [] false false None None false 64 None None [].

Record World : Type := mk_world {
  fds : gmap RawFd nat;                       (* descriptor to socket number *)
  socks : gmap nat socket;
  dials : list (io_result incoming);          (* results of the coming [connect]s *)
  faults : list (option io_error)             (* results of the coming configuration calls *)
}.

Definition set_fds (f : gmap RawFd nat) (w : World) : World :=
  mk_world f (socks w) (dials w) (faults w).
Definition set_socks (s : gmap nat socket) (w : World) : World :=
  mk_world (fds w) s (dials w) (faults w).
Definition set_faults (f : list (option io_error)) (w : World) : World :=
  mk_world (fds w) (socks w) (dials w) f.

Definition set_link (x : link) (s : socket) : socket :=
  mk_socket x (sk_local s) (sk_rx s) (sk_tx s) (sk_sent s) (sk_received s) (sk_shut_wr s) (sk_nonblocking s)
    (sk_read_timeout s) (sk_write_timeout s) (sk_nodelay s) (sk_ttl s) (sk_error s) (sk_backlog s) (sk_pending s).
Definition set_local (x : option SocketAddr) (s : socket) : socket :=
  mk_socket (sk_link s) x (sk_rx s) (sk_tx s) (sk_sent s) (sk_received s) (sk_shut_wr s) (sk_nonblocking s)
    (sk_read_timeout s) (sk_write_timeout s) (sk_nodelay s) (sk_ttl s) (sk_error s) (sk_backlog s) (sk_pending s).
Definition set_rx (x : list rx_event) (s : socket) : socket :=
  mk_socket (sk_link s) (sk_local s) x (sk_tx s) (sk_sent s) (sk_received s) (sk_shut_wr s) (sk_nonblocking s)
    (sk_read_timeout s) (sk_write_timeout s) (sk_nodelay s) (sk_ttl s) (sk_error s) (sk_backlog s) (sk_pending s).
Definition set_tx (x : list tx_event) (s : socket) : socket :=
  mk_socket (sk_link s) (sk_local s) (sk_rx s) x (sk_sent s) (sk_received s) (sk_shut_wr s) (sk_nonblocking s)
    (sk_read_timeout s) (sk_write_timeout s) (sk_nodelay s) (sk_ttl s) (sk_error s) (sk_backlog s) (sk_pending s).
Definition set_sent (x : bytes) (s : socket) : socket :=
  mk_socket (sk_link s) (sk_local s) (sk_rx s) (sk_tx s) x (sk_received s) (sk_shut_wr s) (sk_nonblocking s)
    (sk_read_timeout s) (sk_write_timeout s) (sk_nodelay s) (sk_ttl s) (sk_error s) (sk_backlog s) (sk_pending s).
Definition set_received (x : bytes) (s : socket) : socket :=
  mk_socket (sk_link s) (sk_local s) (sk_rx s) (sk_tx s) (sk_sent s) x (sk_shut_wr s) (sk_nonblocking s)
    (sk_read_timeout s) (sk_write_timeout s) (sk_nodelay s) (sk_ttl s) (sk_error s) (sk_backlog s) (sk_pending s).
Definition set_shut_wr (x : bool) (s : socket) : socket :=
  mk_socket (sk_link s) (sk_local s) (sk_rx s) (sk_tx s) (sk_sent s) (sk_received s) x (sk_nonblocking s)
    (sk_read_timeout s) (sk_write_timeout s) (sk_nodelay s) (sk_ttl s) (sk_error s) (sk_backlog s) (sk_pending s).
Definition set_sk_nonblocking (x : bool) (s : socket) : socket :=
  mk_socket (sk_link s) (sk_local s) (sk_rx s) (sk_tx s) (sk_sent s) (sk_received s) (sk_shut_wr s) x
    (sk_read_timeout s) (sk_write_timeout s) (sk_nodelay s) (sk_ttl s) (sk_error s) (sk_backlog s) (sk_pending s).
Definition set_sk_read_timeout (x : option Duration) (s : socket) : socket :=
  mk_socket (sk_link s) (sk_local s) (sk_rx s) (sk_tx s) (sk_sent s) (sk_received s) (sk_shut_wr s) (sk_nonblocking s)
    x (sk_write_timeout s) (sk_nodelay s) (sk_ttl s) (sk_error s) (sk_backlog s) (sk_pending s).
Definition set_sk_write_timeout (x : option Duration) (s : socket) : socket :=
  mk_socket (sk_link s) (sk_local s) (sk_rx s) (sk_tx s) (sk_sent s) (sk_received s) (sk_shut_wr s) (sk_nonblocking s)
    (sk_read_timeout s) x (sk_nodelay s) (sk_ttl s) (sk_error s) (sk_backlog s) (sk_pending s).
Definition set_sk_nodelay (x : bool) (s : socket) : socket :=
  mk_socket (sk_link s) (sk_local s) (sk_rx s) (sk_tx s) (sk_sent s) (sk_received s) (sk_shut_wr s) (sk_nonblocking s)
    (sk_read_timeout s) (sk_write_timeout s) x (sk_ttl s) (sk_error s) (sk_backlog s) (sk_pending s).
Definition set_sk_ttl (x : Z) (s : socket) : socket :=
  mk_socket (sk_link s) (sk_local s) (sk_rx s) (sk_tx s) (sk_sent s) (sk_received s) (sk_shut_wr s) (sk_nonblocking s)
    (sk_read_timeout s) (sk_write_timeout s) (sk_nodelay s) x (sk_error s) (sk_backlog s) (sk_pending s).
Definition set_sk_error (x : option io_error) (s : socket) : socket :=
  mk_socket (sk_link s) (sk_local s) (sk_rx s) (sk_tx s) (sk_sent s) (sk_received s) (sk_shut_wr s) (sk_nonblocking s)
    (sk_read_timeout s) (sk_write_timeout s) (sk_nodelay s) (sk_ttl s) x (sk_backlog s) (sk_pending s).
Definition set_backlog (x : option Z) (s : socket) : socket :=
  mk_socket (sk_link s) (sk_local s) (sk_rx s) (sk_tx s) (sk_sent s) (sk_received s) (sk_shut_wr s) (sk_nonblocking s)
    (sk_read_timeout s) (sk_write_timeout s) (sk_nodelay s) (sk_ttl s) (sk_error s) x (sk_pending s).
Definition set_pending (x : list (io_result incoming)) (s : socket) : socket :=
  mk_socket (sk_link s) (sk_local s) (sk_rx s) (sk_tx s) (sk_sent s) (sk_received s) (sk_shut_wr s) (sk_nonblocking s)
    (sk_read_timeout s) (sk_write_timeout s) (sk_nodelay s) (sk_ttl s) (sk_error s) (sk_backlog s) x.

(** ** System calls *)

(** Error codes, with their values on Linux. *)
Definition EBADF : Z := 9.
Definition EINVAL : Z := 22.
Definition EALREADY : Z := 114.
Definition EINPROGRESS : Z := 115.
Definition bad_fd : io_error := os_error Uncategorized EBADF.

(** The socket a descriptor refers to. *)
Definition find (fd : RawFd) (w : World) : option (nat * socket) :=
  match fds w !! fd with
  | Some i => match socks w !! i with Some s => Some (i, s) | None => None end
  | None => None
  end.

(** A call that reads or changes one socket. *)
Definition on_socket {A} (fd : RawFd) (f : socket → outcome (io_result A) * socket) :
    M io_error World A := λ w,
  match find fd w with
  | Some (i, s) => let '(r, s') := f s in (r, set_socks (<[i := s']> (socks w)) w)
  | None => (Ret (Err bad_fd), w)
  end.

(** A configuration call ([setsockopt], [fcntl], [bind], ...): it fails when
    the script says so. *)
Definition syscall : M io_error World unit := λ w,
  match faults w with
  | Some e :: fs => (Ret (Err e), set_faults fs w)
  | None :: fs => (Ret (Ok tt), set_faults fs w)
  | [] => (Ret (Ok tt), w)
  end.

Definition configure (fd : RawFd) (f : socket → socket) : M io_error World unit :=
  run! syscall in on_socket fd (λ s, (Ret (Ok tt), f s)).

Definition inspect {A} (fd : RawFd) (f : socket → A) : M io_error World A :=
  run! syscall in on_socket fd (λ s, (Ret (Ok (f s)), s)).

(** A call that has to wait fails in non-blocking mode or when its timeout
    expires, and otherwise does not return. *)
Definition wait {A} (nonblocking : bool) (timeout : option Duration) : outcome (io_result A) :=
  if nonblocking || is_some timeout then Ret (Err (error_from WouldBlock)) else NoReturn.

Definition recv_socket (n : nat) (s : socket) : outcome (io_result bytes) * socket :=
  match sk_link s with
  | Unconnected => (Ret (Err (error_from NotConnected)), s)
  | Connecting => (wait (sk_nonblocking s) (sk_read_timeout s), s)
  | Disconnected => (Ret (Ok []), s)
  | Connected _ =>
      match sk_rx s with
      | RxData b :: rest =>
          (Ret (Ok (take n b)),
           set_received (sk_received s ++ take n b)
             (set_rx (if is_empty (drop n b) then rest else RxData (drop n b) :: rest) s))
      | RxEof :: _ => (Ret (Ok []), s)
      | RxFail e :: rest => (Ret (Err e), set_rx rest s)
      | RxReset :: rest => (Ret (Err (error_from ConnectionReset)), set_link Disconnected (set_rx rest s))
      | [] => (wait (sk_nonblocking s) (sk_read_timeout s), s)
      end
  end.

Definition send_socket (b : bytes) (s : socket) : outcome (io_result nat) * socket :=
  match sk_link s with
  | Unconnected | Disconnected => (Ret (Err (error_from BrokenPipe)), s)
  | Connecting => (wait (sk_nonblocking s) (sk_write_timeout s), s)
  | Connected _ =>
      if sk_shut_wr s then (Ret (Err (error_from BrokenPipe)), s) else
      match sk_tx s with
      | TxAccept k :: rest =>
          let n := Nat.min k (length b) in
          (Ret (Ok n), set_sent (sk_sent s ++ take n b) (set_tx rest s))
      | TxFail e :: rest => (Ret (Err e), set_tx rest s)
      | [] => (Ret (Ok (length b)), set_sent (sk_sent s ++ b) s)
      end
  end.

Definition recv (fd : RawFd) (n : nat) : M io_error World bytes := on_socket fd (recv_socket n).
Definition send (fd : RawFd) (b : bytes) : M io_error World nat := on_socket fd (send_socket b).

(** [recv] with [MSG_PEEK]: nothing is consumed, except the errors. *)
Definition peek_fd (fd : RawFd) (n : nat) : M io_error World bytes :=
  on_socket fd (λ s, match recv_socket n s with
                     | (Ret (Ok b), _) => (Ret (Ok b), s)
                     | failed => failed
                     end).

Definition peer_of (s : socket) : option SocketAddr :=
  match sk_link s with Connected a => Some a | _ => None end.

(** [getpeername] does not change anything. *)
Definition getpeername (fd : RawFd) (w : World) : io_result SocketAddr :=
  match find fd w with
  | Some (_, s) => ok_or (peer_of s) (error_from NotConnected)
  | None => Err bad_fd
  end.

(** Descriptors: [dup], [close], and a descriptor for a new socket. *)
Definition dup (fd : RawFd) : M io_error World RawFd :=
  run! syscall in λ w,
  match fds w !! fd with
  | Some i => let fd' := fresh (dom (fds w)) in (Ret (Ok fd'), set_fds (<[fd' := i]> (fds w)) w)
  | None => (Ret (Err bad_fd), w)
  end.

Definition close {E} (fd : RawFd) : M E World unit := modify (λ w, set_fds (delete fd (fds w)) w).

Definition open_socket (s : socket) : M io_error World RawFd := λ w,
  let i := fresh (dom (socks w)) in
  let fd := fresh (dom (fds w)) in
  (Ret (Ok fd), set_fds (<[fd := i]> (fds w)) (set_socks (<[i := s]> (socks w)) w)).

Definition socket_of (c : incoming) : socket :=
  set_tx (in_tx c) (set_rx (in_rx c) (set_local (Some (in_local c))
    (set_link (Connected (in_peer c)) fresh_socket))).

(** [accept]: only a socket that [listen] was called on accepts. *)
Definition accept_fd (fd : RawFd) : M io_error World (RawFd * SocketAddr) := λ w,
  match find fd w with
  | None => (Ret (Err bad_fd), w)
  | Some (i, s) =>
    match sk_backlog s, sk_pending s with
    | None, _ => (Ret (Err (os_error InvalidInput EINVAL)), w)
    | Some _, Ok c :: rest =>
        bind (open_socket (socket_of c)) (λ fd', ret (fd', in_peer c))
          (set_socks (<[i := set_pending rest s]> (socks w)) w)
    | Some _, Err e :: rest => (Ret (Err e), set_socks (<[i := set_pending rest s]> (socks w)) w)
    | Some _, [] => (wait (sk_nonblocking s) None, w)
    end
  end.

(** A [connect] that goes on in the background. *)
Definition in_progress (e : io_error) : bool := bool_decide (raw_os_error e = Some EINPROGRESS).

(** [connect] on an open socket. *)
Definition connect_fd (fd : RawFd) : M io_error World unit := λ w,
  match dials w with
  | Ok c :: ds =>
      on_socket fd (λ s, (Ret (Ok tt), set_tx (in_tx c) (set_rx (in_rx c)
        (set_local (Some (in_local c)) (set_link (Connected (in_peer c)) s)))))
        (mk_world (fds w) (socks w) ds (faults w))
  | Err e :: ds =>
      on_socket fd (λ s, (Ret (Err e), if in_progress e then set_link Connecting s else s))
        (mk_world (fds w) (socks w) ds (faults w))
  | [] => (Ret (Err (error_from ConnectionRefused)), w)
  end.

(** ** The traits [io::Read] and [io::Write] *)

(** [read n] is [read(&mut buf)] with a buffer of [n] bytes: it returns the
    bytes it put at the start of the buffer, so [Ok(len)] is [Ok b] with
    [length b = len].  [write b] returns how many bytes of [b] it took. *)
Class Stream (S : Type) := {
  read : nat → M io_error (S * World) bytes;
  write : bytes → M io_error (S * World) nat;
  flush : M io_error (S * World) unit
}.

(** How often a retry loop of the standard library is unrolled. *)
Class Fuel := loop_fuel : nat.

Section provided_methods.
Context {S : Type} `{Stream S}.

(** [Read::read_exact] into a buffer with [n] bytes left to fill. *)
Fixpoint read_exact_loop (fuel n : nat) (filled : bytes) : M io_error (S * World) bytes :=
  match n with
  | 0 => ret filled
  | _ =>
    match fuel with
    | 0 => no_return
    | Datatypes.S fuel =>
      let! r := attempt (read n) in
      match r with
      | Ok [] => fail (error_new UnexpectedEof "failed to fill whole buffer")
      | Ok b => if length b <=? n then read_exact_loop fuel (n - length b) (filled ++ b)
                else panic "range start index out of range for slice"
      | Err e => if is_interrupted e then read_exact_loop fuel n filled else fail e
      end
    end
  end.

(** [Write::write_all]. *)
Fixpoint write_all_loop (fuel : nat) (b : bytes) : M io_error (S * World) unit :=
  match b with
  | [] => ret tt
  | _ =>
    match fuel with
    | 0 => no_return
    | Datatypes.S fuel =>
      let! r := attempt (write b) in
      match r with
      | Ok 0 => fail (error_new WriteZero "failed to write whole buffer")
      | Ok k => if k <=? length b then write_all_loop fuel (drop k b)
                else panic "range start index out of range for slice"
      | Err e => if is_interrupted e then write_all_loop fuel b else fail e
      end
    end
  end.

Definition read_exact `{Fuel} (n : nat) : M io_error (S * World) bytes :=
  read_exact_loop loop_fuel n [].
Definition write_all `{Fuel} (b : bytes) : M io_error (S * World) unit :=
  write_all_loop loop_fuel b.

End provided_methods.

(** Code that only touches the kernel, as a method of an object. *)
Definition on_world {E S A} (m : S → M E World A) : M E (S * World) A :=
  λ st, let '(r, w) := m st.1 st.2 in (r, (st.1, w)).

(** ** [std::net::TcpStream] *)

Record TcpStream : Set := mk_tcp { fd : RawFd }.

#[export] Instance TcpStream_stream : Stream TcpStream := {|
  read n := on_world (λ s, recv (fd s) n);
  write b := on_world (λ s, send (fd s) b);
  flush := ret tt
|}.

(** ** Lemmas on the system calls *)

(** Everything the kernel has accepted for sending on a descriptor, and
    everything it has handed out there. *)
Definition sent (fd : RawFd) (w : World) : bytes :=
  match find fd w with Some (_, s) => sk_sent s | None => [] end.
Definition received (fd : RawFd) (w : World) : bytes :=
  match find fd w with Some (_, s) => sk_received s | None => [] end.

Lemma find_update fd i s s' w :
  find fd w = Some (i, s) → find fd (set_socks (<[i := s']> (socks w)) w) = Some (i, s').
Proof.
  unfold find, set_socks. simpl. destruct (fds w !! fd) as [j|]; [|done].
  destruct (socks w !! j) as [t|] eqn:E; [|done]. intros [= -> ->].
  by rewrite lookup_insert_eq.
Qed.

Lemma on_socket_inv {A} fd f w (r : outcome (io_result A)) w' :
  on_socket fd f w = (r, w') →
  (find fd w = None ∧ r = Ret (Err bad_fd) ∧ w' = w) ∨
  (∃ i s s', find fd w = Some (i, s) ∧ f s = (r, s') ∧ find fd w' = Some (i, s') ∧
     w' = set_socks (<[i := s']> (socks w)) w).
Proof.
  unfold on_socket. destruct (find fd w) as [[i s]|] eqn:Hf; [|naive_solver].
  destruct (f s) as [r1 s'] eqn:Hfs. intros [= <- <-]. right.
  exists i, s, s'. split_and!; [done..| |done]. by eapply find_update.
Qed.

Lemma wait_not_ok {A} nb d (a : A) : wait nb d ≠ Ret (Ok a).
Proof. unfold wait. by destruct (_ || _). Qed.

Lemma recv_socket_ok n s b s' :
  recv_socket n s = (Ret (Ok b), s') →
  length b ≤ n ∧ sk_link s' = sk_link s ∧ sk_sent s' = sk_sent s ∧
  (peer_of s = None → b = []).
Proof.
  unfold recv_socket, peer_of, wait. intros Hr.
  repeat (case_match; simplify_eq/=); split_and!; try done; rewrite ?length_take; lia.
Qed.

Lemma send_socket_ok b s k s' :
  send_socket b s = (Ret (Ok k), s') →
  k ≤ length b ∧ sk_link s' = sk_link s ∧ sk_sent s' = sk_sent s ++ take k b ∧
  is_some (peer_of s) = true.
Proof.
  unfold send_socket, peer_of, wait. intros Hr.
  repeat (case_match; simplify_eq/=); split_and!; try done; try lia.
  by rewrite firstn_all.
Qed.

Lemma send_socket_err b s e s' :
  send_socket b s = (Ret (Err e), s') → sk_sent s' = sk_sent s.
Proof. unfold send_socket, wait. intros Hr. by repeat (case_match; simplify_eq/=). Qed.

Lemma getpeername_find fd w i s :
  find fd w = Some (i, s) → getpeername fd w = ok_or (peer_of s) (error_from NotConnected).
Proof. unfold getpeername. by intros ->. Qed.

Lemma recv_ok fd n w b w' :
  recv fd n w = (Ret (Ok b), w') →
  length b ≤ n ∧ getpeername fd w' = getpeername fd w ∧ sent fd w' = sent fd w ∧
  (is_ok (getpeername fd w) = false → b = []).
Proof.
  intros Hr. apply on_socket_inv in Hr as [(_ & ? & _)|(i & s & s' & Hf & Hs & Hf' & _)]; [done|].
  apply recv_socket_ok in Hs as (Hl & Hlink & Hsent & Hp).
  rewrite (getpeername_find _ _ _ _ Hf), (getpeername_find _ _ _ _ Hf').
  unfold sent. rewrite Hf, Hf', Hsent. unfold peer_of in *. rewrite Hlink.
  split_and!; [done..|]. destruct (sk_link s); simpl in *; auto; done.
Qed.

Lemma send_ok fd b w k w' :
  send fd b w = (Ret (Ok k), w') →
  k ≤ length b ∧ getpeername fd w' = getpeername fd w ∧
  sent fd w' = sent fd w ++ take k b ∧ is_ok (getpeername fd w) = true.
Proof.
  intros Hr. apply on_socket_inv in Hr as [(_ & ? & _)|(i & s & s' & Hf & Hs & Hf' & _)]; [done|].
  apply send_socket_ok in Hs as (Hl & Hlink & Hsent & Hp).
  rewrite (getpeername_find _ _ _ _ Hf), (getpeername_find _ _ _ _ Hf').
  unfold sent. rewrite Hf, Hf', Hsent. unfold peer_of in *. rewrite Hlink.
  split_and!; [done..|]. by destruct (sk_link s).
Qed.

Lemma send_err fd b w e w' : send fd b w = (Ret (Err e), w') → sent fd w' = sent fd w.
Proof.
  intros Hr. apply on_socket_inv in Hr as [(_ & _ & ->)|(i & s & s' & Hf & Hs & Hf' & _)]; [done|].
  unfold sent. rewrite Hf, Hf'. by apply send_socket_err in Hs.
Qed.

Lemma on_world_inv {E S A} (m : S → M E World A) s w r s' w' :
  on_world m (s, w) = (r, (s', w')) → s' = s ∧ m s w = (r, w').
Proof. unfold on_world. simpl. destruct (m s w). naive_solver. Qed.

(** ** The methods of [std::net::TcpStream] *)

Inductive Shutdown : Set := ShutRead | ShutWrite | ShutBoth.

Definition shutdown_socket (how : Shutdown) (s : socket) : outcome (io_result unit) * socket :=
  match sk_link s with
  | Connected _ =>
      (Ret (Ok tt), match how with
                    | ShutRead => set_rx [RxEof] s
                    | ShutWrite => set_shut_wr true s
                    | ShutBoth => set_rx [RxEof] (set_shut_wr true s)
                    end)
  | _ => (Ret (Err (error_from NotConnected)), s)
  end.

(** A zero timeout is refused by [std]. *)
Definition check_timeout (d : option Duration) : M io_error World unit :=
  if bool_decide (d = Some 0%Z)
  then fail (error_new InvalidInput "cannot set a 0 duration timeout")
  else ret tt.

Module Tcp.

Definition connect_timeout (addr : SocketAddr) (timeout : Duration) : M io_error World TcpStream :=
  run! check_timeout (Some timeout) in λ w,
  match dials w with
  | Ok c :: ds =>
      bind (open_socket (socket_of c)) (λ f, ret (mk_tcp f))
        (mk_world (fds w) (socks w) ds (faults w))
  | Err e :: ds => (Ret (Err e), mk_world (fds w) (socks w) ds (faults w))
  | [] => (Ret (Err (error_from ConnectionRefused)), w)
  end.

Definition peer_addr (s : TcpStream) (w : World) : io_result SocketAddr := getpeername (fd s) w.

Definition local_addr (s : TcpStream) : M io_error World SocketAddr :=
  let! a := inspect (fd s) sk_local in of_result (ok_or a (error_from InvalidInput)).

Definition shutdown (how : Shutdown) (s : TcpStream) : M io_error World unit :=
  on_socket (fd s) (shutdown_socket how).
Definition set_nonblocking (b : bool) (s : TcpStream) : M io_error World unit :=
  configure (fd s) (set_sk_nonblocking b).
Definition set_read_timeout (d : option Duration) (s : TcpStream) : M io_error World unit :=
  run! check_timeout d in configure (fd s) (set_sk_read_timeout d).
Definition set_write_timeout (d : option Duration) (s : TcpStream) : M io_error World unit :=
  run! check_timeout d in configure (fd s) (set_sk_write_timeout d).
Definition read_timeout (s : TcpStream) : M io_error World (option Duration) :=
  inspect (fd s) sk_read_timeout.
Definition write_timeout (s : TcpStream) : M io_error World (option Duration) :=
  inspect (fd s) sk_write_timeout.
Definition set_nodelay (b : bool) (s : TcpStream) : M io_error World unit :=
  configure (fd s) (set_sk_nodelay b).
Definition nodelay (s : TcpStream) : M io_error World bool := inspect (fd s) sk_nodelay.
Definition set_ttl (t : Z) (s : TcpStream) : M io_error World unit :=
  configure (fd s) (set_sk_ttl t).
Definition ttl (s : TcpStream) : M io_error World Z := inspect (fd s) sk_ttl.
Definition try_clone (s : TcpStream) : M io_error World TcpStream :=
  let! f := dup (fd s) in ret (mk_tcp f).
(** [peek(&mut buf)]: the number of bytes it found and what [buf] then holds. *)
Definition peek (buf : bytes) (s : TcpStream) : M io_error World (nat * bytes) :=
  let! b := peek_fd (fd s) (length buf) in
  ret (length b, b ++ skipn (length b) buf).

(** [take_error] reads and clears [SO_ERROR]. *)
Definition take_error (s : TcpStream) : M io_error World (option io_error) :=
  let! e := inspect (fd s) sk_error in
  run! on_socket (fd s) (λ k, (Ret (Ok tt), set_sk_error None k)) in
  ret e.

(** Dropping a [TcpStream] closes its descriptor. *)
Definition drop {E} (s : TcpStream) : M E World unit := close (fd s).

End Tcp.

(** A call whose failure or panic drops an object on the way out. *)
Definition or_drop {E St A} (drop : M E St unit) (m : M E St A) : M E St A :=
  λ st, match m st with
        | (Ret (Err e), st') => let '(_, st'') := drop st' in (Ret (Err e), st'')
        | (Panic msg, st') => let '(_, st'') := drop st' in (Panic msg, st'')
        | other => other
        end.

Lemma or_drop_ok {E St A} (drop : M E St unit) (m : M E St A) st a st' :
  or_drop drop m st = (Ret (Ok a), st') → m st = (Ret (Ok a), st').
Proof. unfold or_drop. destruct (m st) as [[[]| |] st1]; [done| | |done]; by destruct (drop st1). Qed.
