(* ===== verification/Connection.v ===== *)
(** * [src/connection.rs]: the trait [NetConnection]

    [NetConnection] abstracts over a TCP connection.  It is a class here, with
    the two implementations of the crate as instances: [std::net::TcpStream],
    whose methods are modelled in [Kernel], and [socket2::Socket], whose crate
    is not part of the repository and is the parameter [Socket2].  Address
    resolution belongs to the [cyphernet] crate and is the parameter
    [NetAddrApi]. *)

From S2P Require Import Prelude Std Kernel.

(** ** What the crate takes from [cyphernet] and [socket2] *)

(** [cyphernet::addr::NetAddr<InetHost>] with [ToSocketAddrs] and
    [From<SocketAddr>]. *)
Class NetAddrApi := {
  NetAddr : Type;
  to_socket_addrs : NetAddr → World → io_result (list SocketAddr);
  from_socket_addr : SocketAddr → NetAddr
}.

(** [std::mem::MaybeUninit<u8>]. *)
Abbreviation MaybeUninit := (option byte).

(** The methods of [socket2::Socket] the crate calls. *)
Class Socket2 := {
  Socket : Type;
  Domain : Type;
  SockAddr : Type;
  TcpKeepalive : Type;
  for_address : SocketAddr → Domain;
  sockaddr_from : SocketAddr → SockAddr;
  as_socket : SockAddr → option SocketAddr;
  s2_new : Domain → M io_error World Socket;
  s2_drop : Socket → M io_error World unit;
  s2_connect : SockAddr → Socket → M io_error World unit;
  s2_bind : SockAddr → Socket → M io_error World unit;
  s2_listen : Z → Socket → M io_error World unit;
  s2_accept : Socket → M io_error World (Socket * SockAddr);
  s2_recv : nat → Socket → M io_error World bytes;
  s2_send : bytes → Socket → M io_error World nat;
  s2_flush : Socket → M io_error World unit;
  s2_peek : list MaybeUninit → Socket → M io_error World (nat * list MaybeUninit);
  s2_peer_addr : Socket → World → io_result SockAddr;
  s2_local_addr : Socket → World → io_result SockAddr;
  s2_shutdown : Shutdown → Socket → M io_error World unit;
  s2_set_nonblocking : bool → Socket → M io_error World unit;
  s2_set_reuse_address : bool → Socket → M io_error World unit;
  s2_set_reuse_port : bool → Socket → M io_error World unit;
  s2_set_tcp_keepalive : TcpKeepalive → Socket → M io_error World unit;
  s2_set_read_timeout : option Duration → Socket → M io_error World unit;
  s2_set_write_timeout : option Duration → Socket → M io_error World unit;
  s2_read_timeout : Socket → M io_error World (option Duration);
  s2_write_timeout : Socket → M io_error World (option Duration);
  s2_set_nodelay : bool → Socket → M io_error World unit;
  s2_nodelay : Socket → M io_error World bool;
  s2_set_ttl : Z → Socket → M io_error World unit;
  s2_ttl : Socket → M io_error World Z;
  s2_try_clone : Socket → M io_error World Socket;
  s2_take_error : Socket → M io_error World (option io_error);
  s2_as_raw_fd : Socket → RawFd;
  s2_from_raw_fd : RawFd → Socket;
  s2_into_raw_fd : Socket → RawFd
}.

(** Conversions between [socket2::Socket] and [TcpStream] keep the descriptor. *)
Definition tcp_of_socket `{Socket2} (s : Socket) : TcpStream := mk_tcp (s2_into_raw_fd s).
Definition socket_of_tcp `{Socket2} (s : TcpStream) : Socket := s2_from_raw_fd (fd s).

(** The [cfg] around [set_reuse_port]: a unix other than Solaris and illumos. *)
Class Target := has_reuse_port : bool.

(** ** The trait *)

Class NetConnection (C : Type) := {
  conn_stream :: Stream C;
  Addr : Type;
  Keepalive : Type;
  as_raw_fd : C → RawFd;
  connect_blocking : Addr → Duration → M io_error World C;
  connect_nonblocking : Addr → Duration → M io_error World C;
  connect_reusable_nonblocking : Addr → Addr → M io_error World C;
  shutdown : Shutdown → C → M io_error World unit;
  remote_addr : C → World → io_result Addr;
  local_addr : C → M io_error World Addr;
  set_tcp_keepalive : Keepalive → C → M io_error World unit;
  set_read_timeout : option Duration → C → M io_error World unit;
  set_write_timeout : option Duration → C → M io_error World unit;
  read_timeout : C → M io_error World (option Duration);
  write_timeout : C → M io_error World (option Duration);
  peek : bytes → C → M io_error World (nat * bytes);
  set_nodelay : bool → C → M io_error World unit;
  nodelay : C → M io_error World bool;
  set_ttl : Z → C → M io_error World unit;
  ttl : C → M io_error World Z;
  set_nonblocking : bool → C → M io_error World unit;
  try_clone : C → M io_error World C;
  take_error : C → M io_error World (option io_error);
  conn_drop : C → M io_error World unit           (* leaving scope: the descriptor is closed *)
}.

Definition map_result {E A B} (f : A → B) (r : result E A) : result E B :=
  match r with Ok a => Ok (f a) | Err e => Err e end.

Section instances.
Context `{NetAddrApi} `{Socket2} `{Target}.

(** [addr.to_socket_addrs()?.next().ok_or(kind)?]. *)
Definition first_addr (addr : NetAddr) (none : ErrorKind) : M io_error World SocketAddr :=
  let! addrs := λ w, of_result (to_socket_addrs addr w) w in
  of_result (ok_or (head addrs) (error_from none)).

(** *** [NetConnection for socket2::Socket] *)

(** The [match] on the result of a non-blocking [connect]. *)
Definition connect_result (r : io_result unit) : io_result unit :=
  match r with
  | Ok _ => Ok tt
  | Err e =>
      if bool_decide (raw_os_error e = Some EINPROGRESS) then Ok tt
      else if bool_decide (raw_os_error e = Some EALREADY) then Err (error_from AlreadyExists)
      else if bool_decide (kind e = WouldBlock) then Ok tt
      else Err e
  end.

Definition socket_connect_nonblocking (addr : NetAddr) (_timeout : Duration) :
    M io_error World Socket :=
  let! addr := first_addr addr AddrNotAvailable in
  let! socket := s2_new (for_address addr) in
  or_drop (s2_drop socket) (
    run! s2_set_nonblocking true socket in
    let! r := attempt (s2_connect (sockaddr_from addr) socket) in
    run! of_result (connect_result r) in
    ret socket).

Definition socket_connect_reusable_nonblocking (local_addr remote_addr : NetAddr) :
    M io_error World Socket :=
  let! local_addr := first_addr local_addr InvalidInput in
  let! remote_addr := first_addr remote_addr AddrNotAvailable in
  let! socket := s2_new (for_address local_addr) in
  or_drop (s2_drop socket) (
    run! s2_set_nonblocking true socket in
    run! s2_set_reuse_address true socket in
    run! (if has_reuse_port then s2_set_reuse_port true socket else ret tt) in
    run! s2_bind (sockaddr_from local_addr) socket in
    let! r := attempt (s2_connect (sockaddr_from remote_addr) socket) in
    run! of_result (connect_result r) in
    ret socket).

(** The loop of [peek]: [for i in 0..len { buf[i] = buf2[i].assume_init() }],
    with [n] rounds left.  An index out of range panics; [assume_init] on a byte
    that was never written has no meaning, which is a failure here too. *)
Fixpoint copy_range (i n : nat) (buf2 : list MaybeUninit) (buf : bytes) : M io_error World bytes :=
  match n with
  | 0 => ret buf
  | S n =>
      match buf2 !! i with
      | None => panic "index out of bounds"
      | Some None => panic "assume_init of an uninitialised byte"
      | Some (Some x) =>
          if i <? length buf then copy_range (S i) n buf2 (<[i := x]> buf)
          else panic "index out of bounds"
      end
  end.

(** [socket2::Socket::peek] fills a fresh buffer [buf2], which is then copied
    into the caller's byte by byte. *)
Definition socket_peek (buf : bytes) (s : Socket) : M io_error World (nat * bytes) :=
  let! peeked := s2_peek (replicate (length buf) None) s in
  let '(len, buf2) := peeked in
  let! buf := copy_range 0 len buf2 buf in
  ret (len, buf).

Definition socket_addr_of (r : io_result SockAddr) : io_result NetAddr :=
  match r with
  | Ok a => map_result from_socket_addr (ok_or (as_socket a) (error_from NotFound))
  | Err e => Err e
  end.

(** *** [NetConnection for TcpStream] *)

Definition tcp_connect_blocking (addr : NetAddr) (timeout : Duration) : M io_error World TcpStream :=
  let! socket_addr := first_addr addr AddrNotAvailable in
  Tcp.connect_timeout socket_addr timeout.

Definition tcp_connect_nonblocking (addr : NetAddr) (timeout : Duration) :
    M io_error World TcpStream :=
  let! s := socket_connect_nonblocking addr timeout in ret (tcp_of_socket s).

Definition tcp_connect_reusable_nonblocking (local_addr remote_addr : NetAddr) :
    M io_error World TcpStream :=
  let! s := socket_connect_reusable_nonblocking local_addr remote_addr in ret (tcp_of_socket s).

(** A second owner of the descriptor is made for the call, and given up again
    with [into_raw_fd]; the early return of [?] drops it instead. *)
Definition tcp_set_tcp_keepalive (keepalive : TcpKeepalive) (s : TcpStream) :
    M io_error World unit :=
  let socket := s2_from_raw_fd (fd s) in
  run! or_drop (s2_drop socket) (s2_set_tcp_keepalive keepalive socket) in
  let _ := s2_into_raw_fd socket in
  ret tt.

Definition tcp_remote_addr (s : TcpStream) (w : World) : io_result NetAddr :=
  map_result from_socket_addr (Tcp.peer_addr s w).

Definition tcp_local_addr (s : TcpStream) : M io_error World NetAddr :=
  let! a := Tcp.local_addr s in ret (from_socket_addr a).

#[export] Instance TcpStream_connection : NetConnection TcpStream := {|
  conn_stream := TcpStream_stream;
  Addr := NetAddr;
  Keepalive := TcpKeepalive;
  as_raw_fd := fd;
  connect_blocking := tcp_connect_blocking;
  connect_nonblocking := tcp_connect_nonblocking;
  connect_reusable_nonblocking := tcp_connect_reusable_nonblocking;
  shutdown := Tcp.shutdown;
  remote_addr := tcp_remote_addr;
  local_addr := tcp_local_addr;
  set_tcp_keepalive := tcp_set_tcp_keepalive;
  set_read_timeout := Tcp.set_read_timeout;
  set_write_timeout := Tcp.set_write_timeout;
  read_timeout := Tcp.read_timeout;
  write_timeout := Tcp.write_timeout;
  peek := Tcp.peek;
  set_nodelay := Tcp.set_nodelay;
  nodelay := Tcp.nodelay;
  set_ttl := Tcp.set_ttl;
  ttl := Tcp.ttl;
  set_nonblocking := Tcp.set_nonblocking;
  try_clone := Tcp.try_clone;
  take_error := Tcp.take_error;
  conn_drop := Tcp.drop
|}.

Definition socket_connect_blocking (addr : NetAddr) (timeout : Duration) : M io_error World Socket :=
  let! s := tcp_connect_blocking addr timeout in ret (socket_of_tcp s).

#[export] Instance Socket_stream : Stream Socket := {|
  read n := on_world (λ s, s2_recv n s);
  write b := on_world (λ s, s2_send b s);
  flush := on_world s2_flush
|}.

#[export] Instance Socket_connection : NetConnection Socket := {|
  conn_stream := Socket_stream;
  Addr := NetAddr;
  Keepalive := TcpKeepalive;
  as_raw_fd := s2_as_raw_fd;
  connect_blocking := socket_connect_blocking;
  connect_nonblocking := socket_connect_nonblocking;
  connect_reusable_nonblocking := socket_connect_reusable_nonblocking;
  shutdown := s2_shutdown;
  remote_addr s w := socket_addr_of (s2_peer_addr s w);
  local_addr s := λ w, of_result (socket_addr_of (s2_local_addr s w)) w;
  set_tcp_keepalive := s2_set_tcp_keepalive;
  set_read_timeout := s2_set_read_timeout;
  set_write_timeout := s2_set_write_timeout;
  read_timeout := s2_read_timeout;
  write_timeout := s2_write_timeout;
  peek := socket_peek;
  set_nodelay := s2_set_nodelay;
  nodelay := s2_nodelay;
  set_ttl := s2_set_ttl;
  ttl := s2_ttl;
  set_nonblocking := s2_set_nonblocking;
  try_clone := s2_try_clone;
  take_error := s2_take_error;
  conn_drop := s2_drop
|}.

End instances.
