(* ===== verification/ConnectionSpecs.v ===== *)
(** * Theorems about [src/connection.rs]

    [Socket2Laws] is what [socket2] documents: its methods are thin wrappers of
    the system calls on the descriptor a [Socket] owns.  Under it, the
    non-blocking connectors either hand out a fresh, non-blocking socket or
    leave the descriptor table as they found it, and a failed
    [set_tcp_keepalive] on a [TcpStream] closes the stream's descriptor. *)

From S2P Require Import Prelude Std Kernel Connection.

(** ** What [socket2] promises *)

Class Socket2Laws `{Socket2} := {
  s2_fd_from f : s2_as_raw_fd (s2_from_raw_fd f) = f;
  s2_into_fd s : s2_into_raw_fd s = s2_as_raw_fd s;
  s2_sockaddr a : as_socket (sockaddr_from a) = Some a;
  s2_new_call d w : s2_new d w =
    (run! syscall in let! f := open_socket fresh_socket in ret (s2_from_raw_fd f)) w;
  s2_drop_call s w : s2_drop s w = close (s2_as_raw_fd s) w;
  s2_connect_call a s w : s2_connect a s w = connect_fd (s2_as_raw_fd s) w;
  s2_bind_call a s w : s2_bind a s w = configure (s2_as_raw_fd s) (set_local (as_socket a)) w;
  s2_listen_call n s w : s2_listen n s w = configure (s2_as_raw_fd s) (set_backlog (Some n)) w;
  s2_accept_call s w : s2_accept s w =
    (let! c := accept_fd (s2_as_raw_fd s) in ret (s2_from_raw_fd c.1, sockaddr_from c.2)) w;
  s2_nonblocking_call b s w :
    s2_set_nonblocking b s w = configure (s2_as_raw_fd s) (set_sk_nonblocking b) w;
  s2_reuse_address_call b s w : s2_set_reuse_address b s w = configure (s2_as_raw_fd s) id w;
  s2_reuse_port_call b s w : s2_set_reuse_port b s w = configure (s2_as_raw_fd s) id w;
  s2_keepalive_call k s w : s2_set_tcp_keepalive k s w = configure (s2_as_raw_fd s) id w;
  s2_peek_call buf s w : s2_peek buf s w =
    (let! b := peek_fd (s2_as_raw_fd s) (length buf) in
     ret (length b, (Some <$> b) ++ drop (length b) buf)) w;
  s2_recv_call n s w : s2_recv n s w = recv (s2_as_raw_fd s) n w;
  s2_clone_call s w : s2_try_clone s w = (let! f := dup (s2_as_raw_fd s) in ret (s2_from_raw_fd f)) w
}.

(** ** What the calls leave behind *)

(** A new descriptor [f] for the socket [k], beside those that were open in [w]. *)
Definition opened (f : RawFd) (k : socket) (w w' : World) : Prop :=
  fds w !! f = None ∧ ∃ i, fds w' = <[f := i]> (fds w) ∧ find f w' = Some (i, k).

Lemma syscall_cases w :
  ∃ r w', syscall w = (Ret r, w') ∧ fds w' = fds w ∧ socks w' = socks w ∧ dials w' = dials w.
Proof. unfold syscall. destruct (faults w) as [|[e|] fs]; eauto 10. Qed.

Lemma find_same f w w' : fds w' = fds w → socks w' = socks w → find f w' = find f w.
Proof. unfold find. by intros -> ->. Qed.

(** A configuration call on a socket that is there. *)
Lemma configure_found f g w i k :
  find f w = Some (i, k) →
  ∃ r w', configure f g w = (Ret r, w') ∧ fds w' = fds w ∧
    find f w' = Some (i, if is_ok r then g k else k).
Proof.
  intros Hf. unfold configure. destruct (syscall_cases w) as ([[]|e] & w1 & Hs & Hfds & Hsocks & _);
    [rewrite (bind_ok _ _ _ _ _ Hs)|rewrite (bind_err _ _ _ _ _ Hs)];
    rewrite <-(find_same f w w1) in Hf by done.
  - unfold on_socket. rewrite Hf. eexists _, _. split_and!; [done|done|]. unfold find in *. simpl.
    destruct (fds w1 !! f) as [j|]; [|done]. simpl in *.
    destruct (socks w1 !! j) as [k1|] eqn:Hk; [|done]. injection Hf as -> ->.
    by rewrite lookup_insert_eq.
  - by eexists _, _.
Qed.

Lemma on_socket_opened {A} f (g : socket → outcome (io_result A) * socket) k w w1 :
  opened f k w w1 →
  ∃ w2, on_socket f g w1 = ((g k).1, w2) ∧ opened f (g k).2 w w2.
Proof.
  intros (Hnew & i & Hfds & Hf). unfold on_socket. rewrite Hf. destruct (g k) as [r k'] eqn:Hg.
  eexists. split; [done|]. split; [done|]. exists i. split; [done|]. by eapply find_update.
Qed.

Lemma configure_opened f g k w w1 :
  opened f k w w1 →
  ∃ r w2, configure f g w1 = (Ret r, w2) ∧ opened f (if is_ok r then g k else k) w w2.
Proof.
  intros Ho. unfold configure. destruct (syscall_cases w1) as (r & w2 & Hs & Hfds & Hsocks & _).
  assert (Ho' : opened f k w w2).
  { destruct Ho as (Hnew & i & ? & Hf). split; [done|]. exists i. rewrite Hfds.
    split; [done|]. by rewrite <- Hf; apply find_same. }
  destruct r as [[]|e].
  - rewrite (bind_ok _ _ _ _ _ Hs). destruct (on_socket_opened f (λ s, (Ret (Ok tt), g s)) k w w2 Ho')
      as (w3 & -> & Ho3). eauto.
  - rewrite (bind_err _ _ _ _ _ Hs). eauto.
Qed.

Lemma connect_opened f k w w1 :
  opened f k w w1 →
  ∃ r w2 k', connect_fd f w1 = (Ret r, w2) ∧ opened f k' w w2 ∧
    sk_nonblocking k' = sk_nonblocking k.
Proof.
  intros Ho. unfold connect_fd.
  assert (Hds : ∀ ds, opened f k w (mk_world (fds w1) (socks w1) ds (faults w1))).
  { intros ds. destruct Ho as (? & i & ? & Hf). split; [done|]. exists i. split; [done|].
    rewrite <- Hf. by apply find_same. }
  destruct (dials w1) as [|[c|e] ds].
  - by eexists _, _, k.
  - edestruct (on_socket_opened (A:=unit) f) as (w2 & -> & Ho2); [apply Hds|].
    by eexists _, _, _; split_and!; [done|exact Ho2|].
  - edestruct (on_socket_opened (A:=unit) f) as (w2 & -> & Ho2); [apply Hds|].
    eexists _, _, _; split_and!; [done|exact Ho2|]. simpl. by destruct (in_progress e).
Qed.

(** What a [connect] that the network answers with [d], and that the code lets
    pass, leaves in the socket: a connection, or one that is on its way, or, when
    the kernel had no resources for it ([EAGAIN]), none at all. *)
Definition left_by (d : io_result incoming) (k : socket) : Prop :=
  match d with
  | Ok c => sk_link k = Connected (in_peer c)
  | Err e => if bool_decide (raw_os_error e = Some EINPROGRESS) then sk_link k = Connecting
             else kind e = WouldBlock ∧ sk_link k = Unconnected
  end.

Lemma connect_reports f w1 r w2 i k :
  find f w1 = Some (i, k) → sk_link k = Unconnected →
  connect_fd f w1 = (Ret r, w2) → is_ok (connect_result r) = true →
  ∃ d ds k', dials w1 = d :: ds ∧ find f w2 = Some (i, k') ∧ left_by d k'.
Proof.
  intros Hf Hk Hc Hok. unfold connect_fd, on_socket in Hc.
  destruct (dials w1) as [|d ds]; [by simplify_eq|]. exists d, ds.
  set (w0 := mk_world (fds w1) (socks w1) ds (faults w1)) in *.
  assert (Hf0 : find f w0 = Some (i, k)) by by rewrite <-Hf; apply find_same.
  destruct d as [c|e]; rewrite Hf0 in Hc; injection Hc as <- <-; eexists;
    (split_and!; [done|exact (find_update _ _ _ _ w0 Hf0)|]); [done|].
  unfold left_by, in_progress. simpl in Hok.
  case_bool_decide; [done|]. case_bool_decide; [done|]. by case_bool_decide.
Qed.

Lemma configure_dials f g w o w' : configure f g w = (o, w') → dials w' = dials w.
Proof.
  unfold configure. destruct (syscall_cases w) as ([[]|e] & w1 & Hs & _ & _ & <-);
    [rewrite (bind_ok _ _ _ _ _ Hs)|rewrite (bind_err _ _ _ _ _ Hs)].
  - intros Hr. by apply on_socket_inv in Hr as [(_ & _ & ->)|(? & ? & ? & _ & _ & _ & ->)].
  - by intros [= _ <-].
Qed.

Lemma open_socket_opened s w w1 :
  fds w1 = fds w → ∃ f w2, open_socket s w1 = (Ret (Ok f), w2) ∧ opened f s w w2.
Proof.
  intros Hfds. unfold open_socket. eexists _, _. split; [done|]. split.
  - apply not_elem_of_dom. rewrite <- Hfds. apply is_fresh.
  - eexists. simpl. rewrite Hfds. split; [done|]. unfold find. simpl.
    rewrite lookup_insert_eq. simpl. by rewrite lookup_insert_eq.
Qed.

(** Closing the new descriptor restores the table. *)
Lemma close_opened {E} f k w w1 :
  opened f k w w1 → ∃ w2, close (E:=E) f w1 = (Ret (Ok tt), w2) ∧ fds w2 = fds w.
Proof.
  intros (Hnew & i & Hfds & _). eexists. split; [done|]. simpl. rewrite Hfds.
  by apply delete_insert_id.
Qed.

(** ** A small program logic for code that works on a new socket

    [on_opened f w P Q m]: started when [f] is a new descriptor of a socket that
    satisfies [P], [m] returns, [f] still is the only new descriptor, and its
    socket satisfies [Q] if the result is [Ok]. *)
Definition on_opened {A} (f : RawFd) (w : World) (P Q : socket → Prop) (m : M io_error World A) : Prop :=
  ∀ k w1, opened f k w w1 → P k →
  ∃ r w2 k', m w1 = (Ret r, w2) ∧ opened f k' w w2 ∧ (is_ok r = true → Q k').

(** [m] opens one descriptor, for a socket that satisfies [P], or fails and
    opens none. *)
Definition opens {A} (fd_of : A → RawFd) (P : socket → Prop) (m : M io_error World A) (w : World) : Prop :=
  ∃ r w', m w = (Ret r, w') ∧
    match r with
    | Ok a => ∃ k, opened (fd_of a) k w w' ∧ P k
    | Err _ => fds w' = fds w
    end.

Lemma on_opened_bind {A B} f w P Q R (m : M io_error World A) (h : A → M io_error World B) :
  on_opened f w P Q m → (∀ a, on_opened f w Q R (h a)) → on_opened f w P R (bind m h).
Proof.
  intros Hm Hh k w1 Ho HP. destruct (Hm k w1 Ho HP) as ([a|e] & w2 & k' & Heq & Ho' & HQ).
  - rewrite (bind_ok _ _ _ _ _ Heq). apply (Hh a k' w2 Ho'). by apply HQ.
  - rewrite (bind_err _ _ _ _ _ Heq). exists (Err e), w2, k'. done.
Qed.

Lemma on_opened_ret {A} f w (P : socket → Prop) (a : A) : on_opened f w P P (ret a).
Proof. intros k w1 Ho HP. by exists (Ok a), w1, k. Qed.

Lemma on_opened_ext {A} f w P Q (m m' : M io_error World A) :
  (∀ w, m w = m' w) → on_opened f w P Q m' → on_opened f w P Q m.
Proof. intros Heq Hm k w1 Ho HP. destruct (Hm k w1 Ho HP) as (r & w2 & k' & ? & ?). exists r, w2, k'. by rewrite Heq. Qed.

Lemma on_opened_configure f g w (P Q : socket → Prop) :
  (∀ k, P k → Q (g k)) → on_opened f w P Q (configure f g).
Proof.
  intros HPQ k w1 Ho HP. destruct (configure_opened f g k w w1 Ho) as (r & w2 & Heq & Ho2).
  exists r, w2, (if is_ok r then g k else k). split_and!; [done..|]. intros ->. by apply HPQ.
Qed.

Lemma opens_weaken {A} (fd_of : A → RawFd) (P Q : socket → Prop) m w :
  opens fd_of P m w → (∀ k, P k → Q k) → opens fd_of Q m w.
Proof.
  intros (r & w' & Heq & Hr) HPQ. exists r, w'. split; [done|].
  destruct r; [|done]. destruct Hr as (k & ? & ?). eauto.
Qed.

Lemma opens_map {A B} (fd_of : A → RawFd) (fd_of' : B → RawFd) (g : A → B) P m w :
  (∀ a, fd_of' (g a) = fd_of a) → opens fd_of P m w → opens fd_of' P (let! a := m in ret (g a)) w.
Proof.
  intros Hg (r & w' & Heq & Hr). unfold opens. destruct r as [a|e].
  - rewrite (bind_ok _ _ _ _ _ Heq). eexists _, _. split; [done|]. simpl. by rewrite Hg.
  - rewrite (bind_err _ _ _ _ _ Heq). by eexists _, _.
Qed.

(** A tail of calls on a socket that is closed when they fail. *)
Lemma opens_or_drop {A B} (fd_of : A → RawFd) (fd_of' : B → RawFd) P Q (m : M io_error World A)
    (drop : A → M io_error World unit) (body : A → M io_error World B) w :
  opens fd_of P m w →
  (∀ a, on_opened (fd_of a) w P Q (body a)) →
  (∀ a w1 b w2, body a w1 = (Ret (Ok b), w2) → fd_of' b = fd_of a) →
  (∀ a w1, drop a w1 = close (fd_of a) w1) →
  opens fd_of' Q (let! a := m in or_drop (drop a) (body a)) w.
Proof.
  intros (r & w1 & Heq & Hr) Hbody Hfd Hdrop. unfold opens. destruct r as [a|e].
  - rewrite (bind_ok _ _ _ _ _ Heq). destruct Hr as (k & Hop & HP).
    destruct (Hbody a k w1 Hop HP) as ([b|e] & w2 & k' & Hb & Hop2 & HQ); unfold or_drop; rewrite Hb.
    + eexists _, _. split; [done|]. exists k'. rewrite (Hfd _ _ _ _ Hb). auto.
    + rewrite Hdrop. destruct (close_opened (E:=io_error) _ _ _ _ Hop2) as (w3 & -> & ?).
      by eexists _, _.
  - rewrite (bind_err _ _ _ _ _ Heq). by eexists _, _.
Qed.

(** An address that resolves opens nothing. *)
Lemma first_addr_cases `{NetAddrApi} addr none w :
  ∃ r, first_addr addr none w = (Ret r, w).
Proof.
  unfold first_addr, bind, of_result. destruct (to_socket_addrs addr w) as [addrs|e]; eauto.
Qed.

Section connectors.
Context `{NetAddrApi} `{Target} `{!Socket2, !Socket2Laws}.

Lemma s2_new_opens d w : opens s2_as_raw_fd (λ k, k = fresh_socket) (s2_new d) w.
Proof.
  unfold opens. rewrite s2_new_call. destruct (syscall_cases w) as ([[]|e] & w1 & Hs & Hfds & _);
    [rewrite (bind_ok _ _ _ _ _ Hs)|rewrite (bind_err _ _ _ _ _ Hs); by eexists _, _].
  destruct (open_socket_opened fresh_socket w w1 Hfds) as (f & w2 & Ho & Hop).
  rewrite (bind_ok _ _ _ _ _ Ho). eexists _, _. split; [done|]. exists fresh_socket.
  rewrite s2_fd_from. auto.
Qed.

(** A socket is opened, used, and closed again if that failed. *)
Lemma s2_new_then d (body : Socket → M io_error World Socket) P w :
  (∀ s, on_opened (s2_as_raw_fd s) w (λ k, k = fresh_socket) P (body s)) →
  (∀ s w1 s' w2, body s w1 = (Ret (Ok s'), w2) → s' = s) →
  opens s2_as_raw_fd P (let! s := s2_new d in or_drop (s2_drop s) (body s)) w.
Proof.
  intros Hbody Hsame. eapply opens_or_drop; [apply s2_new_opens|done| |intros; apply s2_drop_call].
  intros s w1 s' w2 Hb. by rewrite (Hsame _ _ _ _ Hb).
Qed.

(** A configuration call of [socket2] on the new socket. *)
Lemma on_opened_call f g w (P Q : socket → Prop) (m : M io_error World unit) :
  (∀ w1, m w1 = configure f g w1) → (∀ k, P k → Q (g k)) → on_opened f w P Q m.
Proof. intros Heq HPQ. eapply on_opened_ext; [exact Heq|]. by apply on_opened_configure. Qed.

Definition nonblocking_socket (k : socket) : Prop := sk_nonblocking k = true.

Lemma connect_tail s w a :
  on_opened (s2_as_raw_fd s) w nonblocking_socket nonblocking_socket
    (let! r := attempt (s2_connect a s) in run! of_result (connect_result r) in ret s).
Proof.
  intros k w1 Ho HP. destruct (connect_opened _ k w w1 Ho) as (r & w2 & k' & Heq & Ho2 & Hnb).
  unfold bind, attempt. rewrite s2_connect_call, Heq. unfold of_result.
  destruct (connect_result r) as [u|e] eqn:Hc.
  - exists (Ok s), w2, k'. split_and!; [done..|]. intros _. unfold nonblocking_socket in *. congruence.
  - exists (Err e), w2, k'. done.
Qed.

(** After the address is resolved. *)
Lemma opens_after_first {A} (fd_of : A → RawFd) P addr none (h : SocketAddr → M io_error World A) w :
  (∀ a, opens fd_of P (h a) w) → opens fd_of P (let! a := first_addr addr none in h a) w.
Proof.
  intros Hh. destruct (first_addr_cases addr none w) as [[a|e] Heq]; unfold opens.
  - rewrite (bind_ok _ _ _ _ _ Heq). apply Hh.
  - rewrite (bind_err _ _ _ _ _ Heq). by eexists _, _.
Qed.

Lemma socket_connect_nonblocking_opens addr timeout w :
  opens s2_as_raw_fd nonblocking_socket (socket_connect_nonblocking addr timeout) w.
Proof.
  unfold socket_connect_nonblocking. apply opens_after_first. intros a.
  apply (s2_new_then _ (λ s, run! s2_set_nonblocking true s in _)).
  - intros s. eapply on_opened_bind; [|intros _; apply connect_tail].
    eapply on_opened_call; [intros w1; apply s2_nonblocking_call|done].
  - intros s w1 s' w2 Hb. apply bind_ok_inv in Hb as (_ & ? & _ & Hb).
    apply bind_ok_inv in Hb as (r & ? & _ & Hb). apply bind_ok_inv in Hb as (_ & ? & _ & Hb).
    by injection Hb as <-.
Qed.

Lemma socket_connect_reusable_opens local_addr remote_addr w :
  opens s2_as_raw_fd nonblocking_socket (socket_connect_reusable_nonblocking local_addr remote_addr) w.
Proof.
  unfold socket_connect_reusable_nonblocking. do 2 (apply opens_after_first; intros ?).
  apply (s2_new_then _ (λ s, run! s2_set_nonblocking true s in _)).
  - intros s. set (P := nonblocking_socket).
    eapply (on_opened_bind _ _ _ P); [|intros _; eapply (on_opened_bind _ _ _ P); [|intros _;
      eapply (on_opened_bind _ _ _ P); [|intros _; eapply (on_opened_bind _ _ _ P)]]].
    + eapply on_opened_call; [intros w1; apply s2_nonblocking_call|done].
    + eapply on_opened_call; [intros w1; apply s2_reuse_address_call|done].
    + destruct has_reuse_port; [|apply on_opened_ret].
      eapply on_opened_call; [intros w1; apply s2_reuse_port_call|done].
    + eapply on_opened_call; [intros w1; apply s2_bind_call|done].
    + intros _. apply connect_tail.
  - intros s w1 s' w2 Hb. repeat (apply bind_ok_inv in Hb as (? & ? & _ & Hb)).
    by injection Hb as <-.
Qed.

(** [m] returns a connection only after a [connect] on a new socket that the
    network answered with the next of its results. *)
Definition dials_for {A} (fd_of : A → RawFd) (m : M io_error World A) (w : World) : Prop :=
  ∀ a w', m w = (Ret (Ok a), w') →
    ∃ d ds i k, dials w = d :: ds ∧ find (fd_of a) w' = Some (i, k) ∧ left_by d k.

(** A configured socket that has no connection yet, with the network's answers
    still to come. *)
Definition idle (f : RawFd) (w w1 : World) : Prop :=
  dials w1 = dials w ∧ ∃ i k, find f w1 = Some (i, k) ∧ sk_link k = Unconnected.

Lemma idle_new d w s w1 : s2_new d w = (Ret (Ok s), w1) → idle (s2_as_raw_fd s) w w1.
Proof.
  rewrite s2_new_call. intros Hn. destruct (syscall_cases w) as (r & w0 & Hs & Hfds & _ & Hd).
  destruct r as [[]|e]; [|by rewrite (bind_err _ _ _ _ _ Hs) in Hn].
  rewrite (bind_ok _ _ _ _ _ Hs) in Hn. destruct (open_socket_opened fresh_socket w w0 Hfds) as (f & w2 & Ho & Hop).
  rewrite (bind_ok _ _ _ _ _ Ho) in Hn. injection Hn as <- <-. rewrite s2_fd_from.
  destruct Hop as (_ & i & _ & Hf). injection Ho as _ <-. split; [done|]. by exists i, fresh_socket.
Qed.

Lemma idle_configure f g w w1 (m : M io_error World unit) o w2 :
  (∀ w1, m w1 = configure f g w1) → (∀ k, sk_link (g k) = sk_link k) →
  idle f w w1 → m w1 = (o, w2) → idle f w w2.
Proof.
  intros Hm Hg (Hd & i & k & Hf & Hk) Hr. rewrite Hm in Hr.
  pose proof (configure_dials _ _ _ _ _ Hr) as Hd2.
  destruct (configure_found f g w1 i k Hf) as (r & w3 & Hc & _ & Hf2). rewrite Hc in Hr.
  injection Hr as _ ->. split; [congruence|]. eexists _, _. split; [exact Hf2|].
  destruct (is_ok r); [by rewrite Hg|done].
Qed.

Lemma connect_tail_dials s a w w1 s' w2 :
  idle (s2_as_raw_fd s) w w1 →
  (let! r := attempt (s2_connect a s) in run! of_result (connect_result r) in ret s) w1 = (Ret (Ok s'), w2) →
  ∃ d ds i k, dials w = d :: ds ∧ find (s2_as_raw_fd s') w2 = Some (i, k) ∧ left_by d k.
Proof.
  intros (Hd & i & k & Hf & Hk) Hr. unfold bind, attempt in Hr. rewrite s2_connect_call in Hr.
  destruct (connect_fd _ w1) as [[r| |] w3] eqn:Hc; [|done..]. unfold of_result in Hr.
  destruct (connect_result r) as [u|e] eqn:Hres; [|done]. injection Hr as <- <-.
  destruct (connect_reports _ _ _ _ _ _ Hf Hk Hc) as (d & ds & k' & ? & ? & ?); [by rewrite Hres|].
  exists d, ds, i, k'. by rewrite <-Hd.
Qed.

Lemma first_addr_world addr none w a w' : first_addr addr none w = (Ret (Ok a), w') → w' = w.
Proof. intros Ha. destruct (first_addr_cases addr none w) as [r Hr]. congruence. Qed.

Lemma socket_connect_nonblocking_dials addr timeout w :
  dials_for s2_as_raw_fd (socket_connect_nonblocking addr timeout) w.
Proof.
  intros s w' Hr. apply bind_ok_inv in Hr as (a & w0 & Ha & Hr). apply first_addr_world in Ha as ->.
  apply bind_ok_inv in Hr as (s1 & w1 & Hn & Hr). apply idle_new in Hn. apply or_drop_ok in Hr.
  apply bind_ok_inv in Hr as ([] & w2 & Hnb & Hr).
  eapply idle_configure in Hnb; [|intros ?; apply s2_nonblocking_call|done|exact Hn].
  by eapply connect_tail_dials.
Qed.

Lemma socket_connect_reusable_dials local_addr remote_addr w :
  dials_for s2_as_raw_fd (socket_connect_reusable_nonblocking local_addr remote_addr) w.
Proof.
  intros s w' Hr. apply bind_ok_inv in Hr as (a & w0 & Ha & Hr). apply first_addr_world in Ha as ->.
  apply bind_ok_inv in Hr as (b & w0 & Hb & Hr). apply first_addr_world in Hb as ->.
  apply bind_ok_inv in Hr as (s1 & w1 & Hn & Hr). apply idle_new in Hn. apply or_drop_ok in Hr.
  apply bind_ok_inv in Hr as ([] & w2 & Hnb & Hr).
  eapply idle_configure in Hnb; [|intros ?; apply s2_nonblocking_call|done|exact Hn].
  apply bind_ok_inv in Hr as ([] & w3 & Hra & Hr).
  eapply idle_configure in Hra; [|intros ?; apply s2_reuse_address_call|done|exact Hnb].
  apply bind_ok_inv in Hr as ([] & w4 & Hrp & Hr).
  assert (Hi : idle (s2_as_raw_fd s1) w w4).
  { destruct has_reuse_port; [|by injection Hrp as <-].
    eapply idle_configure in Hrp; [exact Hrp|intros ?; apply s2_reuse_port_call|done|done]. }
  apply bind_ok_inv in Hr as ([] & w5 & Hbi & Hr).
  eapply idle_configure in Hbi; [|intros ?; apply s2_bind_call|done|exact Hi].
  by eapply connect_tail_dials.
Qed.

Lemma dials_map {A B} (fd_of : A → RawFd) (fd_of' : B → RawFd) (g : A → B) (m : M io_error World A) w :
  (∀ a, fd_of' (g a) = fd_of a) → dials_for fd_of m w → dials_for fd_of' (let! a := m in ret (g a)) w.
Proof.
  intros Hg Hm b w' Hr. apply bind_ok_inv in Hr as (a & w1 & Ha & Hr). injection Hr as <- <-.
  rewrite Hg. by apply Hm.
Qed.

Lemma opens_tcp P (m : M io_error World Socket) w :
  opens s2_as_raw_fd P m w → opens fd P (let! s := m in ret (tcp_of_socket s)) w.
Proof. apply opens_map. intros s. apply s2_into_fd. Qed.

End connectors.

(** ** [peek] and [set_tcp_keepalive] *)

Lemma peek_fd_ok f n w b w' :
  peek_fd f n w = (Ret (Ok b), w') → w' = w ∧ ∃ w2, recv f n w = (Ret (Ok b), w2).
Proof.
  unfold peek_fd, recv, on_socket. destruct (find f w) as [[i s]|] eqn:Hf; [|done].
  destruct (recv_socket n s) as [[[b'|e]|msg|] s'] eqn:Hr; intros [= <- <-]. split; [|by eexists].
  unfold find in Hf. destruct (fds w !! f) as [j|]; [|done].
  destruct (socks w !! j) eqn:Hj; [|done]. injection Hf as -> ->.
  rewrite insert_id by done. by destruct w.
Qed.

Lemma peek_fd_no_panic f n w msg w' : peek_fd f n w ≠ (Panic msg, w').
Proof.
  intros Hq. apply on_socket_inv in Hq as [(_ & ? & _)|(i & k & k' & _ & Hk & _)]; [done|].
  unfold recv_socket, wait in Hk. by repeat (case_match; simplify_eq/=).
Qed.

(** The copying loop: with [before] copied and [b] still to come, it overwrites
    the next [length b] bytes of the buffer and leaves the others. *)
Lemma copy_range_spec (b before old : bytes) (rest : list MaybeUninit) w :
  length b ≤ length old →
  copy_range (length before) (length b) ((Some <$> before ++ b) ++ rest) (before ++ old) w =
    (Ret (Ok (before ++ b ++ drop (length b) old)), w).
Proof.
  revert before old. induction b as [|x b IH]; intros before old Hl; [done|].
  destruct old as [|y old]; simpl in Hl; [lia|]. cbn [length copy_range].
  rewrite lookup_app_l, list_lookup_fmap, lookup_app_r, Nat.sub_diag
    by (rewrite ?length_fmap, ?length_app; simpl; lia). simpl.
  rewrite (proj2 (Nat.ltb_lt _ _)) by (rewrite length_app; simpl; lia).
  rewrite insert_app_r_alt, Nat.sub_diag by lia. simpl.
  specialize (IH (before ++ [x]) old). rewrite length_app, Nat.add_1_r, <-!app_assoc in IH.
  apply IH. lia.
Qed.

Module ConnectionContract.
Section specs.
Context `{NetAddrApi} `{Target} `{!Socket2, !Socket2Laws}.

(** What [peek] into [buf] shows of a connection [c]: the kernel is left as it
    was, a [read] with a buffer of that size that follows gets the same bytes,
    and these are at the start of [buf], the rest of which is as before. *)
Definition shows {C} `{NetConnection C} (buf : bytes) (c : C) (w : World) : Prop :=
  (∀ len buf' w', peek buf c w = (Ret (Ok (len, buf')), w') →
     w' = w ∧ ∃ b st, read (length buf) (c, w') = (Ret (Ok b), st) ∧
       len = length b ∧ buf' = b ++ drop len buf) ∧
  (∀ msg w', peek buf c w ≠ (Panic msg, w')).

(** C31: [peek] looks at the data without taking it, on both kinds of
    connection: it leaves the kernel as it was, and puts at the start of the
    buffer what a [read] would get, changing nothing behind it.  The byte-wise
    copy out of the uninitialised buffer given to [socket2] stays in the bounds
    of both buffers and reads no byte that was not written. *)
Theorem peek_then_read buf (t : TcpStream) (s : Socket) w : shows buf t w ∧ shows buf s w.
Proof.
  split; (split; [intros len buf' w' Hp|intros msg w' Hp]); simpl in Hp.
  - apply bind_ok_inv in Hp as (b & w1 & Hq & Hp). apply peek_fd_ok in Hq as (-> & w2 & Hr).
    injection Hp as <- <- <-. split; [done|]. exists b. simpl. unfold on_world. simpl. rewrite Hr. by eexists.
  - unfold Tcp.peek, bind in Hp. destruct (peek_fd _ _ _) as [[[]|m|] w1] eqn:Hq; try done.
    by apply peek_fd_no_panic in Hq.
  - unfold socket_peek in Hp. apply bind_ok_inv in Hp as ([n buf2] & w1 & Hs & Hp).
    rewrite s2_peek_call, length_replicate in Hs. apply bind_ok_inv in Hs as (b & w2 & Hq & Hs).
    apply peek_fd_ok in Hq as (-> & w3 & Hr). injection Hs as <- <- <-.
    pose proof (proj1 (recv_ok _ _ _ _ _ Hr)) as Hl.
    unfold bind in Hp. rewrite (copy_range_spec b [] buf) in Hp by done. injection Hp as <- <- <-.
    split; [done|]. exists b. simpl. unfold on_world. simpl. rewrite s2_recv_call, Hr. by eexists.
  - unfold socket_peek, bind in Hp. rewrite s2_peek_call, length_replicate in Hp. unfold bind in Hp.
    destruct (peek_fd _ _ _) as [[[b|]|m|] w1] eqn:Hq; simpl in Hp; try done.
    + apply peek_fd_ok in Hq as (-> & w3 & Hr). pose proof (proj1 (recv_ok _ _ _ _ _ Hr)) as Hl.
      by rewrite (copy_range_spec b [] buf) in Hp by done.
    + by apply peek_fd_no_panic in Hq.
Qed.

(** C39: [TcpStream::set_tcp_keepalive] that succeeds leaves the descriptor
    table alone; one that fails has closed the descriptor of the stream it was
    called on: the second owner made by [from_raw_fd] is dropped by the early
    return, before [into_raw_fd] can give the descriptor up.  The stream, still
    in the caller's hands, then only gets [EBADF]. *)
Theorem keepalive_failure_closes keepalive (s : TcpStream) w r w' :
  set_tcp_keepalive keepalive s w = (Ret r, w') →
  match r with
  | Ok _ => fds w' = fds w
  | Err _ => fds w' = delete (fd s) (fds w) ∧
      (∀ n, read n (s, w') = (Ret (Err bad_fd), (s, w'))) ∧
      (∀ b, write b (s, w') = (Ret (Err bad_fd), (s, w')))
  end.
Proof.
  simpl. unfold tcp_set_tcp_keepalive. intros Hk.
  set (m := s2_set_tcp_keepalive keepalive (s2_from_raw_fd (fd s))) in Hk.
  assert (Hm : ∃ r1 w1, m w = (Ret r1, w1) ∧ fds w1 = fds w).
  { subst m. rewrite s2_keepalive_call. unfold configure.
    destruct (syscall_cases w) as ([[]|e] & w1 & Hs & Hfds & _);
      [rewrite (bind_ok _ _ _ _ _ Hs)|rewrite (bind_err _ _ _ _ _ Hs); eauto].
    rewrite <- Hfds. unfold on_socket. destruct (find _ w1) as [[i k]|]; by eexists _, _. }
  destruct Hm as ([[]|e] & w1 & Hm & Hfds); unfold bind, or_drop in Hk; rewrite Hm in Hk.
  - by injection Hk as <- <-.
  - rewrite s2_drop_call, s2_fd_from in Hk. injection Hk as <- <-.
    assert (Hf : find (fd s) (set_fds (delete (fd s) (fds w1)) w1) = None).
    { unfold find. simpl. by rewrite lookup_delete_eq. }
    split; [by simpl; rewrite Hfds|].
    split; intros ?; unfold on_world, recv, send, on_socket; simpl; by rewrite Hf.
Qed.

End specs.
End ConnectionContract.
