(* ===== verification/Listener.v ===== *)
(** * [src/listener.rs]: the trait [NetListener]

    The trait is a class with the two implementations of the crate as instances:
    [std::net::TcpListener], modelled on the kernel, and [socket2::Socket].
    [ToSocketAddrs] is the class of what an address resolves to. *)

From S2P Require Import Prelude Std Kernel Connection ConnectionSpecs.

(** ** [std::net::ToSocketAddrs] and [std::net::TcpListener] *)

Class ToSocketAddrs (A : Type) := resolve : A → World → io_result (list SocketAddr).

Record TcpListener : Set := mk_listener { l_fd : RawFd }.

Module StdListener.

(** [socket], [SO_REUSEADDR], [bind] and [listen]; a failure closes the socket. *)
Definition bind_one (addr : SocketAddr) : M io_error World TcpListener :=
  run! syscall in
  let! f := open_socket fresh_socket in
  or_drop (close f) (
    run! configure f id in
    run! configure f (set_local (Some addr)) in
    run! configure f (set_backlog (Some 128%Z)) in
    ret (mk_listener f)).

(** The first address that can be bound, or the last error. *)
Fixpoint bind_each (addrs : list SocketAddr) (last : io_error) : M io_error World TcpListener :=
  match addrs with
  | [] => fail last
  | addr :: rest =>
      let! r := attempt (bind_one addr) in
      match r with
      | Ok l => ret l
      | Err e => bind_each rest e
      end
  end.

Definition bind {A} `{ToSocketAddrs A} (addr : A) : M io_error World TcpListener :=
  let! addrs := λ w, of_result (resolve addr w) w in
  bind_each addrs (error_new InvalidInput "could not resolve to any addresses").

Definition accept (l : TcpListener) : M io_error World (TcpStream * SocketAddr) :=
  let! c := accept_fd (l_fd l) in ret (mk_tcp c.1, c.2).

Definition local_addr (l : TcpListener) : M io_error World SocketAddr :=
  let! a := inspect (l_fd l) sk_local in of_result (ok_or a (error_from InvalidInput)).
Definition ttl (l : TcpListener) : M io_error World Z := inspect (l_fd l) sk_ttl.
Definition set_ttl (t : Z) (l : TcpListener) : M io_error World unit := configure (l_fd l) (set_sk_ttl t).
Definition set_nonblocking (b : bool) (l : TcpListener) : M io_error World unit :=
  configure (l_fd l) (set_sk_nonblocking b).
Definition try_clone (l : TcpListener) : M io_error World TcpListener :=
  let! f := dup (l_fd l) in ret (mk_listener f).
Definition take_error (l : TcpListener) : M io_error World (option io_error) :=
  let! e := inspect (l_fd l) sk_error in
  run! on_socket (l_fd l) (λ k, (Ret (Ok tt), set_sk_error None k)) in
  ret e.

End StdListener.

(** [Result::expect] on the result of a call. *)
Definition expect_ok {St A} (m : M io_error St A) (msg : string) : M io_error St A :=
  let! r := attempt m in match r with Ok a => ret a | Err _ => panic msg end.

(** ** The trait *)

Class NetListener (L : Type) := {
  ListenStream : Type;
  listen_conn :: NetConnection ListenStream;
  listener_fd : L → RawFd;
  listen_bind {A} `{ToSocketAddrs A} : A → M io_error World L;
  listen_bind_reusable {A} `{ToSocketAddrs A} : A → M io_error World L;
  listen_accept : L → M io_error World ListenStream;
  listen_local_addr : L → M io_error World SocketAddr;
  listen_ttl : L → M io_error World Z;
  listen_set_ttl : Z → L → M io_error World unit;
  listen_set_nonblocking : bool → L → M io_error World unit;
  listen_try_clone : L → M io_error World L;
  listen_take_error : L → M io_error World (option io_error);
  listen_drop : L → M io_error World unit
}.
Arguments ListenStream L {_}.

Section instances.
Context `{NetAddrApi} `{Socket2} `{Target}.

(** [addr.to_socket_addrs()?.next().ok_or(InvalidInput)?]. *)
Definition first_resolved {A} `{ToSocketAddrs A} (addr : A) : M io_error World SocketAddr :=
  let! addrs := λ w, of_result (resolve addr w) w in
  of_result (ok_or (head addrs) (error_from InvalidInput)).

(** *** [NetListener for socket2::Socket] *)

Definition socket_bind {A} `{ToSocketAddrs A} (addr : A) : M io_error World Socket :=
  let! addr := first_resolved addr in
  let! socket := s2_new (for_address addr) in
  or_drop (s2_drop socket) (
    run! s2_bind (sockaddr_from addr) socket in
    ret socket).

Definition socket_bind_reusable {A} `{ToSocketAddrs A} (addr : A) : M io_error World Socket :=
  let! addr := first_resolved addr in
  let! socket := s2_new (for_address addr) in
  or_drop (s2_drop socket) (
    run! s2_set_reuse_address true socket in
    run! (if has_reuse_port then s2_set_reuse_port true socket else ret tt) in
    run! s2_bind (sockaddr_from addr) socket in
    ret socket).

Definition socket_accept (l : Socket) : M io_error World Socket :=
  let! c := s2_accept l in ret c.1.

Definition socket_local_addr (l : Socket) : M io_error World SocketAddr :=
  let! a := expect_ok (λ w, of_result (s2_local_addr l w) w) "TCP listener doesn't have local address" in
  expect (as_socket a) "TCP listener doesn't has local socket".

#[export] Instance Socket_listener : NetListener Socket := {|
  ListenStream := Socket;
  listen_conn := Socket_connection;
  listener_fd := s2_as_raw_fd;
  listen_bind A _ := socket_bind;
  listen_bind_reusable A _ := socket_bind_reusable;
  listen_accept := socket_accept;
  listen_local_addr := socket_local_addr;
  listen_ttl := s2_ttl;
  listen_set_ttl := s2_set_ttl;
  listen_set_nonblocking := s2_set_nonblocking;
  listen_try_clone := s2_try_clone;
  listen_take_error := s2_take_error;
  listen_drop := s2_drop
|}.

(** *** [NetListener for TcpListener] *)

Definition BACKLOG : Z := 128.

Definition tcp_bind_reusable {A} `{ToSocketAddrs A} (addr : A) : M io_error World TcpListener :=
  let! socket := socket_bind_reusable addr in
  or_drop (s2_drop socket) (
    run! s2_listen BACKLOG socket in
    ret (mk_listener (s2_into_raw_fd socket))).

Definition tcp_accept (l : TcpListener) : M io_error World TcpStream :=
  let! c := StdListener.accept l in ret c.1.

Definition tcp_listener_local_addr (l : TcpListener) : M io_error World SocketAddr :=
  expect_ok (StdListener.local_addr l) "TCP listener doesn't have local address".

#[export] Instance TcpListener_listener : NetListener TcpListener := {|
  ListenStream := TcpStream;
  listen_conn := TcpStream_connection;
  listener_fd := l_fd;
  listen_bind A _ := StdListener.bind;
  listen_bind_reusable A _ := tcp_bind_reusable;
  listen_accept := tcp_accept;
  listen_local_addr := tcp_listener_local_addr;
  listen_ttl := StdListener.ttl;
  listen_set_ttl := StdListener.set_ttl;
  listen_set_nonblocking := StdListener.set_nonblocking;
  listen_try_clone := StdListener.try_clone;
  listen_take_error := StdListener.take_error;
  listen_drop l := close (l_fd l)
|}.

End instances.
