(* ===== verification/Session.v ===== *)
(** * [src/session.rs]: sessions, state machines and protocol layers

    A [NetSession] is a byte stream that becomes usable after a handshake.  The
    base sessions are connections ([TcpStream], [socket2::Socket]); a
    [NetProtocol] puts a handshake state machine (SOCKS5, Noise, Eidolon) on top
    of an inner session and is a session itself, so layers stack.

    Traits become classes: [NetStateMachine], [NetSession], [IntoInit].  What a
    session promises to its clients (the outer layers, [NetTransport],
    [Tunnel]) is the class [NetSessionLaws] of [SessionLaws], discharged there for
    [TcpStream] and for every [NetProtocol] over a lawful inner session. *)

From S2P Require Import Prelude Std Kernel Connection.

(** ** [NetStateMachine] *)

Class NetStateMachine (Mch : Type) := {
  NAME : string;
  Init : Type;
  MArtifact : Type;
  MError : Type;
  error_string : MError → string;               (* [Display] of the error *)
  m_init : Init → Mch → Mch;
  next_read_len : Mch → nat;
  advance : bytes → Mch → result MError bytes * Mch;
  m_artifact : Mch → option MArtifact;
  is_init : Mch → bool
}.
Arguments Init Mch {_}.
Arguments MArtifact Mch {_}.
Arguments MError Mch {_}.

Definition is_complete `{NetStateMachine Mch} (m : Mch) : bool := is_some (m_artifact m).

(** [HandshakeError::with] and its [Display]. *)
Definition handshake_error `{NetStateMachine Mch} (e : MError Mch) : string :=
  ("handshake has failed due to " +:+ error_string e)%string.

(** [self.advance(&input).map_err(...)]: a failed handshake aborts the
    connection. *)
Definition advance_or_abort `{NetStateMachine Mch} {X} (input : bytes) :
    M io_error (Mch * X) bytes :=
  λ '(m, x), match advance input m with
             | (Ok act, m') => (Ret (Ok act), (m', x))
             | (Err e, m') => (Ret (Err (error_new ConnectionAborted (handshake_error e))), (m', x))
             end.

(** Code that uses the second component of a pair of states. *)
Definition on_snd {E X Y A} (m : M E Y A) : M E (X * Y) A :=
  zoom snd (λ y st, (st.1, y)) m.

(** The provided method [NetStateMachine::run_handshake]: acts are written
    whole, answers are read whole, until the machine has its artifact. *)
Fixpoint run_machine `{NetStateMachine Mch} {C} `{Stream C} `{Fuel}
    (fuel : nat) (input : bytes) : M io_error (Mch * (C * World)) unit :=
  let! st := gets fst in
  if is_complete st then ret tt else
  match fuel with
  | 0 => no_return
  | S fuel =>
    let! act := advance_or_abort input in
    run! (if is_empty act then ret tt else on_snd (write_all act)) in
    let! st := gets fst in
    let! input := (if is_complete st then ret input
                   else on_snd (read_exact (next_read_len st))) in
    run_machine fuel input
  end.

(** ** [NetSession] *)

Class NetSession (S : Type) := {
  sess_stream :: Stream S;
  Connection : Type;
  sess_conn :: NetConnection Connection;
  Artifact : Type;
  artifact_string : Artifact → string;           (* [Display] of the artifact *)
  artifact : S → World → option Artifact;
  as_connection : S → Connection;
  put_connection : Connection → S → S;           (* writing through [as_connection_mut] *)
  run_handshake : M io_error (S * World) unit;
  disconnect : S → M io_error World unit
}.
Arguments Connection S {_}.
Arguments Artifact S {_}.

Definition is_established {S} `{NetSession S} (s : S) (w : World) : bool := is_some (artifact s w).

Definition display {S} `{NetSession S} (s : S) (w : World) : string :=
  match artifact s w with
  | Some a => artifact_string a
  | None => "<no-id>"
  end.

(** A session that leaves scope drops the connection it owns. *)
Definition sess_drop {S} `{NetSession S} (s : S) : M io_error World unit :=
  conn_drop (as_connection s).

(** A method call on [self.as_connection_mut()]. *)
Definition on_connection {S} `{NetSession S} {E A} (m : M E (Connection S * World) A) :
    M E (S * World) A :=
  zoom (λ st, (as_connection st.1, st.2)) (λ c st, (put_connection c.1 st.1, c.2)) m.

(** ** [IntoInit] *)

Class IntoInit (A I : Type) := into_init : A → I.

Inductive ZeroInit : Set := zero_init.

#[export] Instance zero_into_init A : IntoInit A ZeroInit := λ _, zero_init.

(** ** [NetProtocol] *)

Record ProtocolArtifact (SA MA : Type) : Type := mk_artifact {
  pa_session : SA;
  pa_state : MA
}.
Arguments mk_artifact {SA MA} _ _.
Arguments pa_session {SA MA} _.
Arguments pa_state {SA MA} _.

Record NetProtocol (Mch S : Type) : Type := mk_protocol {
  np_state : Mch;
  np_session : S
}.
Arguments mk_protocol {Mch S} _ _.
Arguments np_state {Mch S} _.
Arguments np_session {Mch S} _.

Module Protocol.
Section operations.
Context `{Fuel} {Mch S : Type} `{NetStateMachine Mch} `{NetSession S}
  `{!IntoInit (Artifact S) (Init Mch)}.

Abbreviation proto := (NetProtocol Mch S).

Definition new (default : Mch) (session : S) : proto := mk_protocol default session.
Definition with_ (session : S) (state_machine : Mch) : proto := mk_protocol state_machine session.

(** Method calls on [self.session] and [self.state]. *)
Definition on_session {E A} (m : M E (S * World) A) : M E (proto * World) A :=
  zoom (λ st, (np_session st.1, st.2)) (λ s st, (mk_protocol (np_state st.1) s.1, s.2)) m.

Definition on_state {E A} (m : M E (Mch * World) A) : M E (proto * World) A :=
  zoom (λ st, (np_state st.1, st.2)) (λ m st, (mk_protocol m.1 (np_session st.1), m.2)) m.

(** The private method [init]: it feeds the artifact of the inner session to the
    machine, once, and tells whether it did. *)
Definition init {E} : M E (proto * World) bool := λ '(p, w),
  if negb (is_init (np_state p)) then
    match artifact (np_session p) w with
    | Some art =>
        (Ret (Ok true), (mk_protocol (m_init (into_init art) (np_state p)) (np_session p), w))
    | None => (Ret (Ok false), (p, w))
    end
  else (Ret (Ok false), (p, w)).

(** Is the call for the inner session? *)
Definition passes_through (p : proto) (w : World) : bool :=
  is_complete (np_state p) || negb (is_established (np_session p) w).

Definition read (n : nat) : M io_error (proto * World) bytes :=
  let! st := gets id in
  if passes_through st.1 st.2 then on_session (Kernel.read n) else
  run! init in
  let! len := gets (λ st, next_read_len (np_state st.1)) in
  let! input := on_session (read_exact len) in
  run! (if is_empty input then ret tt else
        let! output := on_state (advance_or_abort input) in
        if is_empty output then ret tt else on_session (write_all output)) in
  ret [].

Definition write (buf : bytes) : M io_error (proto * World) nat :=
  let! st := gets id in
  if passes_through st.1 st.2 then on_session (Kernel.write buf) else
  run! init in
  let! len := gets (λ st, next_read_len (np_state st.1)) in
  let finish := if is_empty buf then ret 0 else fail (error_from Interrupted) in
  if bool_decide (len = 0) then
    let! act := on_state (advance_or_abort []) in
    if is_empty act then on_session (Kernel.write buf)
    else run! on_session (write_all act) in finish
  else finish.

Definition flush : M io_error (proto * World) unit := on_session Kernel.flush.

Definition artifact (p : proto) (w : World) :
    option (ProtocolArtifact (Artifact S) (MArtifact Mch)) :=
  match Session.artifact (np_session p) w, m_artifact (np_state p) with
  | Some s, Some m => Some (mk_artifact s m)
  | _, _ => None
  end.

(** The machine talks to the bare connection under all layers. *)
Definition run_state_handshake : M io_error (proto * World) unit :=
  zoom (λ st, (np_state st.1, (as_connection (np_session st.1), st.2)))
       (λ mc st, (mk_protocol mc.1 (put_connection mc.2.1 (np_session st.1)), mc.2.2))
       (run_machine loop_fuel []).

Definition run_handshake : M io_error (proto * World) unit :=
  let! st := gets id in
  run! (if is_established (np_session st.1) st.2 then ret tt
        else on_session Session.run_handshake) in
  run! init in
  run_state_handshake.

Definition disconnect (p : proto) : M io_error World unit := Session.disconnect (np_session p).

End operations.
End Protocol.

#[export] Instance NetProtocol_stream `{Fuel} {Mch S} `{NetStateMachine Mch} `{NetSession S}
    `{!IntoInit (Artifact S) (Init Mch)} : Stream (NetProtocol Mch S) := {|
  Kernel.read := Protocol.read;
  Kernel.write := Protocol.write;
  Kernel.flush := Protocol.flush
|}.

#[export] Instance NetProtocol_session `{Fuel} {Mch S} `{NetStateMachine Mch} `{NetSession S}
    `{!IntoInit (Artifact S) (Init Mch)} : NetSession (NetProtocol Mch S) := {|
  sess_stream := NetProtocol_stream;
  Connection := Connection S;
  sess_conn := sess_conn;
  Artifact := ProtocolArtifact (Artifact S) (MArtifact Mch);
  artifact_string a := artifact_string (pa_session a);
  artifact := Protocol.artifact;
  as_connection p := as_connection (np_session p);
  put_connection c p := mk_protocol (np_state p) (put_connection c (np_session p));
  run_handshake := Protocol.run_handshake;
  disconnect := Protocol.disconnect
|}.

(** ** [NetSession for TcpStream] and [NetSession for socket2::Socket] *)

(** [Display for SocketAddr]. *)
Class AddrDisplay := addr_string : SocketAddr → string.

Section base_sessions.
Context `{NetAddrApi} `{Socket2} `{Target} `{AddrDisplay}.

(** [disconnect] consumes the session: its descriptor is closed on return. *)
Definition tcp_disconnect (s : TcpStream) : M io_error World unit := λ w,
  let '(r, w) := Tcp.shutdown ShutBoth s w in
  let '(_, w) := Tcp.drop (E:=io_error) s w in
  (r, w).

Definition socket_disconnect (s : Socket) : M io_error World unit := λ w,
  let '(r, w) := s2_shutdown ShutBoth s w in
  let '(_, w) := s2_drop s w in
  (r, w).

Definition result_ok {E A} (r : result E A) : option A :=
  match r with Ok a => Some a | Err _ => None end.

#[export] Instance TcpStream_session : NetSession TcpStream := {|
  sess_stream := TcpStream_stream;
  Connection := TcpStream;
  sess_conn := TcpStream_connection;
  Artifact := SocketAddr;
  artifact_string := addr_string;
  artifact s w := result_ok (Tcp.peer_addr s w);
  as_connection s := s;
  put_connection c _ := c;
  run_handshake := ret tt;
  disconnect := tcp_disconnect
|}.

#[export] Instance Socket_session : NetSession Socket := {|
  sess_stream := Socket_stream;
  Connection := Socket;
  sess_conn := Socket_connection;
  Artifact := SocketAddr;
  artifact_string := addr_string;
  artifact s w := match s2_peer_addr s w with Ok a => as_socket a | Err _ => None end;
  as_connection s := s;
  put_connection c _ := c;
  run_handshake := ret tt;
  disconnect := socket_disconnect
|}.

End base_sessions.
