(* ===== verification/SessionLaws.v ===== *)
(** * What a session promises, and that layers keep the promise

    [NetSessionLaws] is the interface between a session and its clients; it is
    proved for [TcpStream] and carried through [NetProtocol].  The lemmas say
    when a layer passes data through, that nothing is delivered to or taken from
    the application before the handshake is over, and what [run_handshake]
    guarantees.  [DirectSession] is a session whose I/O, where it passes through,
    is that of one socket. *)

From S2P Require Import Prelude Std Kernel Connection Session.

(** ** The interface *)

(** A call that succeeded, or that is to be repeated. *)
Definition benign {A} (r : io_result A) : bool :=
  match r with Ok _ => true | Err e => is_interrupted e end.

Class NetSessionLaws (S : Type) `{NetSession S} := {
  (** the contracts of [io::Read] and [io::Write] *)
  law_read_len n (s : S) w b s' w' :
    read n (s, w) = (Ret (Ok b), (s', w')) → length b ≤ n;
  law_write_len b (s : S) w k s' w' :
    write b (s, w) = (Ret (Ok k), (s', w')) → k ≤ length b;
  law_read_no_panic n (st : S * World) msg st' : read n st ≠ (Panic msg, st');
  law_write_no_panic b (st : S * World) msg st' : write b st ≠ (Panic msg, st');
  law_flush_no_panic (st : S * World) msg st' : flush st ≠ (Panic msg, st');
  (** no data before the session is established *)
  law_read_early n (s : S) w b s' w' :
    is_established s w = false → read n (s, w) = (Ret (Ok b), (s', w')) → b = [];
  (** reading and writing do not tear an established session down *)
  law_read_keeps n (s : S) w r s' w' :
    is_established s w = true → read n (s, w) = (Ret r, (s', w')) →
    benign r = true → is_established s' w' = true;
  law_write_keeps b (s : S) w r s' w' :
    is_established s w = true → write b (s, w) = (Ret r, (s', w')) →
    benign r = true → is_established s' w' = true;
  (** [as_connection] and [as_connection_mut] are one place *)
  law_get_put c (s : S) : as_connection (put_connection c s) = c;
  law_put_get (s : S) : put_connection (as_connection s) s = s;
  law_put_put c c' (s : S) : put_connection c (put_connection c' s) = put_connection c s;
  (** an established session is a plain view of its connection *)
  law_read_through n (s : S) w :
    is_established s w = true → read n (s, w) = on_connection (read n) (s, w);
  law_write_through b (s : S) w :
    is_established s w = true → write b (s, w) = on_connection (write b) (s, w);
  law_flush_through (s : S) w : flush (s, w) = on_connection flush (s, w)
}.

(** ** The base session [TcpStream] *)

Section tcp.
Context `{NetAddrApi} `{Socket2} `{Target} `{AddrDisplay}.

Lemma tcp_established (s : TcpStream) w : is_established s w = is_ok (getpeername (fd s) w).
Proof. unfold is_established. simpl. unfold Tcp.peer_addr. by destruct (getpeername _ _). Qed.

Lemma on_connection_id {E A} (m : M E (TcpStream * World) A) st :
  on_connection (S:=TcpStream) m st = m st.
Proof.
  unfold on_connection, zoom. destruct st as [s w]. simpl. destruct (m (s, w)) as [r [s' w']]. done.
Qed.

Lemma recv_interrupted fd n w e w' :
  recv fd n w = (Ret (Err e), w') → is_interrupted e = true → getpeername fd w' = getpeername fd w.
Proof.
  intros Hr He. apply on_socket_inv in Hr as [(_ & _ & ->)|(i & s & s' & Hf & Hs & Hf' & _)]; [done|].
  rewrite (getpeername_find _ _ _ _ Hf), (getpeername_find _ _ _ _ Hf').
  unfold recv_socket, wait in Hs. by repeat (case_match; simplify_eq/=).
Qed.

Lemma send_keeps_peer fd b w r w' :
  send fd b w = (r, w') → getpeername fd w' = getpeername fd w.
Proof.
  intros Hr. apply on_socket_inv in Hr as [(_ & _ & ->)|(i & s & s' & Hf & Hs & Hf' & _)]; [done|].
  rewrite (getpeername_find _ _ _ _ Hf), (getpeername_find _ _ _ _ Hf').
  unfold send_socket, wait, peer_of in *. by repeat (case_match; simplify_eq/=).
Qed.

Lemma tcp_read_inv n (s : TcpStream) w r s' w' :
  read n (s, w) = (r, (s', w')) → s' = s ∧ recv (fd s) n w = (r, w').
Proof. exact (on_world_inv (λ s, recv (fd s) n) s w r s' w'). Qed.

Lemma tcp_write_inv b (s : TcpStream) w r s' w' :
  write b (s, w) = (r, (s', w')) → s' = s ∧ send (fd s) b w = (r, w').
Proof. exact (on_world_inv (λ s, send (fd s) b) s w r s' w'). Qed.

Lemma recv_no_panic fd n w msg w' : recv fd n w ≠ (Panic msg, w').
Proof.
  intros Hr. apply on_socket_inv in Hr as [(_ & ? & _)|(i & s & s' & _ & Hs & _)]; [done|].
  unfold recv_socket, wait in Hs. by repeat (case_match; simplify_eq/=).
Qed.

Lemma send_no_panic fd b w msg w' : send fd b w ≠ (Panic msg, w').
Proof.
  intros Hr. apply on_socket_inv in Hr as [(_ & ? & _)|(i & s & s' & _ & Hs & _)]; [done|].
  unfold send_socket, wait in Hs. by repeat (case_match; simplify_eq/=).
Qed.

#[export] Instance tcp_laws : NetSessionLaws TcpStream.
Proof.
  constructor; try done.
  - intros n s w b s' w' Hr. apply tcp_read_inv in Hr as [-> Hr]. by apply recv_ok in Hr as (? & _).
  - intros b s w k s' w' Hr. apply tcp_write_inv in Hr as [-> Hr]. by apply send_ok in Hr as (? & _).
  - intros n [s w] msg [s' w'] Hr. apply tcp_read_inv in Hr as [-> Hr]. by eapply recv_no_panic.
  - intros b [s w] msg [s' w'] Hr. apply tcp_write_inv in Hr as [-> Hr]. by eapply send_no_panic.
  - intros n s w b s' w' He Hr. rewrite tcp_established in He.
    apply tcp_read_inv in Hr as [-> Hr]. apply recv_ok in Hr as (_ & _ & _ & Hb). auto.
  - intros n s w r s' w' He Hr Hb. apply tcp_read_inv in Hr as [-> Hr].
    rewrite tcp_established in *. destruct r as [b|e].
    + by apply recv_ok in Hr as (_ & -> & _).
    + by rewrite (recv_interrupted _ _ _ _ _ Hr Hb).
  - intros b s w r s' w' He Hr Hb. apply tcp_write_inv in Hr as [-> Hr].
    rewrite tcp_established in *. by rewrite (send_keeps_peer _ _ _ _ _ Hr).
  - intros n s w _. by rewrite on_connection_id.
  - intros b s w _. by rewrite on_connection_id.
Qed.

End tcp.

(** ** Layers *)

Section protocol.
Context `{Fuel} {Mch S : Type} `{NetStateMachine Mch} `{NetSession S}
  `{!IntoInit (Artifact S) (Init Mch)}.

Abbreviation proto := (NetProtocol Mch S).

Lemma established_protocol (p : proto) w :
  is_established p w = is_established (np_session p) w && is_complete (np_state p).
Proof.
  unfold is_established, is_complete. simpl. unfold Protocol.artifact.
  destruct (artifact (np_session p) w), (m_artifact (np_state p)); done.
Qed.

Lemma passes_through_false (p : proto) w :
  Protocol.passes_through p w = false →
  is_complete (np_state p) = false ∧ is_established (np_session p) w = true.
Proof. unfold Protocol.passes_through. destruct (is_complete _), (is_established _ _); done. Qed.

Lemma established_passes_through (p : proto) w :
  is_established p w = true → Protocol.passes_through p w = true.
Proof. rewrite established_protocol. unfold Protocol.passes_through. by destruct (is_complete _), (is_established _ _). Qed.

(** While the layer is not established, whatever passes through it meets an
    inner session that is not established either. *)
Lemma early_passes_through (p : proto) w :
  is_established p w = false → Protocol.passes_through p w = true →
  is_established (np_session p) w = false.
Proof. rewrite established_protocol. unfold Protocol.passes_through. by destruct (is_complete _), (is_established _ _). Qed.

Lemma on_session_inv {E A} (m : M E (S * World) A) (p : proto) w r p' w' :
  Protocol.on_session m (p, w) = (r, (p', w')) →
  ∃ s', m (np_session p, w) = (r, (s', w')) ∧ p' = mk_protocol (np_state p) s'.
Proof.
  unfold Protocol.on_session, zoom. simpl. destruct (m _) as [r1 [s1 w1]]. naive_solver.
Qed.

Lemma on_session_eq {E A} (m : M E (S * World) A) (p : proto) w r s' w' :
  m (np_session p, w) = (r, (s', w')) →
  Protocol.on_session m (p, w) = (r, (mk_protocol (np_state p) s', w')).
Proof. unfold Protocol.on_session, zoom. simpl. by intros ->. Qed.

(** [init] always returns and leaves the inner session and the world alone. *)
Definition initialised (p : proto) (w : World) : proto :=
  if is_init (np_state p) then p
  else match artifact (np_session p) w with
       | Some art => mk_protocol (m_init (into_init art) (np_state p)) (np_session p)
       | None => p
       end.

Lemma init_eq {E} (p : proto) w :
  ∃ b, Protocol.init (E:=E) (p, w) = (Ret (Ok b), (initialised p w, w)).
Proof.
  unfold Protocol.init, initialised. destruct (is_init _); simpl; [eauto|].
  destruct (artifact _ _); eauto.
Qed.

Lemma session_initialised (p : proto) w : np_session (initialised p w) = np_session p.
Proof. unfold initialised. destruct (is_init _); [done|]. by destruct (artifact _ _). Qed.

(** The two regimes of [read]. *)
Lemma read_through_eq n (p : proto) w :
  Protocol.passes_through p w = true →
  Protocol.read n (p, w) = Protocol.on_session (read n) (p, w).
Proof. intros Hp. unfold Protocol.read, bind, gets. simpl. by rewrite Hp. Qed.

Lemma read_early_eq n (p : proto) w :
  Protocol.passes_through p w = false →
  Protocol.read n (p, w) =
    bind (Protocol.on_session (read_exact (next_read_len (np_state (initialised p w)))))
      (λ input, run! (if is_empty input then ret tt else
          let! output := Protocol.on_state (advance_or_abort input) in
          if is_empty output then ret tt else Protocol.on_session (write_all output)) in
        ret []) (initialised p w, w).
Proof.
  intros Hp. destruct (init_eq (E:=io_error) p w) as [b Hi].
  unfold Protocol.read, bind at 1, gets at 1. simpl. rewrite Hp.
  by rewrite (bind_ok _ _ _ _ _ Hi).
Qed.

Lemma read_early_nothing n (p : proto) w b st' :
  Protocol.passes_through p w = false → Protocol.read n (p, w) = (Ret (Ok b), st') → b = [].
Proof.
  intros Hp. rewrite read_early_eq by done. intros Hr.
  apply bind_ok_inv in Hr as (? & ? & _ & Hr). apply bind_ok_inv in Hr as (? & ? & _ & Hr).
  by injection Hr.
Qed.

(** The two regimes of [write]. *)
Lemma write_through_eq b (p : proto) w :
  Protocol.passes_through p w = true →
  Protocol.write b (p, w) = Protocol.on_session (write b) (p, w).
Proof. intros Hp. unfold Protocol.write, bind at 1, gets at 1. simpl. by rewrite Hp. Qed.

Definition finish (buf : bytes) {St} : M io_error St nat :=
  if is_empty buf then ret 0 else fail (error_from Interrupted).

Lemma write_early_eq buf (p : proto) w :
  Protocol.passes_through p w = false →
  Protocol.write buf (p, w) =
    (if bool_decide (next_read_len (np_state (initialised p w)) = 0) then
      let! act := Protocol.on_state (advance_or_abort []) in
      if is_empty act then Protocol.on_session (write buf)
      else run! Protocol.on_session (write_all act) in finish buf
    else finish buf) (initialised p w, w).
Proof.
  intros Hp. destruct (init_eq (E:=io_error) p w) as [b Hi].
  unfold Protocol.write, bind at 1, gets at 1. simpl. rewrite Hp.
  by rewrite (bind_ok _ _ _ _ _ Hi).
Qed.

Lemma finish_ok buf {St} (st : St) k st' :
  finish buf st = (Ret (Ok k), st') → k = 0 ∧ buf = [].
Proof. unfold finish. destruct buf; simpl; [intros [= <- _]; done|done]. Qed.

Context `{!NetSessionLaws S}.

(** *** Panic freedom *)

Lemma read_exact_no_panic fuel n acc (st : S * World) :
  wp (read_exact_loop fuel n acc) (λ _ _, True) st.
Proof.
  revert n acc st. induction fuel as [|fuel IH]; intros n acc st; destruct n as [|n]; try done.
  cbn [read_exact_loop]. wp_step. wp_step. apply wp_intro; [by apply law_read_no_panic|].
  intros r [s' w'] Hr. destruct st as [s w]. destruct r as [[|x b]|e]; [done| |].
  - apply law_read_len in Hr. rewrite (proj2 (Nat.leb_le _ _) Hr). apply IH.
  - destruct (is_interrupted e); [apply IH|done].
Qed.

Lemma write_all_no_panic fuel b (st : S * World) : wp (write_all_loop fuel b) (λ _ _, True) st.
Proof.
  revert b st. induction fuel as [|fuel IH]; intros b st; destruct b as [|x b]; try done.
  cbn [write_all_loop]. wp_step. wp_step. apply wp_intro; [by apply law_write_no_panic|].
  intros r [s' w'] Hr. destruct st as [s w]. destruct r as [[|k]|e]; [done| |].
  - apply law_write_len in Hr. rewrite (proj2 (Nat.leb_le _ _) Hr). apply IH.
  - destruct (is_interrupted e); [apply IH|done].
Qed.

Lemma wp_true_bind {E St A B} (m : M E St A) (k : A → M E St B) st :
  wp m (λ _ _, True) st → (∀ a st', wp (k a) (λ _ _, True) st') → wp (bind m k) (λ _ _, True) st.
Proof. intros Hm Hk. apply wp_bind. eapply wp_mono; [exact Hm|]. intros [a|e] st' _; auto. Qed.

Lemma wp_true_on_session {E A} (m : M E (S * World) A) (st : proto * World) :
  (∀ st, wp m (λ _ _, True) st) → wp (Protocol.on_session m) (λ _ _, True) st.
Proof. intros Hm. unfold Protocol.on_session. wp_step. apply Hm. Qed.

Lemma wp_true_on_state input (st : proto * World) :
  wp (Protocol.on_state (advance_or_abort input)) (λ _ _, True) st.
Proof.
  unfold Protocol.on_state. wp_step. unfold wp, advance_or_abort. simpl.
  by destruct (advance _ _) as [[]].
Qed.

Lemma wp_true_init {E} (st : proto * World) : wp (Protocol.init (E:=E)) (λ _ _, True) st.
Proof. destruct st as [p w]. unfold wp. by destruct (init_eq (E:=E) p w) as [b ->]. Qed.

Lemma wp_true_if {E St A} (b : bool) (m1 m2 : M E St A) st :
  wp m1 (λ _ _, True) st → wp m2 (λ _ _, True) st → wp (if b then m1 else m2) (λ _ _, True) st.
Proof. by destruct b. Qed.

Lemma protocol_read_no_panic n (st : proto * World) : wp (Protocol.read n) (λ _ _, True) st.
Proof.
  unfold Protocol.read. wp_step. wp_step. apply wp_true_if.
  { apply wp_true_on_session. intros st'. apply wp_intro; [|done]. apply law_read_no_panic. }
  apply wp_true_bind; [apply wp_true_init|intros _ st1]. wp_step. wp_step.
  apply wp_true_bind; [|intros input st2].
  { apply wp_true_on_session. intros. apply read_exact_no_panic. }
  apply wp_true_bind; [|done]. apply wp_true_if; [done|].
  apply wp_true_bind; [apply wp_true_on_state|intros out st3]. apply wp_true_if; [done|].
  apply wp_true_on_session. intros. apply write_all_no_panic.
Qed.

Lemma protocol_write_no_panic b (st : proto * World) : wp (Protocol.write b) (λ _ _, True) st.
Proof.
  assert (Hthrough : ∀ st, wp (Protocol.on_session (write b)) (λ _ _, True) (st : proto * World)).
  { intros. apply wp_true_on_session. intros st'. apply wp_intro; [|done]. apply law_write_no_panic. }
  unfold Protocol.write. wp_step. wp_step. apply wp_true_if; [done|].
  apply wp_true_bind; [apply wp_true_init|intros _ st1]. wp_step. wp_step.
  apply wp_true_if; [|by apply wp_true_if].
  apply wp_true_bind; [apply wp_true_on_state|intros act st2]. apply wp_true_if; [done|].
  apply wp_true_bind; [|intros; by apply wp_true_if].
  apply wp_true_on_session. intros. apply write_all_no_panic.
Qed.

#[export] Instance protocol_laws : NetSessionLaws proto.
Proof.
  constructor.
  - intros n p w b p' w' Hr. destruct (Protocol.passes_through p w) eqn:Hp.
    + simpl in Hr. rewrite read_through_eq in Hr by done.
      apply on_session_inv in Hr as (s' & Hr & _). by eapply law_read_len.
    + by rewrite (read_early_nothing _ _ _ _ _ Hp Hr); simpl; lia.
  - intros b p w k p' w' Hr. simpl in Hr. destruct (Protocol.passes_through p w) eqn:Hp.
    + rewrite write_through_eq in Hr by done.
      apply on_session_inv in Hr as (s' & Hr & _). by eapply law_write_len.
    + rewrite write_early_eq in Hr by done. case_bool_decide; [|apply finish_ok in Hr; lia].
      apply bind_ok_inv in Hr as (act & [p1 w1] & _ & Hr). destruct (is_empty act).
      * apply on_session_inv in Hr as (s' & Hr & _). by eapply law_write_len.
      * apply bind_ok_inv in Hr as (? & ? & _ & Hr). apply finish_ok in Hr. lia.
  - intros n st msg st'. eapply wp_no_panic, protocol_read_no_panic.
  - intros b st msg st'. eapply wp_no_panic, protocol_write_no_panic.
  - intros st msg st'. eapply wp_no_panic. apply wp_true_on_session.
    intros. apply wp_intro; [|done]. apply law_flush_no_panic.
  - intros n p w b p' w' He Hr. destruct (Protocol.passes_through p w) eqn:Hp.
    + pose proof (early_passes_through _ _ He Hp). simpl in Hr.
      rewrite read_through_eq in Hr by done.
      apply on_session_inv in Hr as (s' & Hr & _). by eapply law_read_early.
    + eapply read_early_nothing; [exact Hp|exact Hr].
  - intros n p w r p' w' He Hr Hb. simpl in Hr.
    rewrite read_through_eq in Hr by by apply established_passes_through.
    apply on_session_inv in Hr as (s' & Hr & ->). rewrite established_protocol in *.
    simpl. apply andb_true_iff in He as [He ->]. by rewrite (law_read_keeps _ _ _ _ _ _ He Hr Hb).
  - intros b p w r p' w' He Hr Hb. simpl in Hr.
    rewrite write_through_eq in Hr by by apply established_passes_through.
    apply on_session_inv in Hr as (s' & Hr & ->). rewrite established_protocol in *.
    simpl. apply andb_true_iff in He as [He ->]. by rewrite (law_write_keeps _ _ _ _ _ _ He Hr Hb).
  - intros c p. simpl. apply law_get_put.
  - intros [m s]. simpl. by rewrite law_put_get.
  - intros c c' [m s]. simpl. by rewrite law_put_put.
  - intros n p w He. simpl. rewrite read_through_eq by by apply established_passes_through.
    rewrite established_protocol in He. apply andb_true_iff in He as [He _].
    unfold Protocol.on_session, on_connection, zoom. simpl. rewrite law_read_through by done.
    unfold on_connection, zoom. simpl. by destruct (read _ _) as [? [? ?]].
  - intros b p w He. simpl. rewrite write_through_eq by by apply established_passes_through.
    rewrite established_protocol in He. apply andb_true_iff in He as [He _].
    unfold Protocol.on_session, on_connection, zoom. simpl. rewrite law_write_through by done.
    unfold on_connection, zoom. simpl. by destruct (write _ _) as [? [? ?]].
  - intros p w. simpl. unfold Protocol.flush, Protocol.on_session, on_connection, zoom. simpl.
    rewrite law_flush_through. unfold on_connection, zoom. simpl. by destruct (flush _) as [? [? ?]].
Qed.

End protocol.

(** ** No application data before the end of the handshake *)

(** A machine whose turn it is to send (it waits for no input) and that has
    nothing to say. *)
Definition turn_silent {Mch} `{NetStateMachine Mch} (m : Mch) : bool :=
  bool_decide (next_read_len m = 0) &&
  match (advance [] m).1 with Ok act => is_empty act | Err _ => false end.

(** What [write] does before the session is established.  It takes no byte of
    the buffer, and all it does is the same for any two non-empty buffers:
    nothing the application writes can influence what leaves the machine.  The
    exception are sessions [exposed] by a silent machine: they hand the whole
    buffer to the connection under all layers. *)
Class EarlyWrites (S : Type) `{NetSession S} := {
  exposed : S → World → bool;
  early_write_none b (s : S) w k s' w' :
    is_established s w = false → exposed s w = false →
    write b (s, w) = (Ret (Ok k), (s', w')) → k = 0;
  early_write_oblivious b1 b2 (s : S) w :
    is_established s w = false → exposed s w = false →
    b1 ≠ [] → b2 ≠ [] → write b1 (s, w) = write b2 (s, w);
  exposed_write (s : S) w :
    is_established s w = false → exposed s w = true →
    ∃ s1, as_connection s1 = as_connection s ∧ ∀ b, write b (s, w) = on_connection (write b) (s1, w)
}.

#[export] Instance tcp_early_writes `{NetAddrApi} `{Socket2} `{Target} `{AddrDisplay} :
  EarlyWrites TcpStream.
Proof.
  refine {| exposed _ _ := false |}; [| |done].
  - intros b s w k s' w' He _ Hr. rewrite tcp_established in He.
    apply tcp_write_inv in Hr as [-> Hr]. apply send_ok in Hr as (_ & _ & _ & Hp). congruence.
  - intros b1 b2 s w He _ Hb1 Hb2. rewrite tcp_established in He. simpl. unfold on_world. simpl.
    unfold send, on_socket. unfold getpeername in He.
    destruct (find (fd s) w) as [[i k]|] eqn:Hf; [|done].
    unfold send_socket, peer_of in *. by destruct (sk_link k).
Defined.

Section early_writes.
Context `{Fuel} {Mch S : Type} `{NetStateMachine Mch} `{NetSession S}
  `{!IntoInit (Artifact S) (Init Mch)} `{!NetSessionLaws S}.

Abbreviation proto := (NetProtocol Mch S).

(** A write during the handshake, when the machine is not silent. *)
Lemma write_early_speaks buf (p : proto) w :
  Protocol.passes_through p w = false → turn_silent (np_state (initialised p w)) = false →
  Protocol.write buf (p, w) =
    (if bool_decide (next_read_len (np_state (initialised p w)) = 0) then
      let! act := Protocol.on_state (advance_or_abort []) in
      run! Protocol.on_session (write_all act) in finish buf
    else finish buf) (initialised p w, w).
Proof.
  intros Hp Hs. rewrite write_early_eq by done. unfold turn_silent in Hs.
  destruct (bool_decide _); [|done]. simpl in Hs.
  unfold bind at 1 3, Protocol.on_state, zoom, advance_or_abort. simpl.
  destruct (advance [] _) as [[act|e] m'] eqn:Ha; [|done]. simpl in Hs. by rewrite Hs.
Qed.

(** A write during the handshake, when it is. *)
Lemma write_early_silent (p : proto) w :
  Protocol.passes_through p w = false → turn_silent (np_state (initialised p w)) = true →
  ∃ p1 : proto, as_connection p1 = as_connection p ∧
    ∀ b, Protocol.write b (p, w) = on_connection (write b) (p1, w).
Proof.
  intros Hp Hs. unfold turn_silent in Hs. apply andb_true_iff in Hs as [Hn Hs].
  destruct (advance [] (np_state (initialised p w))) as [[act|e] m'] eqn:Ha; [|done]. simpl in Hs.
  apply passes_through_false in Hp as Hp'. destruct Hp' as [_ He].
  exists (mk_protocol m' (np_session p)). split; [done|]. intros b.
  rewrite write_early_eq, Hn by done.
  unfold bind at 1, Protocol.on_state, zoom at 1, advance_or_abort. simpl. rewrite Ha. simpl. rewrite Hs.
  rewrite session_initialised. unfold Protocol.on_session, on_connection, zoom. simpl.
  rewrite law_write_through by done. unfold on_connection, zoom. simpl. by destruct (write _ _) as [? [? ?]].
Qed.

#[export] Instance protocol_early_writes `{!EarlyWrites S} : EarlyWrites (NetProtocol Mch S).
Proof.
  refine {| exposed p w := if Protocol.passes_through p w then exposed (np_session p) w
                           else turn_silent (np_state (initialised p w)) |}.
  - intros b p w k p' w' He Hx Hr. simpl in Hr. destruct (Protocol.passes_through p w) eqn:Hp.
    + pose proof (early_passes_through _ _ He Hp). rewrite write_through_eq in Hr by done.
      apply on_session_inv in Hr as (s' & Hr & _). by eapply early_write_none.
    + rewrite write_early_speaks in Hr by done. case_bool_decide.
      * apply bind_ok_inv in Hr as (? & ? & _ & Hr). apply bind_ok_inv in Hr as (? & ? & _ & Hr).
        by apply finish_ok in Hr as [? _].
      * by apply finish_ok in Hr as [? _].
  - intros b1 b2 p w He Hx Hb1 Hb2. simpl. destruct (Protocol.passes_through p w) eqn:Hp.
    + pose proof (early_passes_through _ _ He Hp). rewrite !write_through_eq by done.
      unfold Protocol.on_session, zoom. simpl. by rewrite (early_write_oblivious b1 b2).
    + rewrite !write_early_speaks by done. unfold finish. by destruct b1, b2.
  - intros p w He Hx. simpl. destruct (Protocol.passes_through p w) eqn:Hp;
      [|by apply write_early_silent].
    destruct (exposed_write (np_session p) w) as (s1 & Hc & Hw); [by apply early_passes_through|done|].
    exists (mk_protocol (np_state p) s1). split; [done|]. intros b. rewrite write_through_eq by done.
    unfold Protocol.on_session, on_connection, zoom. simpl. rewrite Hw.
    unfold on_connection, zoom. simpl. by destruct (write _ _) as [? [? ?]].
Defined.

End early_writes.

(** ** Established sessions and the retry loops *)

Section established.
Context {S : Type} `{NetSession S} `{!NetSessionLaws S}.

Lemma on_connection_put {E A} (m : M E (Connection S * World) A) c (s : S) w :
  on_connection m (put_connection c s, w) =
    let '(r, (c', w')) := m (c, w) in (r, (put_connection c' s, w')).
Proof.
  unfold on_connection, zoom. simpl. rewrite law_get_put. destruct (m (c, w)) as [r [c' w']].
  simpl. by rewrite law_put_put.
Qed.

Lemma on_connection_eq {E A} (m : M E (Connection S * World) A) (s : S) w :
  on_connection m (s, w) =
    let '(r, (c', w')) := m (as_connection s, w) in (r, (put_connection c' s, w')).
Proof. unfold on_connection, zoom. simpl. by destruct (m _) as [r [c' w']]. Qed.

Lemma read_exact_loop_through fuel n acc (s : S) w :
  is_established s w = true →
  read_exact_loop fuel n acc (s, w) = on_connection (read_exact_loop fuel n acc) (s, w) ∧
  (∀ b s' w', read_exact_loop fuel n acc (s, w) = (Ret (Ok b), (s', w')) →
     is_established s' w' = true).
Proof.
  revert n acc s w. induction fuel as [|fuel IH]; intros n acc s w He.
  { rewrite on_connection_eq. destruct n; simpl; munfold; simpl; rewrite ?law_put_get.
    - split; [done|]. intros b s' w' [= _ <- <-]. done.
    - done. }
  destruct n as [|n]; [|set (N := Datatypes.S n)].
  { rewrite on_connection_eq. simpl. munfold. simpl. rewrite law_put_get. split; [done|].
    intros b s' w' [= _ <- <-]. done. }
  rewrite on_connection_eq. subst N. cbn [read_exact_loop]. set (N := Datatypes.S n).
  unfold bind, attempt. rewrite law_read_through, on_connection_eq by done.
  destruct (read N (as_connection s, w)) as [[r| |] [c1 w1]] eqn:Hr; [|done..].
  assert (Hsr : read N (s, w) = (Ret r, (put_connection c1 s, w1))).
  { rewrite law_read_through, on_connection_eq by done. by rewrite Hr. }
  assert (Hstep : benign r = true → ∀ n acc,
    read_exact_loop fuel n acc (put_connection c1 s, w1) =
      (let '(r', (c', w')) := read_exact_loop fuel n acc (c1, w1) in (r', (put_connection c' s, w'))) ∧
    (∀ b s' w', read_exact_loop fuel n acc (put_connection c1 s, w1) = (Ret (Ok b), (s', w')) →
       is_established s' w' = true)).
  { intros Hb n' acc'. pose proof (law_read_keeps _ _ _ _ _ _ He Hsr Hb) as He1.
    destruct (IH n' acc' _ _ He1) as [-> Hk]. rewrite on_connection_put in *. done. }
  destruct r as [[|x b]|e]; [done| |].
  - case_match; [by apply Hstep|done].
  - case_match; [by apply Hstep|done].
Qed.

Lemma write_all_loop_through fuel b (s : S) w :
  is_established s w = true →
  write_all_loop fuel b (s, w) = on_connection (write_all_loop fuel b) (s, w) ∧
  (∀ s' w', write_all_loop fuel b (s, w) = (Ret (Ok tt), (s', w')) → is_established s' w' = true).
Proof.
  revert b s w. induction fuel as [|fuel IH]; intros b s w He.
  { rewrite on_connection_eq. destruct b; simpl; munfold; simpl; rewrite ?law_put_get.
    - split; [done|]. intros s' w' [= <- <-]. done.
    - done. }
  destruct b as [|x b]; [|set (B := x :: b)].
  { rewrite on_connection_eq. simpl. munfold. simpl. rewrite law_put_get. split; [done|].
    intros s' w' [= <- <-]. done. }
  rewrite on_connection_eq. subst B. cbn [write_all_loop]. set (B := x :: b).
  unfold bind, attempt. rewrite law_write_through, on_connection_eq by done.
  destruct (write B (as_connection s, w)) as [[r| |] [c1 w1]] eqn:Hr; [|done..].
  assert (Hsr : write B (s, w) = (Ret r, (put_connection c1 s, w1))).
  { rewrite law_write_through, on_connection_eq by done. by rewrite Hr. }
  assert (Hstep : benign r = true → ∀ b,
    write_all_loop fuel b (put_connection c1 s, w1) =
      (let '(r', (c', w')) := write_all_loop fuel b (c1, w1) in (r', (put_connection c' s, w'))) ∧
    (∀ s' w', write_all_loop fuel b (put_connection c1 s, w1) = (Ret (Ok tt), (s', w')) →
       is_established s' w' = true)).
  { intros Hb b'. pose proof (law_write_keeps _ _ _ _ _ _ He Hsr Hb) as He1.
    destruct (IH b' _ _ He1) as [-> Hk]. rewrite on_connection_put in *. done. }
  destruct r as [[|k]|e]; [done| |].
  - case_match; [by apply Hstep|done].
  - case_match; [by apply Hstep|done].
Qed.

End established.

(** ** [run_handshake] *)

(** A session whose connection is up: [run_handshake] then establishes it. *)
Class HandshakeLaws (S : Type) `{NetSession S} := {
  linked : S → World → bool;
  linked_handshake (s : S) w s' w' :
    linked s w = true → run_handshake (s, w) = (Ret (Ok tt), (s', w')) →
    is_established s' w' = true
}.

#[export] Instance tcp_handshake `{NetAddrApi} `{Socket2} `{Target} `{AddrDisplay} :
  HandshakeLaws TcpStream.
Proof. refine {| linked s w := is_established s w |}. intros s w s' w' He [= <- <-]. done. Defined.

Section handshake.
Context `{Fuel} {Mch S : Type} `{NetStateMachine Mch} `{NetSession S}
  `{!IntoInit (Artifact S) (Init Mch)} `{!NetSessionLaws S}.

Lemma on_snd_inv {E X Y A} (m : M E Y A) (x : X) y r st' :
  on_snd m (x, y) = (r, st') → ∃ y', m y = (r, y') ∧ st' = (x, y').
Proof. unfold on_snd, zoom. simpl. destruct (m y) as [r1 y1]. naive_solver. Qed.

(** Reading and writing the bare connection keeps the session established. *)
Lemma connection_read_exact_keeps n c (s : S) w b c' w' :
  is_established (put_connection c s) w = true →
  read_exact n (c, w) = (Ret (Ok b), (c', w')) → is_established (put_connection c' s) w' = true.
Proof.
  intros He Hr. destruct (read_exact_loop_through loop_fuel n [] _ _ He) as [Heq Hk].
  eapply Hk. rewrite Heq, on_connection_put. unfold read_exact in Hr. by rewrite Hr.
Qed.

Lemma connection_write_all_keeps b c (s : S) w c' w' :
  is_established (put_connection c s) w = true →
  write_all b (c, w) = (Ret (Ok tt), (c', w')) → is_established (put_connection c' s) w' = true.
Proof.
  intros He Hr. destruct (write_all_loop_through loop_fuel b _ _ He) as [Heq Hk].
  eapply Hk. rewrite Heq, on_connection_put. unfold write_all in Hr. by rewrite Hr.
Qed.

Lemma run_machine_ok fuel input (m : Mch) c (s : S) w m' c' w' :
  is_established (put_connection c s) w = true →
  run_machine fuel input (m, (c, w)) = (Ret (Ok tt), (m', (c', w'))) →
  is_complete m' = true ∧ is_established (put_connection c' s) w' = true.
Proof.
  revert input m c w. induction fuel as [|fuel IH]; intros input m c w He Hr;
    cbn [run_machine] in Hr; unfold bind at 1, gets at 1 in Hr; cbn [fst] in Hr;
    destruct (is_complete m) eqn:Hc; try (by injection Hr as <- <- <-); [done|].
  apply bind_ok_inv in Hr as (act & [m1 x1] & Ha & Hr).
  assert (x1 = (c, w)) as ->.
  { unfold advance_or_abort in Ha. by destruct (advance input m) as [[]]; simplify_eq. }
  apply bind_ok_inv in Hr as ([] & [m2 [c2 w2]] & Hw & Hr).
  assert (m2 = m1 ∧ is_established (put_connection c2 s) w2 = true) as [-> He2].
  { destruct (is_empty act); [by injection Hw as <- <- <-|].
    apply on_snd_inv in Hw as ([c3 w3] & Hw & [= -> -> ->]).
    split; [done|]. by eapply connection_write_all_keeps. }
  unfold bind at 1, gets at 1 in Hr. cbn [fst] in Hr.
  apply bind_ok_inv in Hr as (input' & [m3 [c3 w3]] & Hrd & Hr).
  assert (m3 = m1 ∧ is_established (put_connection c3 s) w3 = true) as [-> He3].
  { destruct (is_complete m1); [by injection Hrd as _ <- <- <-|].
    apply on_snd_inv in Hrd as ([c4 w4] & Hrd & [= -> -> ->]).
    split; [done|]. by eapply connection_read_exact_keeps. }
  eapply IH; [|exact Hr]. done.
Qed.

Lemma run_state_handshake_ok (p : NetProtocol Mch S) w p' w' :
  is_established (np_session p) w = true →
  Protocol.run_state_handshake (p, w) = (Ret (Ok tt), (p', w')) → is_established p' w' = true.
Proof.
  intros He Hr. unfold Protocol.run_state_handshake, zoom in Hr. simpl in Hr.
  destruct (run_machine _ _ _) as [r [m' [c' w1]]] eqn:Hm. injection Hr as -> <- <-.
  eapply (run_machine_ok _ _ _ _ (np_session p)) in Hm as [Hc He']; [|by rewrite law_put_get].
  rewrite established_protocol. simpl in *. by rewrite Hc, He'.
Qed.

#[export] Instance protocol_handshake `{!HandshakeLaws S} : HandshakeLaws (NetProtocol Mch S).
Proof.
  refine {| linked p w := linked (np_session p) w |}.
  intros p w p' w' Hl Hr. simpl in Hr. unfold Protocol.run_handshake in Hr.
  unfold bind at 1, gets at 1 in Hr. simpl in Hr.
  apply bind_ok_inv in Hr as ([] & [p1 w1] & Hs & Hr).
  assert (He1 : is_established (np_session p1) w1 = true).
  { destruct (is_established (np_session p) w) eqn:He; [by injection Hs as <- <-|].
    apply on_session_inv in Hs as (s' & Hs & ->). by eapply linked_handshake. }
  destruct (init_eq (E:=io_error) p1 w1) as [b Hi]. rewrite (bind_ok _ _ _ _ _ Hi) in Hr.
  eapply run_state_handshake_ok; [|exact Hr]. by rewrite session_initialised.
Defined.

End handshake.

(** ** Sessions that work on their socket directly once established *)

Class DirectSession (S : Type) `{NetSession S} := {
  direct_fd : S → RawFd;
  direct_raw_fd (s : S) : as_raw_fd (as_connection s) = direct_fd s;
  direct_read n (s : S) w : is_established s w = true →
    read n (s, w) = let '(o, w') := recv (direct_fd s) n w in (o, (s, w'));
  direct_write b (s : S) w : is_established s w = true →
    write b (s, w) = let '(o, w') := send (direct_fd s) b w in (o, (s, w'));
  direct_flush (s : S) w : flush (s, w) = (Ret (Ok tt), (s, w));
  direct_peer (s : S) w w' :
    getpeername (direct_fd s) w' = getpeername (direct_fd s) w →
    is_established s w' = is_established s w
}.

#[export] Instance tcp_direct `{NetAddrApi} `{Socket2} `{Target} `{AddrDisplay} : DirectSession TcpStream.
Proof.
  refine {| direct_fd := fd |}; [done|done|done|done|].
  intros s w w' Hp. by rewrite !tcp_established, Hp.
Defined.

#[export] Instance protocol_direct `{Fuel} {Mch S} `{NetStateMachine Mch} `{NetSession S}
    `{!IntoInit (Artifact S) (Init Mch)} `{!DirectSession S} : DirectSession (NetProtocol Mch S).
Proof.
  refine {| direct_fd p := direct_fd (np_session p) |}.
  - intros p. simpl. apply direct_raw_fd.
  - intros n p w He. simpl. rewrite read_through_eq by by apply established_passes_through.
    rewrite established_protocol in He. apply andb_true_iff in He as [He _].
    unfold Protocol.on_session, zoom. simpl. rewrite direct_read by done. destruct (recv _ _ _). by destruct p.
  - intros b p w He. simpl. rewrite write_through_eq by by apply established_passes_through.
    rewrite established_protocol in He. apply andb_true_iff in He as [He _].
    unfold Protocol.on_session, zoom. simpl. rewrite direct_write by done. destruct (send _ _ _). by destruct p.
  - intros p w. simpl. unfold Protocol.flush, Protocol.on_session, zoom. simpl. rewrite direct_flush. by destruct p.
  - intros p w w' Hp. rewrite !established_protocol. by rewrite (direct_peer _ _ _ Hp).
Defined.
