(* ===== verification/Termination.v ===== *)
(** * Termination of the blocking handshake

    [run_handshake] is a loop around two retry loops of the standard library.
    Over a [TcpStream] every round uses up one act of the machine, and every
    retry uses up one event of the network.  The bound on the fuel is the number
    of acts, and the length of an act plus the number of events still to come.
    What is left is a peer that says nothing: a socket in blocking mode without
    timeouts then waits forever, and that is the only way not to return. *)

From S2P Require Import Prelude Std Kernel Connection Session SessionLaws.

(** ** One socket call *)

(** The socket behind a descriptor never blocks forever. *)
Definition patient (fd : RawFd) (w : World) : Prop :=
  ∀ i s, find fd w = Some (i, s) →
    sk_nonblocking s = true ∨ (is_some (sk_read_timeout s) = true ∧ is_some (sk_write_timeout s) = true).

(** How many events the network has in store for the socket. *)
Definition events_left (fd : RawFd) (w : World) : nat :=
  match find fd w with Some (_, s) => length (sk_rx s) + length (sk_tx s) | None => 0 end.

(** The socket waits for its peer without a limit: it is in blocking mode, and
    has to wait for data or for the connection without a timeout. *)
Definition stalled (fd : RawFd) (w : World) : Prop :=
  ∃ i s, find fd w = Some (i, s) ∧ sk_nonblocking s = false ∧
    (sk_read_timeout s = None ∧ (∃ p, sk_link s = Connected p) ∧ sk_rx s = [] ∨
     sk_link s = Connecting ∧ (sk_read_timeout s = None ∨ sk_write_timeout s = None)).

(** How a call ends.  It returns, and an [Interrupted] result has used up an
    event; or it never returns, because the socket waits without a limit, which
    a patient one does not.  Patience stays. *)
Definition progress {A} (fd : RawFd) (w : World) (o : outcome (io_result A)) (w' : World) : Prop :=
  (patient fd w → patient fd w') ∧
  match o with
  | Ret r => events_left fd w' ≤ events_left fd w ∧
      (∀ e, r = Err e → is_interrupted e = true → events_left fd w' < events_left fd w)
  | Panic _ => False
  | NoReturn => stalled fd w' ∧ ¬ patient fd w
  end.

(** The same for a call on the socket itself. *)
Definition socket_patient (s : socket) : Prop :=
  sk_nonblocking s = true ∨ (is_some (sk_read_timeout s) = true ∧ is_some (sk_write_timeout s) = true).
Definition socket_events (s : socket) : nat := length (sk_rx s) + length (sk_tx s).

Lemma on_socket_progress {A} fd (f : socket → outcome (io_result A) * socket) w o w' :
  (∀ s r s', f s = (Ret r, s') → socket_events s' ≤ socket_events s ∧
     (∀ e, r = Err e → is_interrupted e = true → socket_events s' < socket_events s)) →
  (∀ s o s', f s = (o, s') → sk_nonblocking s' = sk_nonblocking s ∧
     sk_read_timeout s' = sk_read_timeout s ∧ sk_write_timeout s' = sk_write_timeout s) →
  (∀ s msg s', f s ≠ (Panic msg, s')) →
  (∀ s s', f s = (NoReturn, s') → s' = s ∧ sk_nonblocking s = false ∧
     (sk_read_timeout s = None ∧ (∃ p, sk_link s = Connected p) ∧ sk_rx s = [] ∨
      sk_link s = Connecting ∧ (sk_read_timeout s = None ∨ sk_write_timeout s = None))) →
  on_socket fd f w = (o, w') → progress fd w o w'.
Proof.
  intros Hret Hmode Hpanic Hwait Hr.
  apply on_socket_inv in Hr as [(Hf & -> & ->)|(i & s & s' & Hf & Hs & Hf' & _)].
  { split; [done|]. split; [done|]. by intros e [= <-]. }
  destruct (Hmode _ _ _ Hs) as (Hnb & Hrt & Hwt). split.
  { intros Hp j t Ht. rewrite Hf' in Ht. injection Ht as <- <-. rewrite Hnb, Hrt, Hwt. by eapply Hp. }
  unfold events_left. rewrite Hf, Hf'. destruct o as [r|msg|]; [by eapply Hret|by apply Hpanic in Hs|].
  destruct (Hwait _ _ Hs) as (-> & Hb & Hw). split; [by exists i, s|]. intros Hp.
  destruct (Hp _ _ Hf) as [?|[Hr' Hw']]; [congruence|].
  destruct Hw as [(Hn & _)|(_ & [Hn|Hn])]; [by rewrite Hn in Hr'|by rewrite Hn in Hr'|by rewrite Hn in Hw'].
Qed.

(** Every branch of a call on one socket. *)
Ltac each_branch :=
  repeat (case_match; simplify_eq/=); unfold socket_events; simpl;
  first
    [ done
    | split; [simpl; repeat case_match; simpl; lia|intros ? [= <-] ?; simpl; try done; lia]
    | match goal with
      | Hw : _ || is_some ?t = false |- _ =>
          apply orb_false_iff in Hw as [-> Hw]; destruct t; [done|naive_solver]
      end ].

Lemma recv_progress fd n w o w' : recv fd n w = (o, w') → progress fd w o w'.
Proof.
  apply on_socket_progress; intros []; intros; unfold recv_socket, wait in *; simpl in *; each_branch.
Qed.

Lemma send_progress fd b w o w' : send fd b w = (o, w') → progress fd w o w'.
Proof.
  apply on_socket_progress; intros []; intros; unfold send_socket, wait in *; simpl in *; each_branch.
Qed.

Lemma progress_patient {A} fd w (o : outcome (io_result A)) w' :
  patient fd w → progress fd w o w' → ∃ r, o = Ret r ∧ patient fd w'.
Proof. intros Hp [Hk Ho]. destruct o as [r| |]; [eauto|done|by destruct Ho]. Qed.

(** ** The retry loops over any connection that makes progress *)

(** How code on a connection ends, up to the meaning of "patient", of "waits
    without a limit", and of what retries use up. *)
Definition ends {C A} (responsive waiting : C → World → Prop) (retries_left : C → World → nat)
    (c : C) (w : World) (o : outcome A) (c' : C) (w' : World) : Prop :=
  (responsive c w → responsive c' w') ∧
  match o with
  | Ret _ => retries_left c' w' ≤ retries_left c w
  | Panic _ => False
  | NoReturn => waiting c' w' ∧ ¬ responsive c w
  end.

(** What the loops need to know about a connection: every call returns, within
    the buffer, and an [Interrupted] one uses up something finite; or the
    connection waits for its peer without a limit. *)
Class ProgressingConnection (C : Type) `{Stream C} := {
  responsive : C → World → Prop;
  waiting : C → World → Prop;
  retries_left : C → World → nat;
  read_progress n c w o c' w' :
    read n (c, w) = (o, (c', w')) →
    ends responsive waiting retries_left c w o c' w' ∧
    (∀ e, o = Ret (Err e) → is_interrupted e = true → retries_left c' w' < retries_left c w) ∧
    (∀ b, o = Ret (Ok b) → length b ≤ n);
  write_progress b c w o c' w' :
    write b (c, w) = (o, (c', w')) →
    ends responsive waiting retries_left c w o c' w' ∧
    (∀ e, o = Ret (Err e) → is_interrupted e = true → retries_left c' w' < retries_left c w) ∧
    (∀ k, o = Ret (Ok k) → k ≤ length b)
}.

Lemma progress_ends {A} fd w (o : outcome (io_result A)) w' :
  progress fd w o w' →
  ends (λ _ : unit, patient fd) (λ _, stalled fd) (λ _, events_left fd) tt w o tt w' ∧
  (∀ e, o = Ret (Err e) → is_interrupted e = true → events_left fd w' < events_left fd w).
Proof.
  intros [Hp Ho]. destruct o as [r| |]; [|done|done]. destruct Ho as [Hle Hlt].
  split; [done|]. intros e [= ->]. by apply Hlt.
Qed.

#[export] Instance tcp_progressing : ProgressingConnection TcpStream.
Proof.
  refine {| responsive s w := patient (fd s) w; waiting s w := stalled (fd s) w;
            retries_left s w := events_left (fd s) w |}.
  - intros n s w o s' w' Hr. apply tcp_read_inv in Hr as [-> Hr].
    destruct (progress_ends _ _ _ _ (recv_progress _ _ _ _ _ Hr)) as [He Hi]. split_and!; [done..|].
    intros b ->. by apply recv_ok in Hr as [? _].
  - intros b s w o s' w' Hr. apply tcp_write_inv in Hr as [-> Hr].
    destruct (progress_ends _ _ _ _ (send_progress _ _ _ _ _ Hr)) as [He Hi]. split_and!; [done..|].
    intros k ->. by apply send_ok in Hr as [? _].
Defined.

Section loops.
Context {C : Type} `{ProgressingConnection C}.

(** Code on the connection that started in [c] and [w]. *)
Definition comes_back {A} (c : C) (w : World) (run : outcome A * (C * World)) : Prop :=
  let '(o, (c', w')) := run in ends responsive waiting retries_left c w o c' w'.

Lemma comes_back_after {A B} c w (a : A) c1 w1 (run : outcome B * (C * World)) :
  ends responsive waiting retries_left c w (Ret a) c1 w1 → comes_back c1 w1 run → comes_back c w run.
Proof.
  destruct run as [o [c2 w2]]. intros [Hp Hle] [Hp2 Ho]. simpl. split; [auto|].
  destruct o; simpl in *; [lia|done|]. destruct Ho as [? Hn]. auto.
Qed.

Lemma comes_back_now {A} c w (a : A) : comes_back c w (Ret a, (c, w)).
Proof. by split. Qed.

Lemma read_exact_returns fuel n acc c w :
  n + retries_left c w < fuel → comes_back c w (read_exact_loop fuel n acc (c, w)).
Proof.
  revert n acc c w. induction fuel as [|fuel IH]; intros n acc c w Hf; [lia|].
  destruct n as [|n]; [by apply comes_back_now|].
  cbn [read_exact_loop]. unfold bind, attempt.
  destruct (read (S n) (c, w)) as [o [c1 w1]] eqn:Hr.
  destruct (read_progress _ _ _ _ _ _ Hr) as (He & Hlt & Hlen).
  destruct o as [r|msg|]; [|exact He..]. eapply comes_back_after; [exact He|].
  pose proof (proj2 He) as Hle. simpl in Hle. destruct r as [[|x b]|e]; [by apply comes_back_now| |].
  - specialize (Hlen _ eq_refl). rewrite (proj2 (Nat.leb_le _ _) Hlen).
    apply IH. simpl in *. lia.
  - destruct (is_interrupted e) eqn:Hi; [|by apply comes_back_now].
    specialize (Hlt _ eq_refl Hi). apply IH. lia.
Qed.

Lemma write_all_returns fuel b c w :
  length b + retries_left c w < fuel → comes_back c w (write_all_loop fuel b (c, w)).
Proof.
  revert b c w. induction fuel as [|fuel IH]; intros b c w Hf; [lia|].
  destruct b as [|x b]; [by apply comes_back_now|].
  cbn [write_all_loop]. unfold bind, attempt.
  destruct (write (x :: b) (c, w)) as [o [c1 w1]] eqn:Hr.
  destruct (write_progress _ _ _ _ _ _ Hr) as (He & Hlt & Hlen).
  destruct o as [r|msg|]; [|exact He..]. eapply comes_back_after; [exact He|].
  pose proof (proj2 He) as Hle. simpl in Hle. destruct r as [[|k]|e]; [by apply comes_back_now| |].
  - specialize (Hlen _ eq_refl). rewrite (proj2 (Nat.leb_le _ _) Hlen).
    apply IH. rewrite length_drop. simpl in *. lia.
  - destruct (is_interrupted e) eqn:Hi; [|by apply comes_back_now].
    specialize (Hlt _ eq_refl Hi). apply IH. lia.
Qed.

End loops.

(** ** The handshake *)

(** A machine with a bounded number of acts of bounded size. *)
Class BoundedMachine (Mch : Type) `{NetStateMachine Mch} := {
  acts_left : Mch → nat;
  act_bound : nat;
  advance_uses_act (m : Mch) input act m' :
    is_complete m = false → advance input m = (Ok act, m') →
    acts_left m' < acts_left m ∧ length act ≤ act_bound;
  init_acts (m : Mch) i : acts_left (m_init i m) ≤ acts_left m;
  read_bound (m : Mch) : next_read_len m ≤ act_bound
}.
Arguments act_bound Mch {_ _}.

Section machine.
Context `{Fuel} {Mch C : Type} `{NetStateMachine Mch} `{!BoundedMachine Mch} `{ProgressingConnection C}.

(** Code on a machine and its connection. *)
Definition machine_back {A} (c : C) (w : World) (run : outcome A * (Mch * (C * World))) : Prop :=
  let '(o, (_, (c', w'))) := run in ends responsive waiting retries_left c w o c' w'.

Lemma machine_back_now {A} (m : Mch) c w (a : A) : machine_back c w (Ret a, (m, (c, w))).
Proof. by split. Qed.

Lemma machine_back_bind {A B} (k : A → M io_error (Mch * (C * World)) B) p m c w :
  machine_back c w (p (m, (c, w))) →
  (∀ a m1 c1 w1, p (m, (c, w)) = (Ret (Ok a), (m1, (c1, w1))) →
     retries_left c1 w1 ≤ retries_left c w → machine_back c1 w1 (k a (m1, (c1, w1)))) →
  machine_back c w (bind p k (m, (c, w))).
Proof.
  intros Hp Hk. unfold bind. destruct (p (m, (c, w))) as [o [m1 [c1 w1]]] eqn:Heq. simpl in Hp.
  destruct o as [[a|e]|msg|]; [|exact Hp..].
  specialize (Hk a m1 c1 w1 eq_refl (proj2 Hp)). destruct (k a _) as [o [m2 [c2 w2]]]. simpl in *.
  exact (comes_back_after _ _ _ _ _ (o, (c2, w2)) Hp Hk).
Qed.

Lemma machine_back_snd {A} (p : M io_error (C * World) A) m c w :
  comes_back c w (p (c, w)) → machine_back c w (on_snd p (m, (c, w))).
Proof. unfold on_snd, zoom. simpl. by destruct (p (c, w)) as [o [c' w']]. Qed.

Lemma run_machine_returns fuel input (m : Mch) (c : C) w :
  acts_left m < fuel → act_bound Mch + retries_left c w < loop_fuel →
  machine_back c w (run_machine fuel input (m, (c, w))).
Proof.
  revert input m c w. induction fuel as [|fuel IH]; intros input m c w Hf Hl; [lia|].
  cbn [run_machine]. rewrite bind_gets. cbn [fst].
  destruct (is_complete m) eqn:Hc; [by apply machine_back_now|].
  apply machine_back_bind; [unfold advance_or_abort; simpl; by destruct (advance input m) as [[]]|].
  intros act m1 c1 w1 Ha _. unfold advance_or_abort in Ha. simpl in Ha.
  destruct (advance input m) as [[act'|e] m'] eqn:Hadv; [|done]. injection Ha as -> -> <- <-.
  destruct (advance_uses_act _ _ _ _ Hc Hadv) as [Hacts Hlen]. apply machine_back_bind.
  { destruct (is_empty act); [apply machine_back_now|]. apply machine_back_snd, (write_all_returns loop_fuel). lia. }
  intros u m2 c2 w2 Hw Hle2.
  assert (m2 = m1) as ->.
  { destruct (is_empty act); [by injection Hw|]. unfold on_snd, zoom in Hw. simpl in Hw.
    destruct (write_all _ _) as [? [? ?]]. by injection Hw. }
  rewrite bind_gets. cbn [fst]. apply machine_back_bind.
  { destruct (is_complete m1); [apply machine_back_now|]. pose proof (read_bound m1).
    apply machine_back_snd, (read_exact_returns loop_fuel). lia. }
  intros b m3 c3 w3 Hr Hle3.
  assert (m3 = m1) as ->.
  { destruct (is_complete m1); [by injection Hr|]. unfold on_snd, zoom in Hr. simpl in Hr.
    destruct (read_exact _ _) as [? [? ?]]. by injection Hr. }
  apply IH; lia.
Qed.

End machine.

(** A session whose [run_handshake] ends once the fuel covers
    [handshake_budget] and the network's events: it returns, or it waits for the
    peer without a limit. *)
Class HandshakeReturns (S : Type) `{Fuel} `{NetSession S}
    `{!ProgressingConnection (Connection S)} := {
  handshake_budget : S → nat;
  handshake_comes_back (s : S) w :
    handshake_budget s + retries_left (as_connection s) w < loop_fuel →
    ∃ o s' w', run_handshake (s, w) = (o, (s', w')) ∧
      ends responsive waiting retries_left (as_connection s) w o (as_connection s') w'
}.

#[export] Instance tcp_conn_progressing `{NetAddrApi} `{Socket2} `{Target} `{AddrDisplay} :
  ProgressingConnection (Connection TcpStream) := tcp_progressing.

#[export] Instance tcp_handshake_returns `{Fuel} `{NetAddrApi} `{Socket2} `{Target} `{AddrDisplay} :
  HandshakeReturns TcpStream.
Proof. refine {| handshake_budget _ := 0 |}. intros s w _. exists (Ret (Ok tt)), s, w. by split. Defined.

Section layers.
Context `{Fuel} {Mch S : Type} `{NetStateMachine Mch} `{!BoundedMachine Mch} `{NetSession S}
  `{!IntoInit (Artifact S) (Init Mch)} `{!NetSessionLaws S}
  `{!ProgressingConnection (Connection S)} `{!HandshakeReturns S}.

#[export] Instance protocol_conn_progressing :
  ProgressingConnection (Connection (NetProtocol Mch S)).
Proof. assumption. Defined.

Lemma initialised_acts (p : NetProtocol Mch S) w :
  acts_left (np_state (initialised p w)) ≤ acts_left (np_state p).
Proof.
  unfold initialised. destruct (is_init _); [done|]. destruct (artifact _ _); [|done]. apply init_acts.
Qed.

(** The handshake of the layer itself, on an inner session that is done. *)
Lemma state_handshake_returns (p : NetProtocol Mch S) w :
  acts_left (np_state p) < loop_fuel → act_bound Mch + retries_left (as_connection p) w < loop_fuel →
  ∃ o p' w', Protocol.run_state_handshake (p, w) = (o, (p', w')) ∧
    ends responsive waiting retries_left (as_connection p) w o (as_connection p') w'.
Proof.
  intros Hf Hl. unfold Protocol.run_state_handshake, zoom. simpl in *.
  pose proof (run_machine_returns loop_fuel [] (np_state p) (as_connection (np_session p)) w Hf Hl) as Hb.
  destruct (run_machine _ _ _) as [o [m' [c' w']]]. simpl in Hb.
  eexists _, _, _. split; [done|]. simpl. by rewrite law_get_put.
Qed.

#[export] Instance protocol_handshake_returns : HandshakeReturns (NetProtocol Mch S).
Proof.
  refine {| handshake_budget p :=
    Nat.max (handshake_budget (np_session p)) (Nat.max (acts_left (np_state p)) (act_bound Mch)) |}.
  intros p w Hf. simpl in Hf. simpl. unfold Protocol.run_handshake. rewrite bind_gets. simpl.
  assert (∃ o s1 w1, (if is_established (np_session p) w then ret tt
      else Protocol.on_session run_handshake) (p, w) = (o, (mk_protocol (np_state p) s1, w1)) ∧
      ends responsive waiting retries_left (as_connection (np_session p)) w o (as_connection s1) w1)
    as (o & s1 & w1 & Hs & He1).
  { destruct (is_established _ _); [destruct p; by eexists (Ret (Ok tt)), _, _|].
    destruct (handshake_comes_back (np_session p) w) as (o & s1 & w1 & Heq & He); [lia|].
    exists o, s1, w1. split; [by apply on_session_eq|done]. }
  destruct o as [[[]|e]|msg|]; [|unfold bind at 1; rewrite Hs; by eexists _, _, _..].
  rewrite (bind_ok _ _ _ _ _ Hs). pose proof (proj2 He1) as Hle. simpl in Hle.
  destruct (init_eq (E:=io_error) (mk_protocol (np_state p) s1) w1) as [b Hi].
  rewrite (bind_ok _ _ _ _ _ Hi). pose proof (initialised_acts (mk_protocol (np_state p) s1) w1) as Ha.
  set (p1 := initialised (mk_protocol (np_state p) s1) w1) in *.
  assert (Hp1 : np_session p1 = s1) by apply session_initialised. simpl in Ha.
  destruct (state_handshake_returns p1 w1) as (o & p' & w' & Heq & He2); [lia|simpl; rewrite Hp1; lia|].
  exists o, p', w'. split; [done|]. simpl in He2. rewrite Hp1 in He2.
  exact (comes_back_after _ _ _ _ _ (o, (as_connection (np_session p'), w')) He1 He2).
Defined.

End layers.
