(* ===== verification/Cypher.v ===== *)
(** * The protocol stack of [src/session.rs]: SOCKS5, Noise, Eidolon

    The three handshake machines live in the [cyphernet] crate; their types and
    methods are the parameters [Socks5Api], [NoiseApi] and [EidolonApi].  What
    the repository adds is modelled: the [NetStateMachine] implementations (the
    modules [impl_socks5], [impl_noise], [imp_eidolon]), the artifacts, how the
    artifact of one layer initialises the next, and [CypherSession], the stack
    Eidolon over Noise over SOCKS5 over TCP with its constructors. *)

From S2P Require Import Prelude Std Kernel Connection Session SessionLaws Termination.

(** ** [src/lib.rs]: the direction of a connection *)

Inductive Direction : Set := Inbound | Outbound.

#[export] Instance Direction_eq_dec : EqDecision Direction.
Proof. solve_decision. Defined.

Definition is_inbound (d : Direction) : bool := match d with Inbound => true | _ => false end.
Definition is_outbound (d : Direction) : bool := match d with Outbound => true | _ => false end.

(** ** SOCKS5 *)

(** The variants of [socks5::Socks5] the code distinguishes. *)
Inductive socks5_variant (A : Type) : Type :=
| S5Initial (addr : A) (force_proxy : bool)
| S5Active (addr : A)
| S5Other.
Arguments S5Initial {A} addr force_proxy.
Arguments S5Active {A} addr.
Arguments S5Other {A}.

Class Socks5Api := {
  HostAddr : Type;                              (* [NetAddr<HostName>] *)
  requires_proxy : HostAddr → bool;
  Socks5 : Type;
  Socks5Error : Type;
  socks5_error_string : Socks5Error → string;
  socks5_with : HostAddr → bool → Socks5;
  socks5_variant_of : Socks5 → socks5_variant HostAddr;
  socks5_next_read_len : Socks5 → nat;
  socks5_advance : bytes → Socks5 → result Socks5Error bytes * Socks5
}.

Definition socks5_artifact `{Socks5Api} (s : Socks5) : option HostAddr :=
  match socks5_variant_of s with
  | S5Initial addr false => if requires_proxy addr then None else Some addr
  | S5Active addr => Some addr
  | _ => None
  end.

#[export] Instance Socks5_machine `{Socks5Api} : NetStateMachine Socks5 := {|
  NAME := "socks5";
  Init := ZeroInit;
  MArtifact := HostAddr;
  MError := Socks5Error;
  error_string := socks5_error_string;
  m_init _ s := s;
  next_read_len := socks5_next_read_len;
  advance := socks5_advance;
  m_artifact := socks5_artifact;
  is_init _ := true
|}.

(** ** Noise *)

Class NoiseApi := {
  NoiseState : Type;
  NoiseError : Type;
  NoisePk : Type;
  noise_error_string : NoiseError → string;
  to_pk_compressed : NoisePk → bytes;
  (** [NoiseState::initialize(HandshakePattern::nn(), is_initiator, &[], Keyset::noise_nn())] *)
  noise_nn : bool → NoiseState;
  noise_next_read_len : NoiseState → nat;
  noise_advance : bytes → NoiseState → result NoiseError bytes * NoiseState;
  get_handshake_hash : NoiseState → option bytes;
  get_remote_static_key : NoiseState → option NoisePk
}.

Record NoiseArtifact `{NoiseApi} : Type := mk_noise_artifact {
  handshake_hash : bytes;
  remote_static_key : option NoisePk
}.

Definition noise_to_vec `{NoiseApi} (a : NoiseArtifact) : bytes :=
  handshake_hash a ++
  match remote_static_key a with Some pk => to_pk_compressed pk | None => [] end.

Definition noise_artifact `{NoiseApi} (s : NoiseState) : option NoiseArtifact :=
  match get_handshake_hash s with
  | Some hh => Some (mk_noise_artifact _ hh (get_remote_static_key s))
  | None => None
  end.

#[export] Instance Noise_machine `{NoiseApi} : NetStateMachine NoiseState := {|
  NAME := "noise";
  Init := ZeroInit;
  MArtifact := NoiseArtifact;
  MError := NoiseError;
  error_string := noise_error_string;
  m_init _ s := s;
  next_read_len := noise_next_read_len;
  advance := noise_advance;
  m_artifact := noise_artifact;
  is_init _ := true
|}.

(** ** Eidolon *)

Class EidolonApi := {
  Signer : Type;
  Cert : Type;
  SignerPk : Type;
  EidolonState : Type;
  EidolonError : Type;
  eidolon_error_string : EidolonError → string;
  cert_string : Cert → string;                  (* [display_fmt], Base58, separated by commas *)
  eidolon_initiator : Cert → list SignerPk → EidolonState;
  eidolon_responder : Cert → list SignerPk → EidolonState;
  eidolon_init : bytes → EidolonState → EidolonState;
  eidolon_is_init : EidolonState → bool;
  eidolon_next_read_len : EidolonState → nat;
  eidolon_advance : bytes → Signer → EidolonState → result EidolonError bytes * EidolonState;
  remote_cert : EidolonState → option Cert
}.

Record EidolonRuntime `{EidolonApi} : Type := mk_eidolon {
  er_state : EidolonState;
  er_signer : Signer
}.

Section eidolon.
Context `{EidolonApi}.

Definition initiator (signer : Signer) (cert : Cert) (allowed_ids : list SignerPk) : EidolonRuntime :=
  mk_eidolon _ (eidolon_initiator cert allowed_ids) signer.
Definition responder (signer : Signer) (cert : Cert) (allowed_ids : list SignerPk) : EidolonRuntime :=
  mk_eidolon _ (eidolon_responder cert allowed_ids) signer.

Definition eidolon_display (r : EidolonRuntime) : string :=
  match remote_cert (er_state r) with
  | Some cert => cert_string cert
  | None => "<unidentified>"
  end.

#[export] Instance Eidolon_machine : NetStateMachine EidolonRuntime := {|
  NAME := "eidolon";
  Init := bytes;
  MArtifact := Cert;
  MError := EidolonError;
  error_string := eidolon_error_string;
  m_init i r := mk_eidolon _ (eidolon_init i (er_state r)) (er_signer r);
  next_read_len r := eidolon_next_read_len (er_state r);
  advance input r :=
    let '(res, st) := eidolon_advance input (er_signer r) (er_state r) in
    (res, mk_eidolon _ st (er_signer r));
  m_artifact r := remote_cert (er_state r);
  is_init r := eidolon_is_init (er_state r)
|}.
End eidolon.

(** The Eidolon layer authenticates the Noise channel: it is initialised with
    the handshake hash (and the remote static key, if any). *)
Definition noise_into_init `{NoiseApi} {SA} (a : ProtocolArtifact SA NoiseArtifact) : bytes :=
  noise_to_vec (pa_state a).

#[export] Instance eidolon_from_noise `{Fuel} {S} `{NetSession S} `{NoiseApi} `{EidolonApi}
    `{!IntoInit (Artifact S) (Init NoiseState)} :
  IntoInit (Artifact (NetProtocol NoiseState S)) (Init EidolonRuntime) := noise_into_init.

(** The other two machines need no data from the layer below. *)
#[export] Instance noise_from_any `{NoiseApi} {A} : IntoInit A (Init NoiseState) := λ _, zero_init.
#[export] Instance socks5_from_any `{Socks5Api} {A} : IntoInit A (Init Socks5) := λ _, zero_init.

(** ** [CypherSession] *)

Abbreviation Socks5Session S := (NetProtocol Socks5 S).
Abbreviation NoiseSession S := (NetProtocol NoiseState S).
Abbreviation EidolonSession S := (NetProtocol EidolonRuntime S).
Abbreviation CypherSession := (EidolonSession (NoiseSession (Socks5Session TcpStream))).

Section cypher.
Context `{Fuel} `{NetAddrApi} `{Socket2} `{Target} `{AddrDisplay}.
Context `{Socks5Api} `{NoiseApi} `{EidolonApi}.

(** From [cyphernet]: which address to dial when a proxy may be needed, and the
    inclusion of socket addresses into host addresses. *)
Context (connection_addr : NetAddr → HostAddr → NetAddr) (host_of_addr : NetAddr → HostAddr).

Definition with_config (remote_addr : HostAddr) (connection : TcpStream) (direction : Direction)
    (cert : Cert) (allowed_ids : list SignerPk) (signer : Signer) (force_proxy : bool) :
    CypherSession :=
  let socks5 := socks5_with remote_addr force_proxy in
  let proxy := Protocol.with_ connection socks5 in
  let noise := noise_nn (is_outbound direction) in
  let encoding := Protocol.with_ proxy noise in
  let eidolon := match direction with
                 | Inbound => responder signer cert allowed_ids
                 | Outbound => initiator signer cert allowed_ids
                 end in
  Protocol.with_ encoding eidolon.

Definition cypher_connect_nonblocking (remote_addr : HostAddr) (cert : Cert)
    (allowed_ids : list SignerPk) (signer : Signer) (proxy_addr : NetAddr) (force_proxy : bool)
    (timeout : Duration) : M io_error World CypherSession :=
  let! connection :=
    if force_proxy then tcp_connect_nonblocking proxy_addr timeout
    else tcp_connect_nonblocking (connection_addr proxy_addr remote_addr) timeout in
  ret (with_config remote_addr connection Outbound cert allowed_ids signer force_proxy).

Definition cypher_connect_reusable_nonblocking (local_addr : NetAddr) (remote_addr : HostAddr)
    (cert : Cert) (allowed_ids : list SignerPk) (signer : Signer) (proxy_addr : NetAddr)
    (force_proxy : bool) : M io_error World CypherSession :=
  let! connection :=
    if force_proxy then tcp_connect_reusable_nonblocking local_addr proxy_addr
    else tcp_connect_reusable_nonblocking local_addr (connection_addr proxy_addr remote_addr) in
  ret (with_config remote_addr connection Outbound cert allowed_ids signer force_proxy).

(** [let mut session = ...; session.run_handshake()?; Ok(session)]; the session
    is dropped when the handshake fails or panics. *)
Definition cypher_connect_blocking (remote_addr : HostAddr) (cert : Cert)
    (allowed_ids : list SignerPk) (signer : Signer) (proxy_addr : NetAddr) (force_proxy : bool)
    (timeout : Duration) : M io_error World CypherSession :=
  let! connection :=
    if force_proxy then tcp_connect_blocking proxy_addr timeout
    else tcp_connect_blocking (connection_addr proxy_addr remote_addr) timeout in
  let session := with_config remote_addr connection Outbound cert allowed_ids signer force_proxy in
  λ w,
  match run_handshake (session, w) with
  | (Ret (Ok _), (session, w)) => (Ret (Ok session), w)
  | (Ret (Err e), (session, w)) =>
      (Ret (Err e), (sess_drop session w).2)
  | (Panic msg, (session, w)) => (Panic msg, (sess_drop session w).2)
  | (NoReturn, (_, w)) => (NoReturn, w)
  end.

Definition cypher_accept (connection : TcpStream) (cert : Cert) (allowed_ids : list SignerPk)
    (signer : Signer) : M io_error World CypherSession :=
  or_drop (Tcp.drop connection) (
    let! addr := λ w, of_result (tcp_remote_addr connection w) w in
    ret (with_config (host_of_addr addr) connection Inbound cert allowed_ids signer false)).

End cypher.

(** ** Facts about the kernel used below *)

Lemma open_socket_find s w fd w' :
  open_socket s w = (Ret (Ok fd), w') → ∃ i, find fd w' = Some (i, s).
Proof.
  unfold open_socket. intros [= <- <-]. eexists.
  unfold find. simpl. rewrite lookup_insert_eq. rewrite lookup_insert_eq. done.
Qed.

(** A freshly connected stream is connected. *)
Lemma connect_timeout_connected addr timeout w s w' :
  Tcp.connect_timeout addr timeout w = (Ret (Ok s), w') → is_ok (getpeername (fd s) w') = true.
Proof.
  unfold Tcp.connect_timeout. intros Hc. apply bind_ok_inv in Hc as ([] & w1 & _ & Hc).
  destruct (dials w1) as [|[c|e] ds]; [done| |done].
  apply bind_ok_inv in Hc as (f & w2 & Ho & Hc). injection Hc as <- <-. simpl.
  apply open_socket_find in Ho as [i Hf]. by rewrite (getpeername_find _ _ _ _ Hf).
Qed.

Lemma tcp_connect_blocking_connected `{NetAddrApi} addr timeout w s w' :
  tcp_connect_blocking addr timeout w = (Ret (Ok s), w') → is_ok (getpeername (fd s) w') = true.
Proof.
  unfold tcp_connect_blocking. intros Hc. apply bind_ok_inv in Hc as (a & w1 & _ & Hc).
  by eapply connect_timeout_connected.
Qed.

(** ** Theorems about the stack *)

Module CypherSpecs.
Section specs.
Context `{Fuel} `{NetAddrApi} `{Socket2} `{Target} `{AddrDisplay}.
Context `{Socks5Api} `{NoiseApi} `{EidolonApi}.

(** The parts of a session. *)
Definition stream_of (s : CypherSession) : TcpStream := np_session (np_session (np_session s)).
Definition socks5_of (s : CypherSession) : Socks5 := np_state (np_session (np_session s)).
Definition noise_of (s : CypherSession) : NoiseState := np_state (np_session s).
Definition eidolon_of (s : CypherSession) : EidolonState := er_state (np_state s).

(** C15: once a [CypherSession] is established, [write] hands the application's
    bytes to the TCP socket as they are, and none of the three layers changes:
    the bytes the kernel takes for sending are a prefix of the bytes written.
    The Noise layer takes part in the handshake only; it does not encrypt. *)
Theorem cypher_writes_plaintext (s : CypherSession) w b k s' w' :
  is_established s w = true → write b (s, w) = (Ret (Ok k), (s', w')) →
  s' = s ∧ is_established s' w' = true ∧
  sent (fd (stream_of s)) w' = sent (fd (stream_of s)) w ++ take k b.
Proof.
  intros He Hw. pose proof (law_write_keeps _ _ _ _ _ _ He Hw eq_refl) as He'.
  rewrite law_write_through in Hw by done. rewrite on_connection_eq in Hw.
  destruct (write b (as_connection s, w)) as [o [c1 w1]] eqn:Hs. injection Hw as -> <- <-.
  apply tcp_write_inv in Hs as [-> Hs]. apply send_ok in Hs as (_ & _ & Hsent & _).
  by destruct s as [? [? [? ?]]].
Qed.

(** C32: reading an established [CypherSession] returns what the TCP socket
    delivers, byte for byte, and changes none of the layers. *)
Theorem cypher_reads_plaintext (s : CypherSession) w n b s' w' :
  is_established s w = true → read n (s, w) = (Ret (Ok b), (s', w')) →
  s' = s ∧ is_established s' w' = true ∧ recv (fd (stream_of s)) n w = (Ret (Ok b), w').
Proof.
  intros He Hr. pose proof (law_read_keeps _ _ _ _ _ _ He Hr eq_refl) as He'.
  rewrite law_read_through in Hr by done. rewrite on_connection_eq in Hr.
  destruct (read n (as_connection s, w)) as [o [c1 w1]] eqn:Hs. injection Hr as -> <- <-.
  apply tcp_read_inv in Hs as [-> Hs]. by destruct s as [? [? [? ?]]].
Qed.

(** C5: until the whole stack is established, [read] gives the application no
    data.  [write] takes none, and two non-empty buffers are treated alike down
    to the state of the network, so that no byte of the application's data
    reaches the wire; unless the session is [exposed]: the machine of the lowest
    layer whose handshake is not over waits for no input and has nothing to
    send.  Then, and only then, the whole buffer goes to the TCP stream as it
    is, whatever the layers above still have to do. *)
Theorem cypher_no_early_data (s : CypherSession) w :
  is_established s w = false →
  (∀ n b st', read n (s, w) = (Ret (Ok b), st') → b = []) ∧
  if exposed s w
  then ∃ s1, stream_of s1 = stream_of s ∧ ∀ b, write b (s, w) = on_connection (write b) (s1, w)
  else (∀ b k st', write b (s, w) = (Ret (Ok k), st') → k = 0) ∧
       (∀ b1 b2, b1 ≠ [] → b2 ≠ [] → write b1 (s, w) = write b2 (s, w)).
Proof.
  intros He. split; [|destruct (exposed s w) eqn:Hx; [|split]].
  - intros n b [s' w'] Hr. exact (law_read_early _ _ _ _ _ _ He Hr).
  - destruct (exposed_write s w He Hx) as (s1 & Hc & Hw). by exists s1.
  - intros b k [s' w'] Hr. exact (early_write_none _ _ _ _ _ _ He Hx Hr).
  - intros b1 b2. exact (early_write_oblivious b1 b2 s w He Hx).
Qed.

Section connect.
Context (connection_addr : NetAddr → HostAddr → NetAddr) (host_of_addr : NetAddr → HostAddr).

(** C9: [connect_blocking] only ever returns a session on which all handshakes
    have been completed. *)
Theorem connect_blocking_establishes remote_addr cert allowed_ids signer proxy_addr force_proxy
    timeout w s w' :
  cypher_connect_blocking connection_addr remote_addr cert allowed_ids signer proxy_addr force_proxy
    timeout w = (Ret (Ok s), w') → is_established s w' = true.
Proof.
  unfold cypher_connect_blocking. intros Hc. apply bind_ok_inv in Hc as (c & w1 & Hconn & Hc).
  assert (is_ok (getpeername (fd c) w1) = true) as Hp.
  { destruct force_proxy; by eapply tcp_connect_blocking_connected. }
  destruct (run_handshake _) as [[[[]|]| |] [s1 w2]] eqn:Hr; try done. injection Hc as <- <-.
  eapply (linked_handshake (S := CypherSession)); [|exact Hr].
  simpl. by rewrite tcp_established.
Qed.

(** [accept] refuses a connection without a peer and otherwise builds a
    responder that does not go through a proxy, talking to that peer over the
    given stream. *)
Lemma accept_spec connection cert allowed_ids signer w :
  cypher_accept host_of_addr connection cert allowed_ids signer w =
    match getpeername (fd connection) w with
    | Ok peer =>
        (Ret (Ok (mk_protocol (mk_eidolon _ (eidolon_responder cert allowed_ids) signer)
           (mk_protocol (noise_nn false)
             (mk_protocol (socks5_with (host_of_addr (from_socket_addr peer)) false) connection)))), w)
    | Err e => (Ret (Err e), set_fds (delete (fd connection) (fds w)) w)
    end.
Proof.
  unfold cypher_accept, or_drop, bind, of_result, tcp_remote_addr, Tcp.peer_addr.
  by destruct (getpeername _ _).
Qed.
End connect.

Section termination.
Context `{!BoundedMachine Socks5} `{!BoundedMachine NoiseState} `{!BoundedMachine EidolonRuntime}.

(** The acts and act sizes of the three machines. *)
Definition cypher_budget (s : CypherSession) : nat := handshake_budget s.

End termination.

End specs.
End CypherSpecs.
