(* ===== verification/Handshake.v ===== *)
(** * The blocking handshake carries out the protocol

    The state machines of the layers are abstract dialogues: they say which
    bytes go out and which have to come in.  Over a network that delivers the
    peer's bytes, cut into pieces in any way and interrupted any number of
    times, [run_handshake] carries out the dialogue of each layer, in order,
    sends exactly the bytes of the dialogues, takes exactly the replies off the
    wire, and ends with an established session.

    Non-blocking use does not have this: a handshake act that arrives in two
    pieces is lost, and [write_all] on a layer that waits for its peer never
    returns. *)

From S2P Require Import Prelude Std Kernel Connection Session SessionLaws Termination Cypher.

(** ** Dialogues *)

(** [dialogue m input replies acts n m']: fed with [input], the machine [m]
    gets to its artifact in [n] steps, as [m'], if the peer sends [replies]; on
    the way it says [acts]. *)
Inductive dialogue `{NetStateMachine Mch} : Mch → bytes → bytes → bytes → nat → Mch → Prop :=
| dialogue_over m input : is_complete m = true → dialogue m input [] [] 0 m
| dialogue_last m input act m' :
    is_complete m = false → advance input m = (Ok act, m') → is_complete m' = true →
    dialogue m input [] act 1 m'
| dialogue_turn m input act m1 reply replies acts n m' :
    is_complete m = false → advance input m = (Ok act, m1) → is_complete m1 = false →
    length reply = next_read_len m1 → dialogue m1 reply replies acts n m' →
    dialogue m input (reply ++ replies) (act ++ acts) (S n) m'.

Lemma dialogue_complete `{NetStateMachine Mch} (m : Mch) input replies acts n m' :
  dialogue m input replies acts n m' → is_complete m' = true.
Proof. by induction 1. Qed.

(** ** A steady network *)

(** Pieces of data and interruptions, nothing else. *)
Definition steady_rx (e : rx_event) : bool :=
  match e with RxData b => negb (is_empty b) | RxFail e => is_interrupted e | _ => false end.
Definition steady_tx (e : tx_event) : bool :=
  match e with TxAccept k => 0 <? k | TxFail e => is_interrupted e end.
Definition rx_bytes (e : rx_event) : bytes := match e with RxData b => b | _ => [] end.

(** The socket is connected, and [data] is what is going to arrive. *)
Definition steady (f : RawFd) (w : World) (data : bytes) : Prop :=
  ∃ i k, find f w = Some (i, k) ∧ is_some (peer_of k) = true ∧ sk_shut_wr k = false ∧
    forallb steady_rx (sk_rx k) = true ∧ forallb steady_tx (sk_tx k) = true ∧
    concat (map rx_bytes (sk_rx k)) = data.

(** What a piece of code did to the socket: took [inward] and sent [outward]. *)
Record moved (f : RawFd) (w w' : World) (inward outward : bytes) : Prop := mk_moved {
  mv_sent : sent f w' = sent f w ++ outward;
  mv_received : received f w' = received f w ++ inward;
  mv_peer : getpeername f w' = getpeername f w;
  mv_events : events_left f w' ≤ events_left f w
}.

Lemma moved_refl f w : moved f w w [] [].
Proof. split; by rewrite ?app_nil_r. Qed.

Lemma moved_trans f w w1 w2 i1 o1 i2 o2 :
  moved f w w1 i1 o1 → moved f w1 w2 i2 o2 → moved f w w2 (i1 ++ i2) (o1 ++ o2).
Proof. intros [] []. split; [| |congruence|lia]; rewrite app_assoc; congruence. Qed.

Lemma recv_steady f w data n o w' :
  steady f w data → 0 < n → data ≠ [] → recv f n w = (o, w') →
  (∃ b data', o = Ret (Ok b) ∧ b ≠ [] ∧ length b ≤ n ∧ data = b ++ data' ∧ steady f w' data' ∧
     moved f w w' b []) ∨
  (∃ e, o = Ret (Err e) ∧ is_interrupted e = true ∧ steady f w' data ∧ moved f w w' [] [] ∧
     events_left f w' < events_left f w).
Proof.
  intros (i & k & Hf & Hp & Hs & Hrx & Htx & Hd) Hn Hne Hr.
  apply on_socket_inv in Hr as [(Hf0 & _)|(j & k0 & k' & Hf0 & Hr & Hf' & _)]; [congruence|].
  rewrite Hf in Hf0. injection Hf0 as <- <-. unfold recv_socket in Hr. unfold peer_of in Hp.
  destruct (sk_link k) as [| |peer|] eqn:Hl; try done.
  destruct (sk_rx k) as [|[b| |e|] rest] eqn:Hx; simpl in Hrx, Hd; try done.
  - apply andb_true_iff in Hrx as [Hb Hrest]. injection Hr as <- <-. left.
    assert (Hb0 : b ≠ []) by by destruct b.
    exists (take n b), (drop n b ++ concat (map rx_bytes rest)). split_and!; [done| | | | |].
    + destruct n, b; simpl; [lia|lia|done|done].
    + rewrite length_take. lia.
    + by rewrite app_assoc, take_drop.
    + eexists _, _. split; [exact Hf'|]. unfold peer_of. simpl. rewrite Hl.
      split_and!; [done|done| |done|]; destruct (is_empty (drop n b)) eqn:He; simpl; try done.
      * by rewrite He.
      * apply is_empty_true in He. by rewrite He.
    + split; unfold sent, received, getpeername, events_left, peer_of; rewrite Hf, Hf'; simpl;
        rewrite ?app_nil_r, ?Hl, ?Hx; try done. destruct (is_empty (drop n b)); cbn [length]; lia.
  - apply andb_true_iff in Hrx as [Hb Hrest]. injection Hr as <- <-. right. exists e.
    split_and!; [done|done| | |].
    + eexists _, _. split; [exact Hf'|]. unfold peer_of. simpl. rewrite Hl. by split_and!.
    + split; unfold sent, received, getpeername, events_left, peer_of; rewrite Hf, Hf'; simpl;
        rewrite ?app_nil_r, ?Hl, ?Hx; try done. simpl. lia.
    + unfold events_left. rewrite Hf, Hf', Hx. simpl. lia.
Qed.

Lemma send_steady f w data b o w' :
  steady f w data → b ≠ [] → send f b w = (o, w') →
  (∃ k, o = Ret (Ok (S k)) ∧ S k ≤ length b ∧ steady f w' data ∧ moved f w w' [] (take (S k) b)) ∨
  (∃ e, o = Ret (Err e) ∧ is_interrupted e = true ∧ steady f w' data ∧ moved f w w' [] [] ∧
     events_left f w' < events_left f w).
Proof.
  intros (i & k & Hf & Hp & Hs & Hrx & Htx & Hd) Hne Hr.
  apply on_socket_inv in Hr as [(Hf0 & _)|(j & k0 & k' & Hf0 & Hr & Hf' & _)]; [congruence|].
  rewrite Hf in Hf0. injection Hf0 as <- <-. unfold send_socket in Hr. unfold peer_of in Hp.
  destruct (sk_link k) as [| |peer|] eqn:Hl; try done. rewrite Hs in Hr.
  destruct b as [|x b]; [done|]. destruct (sk_tx k) as [|[m|e] rest] eqn:Hx; simpl in Htx.
  - injection Hr as <- <-. left. exists (length b). split_and!; [done|done| |].
    + eexists _, _. split; [exact Hf'|]. unfold peer_of. simpl. rewrite Hl, Hx. by split_and!.
    + rewrite take_ge by done. split; unfold sent, received, getpeername, events_left, peer_of;
        rewrite Hf, Hf'; simpl; rewrite ?app_nil_r, ?Hl; done.
  - apply andb_true_iff in Htx as [Hm Hrest]. apply Nat.ltb_lt in Hm. destruct m as [|m]; [lia|].
    injection Hr as <- <-. left. exists (Nat.min m (length b)). split_and!; [done|simpl; lia| |].
    + eexists _, _. split; [exact Hf'|]. unfold peer_of. simpl. rewrite Hl. by split_and!.
    + split; unfold sent, received, getpeername, events_left, peer_of; rewrite Hf, Hf'; simpl;
        rewrite ?app_nil_r, ?Hl, ?Hx; try done. simpl. lia.
  - apply andb_true_iff in Htx as [Hm Hrest]. injection Hr as <- <-. right. exists e. split_and!; [done|done| | |].
    + eexists _, _. split; [exact Hf'|]. unfold peer_of. simpl. rewrite Hl. by split_and!.
    + split; unfold sent, received, getpeername, events_left, peer_of; rewrite Hf, Hf'; simpl;
        rewrite ?app_nil_r, ?Hl, ?Hx; try done. simpl. lia.
    + unfold events_left. rewrite Hf, Hf', Hx. simpl. lia.
Qed.

(** ** The retry loops on a steady network *)

Lemma read_exact_steady fuel b data acc (s : TcpStream) w :
  steady (fd s) w (b ++ data) → length b + events_left (fd s) w < fuel →
  ∃ w', read_exact_loop fuel (length b) acc (s, w) = (Ret (Ok (acc ++ b)), (s, w')) ∧
    steady (fd s) w' data ∧ moved (fd s) w w' b [].
Proof.
  revert b acc w. induction fuel as [|fuel IH]; intros b acc w Hst Hf; [lia|].
  destruct b as [|x b]; [rewrite app_nil_r; exists w; auto using moved_refl|].
  cbn [length read_exact_loop]. unfold bind, attempt.
  destruct (read (S (length b)) (s, w)) as [o [s1 w1]] eqn:Hr. apply tcp_read_inv in Hr as [-> Hr].
  assert (Hne : (x :: b) ++ data ≠ []) by done.
  destruct (recv_steady _ _ _ _ _ _ Hst (Nat.lt_0_succ _) Hne Hr)
    as [(c & data' & -> & Hc & Hlen & Heq & Hst1 & Hm)|(e & -> & He & Hst1 & Hm & Hlt)].
  - destruct c as [|y c]; [done|]. rewrite (proj2 (Nat.leb_le _ _) Hlen).
    assert (Hsplit : ∃ rest, x :: b = (y :: c) ++ rest ∧ data' = rest ++ data).
    { apply app_eq_inv in Heq as [(k & H1 & H2)|(k & H1 & H2)]; [by exists k|].
      assert (k = []) as -> by (apply (f_equal length) in H1; rewrite length_app in H1; simpl in *;
        destruct k; [done|simpl in *; lia]).
      exists []. rewrite app_nil_r in H1. by rewrite app_nil_r. }
    destruct Hsplit as (rest & Hb & ->).
    assert (Hl : S (length b) - length (y :: c) = length rest).
    { apply (f_equal length) in Hb. rewrite length_app in Hb. simpl in *. lia. }
    rewrite Hl. pose proof (mv_events _ _ _ _ _ Hm).
    destruct (IH rest (acc ++ y :: c) w1 Hst1) as (w2 & -> & Hst2 & Hm2); [simpl in *; lia|].
    exists w2. rewrite Hb. rewrite <-app_assoc. split_and!; [done|done|].
    exact (moved_trans _ _ _ _ _ _ _ _ Hm Hm2).
  - rewrite He. destruct (IH (x :: b) acc w1 Hst1) as (w2 & Heq & Hst2 & Hm2); [lia|].
    exists w2. split_and!; [exact Heq|done|]. exact (moved_trans _ _ _ _ _ _ _ _ Hm Hm2).
Qed.

Lemma write_all_steady fuel b data (s : TcpStream) w :
  steady (fd s) w data → length b + events_left (fd s) w < fuel →
  ∃ w', write_all_loop fuel b (s, w) = (Ret (Ok tt), (s, w')) ∧
    steady (fd s) w' data ∧ moved (fd s) w w' [] b.
Proof.
  revert b w. induction fuel as [|fuel IH]; intros b w Hst Hf; [lia|].
  destruct b as [|x b]; [exists w; auto using moved_refl|].
  cbn [write_all_loop]. unfold bind, attempt.
  destruct (write (x :: b) (s, w)) as [o [s1 w1]] eqn:Hr. apply tcp_write_inv in Hr as [-> Hr].
  assert (Hne : x :: b ≠ []) by done.
  destruct (send_steady _ _ _ _ _ _ Hst Hne Hr)
    as [(k & -> & Hk & Hst1 & Hm)|(e & -> & He & Hst1 & Hm & Hlt)].
  - rewrite (proj2 (Nat.leb_le _ _) Hk). pose proof (mv_events _ _ _ _ _ Hm).
    destruct (IH (drop (S k) (x :: b)) w1 Hst1) as (w2 & -> & Hst2 & Hm2).
    { rewrite length_drop. simpl in *. lia. }
    exists w2. split_and!; [done|done|].
    pose proof (moved_trans _ _ _ _ _ _ _ _ Hm Hm2) as Hm3. by rewrite take_drop in Hm3.
  - rewrite He. destruct (IH (x :: b) w1 Hst1) as (w2 & Heq & Hst2 & Hm2); [lia|].
    exists w2. split_and!; [exact Heq|done|]. exact (moved_trans _ _ _ _ _ _ _ _ Hm Hm2).
Qed.

(** ** A machine over a connection *)

Section machine.
Context `{Fuel} {Mch : Type} `{NetStateMachine Mch}.

(** An act that is written when there is one. *)
Lemma act_steady (act : bytes) (m : Mch) data (s : TcpStream) w :
  steady (fd s) w data → length act + events_left (fd s) w < loop_fuel →
  ∃ w', (if is_empty act then ret tt else on_snd (write_all act)) (m, (s, w)) =
      (Ret (Ok tt), (m, (s, w'))) ∧
    steady (fd s) w' data ∧ moved (fd s) w w' [] act.
Proof.
  intros Hst Hf. destruct act as [|x act]; [exists w; auto using moved_refl|].
  destruct (write_all_steady loop_fuel (x :: act) data s w Hst Hf) as (w' & Heq & ? & ?).
  exists w'. unfold on_snd, zoom, write_all. cbn [is_empty]. cbn [snd fst]. by rewrite Heq.
Qed.

Lemma run_machine_dialogue fuel (m : Mch) input replies acts n m' data (s : TcpStream) w :
  dialogue m input replies acts n m' → steady (fd s) w (replies ++ data) → n < fuel →
  length replies + length acts + events_left (fd s) w < loop_fuel →
  ∃ w', run_machine fuel input (m, (s, w)) = (Ret (Ok tt), (m', (s, w'))) ∧
    steady (fd s) w' data ∧ moved (fd s) w w' replies acts.
Proof.
  intros Hd. revert fuel w. induction Hd as [m input Hc|m input act m' Hc Ha Hc'
    |m input act m1 reply replies acts n m' Hc Ha Hc1 Hlen Hd IH]; intros fuel w Hst Hn Hf;
    (destruct fuel as [|fuel]; [lia|]); cbn [run_machine]; rewrite bind_gets;
    cbn [fst]; rewrite Hc; [exists w; auto using moved_refl|..].
  - unfold bind at 1, advance_or_abort. rewrite Ha.
    destruct (act_steady act m' data s w Hst) as (w1 & Heq & Hst1 & Hm); [simpl in *; lia|].
    rewrite (bind_ok _ _ _ _ _ Heq), bind_gets. cbn [fst]. rewrite Hc'.
    rewrite bind_ret_l. exists w1. split_and!; [|done|done].
    destruct fuel; cbn [run_machine]; rewrite bind_gets; cbn [fst]; by rewrite Hc'.
  - rewrite !length_app in Hf. unfold bind at 1, advance_or_abort. rewrite Ha.
    destruct (act_steady act m1 _ s w Hst) as (w1 & Heq & Hst1 & Hm); [lia|].
    rewrite (bind_ok _ _ _ _ _ Heq), bind_gets. cbn [fst]. rewrite Hc1.
    pose proof (mv_events _ _ _ _ _ Hm) as He1. rewrite <-app_assoc in Hst1.
    destruct (read_exact_steady loop_fuel reply (replies ++ data) [] s w1 Hst1) as (w2 & Hr & Hst2 & Hm2); [lia|].
    assert (Hread : on_snd (read_exact (next_read_len m1)) (m1, (s, w1)) = (Ret (Ok reply), (m1, (s, w2)))).
    { unfold on_snd, zoom, read_exact. cbn [snd fst]. by rewrite <-Hlen, Hr. }
    rewrite (bind_ok _ _ _ _ _ Hread). pose proof (mv_events _ _ _ _ _ Hm2) as He2.
    destruct (IH fuel w2 Hst2) as (w3 & -> & Hst3 & Hm3); [lia|lia|]. exists w3. split_and!; [done|done|].
    pose proof (moved_trans _ _ _ _ _ _ _ _ (moved_trans _ _ _ _ _ _ _ _ Hm Hm2) Hm3) as Hall.
    by rewrite app_nil_r in Hall.
Qed.

End machine.

(** ** The layers *)

(** The handshake of a session, skipped by the layer above when the session is
    established already. *)
Definition ensure {S} `{NetSession S} (s : S) (w : World) : outcome (io_result unit) * (S * World) :=
  if is_established s w then (Ret (Ok tt), (s, w)) else run_handshake (s, w).

(** On a steady network, [ensure] turns [s] into the established session [s'],
    taking [replies] off the wire and sending [acts]. *)
Definition carries `{Fuel} {S} `{NetSession S} (f : RawFd) (s s' : S) (replies acts : bytes) : Prop :=
  ∀ w data, steady f w (replies ++ data) → length replies + length acts + events_left f w < loop_fuel →
  ∃ w', ensure s w = (Ret (Ok tt), (s', w')) ∧ is_established s' w' = true ∧
    steady f w' data ∧ moved f w w' replies acts.

Lemma tcp_carries `{Fuel} `{NetAddrApi} `{Socket2} `{Target} `{AddrDisplay} (s : TcpStream) :
  carries (fd s) s s [] [].
Proof.
  intros w data Hst _. assert (He : is_established s w = true).
  { rewrite tcp_established. destruct Hst as (i & k & Hf & Hp & _).
    rewrite (getpeername_find _ _ _ _ Hf). by destruct (peer_of k). }
  exists w. unfold ensure. rewrite He. auto using moved_refl.
Qed.

Section layer.
Context `{Fuel} {Mch S : Type} `{NetStateMachine Mch} `{NetSession S}
  `{!IntoInit (Artifact S) (Init Mch)} `{!NetSessionLaws S} `{!DirectSession S}.

(** The machine of a layer does its part over the bare connection. *)
Definition machine_carries (f : RawFd) (m m' : Mch) (s : S) (replies acts : bytes) : Prop :=
  ∀ w data, is_established s w = true → steady f w (replies ++ data) →
  length replies + length acts + events_left f w < loop_fuel →
  ∃ w', run_machine loop_fuel [] (np_state (initialised (mk_protocol m s) w), (as_connection s, w)) =
      (Ret (Ok tt), (m', (as_connection s, w'))) ∧
    is_complete m' = true ∧ steady f w' data ∧ moved f w w' replies acts.

Lemma layer_handshake f (m m' : Mch) (s s' : S) r1 a1 r2 a2 w data :
  f = direct_fd s' → carries f s s' r1 a1 → machine_carries f m m' s' r2 a2 →
  steady f w ((r1 ++ r2) ++ data) → length (r1 ++ r2) + length (a1 ++ a2) + events_left f w < loop_fuel →
  ∃ w', run_handshake (mk_protocol m s, w) = (Ret (Ok tt), (mk_protocol m' s', w')) ∧
    is_established (mk_protocol m' s') w' = true ∧ steady f w' data ∧ moved f w w' (r1 ++ r2) (a1 ++ a2).
Proof.
  intros -> Hin Hm Hst Hf. rewrite !length_app in Hf. rewrite <-app_assoc in Hst.
  destruct (Hin w (r2 ++ data) Hst) as (w1 & He1 & Hes1 & Hst1 & Hm1); [lia|].
  pose proof (mv_events _ _ _ _ _ Hm1) as Hev.
  destruct (Hm w1 data Hes1 Hst1) as (w2 & Hrun & Hc & Hst2 & Hm2); [lia|].
  exists w2. split_and!; [|..|done|by eapply moved_trans].
  - simpl. unfold Protocol.run_handshake. rewrite bind_gets.
    assert (Hfirst : (if is_established (np_session (mk_protocol m s)) w then ret tt
      else Protocol.on_session run_handshake) (mk_protocol m s, w) = (Ret (Ok tt), (mk_protocol m s', w1))).
    { unfold ensure in He1. cbn [np_session]. destruct (is_established s w).
      - by injection He1 as <- <-.
      - by apply (on_session_eq (S:=S)). }
    cbn [id fst snd]. rewrite (bind_ok _ _ _ _ _ Hfirst).
    destruct (init_eq (E:=io_error) (mk_protocol m s') w1) as [b Hi]. rewrite (bind_ok _ _ _ _ _ Hi).
    unfold Protocol.run_state_handshake, zoom. cbn [fst snd]. rewrite session_initialised. cbn [np_session].
    rewrite Hrun. cbn [fst snd]. by rewrite law_put_get.
  - rewrite established_protocol. cbn [np_session np_state].
    by rewrite (direct_peer _ _ _ (mv_peer _ _ _ _ _ Hm2)), Hes1, Hc.
Qed.

(** For a machine that needs no initialisation the layer can be skipped. *)
Lemma layer_carries f (m m' : Mch) (s s' : S) r1 a1 r2 a2 :
  is_init m = true → f = direct_fd s' → carries f s s' r1 a1 → machine_carries f m m' s' r2 a2 →
  carries f (mk_protocol m s) (mk_protocol m' s') (r1 ++ r2) (a1 ++ a2).
Proof.
  intros Hi Hfd Hin Hm w data Hst Hf. destruct (is_established (mk_protocol m s) w) eqn:He.
  - pose proof He as Hboth. rewrite established_protocol in Hboth. cbn [np_session np_state] in Hboth.
    apply andb_true_iff in Hboth as [Hes Hc]. rewrite !length_app in Hf. rewrite <-app_assoc in Hst.
    destruct (Hin w (r2 ++ data) Hst) as (w1 & He1 & Hes1 & Hst1 & Hm1); [lia|].
    unfold ensure in He1. rewrite Hes in He1. injection He1 as <- <-.
    destruct (Hm w data Hes Hst1) as (w2 & Hrun & Hc' & Hst2 & Hm2); [lia|].
    unfold initialised in Hrun. cbn [np_state] in Hrun. rewrite Hi in Hrun. cbn [np_state] in Hrun.
    destruct loop_fuel; [lia|]. cbn [run_machine] in Hrun. rewrite bind_gets in Hrun. cbn [fst] in Hrun.
    rewrite Hc in Hrun. injection Hrun as <- <-. exists w. unfold ensure. rewrite He.
    split_and!; [done|done|done|by eapply moved_trans].
  - destruct (layer_handshake f m m' s s' r1 a1 r2 a2 w data Hfd Hin Hm Hst Hf) as (w' & Hrun & ? & ? & ?).
    exists w'. unfold ensure. rewrite He. by split_and!.
Qed.

End layer.

(** A socket with one last piece of data, and one that has run dry. *)
Lemma recv_last_piece g len w i k b :
  find g w = Some (i, k) → is_some (peer_of k) = true → sk_rx k = [RxData b] → length b ≤ len →
  ∃ w1 k1, recv g len w = (Ret (Ok b), w1) ∧ find g w1 = Some (i, k1) ∧ sk_rx k1 = [] ∧
    sk_nonblocking k1 = sk_nonblocking k ∧ is_some (peer_of k1) = true ∧
    received g w1 = received g w ++ b ∧ getpeername g w1 = getpeername g w.
Proof.
  intros Hf Hpeer Hrx Hlen. destruct (recv g len w) as [o w1] eqn:Hr.
  apply on_socket_inv in Hr as [(Hf0 & _)|(j & k0 & k1 & Hf0 & Hr1 & Hf1 & _)]; [congruence|].
  rewrite Hf in Hf0. injection Hf0 as <- <-. unfold recv_socket in Hr1. unfold peer_of in Hpeer.
  destruct (sk_link k) as [| |peer|] eqn:Hl; try done. rewrite Hrx in Hr1.
  rewrite take_ge, drop_ge in Hr1 by lia. injection Hr1 as <- <-. eexists w1, _. split; [done|].
  split; [exact Hf1|]. unfold received, getpeername. rewrite Hf, Hf1. unfold peer_of. simpl. rewrite Hl. by split_and!.
Qed.

Lemma recv_dry g w i k n :
  find g w = Some (i, k) → is_some (peer_of k) = true → sk_nonblocking k = true → sk_rx k = [] →
  recv g n w = (Ret (Err (error_from WouldBlock)), w).
Proof.
  intros Hf Hpeer Hnb Hrx. unfold recv, on_socket. rewrite Hf. unfold recv_socket, peer_of in *.
  destruct (sk_link k); try done. rewrite Hrx. unfold wait. rewrite Hnb. simpl.
  unfold find in Hf. destruct (fds w !! g) as [j|]; [|done].
  destruct (socks w !! j) eqn:Hj; [|done]. injection Hf as -> ->. rewrite insert_id by done. by destruct w.
Qed.

Module HandshakeContract.
Section specs.
Context `{Fuel} `{NetAddrApi} `{Socket2} `{Target} `{AddrDisplay}.
Context `{Socks5Api} `{NoiseApi} `{EidolonApi}.

(** The Eidolon machine as its handshake begins: bound to the Noise channel. *)
Definition bound_eidolon (channel : NoiseArtifact) (e : EidolonRuntime) : EidolonRuntime :=
  if is_init e then e else m_init (noise_to_vec channel) e.

(** A dialogue is what the machine of a layer over TCP carries out. *)
Lemma dialogue_carries {Mch S} `{NetStateMachine Mch} `{NetSession S}
    `{!IntoInit (Artifact S) (Init Mch)} (c : TcpStream) (m m' : Mch) (s : S) replies acts n
    (Hrun : ∀ w data, is_established s w = true → steady (fd c) w (replies ++ data) →
      length replies + length acts + events_left (fd c) w < loop_fuel →
      ∃ w', run_machine loop_fuel [] (np_state (initialised (mk_protocol m s) w), (as_connection s, w)) =
        (Ret (Ok tt), (m', (as_connection s, w'))) ∧ steady (fd c) w' data ∧ moved (fd c) w w' replies acts) m0 :
  dialogue m0 [] replies acts n m' → machine_carries (fd c) m m' s replies acts.
Proof.
  intros Hd w data He Hst Hf. destruct (Hrun w data He Hst Hf) as (w' & ? & ? & ?).
  exists w'. split_and!; [done| |done|done]. by eapply dialogue_complete.
Qed.

(** C2: the blocking handshake carries out the three protocols.  If each layer's
    machine can come to its artifact by some dialogue (the Eidolon machine after
    it was bound to the Noise channel), and the network delivers the peer's side
    of the dialogues, in pieces of any size and with any number of interrupted
    calls, then [run_handshake] succeeds: the session is established, its
    machines are those at the end of the dialogues, exactly the acts of SOCKS5,
    Noise and Eidolon have been sent in this order, and exactly the replies have
    been taken off the wire, so that [data] is there for the application. *)
Theorem handshake_carries_dialogues (s : CypherSession) w data
    r1 a1 n1 m1 r2 a2 n2 m2 channel r3 a3 n3 m3 :
  dialogue (CypherSpecs.socks5_of s) [] r1 a1 n1 m1 →
  dialogue (CypherSpecs.noise_of s) [] r2 a2 n2 m2 → noise_artifact m2 = Some channel →
  dialogue (bound_eidolon channel (np_state s)) [] r3 a3 n3 m3 →
  steady (fd (CypherSpecs.stream_of s)) w (((r1 ++ r2) ++ r3) ++ data) →
  n1 < loop_fuel → n2 < loop_fuel → n3 < loop_fuel →
  length ((r1 ++ r2) ++ r3) + length ((a1 ++ a2) ++ a3) + events_left (fd (CypherSpecs.stream_of s)) w < loop_fuel →
  ∃ s' w', run_handshake (s, w) = (Ret (Ok tt), (s', w')) ∧
    s' = mk_protocol m3 (mk_protocol m2 (mk_protocol m1 (CypherSpecs.stream_of s))) ∧
    is_established s' w' = true ∧
    sent (fd (CypherSpecs.stream_of s)) w' = sent (fd (CypherSpecs.stream_of s)) w ++ (a1 ++ a2) ++ a3 ∧
    received (fd (CypherSpecs.stream_of s)) w' = received (fd (CypherSpecs.stream_of s)) w ++ (r1 ++ r2) ++ r3 ∧
    steady (fd (CypherSpecs.stream_of s)) w' data.
Proof.
  destruct s as [e [n0 [s5 c]]]. unfold CypherSpecs.stream_of, CypherSpecs.socks5_of, CypherSpecs.noise_of.
  cbn [np_session np_state]. intros Hd1 Hd2 Hch Hd3 Hst Hn1 Hn2 Hn3 Hf.
  assert (Hs5 : carries (fd c) (mk_protocol s5 c) (mk_protocol m1 c) ([] ++ r1) ([] ++ a1)).
  { apply layer_carries; [done|done|apply tcp_carries|]. eapply dialogue_carries; [|exact Hd1].
    intros w0 data0 He0 Hst0 Hf0. by eapply run_machine_dialogue. }
  assert (Hnn : carries (fd c) (mk_protocol n0 (mk_protocol s5 c)) (mk_protocol m2 (mk_protocol m1 c))
    (r1 ++ r2) (a1 ++ a2)).
  { apply layer_carries; [done|done|exact Hs5|]. eapply dialogue_carries; [|exact Hd2].
    intros w0 data0 He0 Hst0 Hf0. by eapply run_machine_dialogue. }
  assert (Hei : machine_carries (fd c) e m3 (mk_protocol m2 (mk_protocol m1 c)) r3 a3).
  { eapply dialogue_carries; [|exact Hd3]. intros w0 data0 He0 Hst0 Hf0.
    assert (Hinit : np_state (initialised (mk_protocol e (mk_protocol m2 (mk_protocol m1 c))) w0) =
      bound_eidolon channel e).
    { unfold initialised, bound_eidolon. cbn [np_state np_session]. destruct (is_init e); [done|].
      rewrite established_protocol in He0. apply andb_true_iff in He0 as [He0 _].
      unfold is_established in He0. cbn [np_session] in He0.
      cbn [artifact NetProtocol_session]. unfold Protocol.artifact at 1. cbn [np_session np_state m_artifact Noise_machine].
      rewrite Hch. by destruct (artifact (mk_protocol m1 c) w0). }
    rewrite Hinit. by eapply (run_machine_dialogue loop_fuel (bound_eidolon channel e)). }
  assert (Hfd : fd c = direct_fd (mk_protocol m2 (mk_protocol m1 c))) by done.
  destruct (layer_handshake _ e m3 _ _ _ _ _ _ w data Hfd Hnn Hei Hst Hf) as (w' & Hrun & He & Hst' & Hm).
  eexists _, w'. split_and!; [exact Hrun|done|done|by destruct Hm|by destruct Hm|done].
Qed.

End specs.
Section nonblocking.
Context `{Fuel} {Mch S : Type} `{NetStateMachine Mch} `{NetSession S}
  `{!IntoInit (Artifact S) (Init Mch)} `{!DirectSession S}.

(** C35: in non-blocking mode a handshake act that arrives in two pieces is
    lost.  When a layer waits for an act and only a part [b] of it is there, its
    [read] takes [b] off the socket and then reports [WouldBlock]; the machine
    has not seen [b], and the layer starts over with the next bytes. *)
Theorem partial_act_lost n (p : NetProtocol Mch S) w i k b :
  Protocol.passes_through p w = false →
  find (direct_fd (np_session p)) w = Some (i, k) → is_some (peer_of k) = true →
  sk_nonblocking k = true → sk_rx k = [RxData b] → b ≠ [] →
  length b < next_read_len (np_state (initialised p w)) → 2 ≤ loop_fuel →
  ∃ w', read n (p, w) = (Ret (Err (error_from WouldBlock)), (initialised p w, w')) ∧
    received (direct_fd (np_session p)) w' = received (direct_fd (np_session p)) w ++ b.
Proof.
  intros Hp Hf Hpeer Hnb Hrx Hb Hlen Hfuel. simpl. rewrite read_early_eq by done.
  set (q := initialised p w) in *. set (len := next_read_len (np_state q)) in *.
  assert (Hs : np_session q = np_session p) by apply session_initialised.
  apply passes_through_false in Hp as [_ He]. set (g := direct_fd (np_session p)) in *.
  destruct (recv_last_piece g len w i k b Hf Hpeer Hrx) as (w1 & k1 & Hr1 & Hf1 & Hrx1 & Hnb1 & Hp1 & Hrec & Hpeer1);
    [lia|]. rewrite Hnb in Hnb1. pose proof (λ m, recv_dry g w1 i k1 m Hf1 Hp1 Hnb1 Hrx1) as Hsecond.
  assert (He1 : is_established (np_session p) w1 = true) by by rewrite (direct_peer _ _ _ Hpeer1).
  exists w1. split; [|done].
  assert (Hexact : read_exact len (np_session q, w) = (Ret (Err (error_from WouldBlock)), (np_session q, w1))).
  { rewrite Hs. unfold read_exact. destruct loop_fuel as [|[|fuel]]; [lia|lia|].
    destruct len as [|len'] eqn:Hl; [lia|]. cbn [read_exact_loop]. unfold bind at 1, attempt.
    rewrite direct_read by done. fold g. rewrite Hr1. destruct b as [|x b]; [done|].
    rewrite (proj2 (Nat.leb_le _ _)) by lia.
    destruct (Datatypes.S len' - length (x :: b)) as [|rest] eqn:Hrest; [lia|]. cbn [read_exact_loop].
    unfold bind at 1, attempt. rewrite direct_read by done. fold g. by rewrite Hsecond. }
  rewrite (bind_err _ _ _ _ _ (on_session_eq _ _ _ _ _ _ Hexact)). by destruct q.
Qed.

(** C36: [write_all] on a layer that waits for its peer never returns: every
    [write] is answered with [Interrupted], which [write_all] takes as an
    invitation to try again, and nothing is ever read that could end the wait. *)
Theorem write_all_spins fuel buf (p : NetProtocol Mch S) w :
  Protocol.passes_through p w = false → is_init (np_state p) = true → next_read_len (np_state p) ≠ 0 →
  buf ≠ [] → write_all_loop fuel buf (p, w) = (NoReturn, (p, w)).
Proof.
  intros Hp Hi Hn Hb. assert (Hq : initialised p w = p) by (unfold initialised; by rewrite Hi).
  assert (Hw : write buf (p, w) = (Ret (Err (error_from Interrupted)), (p, w))).
  { simpl. rewrite write_early_eq, Hq by done. rewrite bool_decide_eq_false_2 by done.
    unfold finish. by destruct buf. }
  destruct buf as [|x buf]; [done|]. induction fuel as [|fuel IH]; [done|].
  cbn [write_all_loop]. unfold bind, attempt. rewrite Hw. exact IH.
Qed.

End nonblocking.
End HandshakeContract.
