(* ===== verification/Descriptors.v ===== *)
(** * Who owns which descriptor

    The descriptors a [CypherSession] constructor opens: exactly one when it
    succeeds, none when it fails, on every path: a connection that is refused,
    a configuration call that fails, a handshake that is aborted. *)

From S2P Require Import Prelude Std Kernel Connection ConnectionSpecs Session SessionLaws Termination Cypher.

(** The descriptor table is untouched and the session keeps its descriptor. *)
Definition session_fd {S} `{NetSession S} (s : S) : RawFd := as_raw_fd (as_connection s).

Definition same_fds {S} `{NetSession S} : relation (S * World) := λ st st',
  fds st'.2 = fds st.2 ∧ session_fd st'.1 = session_fd st.1.

Definition conn_same_fds {C} `{NetConnection C} : relation (C * World) := λ st st',
  fds st'.2 = fds st.2 ∧ as_raw_fd st'.1 = as_raw_fd st.1.

#[export] Instance same_fds_preorder {S} `{NetSession S} : PreOrder (same_fds (S:=S)).
Proof. split; [done|]. intros [] [] [] [] []; split; simpl in *; congruence. Qed.

#[export] Instance conn_same_fds_preorder {C} `{NetConnection C} : PreOrder (conn_same_fds (C:=C)).
Proof. split; [done|]. intros [] [] [] [] []; split; simpl in *; congruence. Qed.

(** Connections and sessions whose reads and writes leave the descriptors alone,
    and sessions whose handshake does. *)
Class StableConnection (C : Type) `{NetConnection C} := {
  stable_read n : evolves (conn_same_fds (C:=C)) (read n);
  stable_write b : evolves (conn_same_fds (C:=C)) (write b)
}.

Class StableOptions (C : Type) `{NetConnection C} := {
  stable_nonblocking b (c : C) w o w' : set_nonblocking b c w = (o, w') → fds w' = fds w;
  stable_read_timeout d (c : C) w o w' : set_read_timeout d c w = (o, w') → fds w' = fds w;
  stable_write_timeout d (c : C) w o w' : set_write_timeout d c w = (o, w') → fds w' = fds w
}.

Class StableSession (S : Type) `{NetSession S} := {
  session_read_stable n : evolves (same_fds (S:=S)) (read n);
  session_write_stable b : evolves (same_fds (S:=S)) (write b);
  session_flush_stable : evolves (same_fds (S:=S)) flush
}.

Class StableHandshake (S : Type) `{NetSession S} :=
  stable_handshake : evolves (same_fds (S:=S)) run_handshake.

Section tcp.
Context `{NetAddrApi} `{Socket2} `{Target} `{AddrDisplay}.

Lemma on_socket_fds {A} f (g : socket → outcome (io_result A) * socket) w o w' :
  on_socket f g w = (o, w') → fds w' = fds w.
Proof. intros Hr. by apply on_socket_inv in Hr as [(_ & _ & ->)|(? & ? & ? & _ & _ & _ & ->)]. Qed.

#[export] Instance tcp_stable : StableConnection TcpStream.
Proof.
  split.
  - intros n [s w] o [s' w'] Hr. apply tcp_read_inv in Hr as [-> Hr]. by apply on_socket_fds in Hr.
  - intros b [s w] o [s' w'] Hr. apply tcp_write_inv in Hr as [-> Hr]. by apply on_socket_fds in Hr.
Qed.

Lemma configure_fds f h w o w' : configure f h w = (o, w') → fds w' = fds w.
Proof.
  unfold configure. destruct (syscall_cases w) as ([[]|e] & w1 & Hs & Hfds & _).
  - rewrite (bind_ok _ _ _ _ _ Hs). intros Hr. apply on_socket_fds in Hr. congruence.
  - rewrite (bind_err _ _ _ _ _ Hs). intros [= <- <-]. done.
Qed.

Lemma timeout_fds d f h w o w' :
  (run! check_timeout d in configure f h) w = (o, w') → fds w' = fds w.
Proof.
  unfold check_timeout. case_bool_decide.
  - by intros [= <- <-].
  - rewrite bind_ret_l. apply configure_fds.
Qed.

#[export] Instance tcp_stable_options : StableOptions TcpStream.
Proof.
  split.
  - intros b c w o w'. apply configure_fds.
  - intros d c w o w'. apply timeout_fds.
  - intros d c w o w'. apply timeout_fds.
Qed.

#[export] Instance tcp_conn_options : StableOptions (Connection TcpStream) := tcp_stable_options.

#[export] Instance tcp_conn_stable : StableConnection (Connection TcpStream) := tcp_stable.

#[export] Instance tcp_stable_session : StableSession TcpStream.
Proof.
  split.
  - intros n. exact (stable_read (C:=TcpStream) n).
  - intros b. exact (stable_write (C:=TcpStream) b).
  - by apply evolves_pure; [apply _|].
Qed.

#[export] Instance tcp_stable_handshake : StableHandshake TcpStream.
Proof. by apply evolves_pure; [apply _|]. Qed.
End tcp.

(** The retry loops keep whatever the single calls keep. *)
Section loops.
Context {C : Type} `{Stream C} (R : relation (C * World)) `{!PreOrder R}.

Lemma stable_read_exact fuel n acc :
  (∀ n, evolves R (read n)) → evolves R (read_exact_loop fuel n acc).
Proof.
  intros Hread. revert n acc. induction fuel as [|fuel IH]; intros [|n] acc; cbn [read_exact_loop]; evolve.
  - apply Hread.
  - destruct a as [[|x b]|e]; evolve; apply IH.
Qed.

Lemma stable_write_all fuel b : (∀ b, evolves R (write b)) → evolves R (write_all_loop fuel b).
Proof.
  intros Hwrite. revert b. induction fuel as [|fuel IH]; intros [|x b]; cbn [write_all_loop]; evolve.
  - apply Hwrite.
  - destruct a as [[|k]|e]; evolve; apply IH.
Qed.
End loops.

Section layers.
Context `{Fuel} {Mch S : Type} `{NetStateMachine Mch} `{NetSession S}
  `{!IntoInit (Artifact S) (Init Mch)} `{!NetSessionLaws S}
  `{!StableConnection (Connection S)}.

(** The same relation on a machine and a connection. *)
Definition machine_fds : relation (Mch * (Connection S * World)) := λ st st',
  conn_same_fds st.2 st'.2.

#[local] Instance machine_fds_preorder : PreOrder machine_fds.
Proof. split; [done|]. intros st1 st2 st3 H12 H23. unfold machine_fds in *. by etrans. Qed.

Lemma stable_advance input : evolves machine_fds (advance_or_abort (Mch:=Mch) input).
Proof.
  intros [m cw] o st' Heq. unfold advance_or_abort in Heq.
  destruct (advance input m) as [[] m1]; injection Heq as <- <-; by split.
Qed.

Lemma stable_on_snd {A} (m : M io_error (Connection S * World) A) :
  evolves conn_same_fds m → evolves machine_fds (on_snd m).
Proof. apply evolves_zoom. done. Qed.

Lemma stable_run_machine fuel input : evolves machine_fds (run_machine fuel input).
Proof.
  revert input. induction fuel as [|fuel IH]; intros input; cbn [run_machine]; evolve;
    [apply stable_advance|apply stable_on_snd, stable_write_all, stable_write; apply _
    |apply stable_on_snd, stable_read_exact, stable_read; apply _|apply IH].
Qed.

Lemma same_fds_inner (p p' : NetProtocol Mch S) w w' :
  same_fds (np_session p, w) (np_session p', w') → same_fds (p, w) (p', w').
Proof. done. Qed.

Lemma stable_init {E} : evolves (same_fds (S:=NetProtocol Mch S)) (Protocol.init (E:=E)).
Proof.
  intros [p w] o [p' w'] Heq. destruct (init_eq (E:=E) p w) as [b Hb]. rewrite Hb in Heq.
  injection Heq as <- <- <-. split; [done|]. unfold session_fd. simpl. by rewrite session_initialised.
Qed.

Lemma stable_on_session {E A} (m : M E (S * World) A) :
  evolves (same_fds (S:=S)) m → evolves (same_fds (S:=NetProtocol Mch S)) (Protocol.on_session m).
Proof. intros Hm. unfold Protocol.on_session. eapply evolves_zoom, Hm. by intros [p w] [s' w']. Qed.

Lemma stable_on_state input :
  evolves (same_fds (S:=NetProtocol Mch S)) (Protocol.on_state (advance_or_abort input)).
Proof.
  intros [p w] o [p' w'] Heq. unfold Protocol.on_state, zoom, advance_or_abort in Heq. simpl in Heq.
  destruct (advance input (np_state p)) as [[] m1]; by injection Heq as <- <- <-.
Qed.

#[export] Instance protocol_stable_session `{!StableSession S} : StableSession (NetProtocol Mch S).
Proof.
  split.
  - intros n. simpl. unfold Protocol.read. evolve.
    + apply stable_on_session, session_read_stable.
    + apply stable_init.
    + apply stable_on_session, stable_read_exact; [apply _|apply session_read_stable].
    + apply stable_on_state.
    + apply stable_on_session, stable_write_all; [apply _|apply session_write_stable].
  - intros b. simpl. unfold Protocol.write. evolve.
    + apply stable_on_session, session_write_stable.
    + apply stable_init.
    + apply stable_on_state.
    + apply stable_on_session, session_write_stable.
    + apply stable_on_session, stable_write_all; [apply _|apply session_write_stable].
  - simpl. apply stable_on_session, session_flush_stable.
Qed.

#[export] Instance protocol_conn_stable : StableConnection (Connection (NetProtocol Mch S)).
Proof. assumption. Qed.

#[export] Instance protocol_conn_options `{!StableOptions (Connection S)} :
  StableOptions (Connection (NetProtocol Mch S)).
Proof. assumption. Qed.

#[export] Instance protocol_stable_handshake `{!StableHandshake S} :
  StableHandshake (NetProtocol Mch S).
Proof.
  unfold StableHandshake. simpl. unfold Protocol.run_handshake. evolve.
  - unfold Protocol.on_session. eapply evolves_zoom, stable_handshake. by intros [p w] [s' w'].
  - apply stable_init.
  - unfold Protocol.run_state_handshake. eapply evolves_zoom, stable_run_machine.
    intros [p w] [m' [c' w']] [Hfds Hfd]. split; [done|].
    unfold session_fd. simpl in *. by rewrite law_get_put.
Qed.
End layers.

Lemma connect_timeout_opens addr timeout w :
  opens fd (λ k, ∃ p, sk_link k = Connected p) (Tcp.connect_timeout addr timeout) w.
Proof.
  unfold Tcp.connect_timeout, check_timeout. case_bool_decide; [by eexists _, _|].
  unfold opens, bind at 1, ret at 1.
  destruct (dials w) as [|[c|e] ds]; [by eexists _, _| |by eexists _, _].
  destruct (open_socket_opened (socket_of c) w (mk_world (fds w) (socks w) ds (faults w)))
    as (f & w2 & Ho & Hop); [done|].
  rewrite (bind_ok _ _ _ _ _ Ho). eexists _, _. split; [done|]. eexists. split; [exact Hop|].
  by eexists.
Qed.

Module DescriptorSpecs.
Section specs.
Context `{Fuel} `{NetAddrApi} `{Target} `{AddrDisplay} `{!Socket2, !Socket2Laws}.
Context `{Socks5Api} `{NoiseApi} `{EidolonApi}.
Context (connection_addr : NetAddr → HostAddr → NetAddr).

(** C17: both non-blocking constructors of [CypherSession] return: either with
    an error, and no descriptor is left open, or with a session over one new
    descriptor, whose socket is in non-blocking mode.  That socket is connected
    when the kernel could connect at once, and on its way when the kernel
    answered [EINPROGRESS]; but when it answered [EAGAIN], which is a failure,
    the constructors return a session too, over a socket without connection. *)
Theorem connect_nonblocking_opens local_addr remote_addr cert allowed_ids signer proxy_addr
    force_proxy timeout w :
  let direct := cypher_connect_nonblocking connection_addr remote_addr cert allowed_ids signer
                  proxy_addr force_proxy timeout in
  let reusable := cypher_connect_reusable_nonblocking connection_addr local_addr remote_addr cert
                    allowed_ids signer proxy_addr force_proxy in
  (opens session_fd nonblocking_socket direct w ∧ dials_for session_fd direct w) ∧
  (opens session_fd nonblocking_socket reusable w ∧ dials_for session_fd reusable w).
Proof.
  unfold cypher_connect_nonblocking, cypher_connect_reusable_nonblocking,
    tcp_connect_nonblocking, tcp_connect_reusable_nonblocking. cbv zeta.
  split; split; destruct force_proxy; first
    [ apply (opens_map fd); [done|]; apply opens_tcp;
      (apply socket_connect_nonblocking_opens || apply socket_connect_reusable_opens)
    | apply (dials_map fd); [done|]; apply (dials_map s2_as_raw_fd); [intros; apply s2_into_fd|];
      (apply socket_connect_nonblocking_dials || apply socket_connect_reusable_dials) ].
Qed.

(** C16: [connect_blocking] opens one descriptor, the one of the session it
    returns; when the connection cannot be made or any of the three handshakes
    fails, every descriptor it opened is closed again. *)
Theorem connect_blocking_descriptors remote_addr cert allowed_ids signer proxy_addr force_proxy
    timeout w r w' :
  cypher_connect_blocking connection_addr remote_addr cert allowed_ids signer proxy_addr force_proxy
    timeout w = (Ret r, w') →
  match r with
  | Ok s => fds w !! session_fd s = None ∧ ∃ i, fds w' = <[session_fd s := i]> (fds w)
  | Err _ => fds w' = fds w
  end.
Proof.
  unfold cypher_connect_blocking. intros Hc.
  assert (Hop : opens fd (λ _, True) (if force_proxy then tcp_connect_blocking proxy_addr timeout
    else tcp_connect_blocking (connection_addr proxy_addr remote_addr) timeout) w).
  { destruct force_proxy; (apply opens_after_first; intros a);
      (eapply opens_weaken; [apply connect_timeout_opens|done]). }
  destruct Hop as ([c|e] & w1 & Heq & Hr); [|rewrite (bind_err _ _ _ _ _ Heq) in Hc; by simplify_eq].
  rewrite (bind_ok _ _ _ _ _ Heq) in Hc. destruct Hr as (k & (Hnew & i & Hfds & _) & _).
  destruct (run_handshake _) as [o [s1 w2]] eqn:Hh.
  apply (stable_handshake (S:=CypherSession)) in Hh as [Hw2 Hs1]. simpl in Hw2.
  change (session_fd s1 = fd c) in Hs1.
  destruct o as [[[]|e]| |]; [| |done|done]; injection Hc as <- <-.
  - rewrite Hs1. split; [done|]. exists i. congruence.
  - simpl. change (delete (session_fd s1) (fds w2) = fds w). rewrite Hs1, Hw2, Hfds.
    by apply delete_insert_id.
Qed.


(** The events the network has in store for the connection it makes next. *)
Definition dial_events (w : World) : nat :=
  match dials w with Ok c :: _ => length (in_rx c) + length (in_tx c) | _ => 0 end.

Lemma tcp_connect_blocking_cases addr timeout w :
  ∃ r w1, tcp_connect_blocking addr timeout w = (Ret r, w1) ∧
    ∀ c, r = Ok c → fds w !! fd c = None ∧ events_left (fd c) w1 = dial_events w.
Proof.
  unfold tcp_connect_blocking. destruct (first_addr_cases addr AddrNotAvailable w) as [[a|e] Ha];
    [rewrite (bind_ok _ _ _ _ _ Ha)|rewrite (bind_err _ _ _ _ _ Ha); by eexists _, _].
  unfold Tcp.connect_timeout, check_timeout, dial_events. case_bool_decide; [by eexists _, _|].
  unfold bind at 1, ret at 1. destruct (dials w) as [|[c|e] ds]; [by eexists _, _| |by eexists _, _].
  destruct (open_socket_opened (socket_of c) w (mk_world (fds w) (socks w) ds (faults w)))
    as (f & w2 & Ho & Hnew & i & _ & Hf); [done|].
  rewrite (bind_ok _ _ _ _ _ Ho). eexists _, _. split; [done|]. intros t [= <-]. split; [done|].
  unfold events_left. simpl. by rewrite Hf.
Qed.

Context `{!BoundedMachine Socks5} `{!BoundedMachine NoiseState} `{!BoundedMachine EidolonRuntime}.


End specs.
End DescriptorSpecs.
