(* ===== verification/Split.v ===== *)
(** * [src/split.rs], and [SplitIo for NetProtocol] of [src/session.rs]

    A session can be split into a reader and a writer and joined again.  A
    connection is split by duplicating its descriptor: both halves refer to the
    same socket.  A protocol layer splits the session below it and leaves its
    state machine with the writer.  The halves carry a random number by which
    [from_split_io] recognises halves of one split.

    [rand] is a parameter: a generator [Rng] and its [random].  The state of
    [split_io] is the generator and the kernel. *)

From S2P Require Import Prelude Std Kernel Connection ConnectionSpecs Session SessionLaws Cypher Descriptors.

Class Random := {
  Rng : Type;
  random : Rng → Z * Rng                        (* [rand::random::<u64>()] *)
}.

(** ** Data *)

Record SplitIoError (T : Type) : Type := mk_split_error {
  original : T;
  split_error : io_error
}.
Arguments mk_split_error {T} _ _.
Arguments original {T} _.
Arguments split_error {T} _.

Record NetReader (R : Type) : Type := mk_net_reader {
  nr_unique_id : Z;
  nr_reader : R
}.
Arguments mk_net_reader {R} _ _.
Arguments nr_unique_id {R} _.
Arguments nr_reader {R} _.

Record NetWriter (Mch W : Type) : Type := mk_net_writer {
  nw_unique_id : Z;
  nw_state : Mch;
  nw_writer : W
}.
Arguments mk_net_writer {Mch W} _ _ _.
Arguments nw_unique_id {Mch W} _.
Arguments nw_state {Mch W} _.
Arguments nw_writer {Mch W} _.

Record TcpReader (C : Type) : Type := mk_tcp_reader {
  tr_unique_id : Z;
  tr_connection : C
}.
Arguments mk_tcp_reader {C} _ _.
Arguments tr_unique_id {C} _.
Arguments tr_connection {C} _.

Record TcpWriter (C : Type) : Type := mk_tcp_writer {
  tw_unique_id : Z;
  tw_connection : C
}.
Arguments mk_tcp_writer {C} _ _.
Arguments tw_unique_id {C} _.
Arguments tw_connection {C} _.

(** ** The trait [SplitIo], with the traits of its two associated types *)

Class SplitIo `{Random} (S : Type) := {
  Reader : Type;
  Writer : Type;
  SplitConnection : Type;                         (* [AsConnection::Connection] of the halves *)
  reader_connection : Reader → SplitConnection;
  writer_connection : Writer → SplitConnection;
  reader_read : nat → M io_error (Reader * World) bytes;
  writer_write : bytes → M io_error (Writer * World) nat;
  writer_flush : M io_error (Writer * World) unit;
  reader_drop : Reader → World → World;
  writer_drop : Writer → World → World;
  split_io : S → M (SplitIoError S) (Rng * World) (Reader * Writer);
  from_split_io : Reader → Writer → M io_error World S
}.
Arguments Reader {_} S {_}.
Arguments Writer {_} S {_}.
Arguments SplitConnection {_} S {_}.

(** Code on the generator or on the kernel. *)
Definition draw `{Random} {E} : M E (Rng * World) Z := λ '(g, w),
  let '(x, g') := random g in (Ret (Ok x), (g', w)).

Definition on_os `{Random} {E A} (m : M E World A) : M E (Rng * World) A :=
  zoom snd (λ w st, (st.1, w)) m.

(** A panic unwinds the stack and drops the arguments. *)
Definition unwind {E A} (drops : World → World) (msg : string) : M E World A :=
  λ w, (Panic msg, drops w).

(** ** Splitting a connection *)

Section connections.
Context `{Random} {C : Type} `{NetConnection C}.

Definition drop_connection (c : C) (w : World) : World := (conn_drop c w).2.

Definition tcp_reader_read (n : nat) : M io_error (TcpReader C * World) bytes :=
  zoom (λ st, (tr_connection st.1, st.2))
       (λ c st, (mk_tcp_reader (tr_unique_id st.1) c.1, c.2)) (read n).

Definition on_writer_connection {A} (m : M io_error (C * World) A) :
    M io_error (TcpWriter C * World) A :=
  zoom (λ st, (tw_connection st.1, st.2))
       (λ c st, (mk_tcp_writer (tw_unique_id st.1) c.1, c.2)) m.

Definition tcp_writer_write (b : bytes) : M io_error (TcpWriter C * World) nat :=
  on_writer_connection (write b).
Definition tcp_writer_flush : M io_error (TcpWriter C * World) unit :=
  on_writer_connection flush.

Definition split_connection (self : C) :
    M (SplitIoError C) (Rng * World) (TcpReader C * TcpWriter C) :=
  let! r := attempt (on_os (try_clone self)) in
  match r with
  | Ok clone =>
      let! unique_id := draw in
      ret (mk_tcp_reader unique_id clone, mk_tcp_writer unique_id self)
  | Err error => fail (mk_split_error self error)
  end.

(** The reader is dropped when the function returns. *)
Definition join_connection (rd : TcpReader C) (wr : TcpWriter C) : M io_error World C :=
  if bool_decide (tr_unique_id rd = tw_unique_id wr) then
    run! modify (drop_connection (tr_connection rd)) in
    ret (tw_connection wr)
  else
    unwind (λ w, drop_connection (tr_connection rd) (drop_connection (tw_connection wr) w))
      "joining TcpStreams which were not produced by the same split_io()".

End connections.

#[export] Instance TcpStream_split `{Random} `{NetAddrApi} `{Socket2} `{Target} : SplitIo TcpStream := {|
  Reader := TcpReader TcpStream;
  Writer := TcpWriter TcpStream;
  SplitConnection := TcpStream;
  reader_connection := tr_connection;
  writer_connection := tw_connection;
  reader_read := tcp_reader_read;
  writer_write := tcp_writer_write;
  writer_flush := tcp_writer_flush;
  reader_drop rd := drop_connection (tr_connection rd);
  writer_drop wr := drop_connection (tw_connection wr);
  split_io := split_connection;
  from_split_io := join_connection
|}.

#[export] Instance Socket_split `{Random} `{NetAddrApi} `{Socket2} `{Target} : SplitIo Socket := {|
  Reader := TcpReader Socket;
  Writer := TcpWriter Socket;
  SplitConnection := Socket;
  reader_connection := tr_connection;
  writer_connection := tw_connection;
  reader_read := tcp_reader_read;
  writer_write := tcp_writer_write;
  writer_flush := tcp_writer_flush;
  reader_drop rd := drop_connection (tr_connection rd);
  writer_drop wr := drop_connection (tw_connection wr);
  split_io := split_connection;
  from_split_io := join_connection
|}.

(** ** Splitting a protocol layer *)

Section layer.
Context `{Random} {Mch S : Type} `{!SplitIo S}.

Definition net_reader_read (n : nat) : M io_error (NetReader (Reader S) * World) bytes :=
  zoom (λ st, (nr_reader st.1, st.2))
       (λ r st, (mk_net_reader (nr_unique_id st.1) r.1, r.2)) (reader_read n).

Definition on_net_writer {A} (m : M io_error (Writer S * World) A) :
    M io_error (NetWriter Mch (Writer S) * World) A :=
  zoom (λ st, (nw_writer st.1, st.2))
       (λ r st, (mk_net_writer (nw_unique_id st.1) (nw_state st.1) r.1, r.2)) m.

Definition net_writer_write (b : bytes) : M io_error (NetWriter Mch (Writer S) * World) nat :=
  on_net_writer (writer_write b).
Definition net_writer_flush : M io_error (NetWriter Mch (Writer S) * World) unit :=
  on_net_writer writer_flush.

Definition split_protocol (self : NetProtocol Mch S) :
    M (SplitIoError (NetProtocol Mch S)) (Rng * World)
      (NetReader (Reader S) * NetWriter Mch (Writer S)) :=
  let! unique_id := draw in
  let! r := attempt (split_io (np_session self)) in
  match r with
  | Err err => fail (mk_split_error (mk_protocol (np_state self) (original err)) (split_error err))
  | Ok (reader, writer) =>
      ret (mk_net_reader unique_id reader, mk_net_writer unique_id (np_state self) writer)
  end.

Definition join_protocol (rd : NetReader (Reader S)) (wr : NetWriter Mch (Writer S)) :
    M io_error World (NetProtocol Mch S) :=
  if bool_decide (nr_unique_id rd = nw_unique_id wr) then
    let! session := from_split_io (nr_reader rd) (nw_writer wr) in
    ret (mk_protocol (nw_state wr) session)
  else
    unwind (λ w, reader_drop (nr_reader rd) (writer_drop (nw_writer wr) w))
      "joining into NetProtocol parts not produced by the same split_io()".

#[export] Instance NetProtocol_split : SplitIo (NetProtocol Mch S) := {|
  Reader := NetReader (Reader S);
  Writer := NetWriter Mch (Writer S);
  SplitConnection := SplitConnection S;
  reader_connection rd := reader_connection (nr_reader rd);
  writer_connection wr := writer_connection (nw_writer wr);
  reader_read := net_reader_read;
  writer_write := net_writer_write;
  writer_flush := net_writer_flush;
  reader_drop rd := reader_drop (nr_reader rd);
  writer_drop wr := writer_drop (nw_writer wr);
  split_io := split_protocol;
  from_split_io := join_protocol
|}.
End layer.

(** ** Splitting sessions over TCP

    What a split does, layer by layer: one new descriptor for the reader, on the
    socket of the session; the halves read and write that socket directly; and
    joining the halves restores the session and the kernel. *)
Class TcpSplit `{Random} (S : Type) `{!SplitIo S} := {
  sp_fd : S → RawFd;
  rd_fd : Reader S → RawFd;
  wr_fd : Writer S → RawFd;
  reader_is_recv n rd w :
    reader_read n (rd, w) = let '(o, w') := recv (rd_fd rd) n w in (o, (rd, w'));
  writer_is_send b wr w :
    writer_write b (wr, w) = let '(o, w') := send (wr_fd wr) b w in (o, (wr, w'));
  split_returns (s : S) st : ∃ r st', split_io s st = (Ret r, st');
  split_duplicates (s : S) g w rd wr g' w' :
    split_io s (g, w) = (Ret (Ok (rd, wr)), (g', w')) →
    wr_fd wr = sp_fd s ∧ fds w !! rd_fd rd = None ∧ socks w' = socks w ∧
    ∃ i, fds w !! sp_fd s = Some i ∧ fds w' = <[rd_fd rd := i]> (fds w);
  split_fails (s : S) g w e g' w' :
    split_io s (g, w) = (Ret (Err e), (g', w')) →
    original e = s ∧ fds w' = fds w ∧ socks w' = socks w;
  join_split (s : S) g w rd wr g' w' w1 :
    split_io s (g, w) = (Ret (Ok (rd, wr)), (g', w')) →
    from_split_io rd wr w1 = (Ret (Ok s), set_fds (delete (rd_fd rd) (fds w1)) w1)
}.

Section tcp_split.
Context `{Random} `{NetAddrApi} `{Socket2} `{Target}.

Lemma dup_cases f w :
  ∃ r w', dup f w = (Ret r, w') ∧ socks w' = socks w ∧
    match r with
    | Ok f' => fds w !! f' = None ∧ ∃ i, fds w !! f = Some i ∧ fds w' = <[f' := i]> (fds w)
    | Err _ => fds w' = fds w
    end.
Proof.
  unfold dup. destruct (syscall_cases w) as ([[]|e] & w1 & Hs & Hfds & Hsocks & _);
    [rewrite (bind_ok _ _ _ _ _ Hs)|rewrite (bind_err _ _ _ _ _ Hs); by eexists _, _].
  rewrite Hfds. destruct (fds w !! f) as [i|]; [|by eexists _, _].
  eexists _, _. split_and!; [done|done|]. split; [|by exists i].
  apply not_elem_of_dom. apply is_fresh.
Qed.

Lemma split_tcp_eq (s : TcpStream) g w :
  split_connection s (g, w) =
    match dup (fd s) w with
    | (Ret (Ok f), w1) =>
        let '(id, g1) := random g in
        (Ret (Ok (mk_tcp_reader id (mk_tcp f), mk_tcp_writer id s)), (g1, w1))
    | (Ret (Err e), w1) => (Ret (Err (mk_split_error s e)), (g, w1))
    | (Panic msg, w1) => (Panic msg, (g, w1))
    | (NoReturn, w1) => (NoReturn, (g, w1))
    end.
Proof.
  unfold split_connection, bind, attempt, on_os, zoom, draw. simpl. unfold Tcp.try_clone, bind.
  destruct (dup _ _) as [[[f|e]| |] w1]; [|done..]. simpl. by destruct (random g).
Qed.

#[export] Instance tcp_split : TcpSplit TcpStream.
Proof.
  refine {| sp_fd := fd; rd_fd r := fd (tr_connection r : TcpStream); wr_fd r := fd (tw_connection r : TcpStream) |}.
  - intros n [i c] w. simpl. unfold tcp_reader_read, zoom. simpl. unfold on_world. simpl.
    by destruct (recv _ _ _).
  - intros b [i c] w. simpl. unfold tcp_writer_write, on_writer_connection, zoom. simpl.
    unfold on_world. simpl. by destruct (send _ _ _).
  - intros s [g w]. simpl. rewrite split_tcp_eq. destruct (dup_cases (fd s) w) as ([f|e] & w1 & -> & _).
    + destruct (random g). by eexists _, _.
    + by eexists _, _.
  - intros s g w rd wr g' w' Hs. simpl in Hs. rewrite split_tcp_eq in Hs.
    destruct (dup_cases (fd s) w) as ([f|e] & w1 & Hd & Hsk & Hf); rewrite Hd in Hs; [|done].
    destruct (random g). injection Hs as <- <- <- <-. by destruct Hf as (? & i & ? & ?); eauto 10.
  - intros s g w e g' w' Hs. simpl in Hs. rewrite split_tcp_eq in Hs.
    destruct (dup_cases (fd s) w) as ([f|e'] & w1 & Hd & Hsk & Hf); rewrite Hd in Hs.
    + by destruct (random g).
    + by injection Hs as <- <- <-.
  - intros s g w rd wr g' w' w1 Hs. simpl in Hs. unfold split_connection in Hs.
    apply bind_ok_inv in Hs as (r & [g1 w2] & _ & Hs). destruct r as [clone|e]; [|done].
    apply bind_ok_inv in Hs as (id & [g2 w3] & _ & Hs). injection Hs as <- <- <- <-.
    simpl. unfold join_connection. simpl. by rewrite bool_decide_eq_true_2.
Defined.

Context {Mch S : Type} `{!SplitIo S} `{!TcpSplit S}.

(** What [split_protocol] returns in terms of the split below. *)
Lemma split_protocol_eq (p : NetProtocol Mch S) g w :
  split_protocol p (g, w) =
    let '(id, g0) := random g in
    match split_io (np_session p) (g0, w) with
    | (Ret (Ok (rd, wr)), st) => (Ret (Ok (mk_net_reader id rd, mk_net_writer id (np_state p) wr)), st)
    | (Ret (Err e), st) =>
        (Ret (Err (mk_split_error (mk_protocol (np_state p) (original e)) (split_error e))), st)
    | (Panic msg, st) => (Panic msg, st)
    | (NoReturn, st) => (NoReturn, st)
    end.
Proof.
  unfold split_protocol, bind, attempt, draw. destruct (random g) as [id g0].
  by destruct (split_io _ _) as [[[[]|]| |] ?].
Qed.

#[export] Instance protocol_split : TcpSplit (NetProtocol Mch S).
Proof.
  refine {| sp_fd p := sp_fd (np_session p); rd_fd r := rd_fd (nr_reader r : Reader S);
            wr_fd r := wr_fd (nw_writer r : Writer S) |}.
  - intros n [i r] w. simpl. unfold net_reader_read, zoom. simpl. rewrite reader_is_recv.
    by destruct (recv _ _ _).
  - intros b [i m r] w. simpl. unfold net_writer_write, on_net_writer, zoom. simpl.
    rewrite writer_is_send. by destruct (send _ _ _).
  - intros p [g w]. simpl. rewrite split_protocol_eq. destruct (random g) as [id g0].
    destruct (split_returns (np_session p) (g0, w)) as ([[]|] & st' & ->); by eexists _, _.
  - intros p g w rd wr g' w' Hs. simpl in Hs. rewrite split_protocol_eq in Hs.
    destruct (random g) as [id g0].
    destruct (split_io _ _) as [[[[rd0 wr0]|]| |] [g1 w1]] eqn:Hi; simplify_eq/=.
    by apply split_duplicates in Hi.
  - intros p g w e g' w' Hs. simpl in Hs. rewrite split_protocol_eq in Hs.
    destruct (random g) as [id g0].
    destruct (split_io _ _) as [[[[rd0 wr0]|e0]| |] [g1 w1]] eqn:Hi; simplify_eq/=.
    apply split_fails in Hi as (-> & ? & ?). by destruct p.
  - intros p g w rd wr g' w' w1 Hs. simpl in Hs. rewrite split_protocol_eq in Hs.
    destruct (random g) as [id g0].
    destruct (split_io _ _) as [[[[rd0 wr0]|]| |] [g1 w2]] eqn:Hi; simplify_eq/=.
    unfold join_protocol. simpl. rewrite bool_decide_eq_true_2 by done.
    rewrite (bind_ok _ _ _ _ _ (join_split _ _ _ _ _ _ _ w1 Hi)). by destruct p.
Defined.
End tcp_split.

Lemma on_socket_alias {A} f f' (g : socket → outcome (io_result A) * socket) w :
  fds w !! f = fds w !! f' → on_socket f g w = on_socket f' g w.
Proof. intros Heq. unfold on_socket, find. by rewrite Heq. Qed.

Module SplitContract.
Section specs.
Context `{Random} `{NetAddrApi} `{Socket2} `{Target}.
Context `{Socks5Api} `{NoiseApi} `{EidolonApi}.

(** C8: splitting a [CypherSession] always returns.  A failure gives the
    session back unchanged and leaves no descriptor behind; after a success,
    joining the two halves gives back the same session, all layers included,
    and closes the descriptor the split had made. *)
Theorem split_join_roundtrip (s : CypherSession) g w :
  ∃ r g' w', split_io s (g, w) = (Ret r, (g', w')) ∧
    match r with
    | Ok (rd, wr) => ∃ w'', from_split_io rd wr w' = (Ret (Ok s), w'') ∧
        fds w'' = fds w ∧ socks w'' = socks w
    | Err e => original e = s ∧ fds w' = fds w ∧ socks w' = socks w
    end.
Proof.
  destruct (split_returns s (g, w)) as (r & [g' w'] & Hs). exists r, g', w'. split; [done|].
  destruct r as [[rd wr]|e]; [|by apply split_fails in Hs].
  pose proof (join_split _ _ _ _ _ _ _ w' Hs) as Hj. eexists. split; [exact Hj|].
  apply split_duplicates in Hs as (_ & Hnew & Hsocks & i & _ & Hfds). simpl. rewrite Hfds.
  split; [by apply delete_insert_id|done].
Qed.

(** C26: after a split of a [CypherSession], in whatever state its handshakes
    are, the reader reads and the writer writes the TCP socket of the session
    directly, and no state machine is ever advanced: as long as the descriptors
    stay open, [read] on the reader is [recv] and [write] on the writer is
    [send] on the session's own descriptor. *)
Theorem halves_are_the_socket (s : CypherSession) g w rd wr g' w' :
  split_io s (g, w) = (Ret (Ok (rd, wr)), (g', w')) →
  ∀ w1, fds w1 = fds w' →
  (∀ n, reader_read n (rd, w1) =
     let '(o, w2) := recv (fd (CypherSpecs.stream_of s)) n w1 in (o, (rd, w2))) ∧
  (∀ b, writer_write b (wr, w1) =
     let '(o, w2) := send (fd (CypherSpecs.stream_of s)) b w1 in (o, (wr, w2))).
Proof.
  intros Hs w1 Hw1. pose proof (split_duplicates _ _ _ _ _ _ _ Hs) as (Hwr & Hnew & _ & i & Hi & Hfds).
  change (fd (CypherSpecs.stream_of s)) with (sp_fd s). split.
  - intros n. rewrite reader_is_recv. unfold recv. rewrite (on_socket_alias _ (sp_fd s)); [done|].
    rewrite Hw1, Hfds, lookup_insert_eq, lookup_insert_ne by congruence. done.
  - intros b. by rewrite writer_is_send, Hwr.
Qed.

(** The identifiers of all four layers agree. *)
Definition same_split (rd : Reader CypherSession) (wr : Writer CypherSession) : bool :=
  bool_decide (nr_unique_id rd = nw_unique_id wr) &&
  bool_decide (nr_unique_id (nr_reader rd) = nw_unique_id (nw_writer wr)) &&
  bool_decide (nr_unique_id (nr_reader (nr_reader rd)) = nw_unique_id (nw_writer (nw_writer wr))) &&
  bool_decide (tr_unique_id (nr_reader (nr_reader (nr_reader rd))) =
               tw_unique_id (nw_writer (nw_writer (nw_writer wr)))).

(** C27: joining halves panics exactly when the identifiers of some layer
    differ, and then both halves are dropped: the two descriptors are closed. *)
Theorem join_checks_ids (rd : Reader CypherSession) (wr : Writer CypherSession) w :
  if same_split rd wr
  then ∃ s, from_split_io rd wr w = (Ret (Ok s), set_fds (delete (rd_fd rd) (fds w)) w) ∧
    sp_fd s = wr_fd wr
  else ∃ msg, from_split_io rd wr w =
    (Panic msg, set_fds (delete (rd_fd rd) (delete (wr_fd wr) (fds w))) w).
Proof.
  destruct rd as [i1 [i2 [i3 [i4 c]]]], wr as [j1 e [j2 n [j3 s5 [j4 c']]]].
  unfold same_split. simpl. unfold join_protocol, bind, unwind. simpl.
  case_bool_decide; simpl; [|by eexists]. unfold join_protocol, bind, unwind. simpl.
  case_bool_decide; simpl; [|by eexists]. unfold join_protocol, bind, unwind. simpl.
  case_bool_decide; simpl; [|by eexists]. unfold join_connection, unwind. simpl.
  case_bool_decide; simpl; [|by eexists]. by eexists.
Qed.

End specs.
End SplitContract.
