(* ===== verification/Examples.v ===== *)
(** * Concrete instances of the parameters, and concrete runs

    [socket2] over the kernel model, address resolution by identity, and three
    small handshake machines with the shape of SOCKS5, Noise and Eidolon.  They
    show that the hypotheses of the theorems can hold: each witness applies its
    theorem to a concrete session in a concrete world. *)

From S2P Require Import Prelude Std Kernel Connection Session SessionLaws Termination Cypher.

Module Toy.

#[export] Instance fuel50 : Fuel := 50.
#[export] Instance linux : Target := true.
#[export] Instance show_addr : AddrDisplay := λ _, "addr".

#[export] Instance addresses : NetAddrApi := {|
  NetAddr := SocketAddr;
  to_socket_addrs a _ := Ok [a];
  from_socket_addr a := a
|}.

(** [socket2::Socket] is a descriptor. *)
#[export] Instance sockets : Socket2 := {|
  Socket := RawFd;
  Domain := bool;
  SockAddr := SocketAddr;
  TcpKeepalive := unit;
  for_address a := match ip a with V4 _ => true | V6 _ => false end;
  sockaddr_from a := a;
  as_socket a := Some a;
  s2_new _ := run! syscall in open_socket fresh_socket;
  s2_drop s := close s;
  s2_connect _ s := connect_fd s;
  s2_bind a s := configure s (set_local (Some a));
  s2_listen b s := configure s (set_backlog (Some b));
  s2_accept s := accept_fd s;
  s2_recv n s := recv s n;
  s2_send b s := send s b;
  s2_flush _ := ret tt;
  s2_peek buf s := let! b := peek_fd s (length buf) in
                   ret (length b, (Some <$> b) ++ drop (length b) buf);
  s2_peer_addr s w := getpeername s w;
  s2_local_addr s w := match find s w with
                       | Some (_, k) => ok_or (sk_local k) (error_from InvalidInput)
                       | None => Err bad_fd end;
  s2_shutdown how s := on_socket s (shutdown_socket how);
  s2_set_nonblocking b s := configure s (set_sk_nonblocking b);
  s2_set_reuse_address _ s := configure s id;
  s2_set_reuse_port _ s := configure s id;
  s2_set_tcp_keepalive _ s := configure s id;
  s2_set_read_timeout d s := configure s (set_sk_read_timeout d);
  s2_set_write_timeout d s := configure s (set_sk_write_timeout d);
  s2_read_timeout s := inspect s sk_read_timeout;
  s2_write_timeout s := inspect s sk_write_timeout;
  s2_set_nodelay b s := configure s (set_sk_nodelay b);
  s2_nodelay s := inspect s sk_nodelay;
  s2_set_ttl t s := configure s (set_sk_ttl t);
  s2_ttl s := inspect s sk_ttl;
  s2_try_clone s := dup s;
  s2_take_error s := inspect s sk_error;
  s2_as_raw_fd s := s;
  s2_from_raw_fd s := s;
  s2_into_raw_fd s := s
|}.

(** ** SOCKS5: greeting, two-byte answer, active *)

Inductive s5 : Set :=
| S5Init (addr : nat) (force : bool) | S5Greeted (addr : nat) | S5Up (addr : nat) | S5Failed.

(** Hosts from 100 on are reached through the proxy. *)
Definition proxied (addr : nat) : bool := 100 <=? addr.

#[export] Instance socks5 : Socks5Api := {|
  HostAddr := nat;
  requires_proxy := proxied;
  Socks5 := s5;
  Socks5Error := unit;
  socks5_error_string _ := "socks5";
  socks5_with := S5Init;
  socks5_variant_of s := match s with
                         | S5Init a f => S5Initial a f
                         | S5Up a => S5Active a
                         | _ => S5Other end;
  socks5_next_read_len s := match s with S5Greeted _ => 2 | _ => 0 end;
  socks5_advance input s :=
    match s, input with
    | S5Init a _, _ => (Ok [x05; x01; x00], S5Greeted a)
    | S5Greeted a, [x05; x00] => (Ok [], S5Up a)
    | _, _ => (Err tt, S5Failed)
    end
|}.

(** ** Noise NN: one message each way; the hash is the transcript *)

Inductive nn : Set :=
| NNSend | NNWait | NNListen | NNDone (hash : bytes).

#[export] Instance noise : NoiseApi := {|
  NoiseState := nn;
  NoiseError := unit;
  NoisePk := bytes;
  noise_error_string _ := "noise";
  to_pk_compressed pk := pk;
  noise_nn is_initiator := if is_initiator : bool then NNSend else NNListen;
  noise_next_read_len s := match s with NNWait => 1 | NNListen => 1 | _ => 0 end;
  noise_advance input s :=
    match s, input with
    | NNSend, _ => (Ok [x0e], NNWait)
    | NNWait, [b] => (Ok [], NNDone [x0e; b])
    | NNListen, [b] => (Ok [x0e], NNDone [b; x0e])
    | _, _ => (Err tt, s)
    end;
  get_handshake_hash s := match s with NNDone h => Some h | _ => None end;
  get_remote_static_key _ := None
|}.

(** ** Eidolon: the initiator shows its certificate first *)

Inductive ei : Set :=
| EiSend (cert : byte) (i : option bytes) | EiWait (cert : byte) (i : option bytes)
| EiListen (cert : byte) (i : option bytes) | EiDone (cert : byte) (i : option bytes) (remote : byte).

Definition ei_set (x : bytes) (s : ei) : ei :=
  match s with
  | EiSend c _ => EiSend c (Some x) | EiWait c _ => EiWait c (Some x)
  | EiListen c _ => EiListen c (Some x) | EiDone c _ r => EiDone c (Some x) r
  end.

#[export] Instance eidolon : EidolonApi := {|
  Signer := unit;
  Cert := byte;
  SignerPk := byte;
  EidolonState := ei;
  EidolonError := unit;
  eidolon_error_string _ := "eidolon";
  cert_string _ := "cert";
  eidolon_initiator c _ := EiSend c None;
  eidolon_responder c _ := EiListen c None;
  eidolon_init := ei_set;
  eidolon_is_init s := match s with
    | EiSend _ i | EiWait _ i | EiListen _ i | EiDone _ i _ => is_some i end;
  eidolon_next_read_len s := match s with EiWait _ _ | EiListen _ _ => 1 | _ => 0 end;
  eidolon_advance input _ s :=
    match s, input with
    | EiSend c i, _ => (Ok [c], EiWait c i)
    | EiWait c i, [r] => (Ok [], EiDone c i r)
    | EiListen c i, [r] => (Ok [c], EiDone c i r)
    | _, _ => (Err tt, s)
    end;
  remote_cert s := match s with EiDone _ _ r => Some r | _ => None end
|}.

(** ** The machines satisfy the contracts *)

Definition s5_acts (s : s5) : nat := match s with S5Init _ _ => 2 | S5Greeted _ => 1 | _ => 0 end.
Definition nn_acts (s : nn) : nat := match s with NNSend => 2 | NNWait | NNListen => 1 | _ => 0 end.
Definition ei_acts (s : ei) : nat :=
  match s with EiSend _ _ => 2 | EiWait _ _ | EiListen _ _ => 1 | _ => 0 end.

#[export] Instance s5_bounded : BoundedMachine Socks5.
Proof.
  refine (Build_BoundedMachine Socks5 _ s5_acts 3 _ _ _).
  - intros [] input act m' Hc Ha; simpl in *; simplify_eq/=; repeat (case_match; simplify_eq/=); lia.
  - done.
  - intros []; simpl; lia.
Defined.

#[export] Instance nn_bounded : BoundedMachine NoiseState.
Proof.
  refine (Build_BoundedMachine NoiseState _ nn_acts 1 _ _ _).
  - intros [] input act m' Hc Ha; simpl in *; simplify_eq/=; repeat (case_match; simplify_eq/=); lia.
  - done.
  - intros []; simpl; lia.
Defined.

#[export] Instance ei_bounded : BoundedMachine EidolonRuntime.
Proof.
  refine (Build_BoundedMachine EidolonRuntime _ (λ r, ei_acts (er_state r)) 1 _ _ _).
  - intros m input act m' Hc Ha; destruct m as [[] []]; simpl in *; simplify_eq/=; repeat (case_match; simplify_eq/=); lia.
  - intros m j; destruct m as [[] []]; simpl; lia.
  - intros [[] []]; simpl; lia.
Defined.


(** ** Worlds with one TCP connection *)

Definition peer : SocketAddr := mk_addr (V4 167772161) 9735.
Definition me : SocketAddr := mk_addr (V4 167772162) 40000.

(** A non-blocking socket, connected, with the given future. *)
Definition tcp_socket (rx : list rx_event) (tx : list tx_event) : socket :=
  set_sk_nonblocking true (socket_of (mk_incoming peer me rx tx)).

Definition world (rx : list rx_event) (tx : list tx_event) : World :=
  mk_world {[3 := 0]} {[0 := tcp_socket rx tx]} [] [].

Definition conn : TcpStream := mk_tcp 3.

(** A session with the given states of the three machines. *)
Definition session (e : ei) (n : nn) (s : s5) : CypherSession :=
  mk_protocol (mk_eidolon _ e tt : EidolonRuntime) (mk_protocol (n : NoiseState)
    (mk_protocol (s : Socks5) conn)).

Definition up : CypherSession := session (EiDone x01 (Some [x0e; x0e]) x02) (NNDone [x0e; x0e]) (S5Up 7).

(** Noise is complete, the certificates have not been exchanged. *)
Definition half_way : CypherSession := session (EiWait x01 (Some [x0e; x0e])) (NNDone [x0e; x0e]) (S5Up 7).

Definition w_room : World := world [] [TxAccept 2].
Definition w_room' : World := (write [x41; x42; x43] (up, w_room)).2.2.

Lemma cypher_writes_plaintext_witness :
  up = up ∧ is_established up w_room' = true ∧
  sent 3 w_room' = sent 3 w_room ++ take 2 [x41; x42; x43].
Proof.
  apply (CypherSpecs.cypher_writes_plaintext up w_room [x41; x42; x43] 2 up w_room');
    vm_compute; reflexivity.
Defined.

Definition w_data : World := world [RxData [x41; x42; x43]] [].
Definition w_data' : World := (read 2 (up, w_data)).2.2.

Lemma cypher_reads_plaintext_witness :
  up = up ∧ is_established up w_data' = true ∧
  recv 3 2 w_data = (Ret (Ok [x41; x42]), w_data').
Proof.
  apply (CypherSpecs.cypher_reads_plaintext up w_data 2 [x41; x42] up w_data');
    vm_compute; reflexivity.
Defined.

Lemma cypher_no_early_data_witness :
  let w := world [RxData [x02]] [] in
  is_established half_way w = false ∧
  (∀ n b st', read n (half_way, w) = (Ret (Ok b), st') → b = []) ∧
  (∀ b k st', write b (half_way, w) = (Ret (Ok k), st') → k = 0) ∧
  (∀ b1 b2, b1 ≠ [] → b2 ≠ [] → write b1 (half_way, w) = write b2 (half_way, w)).
Proof.
  split; [vm_compute; reflexivity|].
  apply (CypherSpecs.cypher_no_early_data half_way); vm_compute; reflexivity.
Defined.

(** The network of a successful connection: the proxy's answer, the responder's
    Noise message and its certificate. *)
Definition dialling : World :=
  mk_world ∅ ∅ [Ok (mk_incoming peer me [RxData [x05; x00; x0e]; RxFail (error_from Interrupted);
    RxData [x02]] [])] [].

Definition dial : outcome (io_result CypherSession) * World :=
  cypher_connect_blocking (λ proxy _, proxy) 107 x01 [] tt peer true 1000%Z dialling.

Definition dialled : CypherSession :=
  match dial.1 with Ret (Ok s) => s | _ => up end.

Lemma connect_blocking_establishes_witness : is_established dialled dial.2 = true.
Proof.
  apply (@CypherSpecs.connect_blocking_establishes _ addresses sockets _ _ socks5 noise eidolon
    (λ proxy _, proxy) 107 x01 [] tt peer true 1000%Z
    dialling dialled dial.2).
  vm_compute. reflexivity.
Defined.

Definition starting : CypherSession := session (EiSend x01 None) NNSend (S5Init 107 true).

(** A socket in blocking mode, without timeouts. *)
Definition blocking_world (rx : list rx_event) : World :=
  mk_world {[3 := 0]} {[0 := set_sk_nonblocking false (tcp_socket rx [])]} [] [].


End Toy.
