(* ===== verification/HandshakeExamples.v ===== *)
(** * Concrete handshakes

    The machines of [Examples] over a network that delivers their dialogues in
    pieces: the witnesses of the theorems in [Handshake]. *)

From S2P Require Import Prelude Std Kernel Connection Session SessionLaws Termination Cypher Handshake Examples.

Module ToyHandshake.
Import Toy.

(** The peer's side of the three handshakes in four pieces, with interruptions,
    and the first byte for the application. *)
Definition wire_in : list rx_event :=
  [RxData [x05]; RxFail (error_from Interrupted); RxData [x00; x0f]; RxData [x02; x41]].
Definition w_peer : World := world wire_in [TxAccept 1; TxFail (error_from Interrupted); TxAccept 2].

Lemma s5_dialogue : dialogue (Mch:=Socks5) (S5Init 107 true) [] [x05; x00] [x05; x01; x00] 2 (S5Up 107).
Proof.
  refine (dialogue_turn (Mch:=Socks5) (S5Init 107 true) [] [x05; x01; x00] (S5Greeted 107) [x05; x00] [] [] 1 _ _ _ _ _ _);
    try done. by apply dialogue_last.
Qed.

Lemma nn_dialogue : dialogue (Mch:=NoiseState) NNSend [] [x0f] [x0e] 2 (NNDone [x0e; x0f]).
Proof.
  refine (dialogue_turn (Mch:=NoiseState) NNSend [] [x0e] NNWait [x0f] [] [] 1 _ _ _ _ _ _);
    try done. by apply dialogue_last.
Qed.

Definition channel : NoiseArtifact := mk_noise_artifact noise [x0e; x0f] None.
Definition ei_up : EidolonRuntime := mk_eidolon _ (EiDone x01 (Some [x0e; x0f]) x02) tt.

Lemma ei_dialogue :
  dialogue (Mch:=EidolonRuntime) (HandshakeContract.bound_eidolon channel (np_state starting)) [] [x02] [x01] 2 ei_up.
Proof.
  refine (dialogue_turn (Mch:=EidolonRuntime) (HandshakeContract.bound_eidolon channel (np_state starting)) [] [x01]
    (mk_eidolon _ (EiWait x01 (Some [x0e; x0f])) tt : EidolonRuntime) [x02] [] [] 1 _ _ _ _ _ _);
    try done. by apply dialogue_last.
Qed.

Definition s5_up : @Socks5 socks5 := S5Up 107.
Definition nn_up : @NoiseState noise := NNDone [x0e; x0f].

Lemma handshake_carries_dialogues_witness :
  ∃ s' w', run_handshake (starting, w_peer) = (Ret (Ok tt), (s', w')) ∧
    s' = mk_protocol ei_up (mk_protocol nn_up (mk_protocol s5_up conn)) ∧
    is_established s' w' = true ∧
    sent 3 w' = sent 3 w_peer ++ ([x05; x01; x00] ++ [x0e]) ++ [x01] ∧
    received 3 w' = received 3 w_peer ++ ([x05; x00] ++ [x0f]) ++ [x02] ∧
    steady 3 w' [x41].
Proof.
  apply (HandshakeContract.handshake_carries_dialogues starting w_peer [x41]
    [x05; x00] [x05; x01; x00] 2 s5_up [x0f] [x0e] 2 nn_up channel
    [x02] [x01] 2 ei_up).
  - exact s5_dialogue.
  - exact nn_dialogue.
  - reflexivity.
  - exact ei_dialogue.
  - eexists 0, (tcp_socket wire_in [TxAccept 1; TxFail (error_from Interrupted); TxAccept 2]).
    split_and!; vm_compute; reflexivity.
  - apply Nat.ltb_lt. vm_compute. reflexivity.
  - apply Nat.ltb_lt. vm_compute. reflexivity.
  - apply Nat.ltb_lt. vm_compute. reflexivity.
  - apply Nat.ltb_lt. vm_compute. reflexivity.
Defined.

(** A SOCKS5 layer waits for two bytes, of which one has arrived. *)
Definition waiting : NetProtocol Socks5 TcpStream := mk_protocol (S5Greeted 107 : Socks5) conn.
Definition w_part : World := world [RxData [x05]] [].

Lemma partial_act_lost_witness :
  ∃ w', read 4 (waiting, w_part) = (Ret (Err (error_from WouldBlock)), (initialised waiting w_part, w')) ∧
    received (direct_fd (np_session waiting)) w' = received (direct_fd (np_session waiting)) w_part ++ [x05].
Proof.
  apply (HandshakeContract.partial_act_lost 4 waiting w_part 0 (tcp_socket [RxData [x05]] []) [x05]).
  - vm_compute; reflexivity.
  - vm_compute; reflexivity.
  - vm_compute; reflexivity.
  - vm_compute; reflexivity.
  - vm_compute; reflexivity.
  - discriminate.
  - apply Nat.ltb_lt. vm_compute. reflexivity.
  - apply Nat.leb_le. vm_compute. reflexivity.
Defined.

Lemma write_all_spins_witness :
  write_all_loop 50 [x41] (waiting, w_part) = (NoReturn, (waiting, w_part)).
Proof.
  apply (HandshakeContract.write_all_spins 50 [x41] waiting w_part).
  - vm_compute; reflexivity.
  - vm_compute; reflexivity.
  - discriminate.
  - discriminate.
Defined.

End ToyHandshake.
