(* ===== verification/Transport.v ===== *)
(** * [src/resource.rs]: [NetTransport], a session managed by the reactor

    A [NetTransport] wraps a [NetSession] for the event loop of the [reactor]
    crate: [interests] tells the loop which events to wait for, [handle_io]
    reacts to one, and writes go through a buffer that is flushed as the socket
    takes the data.

    From [reactor] the code uses [IoType], the enum [Io] and the provided method
    [WriteAtomic::write_atomic]; they are the parameters [IoTypeApi] and
    [Reactor], with their documented behaviour in [IoTypeLaws] and
    [ReactorLaws]. *)

From S2P Require Import Prelude Std Kernel Connection Session SessionLaws Cypher.

(** ** Constants of [src/lib.rs] and [src/resource.rs] *)

Definition READ_BUFFER_SIZE : nat := Z.to_nat 65535.
Definition HEAP_BUFFER_SIZE : nat := Z.to_nat 65535.
Definition READ_TIMEOUT : Duration := from_secs 6.
Definition WRITE_TIMEOUT : Duration := from_secs 3.
#[global] Opaque READ_BUFFER_SIZE HEAP_BUFFER_SIZE.

(** ** What comes from the [reactor] crate *)

Inductive Io : Set := IoRead | IoWrite.

#[export] Instance Io_eq_dec : EqDecision Io.
Proof. solve_decision. Defined.

(** [reactor::poller::IoType]. *)
Class IoTypeApi := {
  IoType : Type;
  io_none : IoType;
  read_only : IoType;
  write_only : IoType;
  read_write : IoType;
  wants_read : IoType → bool;
  wants_write : IoType → bool
}.

Class IoTypeLaws `{IoTypeApi} := {
  none_spec : wants_read io_none = false ∧ wants_write io_none = false;
  read_only_spec : wants_read read_only = true ∧ wants_write read_only = false;
  write_only_spec : wants_read write_only = false ∧ wants_write write_only = true;
  read_write_spec : wants_read read_write = true ∧ wants_write read_write = true
}.

Inductive WriteError : Type :=
| NotReady
| WriteIo (e : io_error).

(** [WriteAtomic::write_atomic], provided on top of [is_ready_to_write] and
    [write_or_buf]. *)
Class Reactor := write_atomic :
  ∀ {St : Type}, (St → bool) → (bytes → M io_error St unit) → bytes → M WriteError St unit.

(** "Either writes the whole buffer to a resource without blocking or fails with
    [WriteError::NotReady]". *)
Class ReactorLaws `{Reactor} := {
  write_atomic_ready {St} ready (write_or_buf : bytes → M io_error St unit) b st :
    ready st = true → write_atomic ready write_or_buf b st = map_err WriteIo (write_or_buf b) st;
  write_atomic_not_ready {St} ready (write_or_buf : bytes → M io_error St unit) b st :
    ready st = false → write_atomic ready write_or_buf b st = (Ret (Err NotReady), st)
}.

(** ** The data of [NetTransport] *)

Inductive SessionEvent (Art : Type) : Type :=
| Established (fd : RawFd) (a : Art)
| Data (b : bytes)
| TerminatedEvent (e : io_error).
Arguments Established {Art} fd a.
Arguments Data {Art} b.
Arguments TerminatedEvent {Art} e.

Inductive TransportState : Set := StInit | StHandshake | StActive | StTerminated.

#[export] Instance TransportState_eq_dec : EqDecision TransportState.
Proof. solve_decision. Defined.

Record NetTransport (S : Type) : Type := mk_transport {
  t_state : TransportState;
  t_session : S;
  link_direction : Direction;
  write_intent : bool;
  read_buffer : bytes;
  write_buffer : VecDeque
}.
Arguments mk_transport {S} _ _ _ _ _ _.
Arguments t_state {S} _.
Arguments t_session {S} _.
Arguments link_direction {S} _.
Arguments write_intent {S} _.
Arguments read_buffer {S} _.
Arguments write_buffer {S} _.

Definition set_state {S} (x : TransportState) (t : NetTransport S) : NetTransport S :=
  mk_transport x (t_session t) (link_direction t) (write_intent t) (read_buffer t) (write_buffer t).
Definition set_session {S} (x : S) (t : NetTransport S) : NetTransport S :=
  mk_transport (t_state t) x (link_direction t) (write_intent t) (read_buffer t) (write_buffer t).
Definition set_write_intent {S} (x : bool) (t : NetTransport S) : NetTransport S :=
  mk_transport (t_state t) (t_session t) (link_direction t) x (read_buffer t) (write_buffer t).
Definition set_read_buffer {S} (x : bytes) (t : NetTransport S) : NetTransport S :=
  mk_transport (t_state t) (t_session t) (link_direction t) (write_intent t) x (write_buffer t).
Definition set_write_buffer {S} (x : VecDeque) (t : NetTransport S) : NetTransport S :=
  mk_transport (t_state t) (t_session t) (link_direction t) (write_intent t) (read_buffer t) x.

(** The errors of a write that only mean "not now". *)
Definition is_transient (e : io_error) : bool :=
  match kind e with
  | WouldBlock | WriteZero | OutOfMemory | Interrupted => true
  | _ => false
  end.

Module Transport.
Section operations.
Context `{BuildProfile} `{Deque.Layout} `{IoTypeApi} `{Reactor} {S : Type} `{NetSession S}.

Abbreviation transport := (NetTransport S).
Abbreviation event := (SessionEvent (Artifact S)).

Definition on_session {E A} (m : M E (S * World) A) : M E (transport * World) A :=
  zoom (λ st, (t_session st.1, st.2)) (λ s st, (set_session s.1 st.1, s.2)) m.

Definition on_write_buffer {E A} (m : M E VecDeque A) : M E (transport * World) A :=
  zoom (λ st, write_buffer st.1) (λ b st, (set_write_buffer b st.1, st.2)) m.

Definition update {E} (f : transport → transport) : M E (transport * World) unit :=
  modify (λ st, (f st.1, st.2)).

(** A configuration call on the connection of a session that is not yet part of
    a transport. *)
Definition configure_session (s : S) (m : Connection S → M io_error World unit) :
    M io_error World unit := m (as_connection s).

(** *** Construction *)

Definition with_state (session : S) (state : TransportState) (direction : Direction) :
    M io_error World transport :=
  or_drop (sess_drop session) (
    run! configure_session session (set_read_timeout (Some READ_TIMEOUT)) in
    run! configure_session session (set_write_timeout (Some WRITE_TIMEOUT)) in
    ret (mk_transport state session direction false (replicate READ_BUFFER_SIZE x00) Deque.new)).

Definition accept (session : S) : M io_error World transport :=
  with_state session StHandshake Inbound.

Definition with_session (session : S) (direction : Direction) : M io_error World transport :=
  let! established := gets (is_established session) in
  let state := if established : bool then StActive else StHandshake in
  or_drop (sess_drop session) (
    run! configure_session session (set_nonblocking true) in
    ret (mk_transport state session direction true (replicate READ_BUFFER_SIZE x00) Deque.new)).

(** *** Observers *)

Definition is_active (t : transport) : bool := bool_decide (t_state t = StActive).
Definition transport_is_inbound (t : transport) : bool := bool_decide (link_direction t = Inbound).
Definition transport_is_outbound (t : transport) : bool := bool_decide (link_direction t = Outbound).
Definition local_addr (t : transport) : M io_error World (Addr (C := Connection S)) :=
  Connection.local_addr (as_connection (t_session t)).
Definition artifact (t : transport) (w : World) : option (Artifact S) :=
  Session.artifact (t_session t) w.
Definition expect_peer_id {E} : M E (transport * World) (Artifact S) := λ st,
  expect (Session.artifact (t_session st.1) st.2)
    "session is expected to be established at this stage" st.
Definition write_buf_len (t : transport) : nat := Deque.len (write_buffer t).
Definition as_raw_fd (t : transport) : RawFd := Connection.as_raw_fd (as_connection (t_session t)).

(** *** Writing *)

(** [flush_buffer]: offer the whole buffer to the session, drop what it took. *)
Definition flush_buffer : M io_error (transport * World) unit :=
  let! orig_len := gets (λ st, Deque.len (write_buffer st.1)) in
  run! on_write_buffer (modify Deque.make_contiguous) in
  let! buf := gets (λ st, vd_content (write_buffer st.1)) in
  let! r := attempt (on_session (Kernel.write buf)) in
  let! len := match r with
              | Ok len => ret len
              | Err err => if is_transient err then ret 0 else fail err
              end in
  run! update (set_write_intent (len <? orig_len)) in
  run! on_write_buffer (Deque.drain_to len) in
  ret tt.

(** [Write::flush]: [self.session.flush().and(res)]. *)
Definition flush : M io_error (transport * World) unit :=
  let! res := attempt flush_buffer in
  let! flushed := attempt (on_session Kernel.flush) in
  match flushed with
  | Ok _ => of_result res
  | Err err => fail err
  end.

Definition is_ready_to_write (t : transport) : bool := bool_decide (t_state t = StActive).

Definition write_or_buf (buf : bytes) : M io_error (transport * World) unit :=
  if is_empty buf then ret tt
  else
    run! on_write_buffer (run! Deque.write buf in ret tt) in
    flush_buffer.

Definition empty_write_buf : M io_error (transport * World) bool :=
  run! on_write_buffer (modify Deque.make_contiguous) in
  let! buf := gets (λ st, vd_content (write_buffer st.1)) in
  let! len := on_session (Kernel.write buf) in
  run! on_write_buffer (Deque.drain_to len) in
  let! rest := gets (λ st, write_buf_len st.1) in
  if 0 <? rest then fail (error_from WouldBlock) else ret (0 <? len).

(** [Write::write]. *)
Definition write (buf : bytes) : M io_error (transport * World) nat :=
  let! r := attempt (write_atomic (λ st : transport * World, is_ready_to_write st.1) write_or_buf buf) in
  match r with
  | Ok _ => ret (length buf)
  | Err NotReady => fail (error_from NotConnected)
  | Err (WriteIo err) => fail err
  end.

(** [into_session] consumes the transport; a failure gives it back, and a panic
    drops it. *)
Definition into_session (self : transport) : M (transport * io_error) World S := λ w,
  match empty_write_buf (self, w) with
  | (Ret (Ok _), (self, w)) => (Ret (Ok (t_session self)), w)
  | (Ret (Err err), (self, w)) => (Ret (Err (self, err)), w)
  | (Panic msg, (self, w)) => (Panic msg, (sess_drop (t_session self) w).2)
  | (NoReturn, (_, w)) => (NoReturn, w)
  end.

(** *** Events *)

Definition terminate {E} (reason : io_error) : M E (transport * World) event :=
  run! update (set_state StTerminated) in
  ret (TerminatedEvent reason).

Definition handle_writable {E} : M E (transport * World) (option event) :=
  let! st := gets id in
  if negb (is_established (t_session st.1) st.2) then
    let! _ := attempt (on_session (Kernel.write [])) in
    run! update (set_write_intent true) in
    ret None
  else
    let! r := attempt flush in
    match r with
    | Ok _ => ret None
    | Err err =>
        if is_transient err then run! update (set_write_intent true) in ret None
        else let! ev := terminate err in ret (Some ev)
    end.

Definition handle_readable {E} : M E (transport * World) (option event) :=
  let! size := gets (λ st, length (read_buffer st.1)) in
  let! r := attempt (on_session (read size)) in
  match r with
  | Ok b =>
      let len := length b in
      run! update (λ t, set_read_buffer (b ++ drop len (read_buffer t)) t) in
      let! st := gets id in
      if bool_decide (len = 0) then
        if negb (is_established (t_session st.1) st.2) then ret None
        else ret (Some (TerminatedEvent (error_from ConnectionReset)))
      else
        let! data := slice_to len (read_buffer st.1) in
        ret (Some (Data data))
  | Err err =>
      if bool_decide (kind err = WouldBlock) then ret None
      else let! ev := terminate err in ret (Some ev)
  end.

Definition is_reset (resp : option event) : bool :=
  match resp with
  | Some (TerminatedEvent e) => bool_decide (kind e = ConnectionReset)
  | _ => false
  end.

Definition handle_io {E} (io : Io) : M E (transport * World) (option event) :=
  let! st := gets id in
  run! debug_assert (negb (bool_decide (t_state st.1 = StTerminated)))
         "I/O on terminated transport" in
  let force_write_intent := bool_decide (t_state st.1 = StInit) in
  run! (if force_write_intent then update (set_state StHandshake)
        else if bool_decide (t_state st.1 = StHandshake) then
          debug_assert (negb (is_established (t_session st.1) st.2))
            "assertion failed: !self.session.is_established()"
        else ret tt) in
  let! resp := match io with
               | IoRead => handle_readable
               | IoWrite => handle_writable
               end in
  let! st := gets id in
  run! (if force_write_intent then update (set_write_intent true)
        else if bool_decide (t_state st.1 = StHandshake)
        then update (set_write_intent (bool_decide (io = IoRead)))
        else ret tt) in
  if is_reset resp && negb (bool_decide (t_state st.1 = StHandshake)) then
    run! update (set_state StTerminated) in
    ret resp
  else if is_established (t_session st.1) st.2 && bool_decide (t_state st.1 = StHandshake) then
    run! update (set_write_intent true) in
    run! update (set_state StActive) in
    let! art := expect (Session.artifact (t_session st.1) st.2) "session is established" in
    ret (Some (Established (as_raw_fd st.1) art))
  else ret resp.

Definition interests (t : transport) : IoType :=
  match t_state t with
  | StInit => write_only
  | StTerminated => io_none
  | StActive | StHandshake => if write_intent t then read_write else read_only
  end.

End operations.
End Transport.
