(* ===== verification/TransportLaws.v ===== *)
(** * The laws of [NetTransport]

    What each operation of [Transport] does, as rules for the operations that
    call it: the three ways a flush ends, the handlers of the two directions,
    the automaton [legal] that [handle_io] follows, the traces of events over
    the [life] of a transport, and the invariant [watched] of its buffer.  The
    theorems of [TransportSpecs] are proved from these. *)

From S2P Require Import Prelude Std Kernel Connection Session SessionLaws Cypher Transport.

Section transport.
Context `{BuildProfile} `{Deque.Layout} `{IoTypeApi} `{Reactor} {S : Type} `{NetSession S}
  `{!NetSessionLaws S}.

Abbreviation transport := (NetTransport S).
Abbreviation event := (SessionEvent (Artifact S)).

(** ** Rules for the parts of a transport *)

Lemma wp_on_session {E A} (m : M E (S * World) A) Q (t : transport) w :
  (∀ msg st', m (t_session t, w) ≠ (Panic msg, st')) →
  (∀ r s' w', m (t_session t, w) = (Ret r, (s', w')) → Q r (set_session s' t, w')) →
  wp (Transport.on_session m) Q (t, w).
Proof.
  intros Hp Hr. unfold Transport.on_session. wp_step. apply wp_intro; [done|].
  intros r [s' w'] Heq. by apply Hr.
Qed.

Lemma wp_update {E} f (Q : result E unit → transport * World → Prop) t w :
  Q (Ok tt) (f t, w) → wp (Transport.update f) Q (t, w).
Proof. done. Qed.

(** ** Flushing *)

(** The bytes waiting in the write buffer. *)
Definition buffered (t : transport) : bytes := vd_content (write_buffer t).

(** The transport after the session took [k] of the buffered bytes. *)
Definition after_write (k : nat) (s' : S) (t : transport) : transport :=
  set_write_buffer (mk_deque (drop k (buffered t)) (length (buffered t) - k))
    (set_write_intent (k <? length (buffered t)) (set_session s' t)).

(** The three ways [flush_buffer] ends. *)
Inductive flush_post (t : transport) (w : World) : io_result unit → transport * World → Prop :=
| flush_taken k s' w' :
    write (buffered t) (t_session t, w) = (Ret (Ok k), (s', w')) → k ≤ length (buffered t) →
    flush_post t w (Ok tt) (after_write k s' t, w')
| flush_later e s' w' :
    write (buffered t) (t_session t, w) = (Ret (Err e), (s', w')) → is_transient e = true →
    flush_post t w (Ok tt) (after_write 0 s' t, w')
| flush_failed e s' w' :
    write (buffered t) (t_session t, w) = (Ret (Err e), (s', w')) → is_transient e = false →
    flush_post t w (Err e)
      (set_write_buffer (Deque.make_contiguous (write_buffer t)) (set_session s' t), w').

Lemma drain_contiguous {E} k d :
  k ≤ Deque.len d →
  Deque.drain_to (E:=E) k (Deque.make_contiguous d) =
    (Ret (Ok (take k (vd_content d))), mk_deque (drop k (vd_content d)) (length (vd_content d) - k)).
Proof.
  intros Hk. unfold Deque.drain_to, Deque.make_contiguous, Deque.len in *. simpl.
  rewrite (proj2 (Nat.leb_le _ _) Hk). by destruct (_ <? _).
Qed.

Lemma flush_buffer_wp (t : transport) w :
  wp Transport.flush_buffer (flush_post t w) (t, w).
Proof.
  unfold Transport.flush_buffer, Transport.on_write_buffer. do 9 wp_step.
  apply wp_on_session; [apply law_write_no_panic|]. intros r s' w' Hr. simpl in Hr.
  assert (Hend : ∀ k, k ≤ length (buffered t) → flush_post t w (Ok tt) (after_write k s' t, w') →
    wp (run! Transport.update (set_write_intent (k <? Deque.len (write_buffer t))) in
        run! Transport.on_write_buffer (Deque.drain_to k) in ret tt) (flush_post t w)
      (set_session s' (set_write_buffer (Deque.make_contiguous (write_buffer t)) t), w')).
  { intros k Hk Hpost. unfold Transport.on_write_buffer. wp_step. apply wp_update. do 2 wp_step.
    unfold wp. simpl. rewrite drain_contiguous by done. exact Hpost. }
  wp_step. destruct r as [k|e].
  - wp_step. pose proof (law_write_len _ _ _ _ _ _ Hr). apply Hend; [done|]. by econstructor.
  - destruct (is_transient e) eqn:Ht; wp_step.
    + apply Hend; [lia|]. by econstructor 2.
    + by econstructor 3.
Qed.

Lemma after_write_buffered k s' t : buffered (after_write k s' t) = drop k (buffered t).
Proof. done. Qed.

(** ** [handle_writable] and [handle_readable] *)

Lemma flush_post_state t w r t' w' : flush_post t w r (t', w') → t_state t' = t_state t.
Proof. by inversion 1. Qed.

Lemma flush_wp (t : transport) w :
  wp Transport.flush (λ r st', t_state st'.1 = t_state t) (t, w).
Proof.
  unfold Transport.flush. do 2 wp_step. eapply wp_mono; [apply flush_buffer_wp|].
  intros r [t1 w1] Hpost. apply flush_post_state in Hpost. do 2 wp_step.
  apply wp_on_session; [apply law_flush_no_panic|]. intros [] s' w' _; by wp_step.
Qed.

(** What a handler of one direction did to the state. *)
Definition quiet (t : transport) (r : option event) (t' : transport) : Prop :=
  r = None ∧ t_state t' = t_state t.
Definition gone (r : option event) (t' : transport) : Prop :=
  ∃ e, r = Some (TerminatedEvent e) ∧ t_state t' = StTerminated.

Lemma terminate_wp {E} e (Q : result E event → transport * World → Prop) t w :
  Q (Ok (TerminatedEvent e)) (set_state StTerminated t, w) → wp (Transport.terminate e) Q (t, w).
Proof. done. Qed.

Lemma handle_writable_wp {E} (t : transport) w :
  wp (Transport.handle_writable (E:=E))
    (λ r st', ∃ ev, r = Ok ev ∧ (quiet t ev st'.1 ∨ gone ev st'.1)) (t, w).
Proof.
  unfold Transport.handle_writable. wp_step. wp_step. simpl.
  destruct (is_established _ _); simpl.
  - do 2 wp_step. eapply wp_mono; [apply flush_wp|]. intros r [t1 w1] Hst. simpl in Hst.
    destruct r as [[]|e]; [by eexists; split; [done|left]|].
    destruct (is_transient e).
    + wp_step. apply wp_update. wp_step. by eexists; split; [done|left].
    + wp_step. apply terminate_wp. wp_step. eexists. split; [done|]. right. by exists e.
  - do 2 wp_step. apply wp_on_session; [apply law_write_no_panic|]. intros r s' w' _.
    wp_step. apply wp_update. wp_step. by eexists; split; [done|left].
Qed.

(** A read that found the end of the stream, and one that found data. *)
Definition at_end (t : transport) (r : option event) (t' : transport) (w' : World) : Prop :=
  r = Some (TerminatedEvent (error_from ConnectionReset)) ∧ t_state t' = t_state t ∧
  is_established (t_session t') w' = true.
Definition delivered (t : transport) (w : World) (r : option event) (t' : transport) (w' : World) : Prop :=
  ∃ b, r = Some (Data b) ∧ b ≠ [] ∧ t_state t' = t_state t ∧
    is_established (t_session t) w = true ∧ is_established (t_session t') w' = true ∧
    read (length (read_buffer t)) (t_session t, w) = (Ret (Ok b), (t_session t', w')).

Lemma handle_readable_wp {E} (t : transport) w :
  wp (Transport.handle_readable (E:=E))
    (λ r st', ∃ ev, r = Ok ev ∧
       (quiet t ev st'.1 ∨ gone ev st'.1 ∨ at_end t ev st'.1 st'.2 ∨ delivered t w ev st'.1 st'.2)) (t, w).
Proof.
  unfold Transport.handle_readable. do 4 wp_step. simpl.
  apply wp_on_session; [apply law_read_no_panic|]. intros r s' w' Hr. destruct r as [b|e].
  - wp_step. apply wp_update. do 2 wp_step. simpl. case_bool_decide as Hlen.
    + apply nil_length_inv in Hlen as ->. destruct (is_established s' w') eqn:He; simpl; wp_step.
      * eexists. split; [done|]. right. right. by left.
      * eexists. split; [done|]. by left.
    + assert (Hb : b ≠ []) by (by intros ->). wp_step. unfold slice_to. rewrite length_app.
      rewrite (proj2 (Nat.leb_le _ _)) by lia. do 2 wp_step. rewrite take_app_length.
      eexists. split; [done|]. do 3 right. exists b. simpl.
      destruct (is_established (t_session t) w) eqn:He; [|by destruct Hb; eapply law_read_early].
      split_and!; [done..| |done]. by eapply law_read_keeps.
  - case_bool_decide; [wp_step; eexists; split; [done|]; by left|].
    wp_step. apply terminate_wp. wp_step. eexists. split; [done|]. right. left. by exists e.
Qed.

(** ** The state machine of [handle_io] *)

(** The automaton a handler may rely on. *)
Inductive legal : TransportState → option event → TransportState → Prop :=
| legal_wait st : st = StInit ∨ st = StHandshake → legal st None StHandshake
| legal_up st fd a : st = StInit ∨ st = StHandshake → legal st (Some (Established fd a)) StActive
| legal_idle : legal StActive None StActive
| legal_data b : b ≠ [] → legal StActive (Some (Data b)) StActive
| legal_gone st e : st ≠ StTerminated → legal st (Some (TerminatedEvent e)) StTerminated.

Definition dispatch {E} (io : Io) : M E (transport * World) (option event) :=
  match io with
  | IoRead => Transport.handle_readable
  | IoWrite => Transport.handle_writable
  end.

(** The part of [handle_io] after the handler of the direction has run: the
    adjustment of the write intent, and the verdict. *)
Definition adjust {E} (force : bool) (io : Io) (st : transport * World) : M E (transport * World) unit :=
  if force then Transport.update (set_write_intent true)
  else if bool_decide (t_state st.1 = StHandshake)
  then Transport.update (set_write_intent (bool_decide (io = IoRead)))
  else ret tt.

Definition conclude {E} (resp : option event) (st : transport * World) :
    M E (transport * World) (option event) :=
  if Transport.is_reset resp && negb (bool_decide (t_state st.1 = StHandshake)) then
    run! Transport.update (set_state StTerminated) in
    ret resp
  else if is_established (t_session st.1) st.2 && bool_decide (t_state st.1 = StHandshake) then
    run! Transport.update (set_write_intent true) in
    run! Transport.update (set_state StActive) in
    let! art := expect (Session.artifact (t_session st.1) st.2) "session is established" in
    ret (Some (Established (Transport.as_raw_fd st.1) art))
  else ret resp.

Definition settle {E} (force : bool) (io : Io) (resp : option event) :
    M E (transport * World) (option event) :=
  let! st := gets id in
  run! adjust force io st in
  conclude resp st.

(** What [dispatch] may have done, starting from [t] and [w]. *)
Definition handled (t : transport) (w : World) (ev : option event) (t' : transport) (w' : World) : Prop :=
  quiet t ev t' ∨ gone ev t' ∨ at_end t ev t' w' ∨ delivered t w ev t' w'.

Lemma dispatch_wp {E} io (t : transport) w :
  wp (dispatch (E:=E) io) (λ r st', ∃ ev, r = Ok ev ∧ handled t w ev st'.1 st'.2) (t, w).
Proof.
  destruct io; [apply handle_readable_wp|].
  eapply wp_mono; [apply handle_writable_wp|].
  intros r st (ev & -> & [?|?]); exists ev; (split; [done|]); [by left|by right; left].
Qed.

Lemma conclude_handshake {E} resp (t : transport) w t1 w1 t2 :
  t_state t = StHandshake → handled t w resp t1 w1 → t_state t1 = StHandshake →
  t_state t2 = t_state t1 →
  wp (conclude (E:=E) resp (t1, w1))
    (λ r st', ∃ ev, r = Ok ev ∧ legal (t_state t) ev (t_state st'.1)) (t2, w1).
Proof.
  intros Hst Hh Hhs Ht2. unfold conclude. simpl. rewrite Hhs. simpl. rewrite andb_false_r, andb_true_r.
  destruct (is_established (t_session t1) w1) eqn:He.
  - unfold is_established in He. destruct (Session.artifact (t_session t1) w1) as [a|]; [|done].
    eexists. split; [done|]. simpl. apply legal_up. by right.
  - wp_step. eexists. split; [done|]. simpl. rewrite Ht2, Hhs.
    destruct Hh as [[-> ?]|[(? & _ & ?)|[(_ & _ & ?)|(b & _ & _ & _ & _ & ? & _)]]]; [|congruence..].
    apply legal_wait. by right.
Qed.

Lemma conclude_other {E} resp (t : transport) w t1 w1 t2 :
  t_state t = StHandshake ∨ t_state t = StActive → handled t w resp t1 w1 →
  t_state t1 ≠ StHandshake → t_state t2 = t_state t1 →
  wp (conclude (E:=E) resp (t1, w1))
    (λ r st', ∃ ev, r = Ok ev ∧ legal (t_state t) ev (t_state st'.1)) (t2, w1).
Proof.
  intros Hst Hh Hhs Ht2. unfold conclude. simpl. rewrite bool_decide_eq_false_2 by done. simpl.
  rewrite andb_true_r, andb_false_r.
  assert (t_state t ≠ StTerminated) by (destruct Hst as [-> | ->]; done).
  destruct Hh as [[-> Hs]|[(e & -> & Hs)|[(-> & Hs & _)|(b & -> & Hb & Hs & _)]]]; simpl.
  - eexists. split; [done|]. simpl. rewrite Ht2, Hs. destruct Hst as [Hst|Hst]; [congruence|].
    rewrite Hst. constructor.
  - case_bool_decide; [wp_step; apply wp_update|]; wp_step; eexists; (split; [done|]); simpl;
      [by constructor|]. rewrite Ht2, Hs. by constructor.
  - wp_step. apply wp_update. wp_step. eexists. split; [done|]. by constructor.
  - wp_step. eexists. split; [done|]. simpl. rewrite Ht2, Hs.
    destruct Hst as [Hst|Hst]; [congruence|]. rewrite Hst. by constructor.
Qed.

Lemma settle_wp {E} force io resp (t : transport) w t1 w1 :
  t_state t = StHandshake ∨ t_state t = StActive → handled t w resp t1 w1 →
  wp (settle (E:=E) force io resp)
    (λ r st', ∃ ev, r = Ok ev ∧ legal (t_state t) ev (t_state st'.1)) (t1, w1).
Proof.
  intros Hst Hh. unfold settle. do 3 wp_step.
  assert (Hc : ∀ t2, t_state t2 = t_state t1 → wp (conclude (E:=E) resp (t1, w1))
    (λ r st', ∃ ev, r = Ok ev ∧ legal (t_state t) ev (t_state st'.1)) (t2, w1)).
  { intros t2 Ht2. destruct (decide (t_state t1 = StHandshake)) as [Hhs|Hhs];
      [|by eapply conclude_other].
    eapply conclude_handshake; [|done..]. destruct Hst as [|Hst]; [done|]. exfalso.
    destruct Hh as [[_ ?]|[(? & _ & ?)|[(_ & ? & _)|(b & _ & _ & ? & _)]]]; congruence. }
  unfold adjust. simpl. destruct force; [by apply wp_update, Hc|].
  case_bool_decide; [by apply wp_update, Hc|]. wp_step. by apply Hc.
Qed.

(** The state in which the handler of the direction runs. *)
Definition entered (t : transport) : transport :=
  if bool_decide (t_state t = StInit) then set_state StHandshake t else t.

(** The debug assertions at the head of [handle_io]. *)
Definition asserted (t : transport) (w : World) : bool :=
  negb (bool_decide (t_state t = StTerminated)) &&
  negb (bool_decide (t_state t = StHandshake) && is_established (t_session t) w).

Lemma handle_io_eq {E} io (t : transport) w :
  debug_assertions && negb (asserted t w) = false →
  Transport.handle_io (E:=E) io (t, w) =
    bind (dispatch io) (settle (bool_decide (t_state t = StInit)) io) (entered t, w).
Proof.
  intros Ha. unfold Transport.handle_io, bind at 1 2, gets at 1, debug_assert at 1. simpl.
  unfold asserted in Ha.
  destruct (t_state t) eqn:Hst; unfold entered; rewrite Hst; simpl in *;
    rewrite ?andb_true_r, ?andb_false_r, ?negb_involutive in *; rewrite ?Ha; simpl; try done.
  - unfold bind at 1, debug_assert. rewrite negb_involutive, Ha. done.
Qed.

Lemma handle_io_wp {E} io (t : transport) w :
  t_state t ≠ StTerminated → debug_assertions && negb (asserted t w) = false →
  wp (Transport.handle_io (E:=E) io)
    (λ r st', ∃ ev, r = Ok ev ∧ legal (t_state t) ev (t_state st'.1)) (t, w).
Proof.
  intros Hst Ha. unfold wp. rewrite handle_io_eq by done.
  assert (Hent : t_state (entered t) = StHandshake ∨ t_state (entered t) = StActive).
  { unfold entered. case_bool_decide; simpl; [by left|]. destruct (t_state t); naive_solver. }
  apply (wp_bind (dispatch io) _ _ (entered t, w)). eapply wp_mono; [apply dispatch_wp|].
  intros r [t1 w1] (ev & -> & Hh). eapply wp_mono; [by eapply settle_wp|].
  intros r [t2 w2] (ev2 & -> & Hl). eexists. split; [done|]. simpl in *.
  unfold entered in Hl. case_bool_decide as Hi; [|done]. rewrite Hi.
  inversion Hl; subst; constructor; tauto || done.
Qed.

(** Without a failing assertion [handle_io] does not panic, in any state. *)
Lemma conclude_calm {E} resp (t : transport) w st :
  wp (conclude (E:=E) resp (t, w)) (λ _ _, True) st.
Proof.
  unfold conclude. simpl. destruct (_ && _); [by wp_step|].
  destruct (is_established (t_session t) w) eqn:He; simpl; [|by wp_step].
  unfold is_established in He. destruct (Session.artifact (t_session t) w); [|done].
  by destruct (bool_decide _).
Qed.

Lemma handle_io_calm {E} io (t : transport) w :
  debug_assertions && negb (asserted t w) = false →
  wp (Transport.handle_io (E:=E) io) (λ _ _, True) (t, w).
Proof.
  intros Ha. unfold wp. rewrite handle_io_eq by done.
  apply (wp_bind (dispatch io) _ _ (entered t, w)). eapply wp_mono; [apply dispatch_wp|].
  intros r [t1 w1] (ev & -> & _). unfold settle. do 3 wp_step. unfold adjust. simpl.
  destruct (bool_decide _); [by apply wp_update, conclude_calm|].
  destruct (bool_decide _); [by apply wp_update, conclude_calm|]. wp_step. apply conclude_calm.
Qed.

Lemma handle_io_panics {E} io (t : transport) w :
  debug_assertions = true → asserted t w = false →
  ∃ msg, Transport.handle_io (E:=E) io (t, w) = (Panic msg, (t, w)).
Proof.
  intros Hd Ha. unfold asserted in Ha. unfold Transport.handle_io, bind, gets, debug_assert. simpl.
  rewrite Hd. destruct (t_state t); simpl in *; try done; [|by eexists].
  destruct (is_established (t_session t) w); [by eexists|done].
Qed.

(** Every return of [handle_io], in every build. *)
Lemma handle_io_returned {E} io (t : transport) w (r : result E (option event)) t' w' :
  t_state t ≠ StTerminated → Transport.handle_io io (t, w) = (Ret r, (t', w')) →
  ∃ ev, r = Ok ev ∧ legal (t_state t) ev (t_state t').
Proof.
  intros Hst Hr. destruct (debug_assertions && negb (asserted t w)) eqn:Ha.
  - apply andb_true_iff in Ha as [Hd Ha]. apply negb_true_iff in Ha.
    destruct (handle_io_panics (E:=E) io t w Hd Ha) as [msg Hp]. congruence.
  - exact (wp_run _ _ _ _ _ (handle_io_wp io t w Hst Ha) Hr).
Qed.

(** ** Bytes that wait are watched for *)

(** Bytes left in the buffer of an active transport come with the intent to
    write them. *)
Definition watched (t : transport) : Prop :=
  t_state t = StActive → buffered t ≠ [] → write_intent t = true.

Lemma intent_spec n (l : bytes) : (n <? length l) = negb (is_empty (drop n l)).
Proof.
  destruct (Nat.ltb_spec n (length l)) as [Hlt|Hge].
  - symmetry. apply negb_true_iff, is_empty_false. intros Hd. apply (f_equal length) in Hd.
    rewrite length_drop in Hd. simpl in Hd. lia.
  - by rewrite drop_ge.
Qed.

Lemma flush_post_intent t w t' w' :
  flush_post t w (Ok tt) (t', w') → write_intent t' = negb (is_empty (buffered t')).
Proof. inversion 1; subst; simpl; rewrite after_write_buffered; apply intent_spec. Qed.

Lemma intent_watched (t : transport) : write_intent t = negb (is_empty (buffered t)) → watched t.
Proof. intros Hi _ Hb. apply is_empty_false in Hb. by rewrite Hi, Hb. Qed.

Lemma flush_watched_wp (t : transport) w :
  wp Transport.flush (λ r st', r = Ok tt → watched st'.1) (t, w).
Proof.
  unfold Transport.flush. do 2 wp_step. eapply wp_mono; [apply flush_buffer_wp|].
  intros r [t1 w1] Hpost. do 2 wp_step.
  apply wp_on_session; [apply law_flush_no_panic|]. intros [] s' w' _; wp_step; [|done].
  intros ->. apply intent_watched. exact (flush_post_intent _ _ _ _ Hpost).
Qed.

Lemma dispatch_watched_wp {E} io (t : transport) w :
  watched t → wp (dispatch (E:=E) io) (λ _ st', watched st'.1) (t, w).
Proof.
  intros Ht. destruct io; simpl.
  - unfold Transport.handle_readable. do 4 wp_step. simpl.
    apply wp_on_session; [apply law_read_no_panic|]. intros [b|e] s' w' _.
    + wp_step. apply wp_update. do 2 wp_step. simpl. case_bool_decide.
      * destruct (is_established s' w'); simpl; by wp_step.
      * wp_step. unfold slice_to. rewrite length_app, (proj2 (Nat.leb_le _ _)) by lia. by do 2 wp_step.
    + case_bool_decide; [by wp_step|]. wp_step. by apply terminate_wp.
  - unfold Transport.handle_writable. do 2 wp_step. simpl. destruct (is_established _ _); simpl.
    + do 2 wp_step. eapply wp_mono; [apply flush_watched_wp|]. intros [[]|e] [t1 w1] Hf; [by wp_step; auto|].
      destruct (is_transient e); wp_step; [by apply wp_update; wp_step|]. by apply terminate_wp.
    + do 2 wp_step. apply wp_on_session; [apply law_write_no_panic|]. intros r s' w' _.
      wp_step. apply wp_update. by wp_step.
Qed.

Lemma conclude_watched_wp {E} resp (t : transport) w t2 :
  watched t2 → wp (conclude (E:=E) resp (t, w)) (λ _ st', watched st'.1) (t2, w).
Proof.
  intros Ht. unfold conclude. simpl. destruct (_ && _); [by wp_step|].
  destruct (is_established (t_session t) w) eqn:He; simpl; [|by wp_step].
  unfold is_established in He. destruct (Session.artifact (t_session t) w); [|done].
  by destruct (bool_decide _).
Qed.

Lemma settle_watched_wp {E} force io resp (t : transport) w :
  watched t → wp (settle (E:=E) force io resp) (λ _ st', watched st'.1) (t, w).
Proof.
  intros Ht. unfold settle. do 3 wp_step. unfold adjust. simpl.
  destruct force; [by apply wp_update, conclude_watched_wp|].
  case_bool_decide as Hhs; [|by wp_step; apply conclude_watched_wp].
  apply wp_update, conclude_watched_wp. intros Ha. simpl in Ha. congruence.
Qed.

Lemma handle_io_watched {E} io (t : transport) w (r : result E (option event)) t' w' :
  watched t → Transport.handle_io io (t, w) = (Ret r, (t', w')) → watched t'.
Proof.
  intros Ht Hr. destruct (debug_assertions && negb (asserted t w)) eqn:Ha.
  { apply andb_true_iff in Ha as [Hd Ha]. apply negb_true_iff in Ha.
    destruct (handle_io_panics (E:=E) io t w Hd Ha) as [msg Hp]. congruence. }
  rewrite handle_io_eq in Hr by done. refine (wp_run _ (λ _ st', watched st'.1) _ _ _ _ Hr).
  wp_step. eapply wp_mono; [apply dispatch_watched_wp|].
  - unfold entered. case_bool_decide; [|done]. intros Ha'. by simpl in Ha'.
  - intros [ev|e] [t1 w1] H1'; [|done]. by apply settle_watched_wp.
Qed.

(** ** Writing *)

Lemma write_or_buf_wp buf (t : transport) w :
  wp (Transport.write_or_buf buf)
    (λ r st', if is_empty buf then r = Ok tt ∧ st' = (t, w)
              else flush_post (set_write_buffer (Deque.extend (write_buffer t) buf) t) w r st') (t, w).
Proof.
  unfold Transport.write_or_buf. destruct (is_empty buf); [done|].
  unfold Transport.on_write_buffer. wp_step. wp_step. wp_step. unfold wp at 1. simpl.
  apply flush_buffer_wp.
Qed.

Context `{!ReactorLaws}.

Lemma write_not_active buf (t : transport) w :
  t_state t ≠ StActive →
  Transport.write buf (t, w) = (Ret (Err (error_from NotConnected)), (t, w)).
Proof.
  intros Hst. unfold Transport.write, bind, attempt.
  rewrite write_atomic_not_ready; [done|]. unfold Transport.is_ready_to_write. simpl.
  by apply bool_decide_eq_false_2.
Qed.

(** On an active transport [write] is [write_or_buf], with the length of the
    buffer for a result. *)
Lemma write_active_wp buf (t : transport) w :
  t_state t = StActive →
  wp (Transport.write buf)
    (λ r st', ∃ r', r = match r' with Ok _ => Ok (length buf) | Err e => Err e end ∧
       if is_empty buf then r' = Ok tt ∧ st' = (t, w)
       else flush_post (set_write_buffer (Deque.extend (write_buffer t) buf) t) w r' st') (t, w).
Proof.
  intros Hst. unfold Transport.write. do 2 wp_step. unfold wp at 1.
  rewrite write_atomic_ready
    by (unfold Transport.is_ready_to_write; simpl; by apply bool_decide_eq_true_2).
  pose proof (write_or_buf_wp buf t w) as Hw. unfold wp in Hw. unfold map_err.
  destruct (Transport.write_or_buf buf (t, w)) as [[[[]|e]| |] st']; try done.
  - by exists (Ok tt).
  - by exists (Err e).
Qed.

Lemma write_state buf (t : transport) w r t' w' :
  Transport.write buf (t, w) = (Ret r, (t', w')) → t_state t' = t_state t.
Proof.
  intros Hr. destruct (decide (t_state t = StActive)) as [Hst|Hst].
  - pose proof (wp_run _ _ _ _ _ (write_active_wp buf t w Hst) Hr) as (r' & _ & Hp).
    destruct (is_empty buf); [by destruct Hp as [_ [= -> _]]|]. by apply flush_post_state in Hp.
  - rewrite write_not_active in Hr by done. congruence.
Qed.

(** ** The life of a transport *)

(** The reactor reports I/O on a transport that is not terminated, the
    application writes, and meanwhile the world changes in any way. *)
Inductive life : transport * World → list event → transport * World → Prop :=
| life_end st : life st [] st
| life_io io t w ev t' w' evs st :
    t_state t ≠ StTerminated →
    Transport.handle_io (E:=io_error) io (t, w) = (Ret (Ok ev), (t', w')) →
    life (t', w') evs st →
    life (t, w) (match ev with Some e => e :: evs | None => evs end) st
| life_write buf t w r t' w' evs st :
    Transport.write buf (t, w) = (Ret r, (t', w')) → life (t', w') evs st → life (t, w) evs st
| life_env t w w' evs st : life (t, w') evs st → life (t, w) evs st.

(** The event sequences that a handler may see from a state on: a connection
    comes up at most once and before any data, and its end comes last. *)
Fixpoint orderly (st : TransportState) (evs : list event) : bool :=
  match evs with
  | [] => true
  | Established _ _ :: evs =>
      (bool_decide (st = StInit) || bool_decide (st = StHandshake)) && orderly StActive evs
  | Data b :: evs => bool_decide (st = StActive) && negb (is_empty b) && orderly StActive evs
  | TerminatedEvent _ :: evs => negb (bool_decide (st = StTerminated)) && is_empty evs
  end.

Lemma orderly_handshake evs : orderly StHandshake evs = true → orderly StInit evs = true.
Proof. by destruct evs as [|[]]. Qed.

Lemma legal_orderly s ev s' evs :
  legal s ev s' → orderly s' evs = true → (s' = StTerminated → evs = []) →
  orderly s (match ev with Some e => e :: evs | None => evs end) = true.
Proof.
  intros [st [-> | ->]|st fd a [-> | ->]| |b Hb|st e Hst] Ho Hend; simpl; try done.
  - by apply orderly_handshake.
  - by destruct b.
  - rewrite Hend by done. by destruct st.
Qed.

Lemma terminated_life st evs st' :
  life st evs st' → t_state st.1 = StTerminated → evs = [].
Proof.
  induction 1 as [st|io t w ev t' w' evs st Hst Hio Hl IH|buf t w r t' w' evs st Hw Hl IH|t w w' evs st Hl IH];
    simpl; intros Ht; [done..| |auto].
  apply IH. simpl. by rewrite (write_state _ _ _ _ _ _ Hw).
Qed.

Lemma life_orderly st evs st' : life st evs st' → orderly (t_state st.1) evs = true.
Proof.
  induction 1 as [st|io t w ev t' w' evs st Hst Hio Hl IH|buf t w r t' w' evs st Hw Hl IH|t w w' evs st Hl IH];
    simpl in *; [done| | |done].
  - destruct (handle_io_returned _ _ _ _ _ _ Hst Hio) as (ev' & [= <-] & Hlegal).
    eapply legal_orderly; [exact Hlegal|done|]. exact (terminated_life _ _ _ Hl).
  - by rewrite <-(write_state _ _ _ _ _ _ Hw).
Qed.

(** ** A transport whose writes succeed *)

Lemma write_watched buf (t : transport) w k t' w' :
  watched t → Transport.write buf (t, w) = (Ret (Ok k), (t', w')) → watched t'.
Proof.
  intros Ht Hw. destruct (decide (t_state t = StActive)) as [Hst|Hst];
    [|by rewrite write_not_active in Hw].
  pose proof (wp_run _ _ _ _ _ (write_active_wp buf t w Hst) Hw) as ([[]|] & Hr & Hp); [|done].
  destruct (is_empty buf); [by destruct Hp as [_ [= -> _]]|].
  by eapply intent_watched, flush_post_intent.
Qed.

(** The reactor reports I/O, the application writes with success, and the world
    changes in any way. *)
Inductive healthy : transport * World → transport * World → Prop :=
| healthy_end st : healthy st st
| healthy_io io t w ev t' w' st :
    Transport.handle_io (E:=io_error) io (t, w) = (Ret (Ok ev), (t', w')) →
    healthy (t', w') st → healthy (t, w) st
| healthy_write buf t w k t' w' st :
    Transport.write buf (t, w) = (Ret (Ok k), (t', w')) → healthy (t', w') st → healthy (t, w) st
| healthy_env t w w' st : healthy (t, w') st → healthy (t, w) st.

Lemma healthy_watched st st' : healthy st st' → watched st.1 → watched st'.1.
Proof.
  induction 1 as [|io t w ev t' w' st Hio _ IH|buf t w k t' w' st Hw _ IH|]; intros Ht; auto.
  - by eapply IH, handle_io_watched.
  - by eapply IH, write_watched.
Qed.

End transport.
