(* ===== verification/TransportSpecs.v ===== *)
(** * The contract of [NetTransport]

    The write path as a FIFO of bytes between the application and the wire, and
    the theorems that make up the contract of the transport: what every call
    returns, which events a handler sees and in which order, that no byte waits
    in the buffer unwatched, and what happens to a session that is already
    established when it is accepted. *)

From S2P Require Import Prelude Std Kernel Connection ConnectionSpecs Session SessionLaws Cypher Transport TransportLaws.

(** ** What a session puts on the wire *)

(** The bytes an established session has handed to the kernel: [write] appends
    what it took, and nothing else appends anything. *)
Class WireLaws (S : Type) `{NetSession S} := {
  wire : S → World → bytes;
  wire_write b (s : S) w r s' w' :
    is_established s w = true → write b (s, w) = (Ret r, (s', w')) →
    wire s' w' = wire s w ++ match r with Ok k => take k b | Err _ => [] end;
  wire_read n (s : S) w r s' w' :
    is_established s w = true → read n (s, w) = (Ret r, (s', w')) → wire s' w' = wire s w;
  wire_flush (s : S) w r s' w' : flush (s, w) = (Ret r, (s', w')) → wire s' w' = wire s w
}.

Lemma recv_sent fd n w r w' : recv fd n w = (r, w') → sent fd w' = sent fd w.
Proof.
  intros Hr. apply on_socket_inv in Hr as [(_ & _ & ->)|(i & s & s' & Hf & Hs & Hf' & _)]; [done|].
  unfold sent. rewrite Hf, Hf'. unfold recv_socket, wait in Hs.
  by repeat (case_match; simplify_eq/=).
Qed.

#[export] Instance tcp_wire `{NetAddrApi} `{Socket2} `{Target} `{AddrDisplay} : WireLaws TcpStream.
Proof.
  refine {| wire s w := sent (fd s) w |}.
  - intros b s w r s' w' _ Hr. apply tcp_write_inv in Hr as [-> Hr]. destruct r as [k|e].
    + by apply send_ok in Hr as (_ & _ & -> & _).
    + rewrite app_nil_r. by eapply send_err.
  - intros n s w r s' w' _ Hr. apply tcp_read_inv in Hr as [-> Hr]. by eapply recv_sent.
  - intros s w r s' w' Hr. by injection Hr as _ <- <-.
Defined.

#[export] Instance protocol_wire `{Fuel} {Mch S} `{NetStateMachine Mch} `{NetSession S}
    `{!IntoInit (Artifact S) (Init Mch)} `{!WireLaws S} : WireLaws (NetProtocol Mch S).
Proof.
  refine {| wire p w := wire (np_session p) w |}.
  - intros b p w r p' w' He Hr. simpl in Hr.
    rewrite write_through_eq in Hr by by apply established_passes_through.
    apply on_session_inv in Hr as (s' & Hr & ->). rewrite established_protocol in He.
    apply andb_true_iff in He as [He _]. by apply wire_write.
  - intros n p w r p' w' He Hr. simpl in Hr.
    rewrite read_through_eq in Hr by by apply established_passes_through.
    apply on_session_inv in Hr as (s' & Hr & ->). rewrite established_protocol in He.
    apply andb_true_iff in He as [He _]. by eapply wire_read.
  - intros p w r p' w' Hr. simpl in Hr. apply on_session_inv in Hr as (s' & Hr & ->).
    by eapply wire_flush.
Defined.

Section write_path.
Context `{BuildProfile} `{Deque.Layout} `{IoTypeApi} `{Reactor} `{!ReactorLaws} {S : Type}
  `{NetSession S} `{!NetSessionLaws S} `{!WireLaws S}.

Abbreviation transport := (NetTransport S).

(** The bytes on the wire followed by the bytes still in the buffer. *)
Definition outgoing (st : transport * World) : bytes := wire (t_session st.1) st.2 ++ buffered st.1.

Lemma flush_post_outgoing (t : transport) w r st' :
  is_established (t_session t) w = true → flush_post t w r st' → outgoing st' = outgoing (t, w).
Proof.
  intros He Hp. destruct Hp as [k s' w' Hw Hk|e s' w' Hw Ht|e s' w' Hw Ht]; unfold outgoing; simpl;
    rewrite (wire_write _ _ _ _ _ _ He Hw); rewrite <-app_assoc; f_equal; simpl;
    rewrite ?after_write_buffered; unfold buffered; simpl; by rewrite ?take_drop, ?drop_0.
Qed.

Lemma flush_outgoing_wp (t : transport) w :
  is_established (t_session t) w = true →
  wp Transport.flush (λ _ st', outgoing st' = outgoing (t, w)) (t, w).
Proof.
  intros He. unfold Transport.flush. do 2 wp_step. eapply wp_mono; [apply flush_buffer_wp|].
  intros r [t1 w1] Hp. apply flush_post_outgoing in Hp; [|done]. do 2 wp_step.
  apply wp_on_session; [apply law_flush_no_panic|]. intros r1 s' w' Hf.
  assert (outgoing (set_session s' t1, w') = outgoing (t, w)).
  { rewrite <-Hp. unfold outgoing. simpl. by rewrite (wire_flush _ _ _ _ _ Hf). }
  destruct r1; by wp_step.
Qed.

Lemma dispatch_outgoing_wp {E} io (t : transport) w :
  is_established (t_session t) w = true →
  wp (dispatch (E:=E) io) (λ _ st', outgoing st' = outgoing (t, w)) (t, w).
Proof.
  intros He. destruct io; simpl.
  - unfold Transport.handle_readable. do 4 wp_step. simpl.
    apply wp_on_session; [apply law_read_no_panic|]. intros r s' w' Hr.
    assert (Ho : outgoing (set_session s' t, w') = outgoing (t, w)).
    { unfold outgoing. simpl. by rewrite (wire_read _ _ _ _ _ _ He Hr). }
    destruct r as [b|e].
    + wp_step. apply wp_update. do 2 wp_step. simpl. case_bool_decide.
      * destruct (is_established s' w'); simpl; by wp_step.
      * wp_step. unfold slice_to. rewrite length_app, (proj2 (Nat.leb_le _ _)) by lia. by do 2 wp_step.
    + case_bool_decide; [by wp_step|]. wp_step. by apply terminate_wp.
  - unfold Transport.handle_writable. do 2 wp_step. simpl. rewrite He. simpl. do 2 wp_step.
    eapply wp_mono; [by apply flush_outgoing_wp|]. intros r [t1 w1] Ho. destruct r as [|e]; [by wp_step|].
    destruct (is_transient e); wp_step; [by apply wp_update; wp_step|]. by apply terminate_wp.
Qed.

Lemma settle_outgoing_wp {E} force io resp (t : transport) w :
  wp (settle (E:=E) force io resp) (λ _ st', outgoing st' = outgoing (t, w)) (t, w).
Proof.
  unfold settle. do 3 wp_step.
  assert (Hc : ∀ b, wp (conclude (E:=E) resp (t, w)) (λ _ st', outgoing st' = outgoing (t, w))
                      (set_write_intent b t, w)).
  { intros b. unfold conclude. simpl. destruct (_ && _); [by wp_step|].
    destruct (is_established (t_session t) w) eqn:He; simpl; [|by wp_step].
    unfold is_established in He. destruct (Session.artifact (t_session t) w); [|done].
    by destruct (bool_decide _). }
  unfold adjust. simpl. destruct force; [by apply wp_update|]. case_bool_decide; [by apply wp_update|].
  wp_step. specialize (Hc (write_intent t)). by destruct t.
Qed.

Lemma handle_io_outgoing_wp {E} io (t : transport) w :
  t_state t = StActive → is_established (t_session t) w = true →
  wp (Transport.handle_io (E:=E) io) (λ _ st', outgoing st' = outgoing (t, w)) (t, w).
Proof.
  intros Hst He. unfold wp. rewrite handle_io_eq
    by (unfold asserted; rewrite Hst; simpl; by rewrite andb_false_r).
  apply (wp_bind (dispatch io) _ _ (entered t, w)).
  unfold entered. rewrite Hst. simpl. eapply wp_mono; [by apply dispatch_outgoing_wp|].
  intros [ev|e] [t1 w1] Ho; [|done]. rewrite <-Ho. apply settle_outgoing_wp.
Qed.

Lemma write_outgoing_wp buf (t : transport) w :
  t_state t = StActive → is_established (t_session t) w = true →
  wp (Transport.write buf) (λ _ st', outgoing st' = outgoing (t, w) ++ buf) (t, w).
Proof.
  intros Hst He. eapply wp_mono; [by apply write_active_wp|]. intros r st' (r' & _ & Hp).
  destruct (is_empty buf) eqn:Hb.
  - apply is_empty_true in Hb as ->. destruct Hp as [_ ->]. by rewrite app_nil_r.
  - apply flush_post_outgoing in Hp; [|done]. rewrite Hp. unfold outgoing, buffered. simpl.
    by rewrite app_assoc.
Qed.

(** A stretch of the life of an active transport on an established session:
    application writes, I/O events, and a world that does not take back what it
    has accepted.  The middle argument is all the application wrote. *)
Inductive transfer : transport * World → bytes → transport * World → Prop :=
| transfer_end st : transfer st [] st
| transfer_write buf t w r t' w' more st :
    t_state t = StActive → is_established (t_session t) w = true →
    Transport.write buf (t, w) = (Ret r, (t', w')) → transfer (t', w') more st →
    transfer (t, w) (buf ++ more) st
| transfer_io io t w r t' w' more st :
    t_state t = StActive → is_established (t_session t) w = true →
    Transport.handle_io (E:=io_error) io (t, w) = (Ret r, (t', w')) → transfer (t', w') more st →
    transfer (t, w) more st
| transfer_env t w w' more st :
    wire (t_session t) w' = wire (t_session t) w → transfer (t, w') more st →
    transfer (t, w) more st.

Lemma transfer_outgoing st data st' :
  transfer st data st' → outgoing st' = outgoing st ++ data.
Proof.
  induction 1 as [st|buf t w r t' w' more st Hst He Hw _ IH|io t w r t' w' more st Hst He Hio _ IH
                 |t w w' more st Heq _ IH].
  - by rewrite app_nil_r.
  - rewrite IH, (wp_run _ _ _ _ _ (write_outgoing_wp buf t w Hst He) Hw). by rewrite app_assoc.
  - by rewrite IH, (wp_run _ _ _ _ _ (handle_io_outgoing_wp io t w Hst He) Hio).
  - rewrite IH. unfold outgoing. simpl. by rewrite Heq.
Qed.

End write_path.

(** ** The contract *)

Module TransportContract.
Section contract.
Context `{BuildProfile} `{Deque.Layout} `{IoTypeApi} `{Reactor} {S : Type} `{NetSession S}
  `{!NetSessionLaws S}.

Abbreviation transport := (NetTransport S).
Abbreviation event := (SessionEvent (Artifact S)).

(** C6: [handle_io] refines the automaton [legal].  A transport that is not
    terminated goes from the handshake to active with an [Established] event,
    delivers data (never empty) only while active, and is terminated exactly
    when it says so with a [Terminated] event; it never fails otherwise. *)
Theorem handle_io_automaton io (t : transport) w (r : io_result (option event)) t' w' :
  t_state t ≠ StTerminated → Transport.handle_io io (t, w) = (Ret r, (t', w')) →
  ∃ ev, r = Ok ev ∧ legal (t_state t) ev (t_state t') ∧
    (t_state t' = StTerminated ↔ ∃ e, ev = Some (TerminatedEvent e)).
Proof.
  intros Hst Hr. destruct (handle_io_returned _ _ _ _ _ _ Hst Hr) as (ev & -> & Hl).
  exists ev. split_and!; [done..|]. destruct Hl; (split; [by eauto|by intros [? ?]]).
Qed.

(** C22: [handle_io] panics exactly on its two debug assertions: in a debug
    build, on a transport that is terminated already, or in the state
    [Handshake] over a session that is established already. *)
Theorem handle_io_panics_iff io (t : transport) w :
  (∃ msg st', Transport.handle_io (E:=io_error) io (t, w) = (Panic msg, st')) ↔
  debug_assertions = true ∧
  (t_state t = StTerminated ∨ t_state t = StHandshake ∧ is_established (t_session t) w = true).
Proof.
  split.
  - intros (msg & st' & Hp). destruct (debug_assertions && negb (asserted t w)) eqn:Ha.
    + unfold asserted in Ha. destruct debug_assertions, (t_state t), (is_established _ _); naive_solver.
    + destruct (wp_no_panic _ _ _ msg st' (handle_io_calm (E:=io_error) io t w Ha)). done.
  - intros (Hd & Hst). destruct (handle_io_panics (E:=io_error) io t w Hd) as [msg Hp]; [|eauto].
    unfold asserted. destruct Hst as [->|[-> ->]]; done.
Qed.

(** What [handle_readable] returns and does, from the result of the read. *)
Lemma handle_readable_eq {E} (t : transport) w r s' w' :
  read (length (read_buffer t)) (t_session t, w) = (Ret r, (s', w')) →
  Transport.handle_readable (E:=E) (t, w) =
    match r with
    | Ok b =>
        (Ret (Ok (match b with
                  | [] => if is_established s' w' then Some (TerminatedEvent (error_from ConnectionReset))
                          else None
                  | _ => Some (Data b)
                  end)),
         (set_read_buffer (b ++ drop (length b) (read_buffer t)) (set_session s' t), w'))
    | Err e =>
        if bool_decide (kind e = WouldBlock) then (Ret (Ok None), (set_session s' t, w'))
        else (Ret (Ok (Some (TerminatedEvent e))), (set_state StTerminated (set_session s' t), w'))
    end.
Proof.
  intros Hr. unfold Transport.handle_readable, bind, attempt, gets, Transport.on_session, zoom,
    Transport.update, modify. simpl. rewrite Hr. simpl. destruct r as [b|e].
  - destruct b as [|x b]; simpl; [by destruct (is_established s' w')|].
    unfold slice_to. rewrite (proj2 (Nat.leb_le _ _)) by (simpl; rewrite length_app; lia).
    unfold ret. simpl. by rewrite take_app_length.
  - by case_bool_decide.
Qed.

(** C21: reading on an active transport, whatever the session answers: data is
    handed over as it was read and kept at the start of the read buffer; the end
    of an established stream is reported as a reset; it and every error other
    than [WouldBlock] end in the state [Terminated]; [WouldBlock] changes
    nothing but the session.  The write buffer, the write intent and the
    direction are never touched. *)
Theorem active_read_spec (t : transport) w r s' w' :
  t_state t = StActive →
  read (length (read_buffer t)) (t_session t, w) = (Ret r, (s', w')) →
  Transport.handle_io (E:=io_error) IoRead (t, w) =
    let t' := set_session s' t in
    match r with
    | Ok [] => if is_established s' w'
               then (Ret (Ok (Some (TerminatedEvent (error_from ConnectionReset)))),
                     (set_state StTerminated t', w'))
               else (Ret (Ok None), (t', w'))
    | Ok b => (Ret (Ok (Some (Data b))),
               (set_read_buffer (b ++ drop (length b) (read_buffer t)) t', w'))
    | Err e => if bool_decide (kind e = WouldBlock) then (Ret (Ok None), (t', w'))
               else (Ret (Ok (Some (TerminatedEvent e))), (set_state StTerminated t', w'))
    end.
Proof.
  intros Hst Hr. rewrite handle_io_eq by (unfold asserted; rewrite Hst; simpl; by rewrite andb_false_r).
  unfold entered. rewrite Hst. simpl. unfold bind at 1. simpl.
  rewrite (handle_readable_eq _ _ _ _ _ Hr).
  destruct t as [st s d wi rb wb]; simpl in *; subst st.
  destruct r as [[|x b]|e]; [destruct (is_established s' w') eqn:He|
    |destruct (bool_decide (kind e = WouldBlock)) eqn:Hk];
    unfold settle, adjust, conclude, bind, gets, Transport.update, modify, ret; simpl;
    rewrite ?andb_false_r; try done.
  by destruct (bool_decide (kind e = ConnectionReset)).
Qed.

(** What [NetTransport::accept] makes. *)
Lemma accept_made (session : S) w t w1 :
  Transport.accept session w = (Ret (Ok t), w1) →
  t_state t = StHandshake ∧ t_session t = session ∧ length (read_buffer t) = READ_BUFFER_SIZE.
Proof.
  intros Hn. apply or_drop_ok in Hn. apply bind_ok_inv in Hn as (_ & ? & _ & Hn).
  apply bind_ok_inv in Hn as (_ & ? & _ & Hn). injection Hn as <- _. simpl.
  by rewrite length_replicate.
Qed.

(** C38: [NetTransport::accept] over a session that is already established
    loses its first data: [accept] does not look and starts in the state
    [Handshake].  A debug build panics on the first read event, and a release
    build answers it with [Established] while the bytes it has read, [b], are
    dropped. *)
Theorem accepted_data_lost (session : S) w0 t w1 w b s' w' :
  Transport.accept session w0 = (Ret (Ok t), w1) →
  is_established session w = true →
  read READ_BUFFER_SIZE (session, w) = (Ret (Ok b), (s', w')) →
  if debug_assertions
  then ∃ msg, Transport.handle_io (E:=io_error) IoRead (t, w) = (Panic msg, (t, w))
  else ∃ a t', t_session t' = s' ∧ t_state t' = StActive ∧
    Transport.handle_io (E:=io_error) IoRead (t, w) =
      (Ret (Ok (Some (Established (Transport.as_raw_fd t') a))), (t', w')).
Proof.
  intros Hnew He Hr. destruct (accept_made _ _ _ _ Hnew) as (Hst & <- & Hlen).
  rewrite <-Hlen in Hr. destruct debug_assertions eqn:Hd.
  { apply handle_io_panics; [done|]. unfold asserted. by rewrite Hst, He. }
  rewrite handle_io_eq by by rewrite Hd.
  unfold entered. rewrite Hst. simpl. unfold bind at 1. simpl.
  rewrite (handle_readable_eq _ _ _ _ _ Hr).
  pose proof (law_read_keeps _ _ _ _ _ _ He Hr eq_refl) as He'.
  unfold settle, adjust, conclude, bind, gets, Transport.update, modify, ret. simpl.
  rewrite Hst. simpl. rewrite andb_false_r, He'. simpl.
  unfold is_established in He'. destruct (Session.artifact s' w') as [a|]; [|done]. simpl.
  exists a, (set_state StActive (set_write_intent true (set_write_intent true
    (set_read_buffer (b ++ drop (length b) (read_buffer t)) (set_session s' t))))). done.
Qed.

(** C28: during the handshake the transport asks to write after a read and not
    after a write: "after each read we need to write and then wait". *)
Theorem handshake_alternates io (t : transport) w t' w' :
  t_state t = StHandshake →
  Transport.handle_io (E:=io_error) io (t, w) = (Ret (Ok None), (t', w')) →
  t_state t' = StHandshake ∧ write_intent t' = bool_decide (io = IoRead) ∧
  is_established (t_session t') w' = false.
Proof.
  intros Hst Hr. assert (Hnt : t_state t ≠ StTerminated) by (by rewrite Hst).
  destruct (debug_assertions && negb (asserted t w)) eqn:Ha.
  { apply andb_true_iff in Ha as [Hd Ha]. apply negb_true_iff in Ha.
    destruct (handle_io_panics (E:=io_error) io t w Hd Ha) as [msg Hp]. congruence. }
  rewrite handle_io_eq in Hr by done. unfold entered in Hr. rewrite Hst in Hr. simpl in Hr.
  apply bind_ok_inv in Hr as (resp & [t1 w1] & Hd & Hs).
  pose proof (wp_run _ _ _ _ _ (dispatch_wp io t w) Hd) as (ev & [= <-] & Hh).
  unfold settle, adjust, conclude, bind, gets, Transport.update, modify, ret in Hs. simpl in Hs.
  destruct (decide (t_state t1 = StHandshake)) as [Hhs|Hhs].
  - rewrite Hhs in Hs. simpl in Hs. rewrite andb_false_r, andb_true_r in Hs.
    destruct (is_established (t_session t1) w1) eqn:He; [|by simplify_eq].
    unfold is_established in He. by destruct (Session.artifact (t_session t1) w1).
  - exfalso. destruct Hh as [[_ ?]|[(e & -> & ?)|[(_ & ? & _)|(b & _ & _ & ? & _)]]]; simpl in *;
      try congruence.
    rewrite (bool_decide_eq_false_2 (t_state t1 = StHandshake)), andb_false_r in Hs by done.
    by destruct (_ && _).
Qed.

(** What the constructors make: no transport in [Init], and an empty buffer. *)
Lemma constructed (session : S) direction w t w1 :
  Transport.accept session w = (Ret (Ok t), w1) ∨
    Transport.with_session session direction w = (Ret (Ok t), w1) →
  t_state t ≠ StInit ∧ buffered t = [].
Proof.
  intros [Hn|Hn].
  - apply or_drop_ok in Hn. apply bind_ok_inv in Hn as (_ & ? & _ & Hn).
    apply bind_ok_inv in Hn as (_ & ? & _ & Hn). by injection Hn as <- _.
  - apply bind_ok_inv in Hn as (b & ? & _ & Hn). apply or_drop_ok in Hn.
    apply bind_ok_inv in Hn as (_ & ? & _ & Hn). injection Hn as <- _. simpl. by destruct b.
Qed.

(** C34: no transport is ever in the state [Init]: the constructors do not
    produce it and no event leads back to it. *)
Theorem init_unreachable `{!ReactorLaws} (session : S) direction w t w1 w2 evs t' w' :
  Transport.accept session w = (Ret (Ok t), w1) ∨
    Transport.with_session session direction w = (Ret (Ok t), w1) →
  life (t, w2) evs (t', w') → t_state t' ≠ StInit.
Proof.
  intros Hnew Hlife. assert (Ht : t_state (t, w2).1 ≠ StInit) by apply (constructed _ _ _ _ _ Hnew).
  change t' with (t', w').1. revert Ht.
  induction Hlife as [|io t0 w0 ev t1 w3 evs0 st Hst Hio Hl IH|buf t0 w0 r t1 w3 evs0 st Hw Hl IH|]; auto.
  - intros _. apply IH. simpl. destruct (handle_io_returned _ _ _ _ _ _ Hst Hio) as (ev' & _ & Hl').
    by destruct Hl'.
  - intros Ht. apply IH. simpl in *. by rewrite (write_state _ _ _ _ _ _ Hw).
Qed.

(** C7: over the whole life of a transport a handler sees an orderly sequence
    of events, whatever the network and the application do: [Established] at
    most once and before any data, data only in between, [Terminated] last. *)
Theorem events_orderly `{!ReactorLaws} (t : transport) w evs st :
  life (t, w) evs st → orderly (t_state t) evs = true.
Proof. intros Hlife. exact (life_orderly _ _ _ Hlife). Qed.

(** C33: [write] on a transport that is not active refuses with [NotConnected]
    and changes nothing. *)
Theorem write_refused `{!ReactorLaws} buf (t : transport) w :
  t_state t ≠ StActive →
  Transport.write buf (t, w) = (Ret (Err (error_from NotConnected)), (t, w)).
Proof. intros Hst. by apply write_not_active. Qed.

(** C24: [write] on an active transport takes all or reports the session's fatal
    error: on success it returns the length of the buffer, and the transport
    waits for writability exactly when some bytes are still buffered. *)
Theorem write_reports `{!ReactorLaws} buf (t : transport) w k t' w' :
  t_state t = StActive → buf ≠ [] → Transport.write buf (t, w) = (Ret (Ok k), (t', w')) →
  k = length buf ∧ t_state t' = StActive ∧ write_intent t' = negb (is_empty (buffered t')).
Proof.
  intros Hst Hb Hw. pose proof (wp_run _ _ _ _ _ (write_active_wp buf t w Hst) Hw) as (r' & Hr & Hp).
  apply is_empty_false in Hb as Hb'. rewrite Hb' in Hp.
  destruct r' as [[]|]; [|done]. injection Hr as ->. split_and!; [done| |].
  - apply flush_post_state in Hp. by rewrite Hp.
  - by eapply flush_post_intent.
Qed.

(** What the transport asks the reactor to wait for. *)
Lemma interests_active `{!IoTypeLaws} (t : transport) :
  t_state t = StActive → wants_write (Transport.interests t) = write_intent t.
Proof.
  intros Hst. unfold Transport.interests. rewrite Hst.
  destruct read_write_spec, read_only_spec. by destruct (write_intent t).
Qed.

(** C14: no byte is stranded in the buffer.  From its construction on, through
    any sequence of I/O events and successful writes and whatever the network
    does meanwhile, an active transport that still holds bytes asks the reactor
    to be told when it can write. *)
Theorem no_stalled_bytes `{!ReactorLaws} `{!IoTypeLaws} (session : S) direction w t w1 w2 t' w' :
  Transport.accept session w = (Ret (Ok t), w1) ∨
    Transport.with_session session direction w = (Ret (Ok t), w1) →
  healthy (t, w2) (t', w') → t_state t' = StActive → buffered t' ≠ [] →
  wants_write (Transport.interests t') = true.
Proof.
  intros Hnew Hlife Hst Hb. rewrite interests_active by done.
  apply (healthy_watched _ _ Hlife); [|done..]. destruct (constructed _ _ _ _ _ Hnew) as [_ He].
  intros _ Hne. by destruct Hne.
Qed.

End contract.

Section fifo.
Context `{BuildProfile} `{Deque.Layout} `{IoTypeApi} `{Reactor} `{!ReactorLaws} {S : Type}
  `{NetSession S} `{!NetSessionLaws S} `{!WireLaws S}.

(** C3: the write path is a FIFO.  While a transport is active on an
    established session, the bytes on the wire followed by the bytes in its
    buffer are the bytes that were there before followed by everything the
    application wrote: nothing is lost, repeated or reordered, across partial
    writes, transient errors and any interleaving with reads. *)
Theorem write_path_fifo (t : NetTransport S) w data t' w' :
  transfer (t, w) data (t', w') →
  wire (t_session t') w' ++ buffered t' = wire (t_session t) w ++ buffered t ++ data.
Proof. intros Ht. apply transfer_outgoing in Ht. unfold outgoing in Ht. simpl in Ht. by rewrite app_assoc. Qed.

(** C18: [into_session] returns the session only when every buffered byte has
    been handed to the kernel; otherwise the transport comes back in the error
    and nothing has been lost. *)
Theorem into_session_spec (t : NetTransport S) w r w' :
  is_established (t_session t) w = true → Transport.into_session t w = (Ret r, w') →
  match r with
  | Ok s => wire s w' = wire (t_session t) w ++ buffered t
  | Err (t', e) => wire (t_session t') w' ++ buffered t' = wire (t_session t) w ++ buffered t
  end.
Proof.
  intros He Hr.
  assert (Hwp : wp Transport.empty_write_buf
    (λ r st', outgoing st' = outgoing (t, w) ∧ (is_ok r = true → buffered st'.1 = [])) (t, w)).
  { unfold Transport.empty_write_buf, Transport.on_write_buffer. do 6 wp_step.
    apply wp_on_session; [apply law_write_no_panic|]. intros r1 s' w1 Hw. simpl in Hw.
    pose proof (wire_write _ _ _ _ _ _ He Hw) as Hwire. destruct r1 as [k|e].
    - pose proof (law_write_len _ _ _ _ _ _ Hw) as Hk. do 2 wp_step. unfold wp at 1. simpl.
      rewrite drain_contiguous by done. do 2 wp_step. simpl.
      assert (Ho : outgoing (set_write_buffer (mk_deque (drop k (buffered t)) (length (buffered t) - k))
        (set_session s' (set_write_buffer (Deque.make_contiguous (write_buffer t)) t)), w1) = outgoing (t, w)).
      { unfold outgoing, buffered. simpl. by rewrite Hwire, <-app_assoc, take_drop. }
      unfold Transport.write_buf_len, Deque.len. simpl. destruct (Nat.ltb_spec 0 (length (drop k (vd_content (write_buffer t))))).
      + by wp_step.
      + wp_step. split; [done|]. intros _. apply nil_length_inv. unfold buffered. simpl. lia.
    - split; [|done]. unfold outgoing, buffered. simpl. by rewrite Hwire, app_nil_r. }
  unfold Transport.into_session in Hr. unfold wp in Hwp.
  destruct (Transport.empty_write_buf (t, w)) as [[[b|e]| |] [t' w1]]; simplify_eq; try done.
  - destruct Hwp as [Ho Hb]. unfold outgoing in Ho. simpl in *. rewrite Hb, app_nil_r in Ho by done. done.
  - destruct Hwp as [Ho _]. done.
Qed.

End fifo.

Section construction.
Context `{BuildProfile} `{Deque.Layout} `{IoTypeApi} `{Reactor}.
Context `{Fuel} `{NetAddrApi} `{Socket2} `{Target} `{AddrDisplay}.
Context `{Socks5Api} `{NoiseApi} `{EidolonApi}.

Definition stream_fd (s : CypherSession) : RawFd := fd (as_connection s).

(** A constructor of a transport over [s], in the world [w]: it returns; on
    success the transport has the session, in [state] and with [direction], and
    its socket [k] has become [k']; on failure the session is closed. *)
Definition constructs (m : M io_error World (NetTransport CypherSession)) (s : CypherSession) (w : World)
    (state : TransportState) (direction : Direction) (i : nat) (k' : socket) : Prop :=
  ∃ r w', m w = (Ret r, w') ∧
    match r with
    | Ok t => t_session t = s ∧ t_state t = state ∧ link_direction t = direction ∧
        fds w' = fds w ∧ find (stream_fd s) w' = Some (i, k')
    | Err _ => fds w' = delete (stream_fd s) (fds w)
    end.

Lemma configured_constructs (g : socket → socket) m s w w1 state direction i k k' :
  fds w1 = fds w → find (stream_fd s) w1 = Some (i, k) →
  (∀ w2, fds w2 = fds w → find (stream_fd s) w2 = Some (i, g k) →
     constructs (or_drop (sess_drop s) m) s w2 state direction i k') →
  constructs (or_drop (sess_drop s) (run! configure (stream_fd s) g in m)) s w1 state direction i k'.
Proof.
  intros Hfds Hf Hnext. destruct (configure_found _ g _ _ _ Hf) as (r & w2 & Hc & Hfds2 & Hf2).
  unfold constructs, or_drop. destruct r as [[]|e].
  - rewrite (bind_ok _ _ _ _ _ Hc). destruct (Hnext w2) as (r & w' & Hm & Hr); [congruence|done|].
    exists r, w'. split; [exact Hm|]. destruct r; by rewrite Hfds2 in Hr.
  - rewrite (bind_err _ _ _ _ _ Hc). eexists _, _. split; [done|]. simpl. by rewrite Hfds2.
Qed.

(** C19: what the constructors do to the socket of a [CypherSession].
    [with_session] makes it non-blocking and starts active exactly when the
    session is established; [accept] sets both timeouts, leaves the blocking
    mode as it is and starts with the handshake.  They change nothing else, and
    when a call fails the session they have consumed is closed. *)
Theorem constructors_configure (s : CypherSession) direction w i k :
  find (stream_fd s) w = Some (i, k) →
  constructs (Transport.with_session s direction) s w
    (if is_established s w then StActive else StHandshake) direction i (set_sk_nonblocking true k) ∧
  constructs (Transport.accept s) s w StHandshake Inbound i
    (set_sk_write_timeout (Some WRITE_TIMEOUT) (set_sk_read_timeout (Some READ_TIMEOUT) k)).
Proof.
  intros Hf. split.
  - unfold constructs, Transport.with_session. setoid_rewrite bind_gets.
    apply (configured_constructs (set_sk_nonblocking true) _ s w w _ _ i k); [done..|].
    intros w2 Hfds Hf2. by eexists _, _.
  - apply (configured_constructs (set_sk_read_timeout (Some READ_TIMEOUT)) _ s w w _ _ i k); [done..|].
    intros w2 Hfds Hf2.
    apply (configured_constructs (set_sk_write_timeout (Some WRITE_TIMEOUT)) _ s w w2 _ _ i
             (set_sk_read_timeout (Some READ_TIMEOUT) k)); [done..|].
    intros w3 Hfds3 Hf3. by eexists _, _.
Qed.

End construction.
End TransportContract.
