(* ===== verification/TransportExamples.v ===== *)
(** * Concrete transports

    Instances of the reactor's interface, and transports over the concrete
    sessions of [Examples]: the witnesses of the theorems in [TransportSpecs]. *)

From S2P Require Import Prelude Std Kernel Connection Session SessionLaws Termination Cypher Examples Transport TransportLaws TransportSpecs.

Module ToyTransport.
Import Toy.

#[export] Instance io_types : IoTypeApi := {|
  IoType := bool * bool;
  io_none := (false, false);
  read_only := (true, false);
  write_only := (false, true);
  read_write := (true, true);
  wants_read := fst;
  wants_write := snd
|}.

#[export] Instance io_types_laws : IoTypeLaws.
Proof. by constructor. Qed.

#[export] Instance reactor : Reactor := λ St ready write_or_buf b st,
  if ready st then map_err WriteIo (write_or_buf b) st else (Ret (Err NotReady), st).

#[export] Instance reactor_laws : ReactorLaws.
Proof. by constructor; intros St ready wob b st Hr; unfold write_atomic, reactor; rewrite Hr. Qed.

#[export] Instance contiguous : Deque.Layout := λ d b, length (vd_content d) + length b.

#[export] Instance release : BuildProfile := release_profile.

(** A transport in the given state, with a small read buffer. *)
Definition transport (st : TransportState) (s : CypherSession) : NetTransport CypherSession :=
  mk_transport st s Outbound true (replicate 4 x00) Deque.new.

Definition pending (b : bytes) (t : NetTransport CypherSession) : NetTransport CypherSession :=
  set_write_buffer (mk_deque b (length b)) t.

(** The last act of the handshake arrives. *)
Definition w_act : World := world [RxData [x02]] [].
Definition t_hs : NetTransport CypherSession := transport StHandshake half_way.
Definition io_act := Transport.handle_io (E:=io_error) IoRead (t_hs, w_act).

Lemma handle_io_automaton_witness :
  ∃ ev, (Ok (Some (Established 3 (match artifact up w_act with
                                  | Some a => a | None => mk_artifact (mk_artifact (mk_artifact peer 0) (mk_noise_artifact _ [] None)) x00 end)))
         : io_result (option (SessionEvent (Artifact CypherSession)))) = Ok ev ∧
    legal (t_state t_hs) ev (t_state io_act.2.1) ∧
    (t_state io_act.2.1 = StTerminated ↔ ∃ e, ev = Some (TerminatedEvent e)).
Proof.
  apply (TransportContract.handle_io_automaton IoRead t_hs w_act _ io_act.2.1 io_act.2.2);
    [done|vm_compute; reflexivity].
Defined.

(** The two debug assertions, and a release build in the same states. *)
Example assertions_fire :
  (∃ msg st', Transport.handle_io (H:=debug_profile) (E:=io_error) IoRead (transport StTerminated up, w_act) = (Panic msg, st')) ∧
  (∃ msg st', Transport.handle_io (H:=debug_profile) (E:=io_error) IoRead (transport StHandshake up, w_act) = (Panic msg, st')) ∧
  (∃ r st', Transport.handle_io (E:=io_error) IoRead (transport StTerminated up, w_act) = (Ret r, st')).
Proof. vm_compute. eauto 10. Qed.

(** Both assertions at once: each panic is there because its condition holds. *)
Lemma handle_io_panics_iff_witness :
  (∃ msg st', Transport.handle_io (H:=debug_profile) (E:=io_error) IoRead (transport StTerminated up, w_act) = (Panic msg, st')) ∧
  (∃ msg st', Transport.handle_io (H:=debug_profile) (E:=io_error) IoWrite (transport StHandshake up, w_act) = (Panic msg, st')).
Proof.
  split; apply (TransportContract.handle_io_panics_iff (H:=debug_profile)); (split; [reflexivity|]).
  - left. reflexivity.
  - right. split; vm_compute; reflexivity.
Defined.

Definition t_up : NetTransport CypherSession := transport StActive up.
Definition w_up : World := w_data.

Lemma active_read_spec_witness :
  Transport.handle_io (E:=io_error) IoRead (t_up, w_up) =
    (Ret (Ok (Some (Data [x41; x42; x43]))),
     (set_read_buffer [x41; x42; x43; x00] t_up, (read 4 (up, w_up)).2.2)).
Proof.
  apply (TransportContract.active_read_spec t_up w_up (Ok [x41; x42; x43]) up (read 4 (up, w_up)).2.2);
    [done|vm_compute; reflexivity].
Defined.

(** [NetTransport::accept] on a plain TCP session, with data already there. *)
Definition t_tcp : NetTransport TcpStream :=
  mk_transport StHandshake conn Inbound false (replicate READ_BUFFER_SIZE x00) Deque.new.

Definition w_read : World := (recv 3 4 w_data).2.

Lemma accepted_data_lost_witness :
  ∃ a t', t_session t' = conn ∧ t_state t' = StActive ∧
    Transport.handle_io (E:=io_error) IoRead (t_tcp, w_data) =
      (Ret (Ok (Some (Established (Transport.as_raw_fd t') a))), (t', w_read)).
Proof.
  apply (TransportContract.accepted_data_lost (H:=release) conn w_data t_tcp
           (Transport.accept conn w_data).2 w_data [x41; x42; x43] conn w_read).
  - reflexivity.
  - vm_compute; reflexivity.
  - vm_compute; reflexivity.
Defined.

Definition t_early : NetTransport CypherSession := transport StHandshake starting.
Definition io_early := Transport.handle_io (E:=io_error) IoWrite (t_early, world [] []).

Lemma handshake_alternates_witness :
  t_state io_early.2.1 = StHandshake ∧ write_intent io_early.2.1 = bool_decide (IoWrite = IoRead) ∧
  is_established (t_session io_early.2.1) io_early.2.2 = false.
Proof.
  apply (TransportContract.handshake_alternates IoWrite t_early (world [] []) io_early.2.1 io_early.2.2);
    [done|vm_compute; reflexivity].
Defined.

(** A transport made by [accept], and a short life of it. *)
Definition made : NetTransport CypherSession :=
  mk_transport StHandshake half_way Inbound false (replicate READ_BUFFER_SIZE x00) Deque.new.

Lemma init_unreachable_witness : t_state made ≠ StInit.
Proof.
  apply (TransportContract.init_unreachable half_way Inbound (world [] []) made
    (Transport.accept half_way (world [] [])).2 w_act [] made w_act).
  - left. reflexivity.
  - constructor.
Defined.

(** What the completing step tells its handler. *)
Definition act_event : option (SessionEvent (Artifact CypherSession)) :=
  match io_act.1 with Ret (Ok ev) => ev | _ => None end.

Lemma events_orderly_witness :
  orderly StHandshake (match act_event with Some e => [e] | None => [] end) = true.
Proof.
  apply (TransportContract.events_orderly t_hs w_act (match act_event with Some e => [e] | None => [] end)
           (io_act.2.1, io_act.2.2)).
  apply (life_io IoRead t_hs w_act act_event io_act.2.1 io_act.2.2 []);
    [done|vm_compute; reflexivity|constructor].
Defined.

Lemma write_refused_witness :
  Transport.write [x41] (t_hs, w_act) = (Ret (Err (error_from NotConnected)), (t_hs, w_act)).
Proof. apply (TransportContract.write_refused [x41] t_hs w_act). done. Defined.

(** A kernel that takes two bytes and then blocks. *)
Definition w_slow : World := world [] [TxAccept 2; TxFail (error_from WouldBlock)].
Definition wrote := Transport.write [x41; x42; x43] (t_up, w_slow).

Lemma write_reports_witness :
  3 = length [x41; x42; x43] ∧ t_state wrote.2.1 = StActive ∧
  write_intent wrote.2.1 = negb (is_empty (buffered wrote.2.1)).
Proof.
  apply (TransportContract.write_reports [x41; x42; x43] t_up w_slow 3 wrote.2.1 wrote.2.2);
    [done|done|vm_compute; reflexivity].
Defined.

(** A transport over an established session, and a write the kernel takes only
    a part of. *)
Definition over (room : bytes) : NetTransport CypherSession :=
  mk_transport StActive up Outbound true room Deque.new.
Definition adopted : NetTransport CypherSession := over (replicate READ_BUFFER_SIZE x00).
Definition backlog : NetTransport CypherSession := pending [x43] adopted.

Lemma queueing room :
  Transport.write [x41; x42; x43] (over room, w_slow) =
    (Ret (Ok 3), (pending [x43] (over room), wrote.2.2)).
Proof. vm_compute; reflexivity. Qed.

Lemma no_stalled_bytes_witness : wants_write (Transport.interests backlog) = true.
Proof.
  apply (TransportContract.no_stalled_bytes up Outbound w_slow adopted
    (Transport.with_session up Outbound w_slow).2 w_slow backlog wrote.2.2).
  - right. reflexivity.
  - eapply (healthy_write [x41; x42; x43] adopted w_slow 3 backlog wrote.2.2);
      [apply queueing|constructor].
  - reflexivity.
  - discriminate.
Defined.

Definition wrote2 := Transport.write [x44] wrote.2.
Definition flushed := Transport.handle_io (E:=io_error) IoWrite wrote2.2.

Lemma write_path_fifo_witness :
  wire (t_session flushed.2.1) flushed.2.2 ++ buffered flushed.2.1 =
    wire (t_session t_up) w_slow ++ buffered t_up ++ [x41; x42; x43; x44].
Proof.
  apply (TransportContract.write_path_fifo t_up w_slow [x41; x42; x43; x44] flushed.2.1 flushed.2.2).
  eapply (transfer_write [x41; x42; x43] t_up w_slow _ wrote.2.1 wrote.2.2 [x44]);
    [done|vm_compute; reflexivity|vm_compute; reflexivity|].
  eapply (transfer_write [x44] wrote.2.1 wrote.2.2 _ wrote2.2.1 wrote2.2.2 []);
    [vm_compute; reflexivity..|].
  eapply (transfer_io IoWrite wrote2.2.1 wrote2.2.2 _ flushed.2.1 flushed.2.2 []);
    [vm_compute; reflexivity..|constructor].
Defined.

Definition unwrapped := Transport.into_session (pending [x41; x42; x43] t_up) w_slow.

(** The transport that the refused [into_session] gives back. *)
Definition unwrapped_t :=
  match unwrapped.1 with Ret (Err (t', _)) => t' | _ => t_up end.

Lemma into_session_spec_witness :
  wire (t_session unwrapped_t) unwrapped.2 ++ buffered unwrapped_t =
    wire up w_slow ++ [x41; x42; x43].
Proof.
  apply (TransportContract.into_session_spec (pending [x41; x42; x43] t_up) w_slow
           (Err (unwrapped_t, error_from WouldBlock)) unwrapped.2).
  - vm_compute; reflexivity.
  - vm_compute; reflexivity.
Defined.

(** The socket under the sessions of [Examples]. *)
Definition sock : socket := tcp_socket [] [].

Lemma constructors_configure_witness :
  TransportContract.constructs (Transport.with_session up Outbound) up (world [] []) StActive Outbound 0
    (set_sk_nonblocking true sock) ∧
  TransportContract.constructs (Transport.accept up) up (world [] []) StHandshake Inbound 0
    (set_sk_write_timeout (Some WRITE_TIMEOUT) (set_sk_read_timeout (Some READ_TIMEOUT) sock)).
Proof.
  apply (TransportContract.constructors_configure up Outbound (world [] []) 0 sock).
  vm_compute; reflexivity.
Defined.

End ToyTransport.
