(* ===== verification/Accept.v ===== *)
(** * [src/resource.rs]: [NetAccept], a listener managed by the reactor

    [NetAccept] wraps a [NetListener] for the event loop: on a read event it
    accepts one connection, configures it and reports it.  The theorems say what
    state the sockets are in that [bind] and [handle_io] hand out, and that the
    failing paths leave no descriptor open. *)

From S2P Require Import Prelude Std Kernel Connection ConnectionSpecs Listener Session SessionLaws Cypher Transport.

Inductive ListenerEvent (C : Type) : Type :=
| Accepted (connection : C)
| Failure (e : io_error).
Arguments Accepted {C} connection.
Arguments Failure {C} e.

Record NetAccept (L : Type) : Type := mk_accept { listener : L }.
Arguments mk_accept {L} _.
Arguments listener {L} _.

Module Accept.
Section operations.
Context `{IoTypeApi} {L : Type} `{NetListener L}.

Definition accept_raw_fd (a : NetAccept L) : RawFd := listener_fd (listener a).

(** [Write] and [WriteAtomic]: a listener cannot be written to. *)
Definition write (_buf : bytes) : M io_error (NetAccept L * World) nat := fail (error_from InvalidInput).
Definition flush : M io_error (NetAccept L * World) unit := fail (error_from InvalidInput).
Definition is_ready_to_write (a : NetAccept L) : bool := false.
Definition empty_write_buf : M io_error (NetAccept L * World) bool := ret true.
Definition write_or_buf (_buf : bytes) : M io_error (NetAccept L * World) unit :=
  fail (error_from InvalidInput).

Definition bind {A} `{ToSocketAddrs A} (addr : A) : M io_error World (NetAccept L) :=
  let! l := listen_bind addr in
  or_drop (listen_drop l) (
    run! listen_set_nonblocking true l in
    ret (mk_accept l)).

Definition bind_reusable {A} `{ToSocketAddrs A} (addr : A) : M io_error World (NetAccept L) :=
  let! l := listen_bind_reusable addr in
  or_drop (listen_drop l) (
    run! listen_set_nonblocking true l in
    ret (mk_accept l)).

Definition local_addr (a : NetAccept L) : M io_error World SocketAddr :=
  listen_local_addr (listener a).

Definition handle_accept (a : NetAccept L) : M io_error World (ListenStream L) :=
  let! connection := listen_accept (listener a) in
  or_drop (conn_drop connection) (
    run! set_read_timeout (Some READ_TIMEOUT) connection in
    run! set_write_timeout (Some WRITE_TIMEOUT) connection in
    run! set_nonblocking true connection in
    ret connection).

Definition interests (a : NetAccept L) : IoType := read_only.

Definition handle_io {E} (io : Io) (a : NetAccept L) :
    M E World (option (ListenerEvent (ListenStream L))) :=
  match io with
  | IoRead =>
      let! r := attempt (handle_accept a) in
      ret (Some (match r with
                 | Err err => Failure err
                 | Ok session => Accepted session
                 end))
  | IoWrite => ret None
  end.

End operations.
End Accept.

(** ** Lemmas *)

(** What [accept] hands out: a connected socket. *)
Lemma accept_opens f w i k :
  find f w = Some (i, k) → sk_nonblocking k = true →
  opens fst (λ k, ∃ p, sk_link k = Connected p) (accept_fd f) w.
Proof.
  intros Hf Hnb. unfold opens, accept_fd. rewrite Hf.
  destruct (sk_backlog k) as [b|]; [|by eexists _, _].
  destruct (sk_pending k) as [|[c|e] rest]; [|
    |by eexists _, _].
  - unfold wait. rewrite Hnb. by eexists _, _.
  - destruct (open_socket_opened (socket_of c) w
      (set_socks (<[i := set_pending rest k]> (socks w)) w)) as (f' & w2 & Ho & Hop); [done|].
    rewrite (bind_ok _ _ _ _ _ Ho). eexists _, _. split; [done|]. eexists. split; [exact Hop|].
    by eexists.
Qed.

(** [std]'s [bind]: the first address that works. *)
Definition listening (addrs : list SocketAddr) (k : socket) : Prop :=
  is_some (sk_backlog k) = true ∧ ∃ a, a ∈ addrs ∧ sk_local k = Some a.

Lemma bind_one_opens addr w :
  opens l_fd (λ k, is_some (sk_backlog k) = true ∧ sk_local k = Some addr) (StdListener.bind_one addr) w.
Proof.
  unfold StdListener.bind_one, opens.
  destruct (syscall_cases w) as ([[]|e] & w0 & Hs & Hfds & _);
    [rewrite (bind_ok _ _ _ _ _ Hs)|rewrite (bind_err _ _ _ _ _ Hs); by eexists _, _].
  assert (Hopen : opens id (λ k, k = fresh_socket) (λ _, open_socket fresh_socket w0) w).
  { destruct (open_socket_opened fresh_socket w w0 Hfds) as (f & w1 & Ho & Hop).
    eexists _, _. split; [exact Ho|]. by exists fresh_socket. }
  apply (opens_or_drop id l_fd _ _ (λ _, open_socket fresh_socket w0) close
    (λ f, run! configure f id in run! configure f (set_local (Some addr)) in
          run! configure f (set_backlog (Some 128%Z)) in ret (mk_listener f)) w Hopen).
  - intros f. eapply on_opened_bind; [by apply (on_opened_configure _ _ _ _ (λ _, True))|intros _].
    eapply on_opened_bind; [by apply (on_opened_configure _ _ _ _ (λ k, sk_local k = Some addr))|intros _].
    eapply on_opened_bind; [|intros _; apply on_opened_ret].
    apply on_opened_configure. by intros k Hk.
  - intros f w1 b w2 Hb. repeat (apply bind_ok_inv in Hb as (? & ? & _ & Hb)). by injection Hb as <-.
  - done.
Qed.

(** A failed attempt leaves no descriptor, so the next one starts as the first. *)
Lemma opens_fds {A} (fd_of : A → RawFd) P m w w1 r w2 :
  fds w1 = fds w → opens fd_of P m w1 → m w1 = (Ret r, w2) →
  match r with Ok a => ∃ k, opened (fd_of a) k w w2 ∧ P k | Err _ => fds w2 = fds w end.
Proof.
  intros Hfds (r' & w' & Heq & Hr) Hm. rewrite Heq in Hm. injection Hm as -> ->.
  destruct r as [a|e]; [|congruence]. destruct Hr as (k & (Hnew & i & Hi & Hf) & HP).
  exists k. split; [|done]. split; [congruence|]. exists i. split; [congruence|done].
Qed.

Lemma bind_each_opens addrs last w :
  opens l_fd (listening addrs) (StdListener.bind_each addrs last) w.
Proof.
  assert (Hgen : ∀ addrs last w1, fds w1 = fds w →
    ∃ r w2, StdListener.bind_each addrs last w1 = (Ret r, w2) ∧
    match r with Ok l => ∃ k, opened (l_fd l) k w w2 ∧ listening addrs k | Err _ => fds w2 = fds w end).
  { clear. induction addrs as [|addr addrs IH]; intros last w1 Hw1; [by eexists _, _|].
    cbn [StdListener.bind_each]. unfold bind, attempt.
    destruct (bind_one_opens addr w1) as (r & w2 & Heq & _).
    pose proof (opens_fds _ _ _ _ _ _ _ Hw1 (bind_one_opens addr w1) Heq) as Hr. rewrite Heq.
    destruct r as [l|e].
    - eexists _, _. split; [done|]. destruct Hr as (k & Hop & Hb & Hl). exists k. split; [done|].
      split; [done|]. exists addr. split; [by left|done].
    - destruct (IH e w2 Hr) as (r & w3 & -> & Hr3). eexists _, _. split; [done|].
      destruct r as [l|e']; [|done]. destruct Hr3 as (k & Hop & Hb & a & Ha & Hl).
      exists k. split; [done|]. split; [done|]. exists a. split; [by right|done]. }
  by apply Hgen.
Qed.

Lemma first_resolved_cases {A} `{ToSocketAddrs A} (addr : A) w :
  (∃ e, first_resolved addr w = (Ret (Err e), w)) ∨
  (∃ a addrs, resolve addr w = Ok addrs ∧ a ∈ addrs ∧ first_resolved addr w = (Ret (Ok a), w)).
Proof.
  unfold first_resolved, bind, of_result. destruct (resolve addr w) as [[|a addrs]|e]; eauto.
  right. exists a, (a :: addrs). split_and!; [done|by left|done].
Qed.

Section sockets.
Context `{NetAddrApi} `{Target} `{!Socket2, !Socket2Laws}.

(** A socket bound to one of the addresses, and not listening. *)
Definition bound (addrs : list SocketAddr) (k : socket) : Prop :=
  sk_backlog k = None ∧ ∃ a, a ∈ addrs ∧ sk_local k = Some a.

Lemma opens_resolved {A B} `{ToSocketAddrs A} (fd_of : B → RawFd) (P : list SocketAddr → socket → Prop)
    (addr : A) (h : SocketAddr → M io_error World B) w :
  (∀ a addrs, a ∈ addrs → opens fd_of (P addrs) (h a) w) →
  opens fd_of (λ k, ∃ addrs, resolve addr w = Ok addrs ∧ P addrs k) (let! a := first_resolved addr in h a) w.
Proof.
  intros Hh. destruct (first_resolved_cases addr w) as [[e He]|(a & addrs & Hr & Ha & He)].
  - unfold opens. rewrite (bind_err _ _ _ _ _ He). by eexists _, _.
  - unfold opens. rewrite (bind_ok _ _ _ _ _ He). fold (opens fd_of (λ k, ∃ addrs, resolve addr w = Ok addrs ∧ P addrs k) (h a) w).
    eapply opens_weaken; [by eapply Hh|]. intros k HP. by exists addrs.
Qed.

Lemma socket_bind_opens {A} `{ToSocketAddrs A} (addr : A) w :
  opens s2_as_raw_fd (λ k, ∃ addrs, resolve addr w = Ok addrs ∧ bound addrs k) (socket_bind addr) w.
Proof.
  unfold socket_bind. apply opens_resolved. intros a addrs Ha.
  apply (s2_new_then _ (λ s, run! s2_bind (sockaddr_from a) s in ret s)).
  - intros s. eapply on_opened_bind; [|intros _; apply on_opened_ret].
    eapply on_opened_call; [intros w1; apply s2_bind_call|]. intros k ->.
    split; [done|]. exists a. split; [done|]. simpl. apply s2_sockaddr.
  - intros s w1 s' w2 Hb. apply bind_ok_inv in Hb as (? & ? & _ & Hb). by injection Hb as <-.
Qed.

Lemma socket_bind_reusable_opens {A} `{ToSocketAddrs A} (addr : A) w :
  opens s2_as_raw_fd (λ k, ∃ addrs, resolve addr w = Ok addrs ∧ bound addrs k) (socket_bind_reusable addr) w.
Proof.
  unfold socket_bind_reusable. apply opens_resolved. intros a addrs Ha.
  apply (s2_new_then _ (λ s, run! s2_set_reuse_address true s in _)).
  - intros s. set (P k := sk_backlog k = None).
    eapply (on_opened_bind _ _ _ P); [|intros _; eapply (on_opened_bind _ _ _ P); [|intros _;
      eapply on_opened_bind; [|intros _; apply on_opened_ret]]].
    + eapply on_opened_call; [intros w1; apply s2_reuse_address_call|]. by intros k ->.
    + destruct has_reuse_port; [|apply on_opened_ret].
      eapply on_opened_call; [intros w1; apply s2_reuse_port_call|done].
    + eapply on_opened_call; [intros w1; apply s2_bind_call|]. intros k Hk.
      split; [done|]. exists a. split; [done|]. simpl. apply s2_sockaddr.
  - intros s w1 s' w2 Hb. repeat (apply bind_ok_inv in Hb as (? & ? & _ & Hb)).
    by injection Hb as <-.
Qed.

(** The tail [listener.set_nonblocking(true)?; Ok(Self { .. })], on any
    listener whose two calls are the kernel's. *)
Lemma accept_bind_opens {L} `{NetListener L} P (m : M io_error World L) w :
  (∀ b l w1, listen_set_nonblocking b l w1 = configure (listener_fd l) (set_sk_nonblocking b) w1) →
  (∀ l w1, listen_drop l w1 = close (listener_fd l) w1) →
  (∀ k, P k → P (set_sk_nonblocking true k)) →
  opens listener_fd P m w →
  opens Accept.accept_raw_fd (λ k, P k ∧ sk_nonblocking k = true)
    (let! l := m in or_drop (listen_drop l) (run! listen_set_nonblocking true l in ret (mk_accept l))) w.
Proof.
  intros Hnb Hdrop HP Hm. eapply opens_or_drop; [exact Hm| | |done].
  - intros l. eapply on_opened_bind; [|intros _; apply on_opened_ret].
    eapply on_opened_ext; [intros w1; apply Hnb|]. apply on_opened_configure. auto.
  - intros l w1 a w2 Hb. apply bind_ok_inv in Hb as (? & ? & _ & Hb). by injection Hb as <-.
Qed.

Lemma socket_accept_bound {A} `{ToSocketAddrs A} (addr : A) (m : M io_error World Socket) a w w' :
  opens s2_as_raw_fd (λ k, ∃ addrs, resolve addr w = Ok addrs ∧ bound addrs k) m w →
  (let! l := m in or_drop (listen_drop l) (run! listen_set_nonblocking true l in ret (mk_accept l))) w =
    (Ret (Ok a), w') →
  ∃ i k, find (s2_as_raw_fd (listener a)) w' = Some (i, k) ∧ sk_backlog k = None.
Proof.
  intros Hm Hb.
  assert (Hm' : opens Accept.accept_raw_fd (λ k, (∃ addrs, resolve addr w = Ok addrs ∧ bound addrs k) ∧
    sk_nonblocking k = true) (let! l := m in or_drop (listen_drop l)
      (run! listen_set_nonblocking true l in ret (mk_accept l))) w).
  { apply (accept_bind_opens (L:=Socket) (λ k, ∃ addrs, resolve addr w = Ok addrs ∧ bound addrs k));
      [apply s2_nonblocking_call|apply s2_drop_call|done|exact Hm]. }
  destruct Hm' as (r & w1 & Heq & Hr). rewrite Hb in Heq. injection Heq as <- <-.
  destruct Hr as (k & (_ & i & _ & Hf) & (addrs & _ & Hbl & _) & _). by exists i, k.
Qed.

End sockets.

Module AcceptContract.
Section specs.
Context `{NetAddrApi} `{Target} `{!Socket2, !Socket2Laws}.

(** C25: [NetAccept::bind] and [bind_reusable] over a [TcpListener] return: on
    success there is one new descriptor, of a socket in listening and
    non-blocking mode, bound to one of the addresses the argument resolves to;
    on failure there is none. *)
Theorem bind_listens {A} `{ToSocketAddrs A} (addr : A) w :
  let P k := (∃ addrs, resolve addr w = Ok addrs ∧ listening addrs k) ∧ sk_nonblocking k = true in
  opens (Accept.accept_raw_fd (L:=TcpListener)) P (Accept.bind addr) w ∧
  opens (Accept.accept_raw_fd (L:=TcpListener)) P (Accept.bind_reusable addr) w.
Proof.
  simpl. split; (apply (accept_bind_opens (L:=TcpListener)); [done|done|done|]); simpl.
  - unfold StdListener.bind, opens, bind at 1, of_result. destruct (resolve addr w) as [addrs|e] eqn:Hr;
      [|by eexists _, _].
    eapply opens_weaken; [apply bind_each_opens|]. eauto.
  - eapply opens_or_drop; [apply socket_bind_reusable_opens| | |intros; apply s2_drop_call].
    + intros s. eapply on_opened_bind; [|intros _; apply on_opened_ret].
      eapply on_opened_call; [intros w1; apply s2_listen_call|].
      intros k (addrs & Hr & _ & a & Ha & Hl). exists addrs. split; [done|]. split; [done|]. by exists a.
    + intros s w1 l w2 Hb. apply bind_ok_inv in Hb as (? & ? & _ & Hb). injection Hb as <- _.
      apply s2_into_fd.
Qed.

(** C10: a read event on a bound [NetAccept] over a [TcpListener] is always
    answered: with a connection whose socket is connected, in non-blocking mode
    and has both timeouts set, for which exactly one descriptor was opened; or
    with a failure, which leaves no descriptor behind, also when the
    configuration of an accepted connection fails. *)
Theorem accept_configures {E} (a : NetAccept TcpListener) w i k :
  find (l_fd (listener a)) w = Some (i, k) → sk_nonblocking k = true →
  ∃ ev w', Accept.handle_io (E:=E) IoRead a w = (Ret (Ok (Some ev)), w') ∧
    match ev with
    | Accepted c => ∃ k', opened (fd c) k' w w' ∧ sk_nonblocking k' = true ∧
        sk_read_timeout k' = Some READ_TIMEOUT ∧ sk_write_timeout k' = Some WRITE_TIMEOUT ∧
        ∃ p, sk_link k' = Connected p
    | Failure _ => fds w' = fds w
    end.
Proof.
  intros Hf Hnb. set (P k' := ∃ p, sk_link k' = Connected p).
  set (P1 k' := P k' ∧ sk_read_timeout k' = Some READ_TIMEOUT).
  set (P2 k' := P1 k' ∧ sk_write_timeout k' = Some WRITE_TIMEOUT).
  assert (Hop : opens fd (λ k', P2 k' ∧ sk_nonblocking k' = true) (Accept.handle_accept a) w).
  { unfold Accept.handle_accept. eapply opens_or_drop.
    - simpl. unfold tcp_accept. apply (opens_map (λ c, fd c.1)); [done|]. unfold StdListener.accept.
      apply (opens_map fst); [done|]. by eapply accept_opens.
    - intros c. simpl. unfold Tcp.set_read_timeout, Tcp.set_write_timeout, check_timeout.
      eapply (on_opened_bind _ _ _ P1); [|intros _; eapply (on_opened_bind _ _ _ P2); [|intros _;
        eapply on_opened_bind; [|intros _; apply on_opened_ret]]].
      + rewrite bool_decide_eq_false_2 by done. eapply on_opened_bind; [apply on_opened_ret|intros _].
        apply on_opened_configure. by intros k' Hk'.
      + rewrite bool_decide_eq_false_2 by done. eapply on_opened_bind; [apply on_opened_ret|intros _].
        apply on_opened_configure. by intros k' Hk'.
      + apply on_opened_configure. by intros k' Hk'.
    - intros c w1 c' w2 Hb. repeat (apply bind_ok_inv in Hb as (? & ? & _ & Hb)). by injection Hb as <-.
    - done. }
  destruct Hop as (r & w' & Heq & Hr). unfold Accept.handle_io, bind, attempt. rewrite Heq.
  eexists _, _. split; [done|]. destruct r as [c|e]; [|done].
  destruct Hr as (k' & Hop' & [[HP Hrt] Hwt] & Hn). by exists k'.
Qed.

(** C40: a [NetAccept] over a [socket2::Socket] never accepts anything: neither
    [bind] nor [bind_reusable] of that listener calls [listen], so every read
    event on the listener it has just bound is answered with [EINVAL]. *)
Theorem socket_listener_never_accepts {E A} `{ToSocketAddrs A} (addr : A) (a : NetAccept Socket) w w' :
  Accept.bind addr w = (Ret (Ok a), w') ∨ Accept.bind_reusable addr w = (Ret (Ok a), w') →
  Accept.handle_io (E:=E) IoRead a w' =
    (Ret (Ok (Some (Failure (os_error InvalidInput EINVAL)))), w').
Proof.
  intros Hb. assert (Hk : ∃ i k, find (s2_as_raw_fd (listener a)) w' = Some (i, k) ∧ sk_backlog k = None).
  { destruct Hb as [Hb|Hb]; (eapply socket_accept_bound; [|exact Hb]);
      [apply socket_bind_opens|apply socket_bind_reusable_opens]. }
  destruct Hk as (i & k & Hf & Hbl). unfold Accept.handle_io, Accept.handle_accept. simpl.
  unfold socket_accept, bind, attempt. rewrite s2_accept_call. unfold bind, accept_fd.
  by rewrite Hf, Hbl.
Qed.

End specs.
End AcceptContract.
