(* ===== verification/ServiceExamples.v ===== *)
(** * Concrete runs of connectors, listeners and split sessions

    The [socket2] of [Examples] satisfies the laws that the theorems assume of
    it; each witness applies its theorem to a concrete world. *)

From S2P Require Import Prelude Std Kernel Connection ConnectionSpecs Listener Session SessionLaws Termination Cypher.
From S2P Require Import Descriptors Split Examples Transport Accept.

Module ToyService.
Import Toy.

Lemma bind_ret_r {E St A} (m : M E St A) st : bind m ret st = m st.
Proof. unfold bind, ret. by destruct (m st) as [[[]| |] ?]. Qed.

#[export] Instance sockets_laws : Socket2Laws (H:=sockets).
Proof.
  split; try done.
  - intros s w. simpl. unfold bind. by destruct (accept_fd s w) as [[[[]|]| |] w1].
  - intros s w. simpl. symmetry. apply bind_ret_r.
Qed.

(** A world in which the next connection is on its way. *)
Definition w_dial : World :=
  mk_world {[3 := 0]} {[0 := tcp_socket [] []]}
    [Err (os_error Uncategorized EINPROGRESS); Err (error_from ConnectionRefused)] [].

(** A kernel that is out of local ports. *)
Definition w_again : World :=
  mk_world {[3 := 0]} {[0 := tcp_socket [] []]} [Err (error_from WouldBlock)] [].

Definition dial_nb : M io_error World CypherSession :=
  cypher_connect_nonblocking (λ proxy _, proxy) 107 x01 [] tt peer true 1000%Z.
Definition dial_reusable : M io_error World CypherSession :=
  cypher_connect_reusable_nonblocking (λ proxy _, proxy) me 107 x01 [] tt peer true.

(** The dial that failed is returned as a session over an unconnected socket. *)
Example again_is_ok : ∃ s w' i k, dial_nb w_again = (Ret (Ok s), w') ∧
  find (session_fd s) w' = Some (i, k) ∧ sk_link k = Unconnected.
Proof. vm_compute. by eexists _, _, _, _. Qed.

Lemma connect_nonblocking_opens_witness :
  (opens (session_fd (S:=CypherSession)) nonblocking_socket dial_nb w_dial ∧
   dials_for (session_fd (S:=CypherSession)) dial_nb w_dial) ∧
  (opens (session_fd (S:=CypherSession)) nonblocking_socket dial_reusable w_dial ∧
   dials_for (session_fd (S:=CypherSession)) dial_reusable w_dial).
Proof.
  apply DescriptorSpecs.connect_nonblocking_opens.
Defined.

Lemma connect_blocking_descriptors_witness :
  fds dialling !! session_fd dialled = None ∧ ∃ i, fds dial.2 = <[session_fd dialled := i]> (fds dialling).
Proof.
  apply (@DescriptorSpecs.connect_blocking_descriptors _ addresses _ _ sockets socks5 noise eidolon
    (λ proxy _, proxy) 107 x01 [] tt peer true 1000%Z dialling (Ok dialled) dial.2).
  vm_compute. reflexivity.
Defined.

(** A proxy that accepts the connection and says nothing. *)
Definition silent : World := mk_world ∅ ∅ [Ok (mk_incoming peer me [] [])] [].
Definition connect_toy : M io_error World CypherSession :=
  cypher_connect_blocking (λ proxy _, proxy) 107 x01 [] tt peer true 1000%Z.

Example silence_hangs : (connect_toy silent).1 = NoReturn.
Proof. vm_compute. reflexivity. Qed.


(** The same connection as a [socket2::Socket]. *)
Definition s2_conn : @Socket sockets := 3.

(** Peeking into a buffer that is longer than the data. *)
Definition room : bytes := [x31; x32; x33; x34; x35].

Example peeked : peek room s2_conn w_data = (Ret (Ok (3, [x41; x42; x43; x34; x35])), w_data).
Proof. vm_compute. reflexivity. Qed.

Lemma peek_then_read_witness :
  ConnectionContract.shows room conn w_data ∧ ConnectionContract.shows room s2_conn w_data.
Proof. apply (ConnectionContract.peek_then_read room conn s2_conn w_data). Defined.

(** The next configuration call fails. *)
Definition w_fault : World :=
  mk_world {[3 := 0]} {[0 := tcp_socket [] []]} [] [Some (error_from InvalidInput)].
Definition w_fault' : World := (set_tcp_keepalive (C:=TcpStream) tt conn w_fault).2.

Lemma keepalive_failure_closes_witness :
  fds w_fault' = delete (fd conn) (fds w_fault) ∧
  (∀ n, read n (conn, w_fault') = (Ret (Err bad_fd), (conn, w_fault'))) ∧
  (∀ b, write b (conn, w_fault') = (Ret (Err bad_fd), (conn, w_fault'))).
Proof.
  apply (@ConnectionContract.keepalive_failure_closes addresses _ sockets sockets_laws tt conn w_fault
    (Err (error_from InvalidInput)) w_fault').
  vm_compute. reflexivity.
Defined.

(** ** Split sessions *)

#[export] Instance counter : Random := {| Rng := Z; random g := (g, (g + 1)%Z) |}.

(** A session on which no handshake has been run yet. *)
Definition w_idle : World := world [] [].
Definition halves := split_io starting (5%Z, w_idle).
Definition rd : Reader CypherSession :=
  mk_net_reader 5%Z (mk_net_reader 6%Z (mk_net_reader 7%Z (mk_tcp_reader 8%Z (mk_tcp 4)))).
Definition wr : Writer CypherSession :=
  mk_net_writer 5%Z (mk_eidolon _ (EiSend x01 None) tt : EidolonRuntime)
    (mk_net_writer 6%Z (NNSend : NoiseState)
      (mk_net_writer 7%Z (S5Init 107 true : Socks5) (mk_tcp_writer 8%Z conn))).

Lemma halves_are_the_socket_witness :
  is_established starting w_idle = false ∧
  (∀ n, reader_read n (rd, halves.2.2) =
     let '(o, w2) := recv 3 n halves.2.2 in (o, (rd, w2))) ∧
  (∀ b, writer_write b (wr, halves.2.2) =
     let '(o, w2) := send 3 b halves.2.2 in (o, (wr, w2))).
Proof.
  split; [vm_compute; reflexivity|].
  apply (SplitContract.halves_are_the_socket starting (5%Z : @Rng counter) w_idle rd wr halves.2.1 halves.2.2);
    vm_compute; reflexivity.
Defined.

(** The application's bytes leave in the clear before the first handshake. *)
Example split_leaks_early :
  sent 3 (writer_write [x41; x42] (wr, halves.2.2)).2.2 = [x41; x42].
Proof. vm_compute. reflexivity. Qed.

(** ** Listeners *)

#[export] Instance addr_list : ToSocketAddrs (list SocketAddr) := λ l _, Ok l.

Lemma bind_listens_witness :
  let P k := (∃ addrs, resolve [me] w_idle = Ok addrs ∧ listening addrs k) ∧ sk_nonblocking k = true in
  opens (Accept.accept_raw_fd (L:=TcpListener)) P (Accept.bind [me]) w_idle ∧
  opens (Accept.accept_raw_fd (L:=TcpListener)) P (Accept.bind_reusable [me]) w_idle.
Proof. apply (AcceptContract.bind_listens [me] w_idle). Defined.

(** A listening socket with one connection waiting. *)
Definition listening_socket : socket :=
  set_pending [Ok (mk_incoming peer me [RxData [x41]] [])]
    (set_backlog (Some 128%Z) (set_sk_nonblocking true fresh_socket)).
Definition w_listen : World := mk_world {[4 := 7]} {[7 := listening_socket]} [] [].
Definition acceptor : NetAccept TcpListener := mk_accept (mk_listener 4).

Lemma accept_configures_witness :
  ∃ ev w', Accept.handle_io (E:=io_error) IoRead acceptor w_listen = (Ret (Ok (Some ev)), w') ∧
    match ev with
    | Accepted c => ∃ k', opened (fd c) k' w_listen w' ∧ sk_nonblocking k' = true ∧
        sk_read_timeout k' = Some READ_TIMEOUT ∧ sk_write_timeout k' = Some WRITE_TIMEOUT ∧
        ∃ p, sk_link k' = Connected p
    | Failure _ => fds w' = fds w_listen
    end.
Proof.
  apply (AcceptContract.accept_configures acceptor w_listen 7 listening_socket); vm_compute; reflexivity.
Defined.

Definition s2_acceptor : NetAccept Socket := mk_accept (4 : @Socket sockets).
Definition s2_bound := Accept.bind (L:=Socket) [me] w_idle.

Lemma socket_listener_never_accepts_witness :
  Accept.handle_io (E:=io_error) IoRead s2_acceptor s2_bound.2 =
    (Ret (Ok (Some (Failure (os_error InvalidInput EINVAL)))), s2_bound.2).
Proof.
  apply (AcceptContract.socket_listener_never_accepts [me] s2_acceptor w_idle s2_bound.2).
  left. vm_compute. reflexivity.
Defined.

End ToyService.
