(* ===== verification/Tunnel.v ===== *)
(** * [src/tunnel.rs]: [Tunnel]

    A tunnel accepts one local connection and copies bytes between it and a
    session in both directions, driven by a poller, until one side is done.

    The poller is the [Poll] trait of the [reactor] crate: the class [PollApi].
    It looks at the kernel ([poll]) but does not read or write the sockets.

    The control flow of [tunnel_once] has early returns in nested loops: its
    body is code whose error channel carries the [Result] that is returned. *)

From S2P Require Import Prelude Std Kernel Connection Listener Session Transport.

(** ** What comes from the [reactor] crate *)

Inductive IoFail : Set := Connectivity (code : Z) | FailOs (code : Z).

Class PollApi `{IoTypeApi} (P : Type) := {
  ResourceId : Type;
  ResourceId_eq_dec :: EqDecision ResourceId;
  register : RawFd → IoType → P → ResourceId * P;
  set_interest : ResourceId → IoType → P → P;
  poll : option Duration → P → World → outcome (io_result nat) * P;
  next : P → option (ResourceId * result IoFail IoType) * P
}.
Arguments ResourceId {_} P {_}.

(** ** The state *)

Record Tunnel (S : Type) : Type := mk_tunnel {
  tun_listener : TcpListener;
  tun_session : S
}.
Arguments mk_tunnel {S} _ _.
Arguments tun_listener {S} _.
Arguments tun_session {S} _.

(** The local variables of [tunnel_once] and the session. *)
Record vars (S P : Type) : Type := mk_vars {
  v_stream : TcpStream;
  v_session : S;
  v_poller : P;
  in_buf : VecDeque;
  out_buf : VecDeque;
  in_count : Z;
  out_count : Z;
  v_buf : bytes
}.
Arguments mk_vars {S P} _ _ _ _ _ _ _ _.
Arguments v_stream {S P} _.
Arguments v_session {S P} _.
Arguments v_poller {S P} _.
Arguments in_buf {S P} _.
Arguments out_buf {S P} _.
Arguments in_count {S P} _.
Arguments out_count {S P} _.
Arguments v_buf {S P} _.

Module Tunnels.
Section operations.
Context `{BuildProfile} `{Fuel} `{Deque.Layout} `{IoTypeApi} {S P : Type} `{NetSession S} `{!PollApi P}.

(** A call on a field. *)
Definition on_stream {E A} (m : M E (TcpStream * World) A) : M E (vars S P * World) A :=
  zoom (λ st, (v_stream st.1, st.2)) (λ x st, let v := st.1 in
    (mk_vars x.1 (v_session v) (v_poller v) (in_buf v) (out_buf v) (in_count v) (out_count v) (v_buf v), x.2)) m.
Definition on_session {E A} (m : M E (S * World) A) : M E (vars S P * World) A :=
  zoom (λ st, (v_session st.1, st.2)) (λ x st, let v := st.1 in
    (mk_vars (v_stream v) x.1 (v_poller v) (in_buf v) (out_buf v) (in_count v) (out_count v) (v_buf v), x.2)) m.
Definition on_in_buf {E A} (m : M E VecDeque A) : M E (vars S P * World) A :=
  zoom (λ st, in_buf st.1) (λ x st, let v := st.1 in
    (mk_vars (v_stream v) (v_session v) (v_poller v) x (out_buf v) (in_count v) (out_count v) (v_buf v), st.2)) m.
Definition on_out_buf {E A} (m : M E VecDeque A) : M E (vars S P * World) A :=
  zoom (λ st, out_buf st.1) (λ x st, let v := st.1 in
    (mk_vars (v_stream v) (v_session v) (v_poller v) (in_buf v) x (in_count v) (out_count v) (v_buf v), st.2)) m.
Definition update {E} (f : vars S P → vars S P) : M E (vars S P * World) unit :=
  modify (λ st, (f st.1, st.2)).
Definition set_poller (p : P) (v : vars S P) : vars S P :=
  mk_vars (v_stream v) (v_session v) p (in_buf v) (out_buf v) (in_count v) (out_count v) (v_buf v).
Definition set_in_count (n : Z) (v : vars S P) : vars S P :=
  mk_vars (v_stream v) (v_session v) (v_poller v) (in_buf v) (out_buf v) n (out_count v) (v_buf v).
Definition set_out_count (n : Z) (v : vars S P) : vars S P :=
  mk_vars (v_stream v) (v_session v) (v_poller v) (in_buf v) (out_buf v) (in_count v) n (v_buf v).
Definition set_buf (b : bytes) (v : vars S P) : vars S P :=
  mk_vars (v_stream v) (v_session v) (v_poller v) (in_buf v) (out_buf v) (in_count v) (out_count v) b.

(** What a [return] in the body of [tunnel_once] carries. *)
Definition exit : Type := io_result (Z * Z).

(** [m?] in the body. *)
Definition try_ {A} (m : M io_error (vars S P * World) A) : M exit (vars S P * World) A := map_err Err m.

(** The macro [handle!]: nothing transferred ends the tunnel, an error too. *)
Definition handle {A} (len : A → nat) (call : M io_error (vars S P * World) A)
    (body : A → M exit (vars S P * World) unit) : M exit (vars S P * World) unit :=
  let! r := attempt call in
  match r with
  | Ok a =>
      if bool_decide (len a = 0) then
        let! st := gets fst in
        fail (Ok (in_count st, out_count st))
      else body a
  | Err err => fail (Err err)
  end.

Definition set_interest_of (id : ResourceId P) (t : IoType) : M exit (vars S P * World) unit :=
  update (λ v, set_poller (set_interest id t (v_poller v)) v).

(** [read(&mut buf)] into the shared buffer, then [&buf[..read]]. *)
Definition filled (b : bytes) : M exit (vars S P * World) bytes :=
  run! update (λ v, set_buf (b ++ drop (length b) (v_buf v)) v) in
  let! st := gets fst in
  slice_to (length b) (v_buf st).

(** The four transfers. *)
Definition write_int (int_id : ResourceId P) : M exit (vars S P * World) unit :=
  run! on_in_buf (modify Deque.make_contiguous) in
  let! st := gets fst in
  handle id (on_stream (Kernel.write (vd_content (in_buf st)))) (λ written,
    run! try_ (on_stream flush) in
    run! on_in_buf (Deque.drain_to written) in
    let! st := gets fst in
    let! n := usize_add (in_count st) (Z.of_nat written) in
    run! update (set_in_count n) in
    if is_empty (vd_content (in_buf st)) then set_interest_of int_id read_only else ret tt).

Definition read_int (ext_id : ResourceId P) : M exit (vars S P * World) unit :=
  let! st := gets fst in
  handle length (on_stream (read (length (v_buf st)))) (λ b,
    let! data := filled b in
    run! on_out_buf (run! Deque.write data in ret tt) in
    set_interest_of ext_id read_write).

Definition write_ext (ext_id : ResourceId P) : M exit (vars S P * World) unit :=
  run! on_out_buf (modify Deque.make_contiguous) in
  let! st := gets fst in
  handle id (on_session (Kernel.write (vd_content (out_buf st)))) (λ written,
    run! try_ (on_session flush) in
    run! on_out_buf (Deque.drain_to written) in
    let! st := gets fst in
    let! n := usize_add (out_count st) (Z.of_nat written) in
    run! update (set_out_count n) in
    if is_empty (vd_content (out_buf st)) then set_interest_of ext_id read_only else ret tt).

Definition read_ext (int_id : ResourceId P) : M exit (vars S P * World) unit :=
  let! st := gets fst in
  handle length (on_session (read (length (v_buf st)))) (λ b,
    let! data := filled b in
    run! on_in_buf (run! Deque.write data in ret tt) in
    set_interest_of int_id read_write).

(** One event of the poller. *)
Definition handle_event (int_id ext_id : ResourceId P) (id : ResourceId P)
    (res : result IoFail IoType) : M exit (vars S P * World) unit :=
  let! ev := match res with
             | Ok ev => ret ev
             | Err (Connectivity _) => let! st := gets fst in fail (Ok (in_count st, out_count st))
             | Err (FailOs _) => fail (Err (error_from BrokenPipe))
             end in
  if bool_decide (id = int_id) then
    run! (if wants_write ev then write_int int_id else ret tt) in
    (if wants_read ev then read_int ext_id else ret tt)
  else if bool_decide (id = ext_id) then
    run! (if wants_write ev then write_ext ext_id else ret tt) in
    (if wants_read ev then read_ext int_id else ret tt)
  else ret tt.

(** [while let Some((id, res)) = poller.next()]. *)
Fixpoint events (fuel : nat) (int_id ext_id : ResourceId P) : M exit (vars S P * World) unit :=
  let! st := gets fst in
  let '(ev, p) := next (v_poller st) in
  run! update (set_poller p) in
  match ev with
  | None => ret tt
  | Some (id, res) =>
    match fuel with
    | 0 => no_return
    | Datatypes.S fuel =>
      run! handle_event int_id ext_id id res in
      events fuel int_id ext_id
    end
  end.

(** [poller.poll(Some(timeout))?]. *)
Definition wait_events (timeout : Duration) : M exit (vars S P * World) nat := λ st,
  let '(o, p) := poll (Some timeout) (v_poller st.1) st.2 in
  try_ (λ st, (o, st)) (set_poller p st.1, st.2).

(** The main loop, which is only left by a [return]. *)
Fixpoint main_loop (fuel : nat) (timeout : Duration) (int_id ext_id : ResourceId P) :
    M exit (vars S P * World) Empty_set :=
  match fuel with
  | 0 => no_return
  | Datatypes.S fuel =>
    let! count := wait_events timeout in
    if bool_decide (count = 0) then fail (Err (error_from TimedOut)) else
    run! events loop_fuel int_id ext_id in
    main_loop fuel timeout int_id ext_id
  end.

(** Registration of the two descriptors, and fresh variables. *)
Definition setup (poller : P) (stream : TcpStream) (session : S) :
    ResourceId P * ResourceId P * vars S P :=
  let '(int_id, poller) := register (fd stream) read_only poller in
  let '(ext_id, poller) := register (as_raw_fd (as_connection session)) read_only poller in
  (int_id, ext_id,
   mk_vars stream session poller Deque.new Deque.new 0%Z 0%Z (replicate READ_BUFFER_SIZE x00)).

(** The loop on these variables. *)
Definition relay (poller : P) (timeout : Duration) (stream : TcpStream) :
    M io_error (S * World) (Z * Z) := λ '(session, w),
  let '(int_id, ext_id, start) := setup poller stream session in
  match main_loop loop_fuel timeout int_id ext_id (start, w) with
  | (Ret (Ok never), (v, w)) => match never with end
  | (Ret (Err r), (v, w)) => (Ret r, (v_session v, w))
  | (Panic msg, (v, w)) => (Panic msg, (v_session v, w))
  | (NoReturn, (v, w)) => (NoReturn, (v_session v, w))
  end.

(** Code that drops an object however it ends. *)
Definition finally {E St A} (drop : St → St) (m : M E St A) : M E St A :=
  λ st, match m st with
        | (NoReturn, st') => (NoReturn, st')
        | (o, st') => (o, drop st')
        end.

Definition configure_pair (timeout : Duration) (stream : TcpStream) : M io_error (S * World) unit :=
  let os (m : M io_error World unit) : M io_error (S * World) unit := zoom snd (λ w st, (st.1, w)) m in
  run! os (Tcp.set_nonblocking true stream) in
  run! os (Tcp.set_read_timeout (Some timeout) stream) in
  run! os (Tcp.set_write_timeout (Some timeout) stream) in
  let! st := gets fst in
  let conn := as_connection st in
  run! os (set_nonblocking true conn) in
  run! os (set_read_timeout (Some timeout) conn) in
  os (set_write_timeout (Some timeout) conn).

Definition tunnel_once (poller : P) (timeout : Duration) : M io_error (Tunnel S * World) (Z * Z) :=
  let! self := gets fst in
  let l := tun_listener self in
  zoom (λ st, (tun_session st.1, st.2)) (λ x st, (mk_tunnel (tun_listener st.1) x.1, x.2)) (
    run! zoom snd (λ w st, (st.1, w)) (expect_ok (StdListener.local_addr l) "listener always has local addr") in
    let! accepted := zoom snd (λ w st, (st.1, w)) (StdListener.accept l) in
    let stream := accepted.1 in
    finally (λ st, (st.1, (Tcp.drop (E:=io_error) stream st.2).2)) (
      run! configure_pair timeout stream in
      relay poller timeout stream)).

(** [Tunnel::with]: a failure gives the session back. *)
Definition with_ {A} `{ToSocketAddrs A} (session : S) (addr : A) : M (S * io_error) World (Tunnel S) :=
  map_err (λ err, (session, err)) (
    let! l := StdListener.bind addr in
    ret (mk_tunnel l session)).

Definition local_addr (self : Tunnel S) : M io_error World SocketAddr :=
  StdListener.local_addr (tun_listener self).

(** [into_session] drops the listener. *)
Definition into_session (self : Tunnel S) (w : World) : S * World :=
  (tun_session self, (close (E:=io_error) (l_fd (tun_listener self)) w).2).

End operations.
End Tunnels.
