(* ===== verification/TunnelSpecs.v ===== *)
(** * Theorems about [src/tunnel.rs]

    The reference [copy] is the copying on two byte queues, driven by a list of
    events.  The loop of the tunnel, with its ring buffers, interests and
    counters, is shown to follow it on the events of the poller, and a ledger is
    kept: what each side was sent and what is still in the buffers is what the
    other side delivered.  Sockets are told apart by
    their numbers, so nothing is assumed of the descriptors beyond that the two
    sides of the tunnel are different sockets. *)

From S2P Require Import Prelude Std Kernel Connection ConnectionSpecs Listener Session SessionLaws Termination.
From S2P Require Import Cypher Descriptors Transport Accept Tunnel.

(** ** One call on one of two sockets *)

(** Two descriptors of different sockets. *)
Definition distinct (f g : RawFd) (w : World) : Prop :=
  ∃ i j, fds w !! f = Some i ∧ fds w !! g = Some j ∧ i ≠ j.

Lemma distinct_sym f g w : distinct f g w → distinct g f w.
Proof. intros (i & j & ? & ? & ?). by exists j, i. Qed.

(** How many bytes a socket has handed out or will hand out. *)
Definition rx_len (e : rx_event) : nat := match e with RxData b => length b | _ => 0 end.
Definition volume_socket (s : socket) : nat := length (sk_received s) + sum_list (map rx_len (sk_rx s)).
Definition volume (f : RawFd) (w : World) : nat :=
  match find f w with Some (_, s) => volume_socket s | None => 0 end.

Lemma on_socket_other {A} f g (h : socket → outcome (io_result A) * socket) w o w' :
  on_socket f h w = (o, w') → distinct f g w → find g w' = find g w ∧ fds w' = fds w.
Proof.
  intros Hr (i & j & Hi & Hj & Hne).
  apply on_socket_inv in Hr as [(_ & _ & ->)|(k & s & s' & Hf & _ & _ & ->)]; [done|].
  split; [|done]. unfold find in *. simpl. rewrite Hj, Hi in *.
  destruct (socks w !! i); [|done]. injection Hf as -> ->. by rewrite lookup_insert_ne.
Qed.

Lemma find_observers g w w' : find g w' = find g w →
  sent g w' = sent g w ∧ received g w' = received g w ∧ volume g w' = volume g w ∧
  getpeername g w' = getpeername g w.
Proof. intros Hf. unfold sent, received, volume, getpeername. by rewrite Hf. Qed.

(** The bytes a [recv] returned. *)
Definition got (o : outcome (io_result bytes)) : bytes := match o with Ret (Ok b) => b | _ => [] end.

Lemma is_empty_drop {A} n (b : list A) : is_empty (drop n b) = true → length b ≤ n.
Proof. rewrite is_empty_true. intros Hd. apply (f_equal length) in Hd. rewrite length_drop in Hd. simpl in Hd. lia. Qed.

Lemma recv_ledger f n w o w' : recv f n w = (o, w') →
  sent f w' = sent f w ∧ received f w' = received f w ++ got o ∧ volume f w' ≤ volume f w.
Proof.
  intros Hr. apply on_socket_inv in Hr as [(Hf & -> & ->)|(i & s & s' & Hf & Hs & Hf' & _)].
  { by rewrite app_nil_r. }
  unfold sent, received, volume. rewrite Hf, Hf'. destruct s; unfold recv_socket, wait in Hs; simpl in *.
  repeat (case_match; simplify_eq/=); unfold volume_socket; simpl; rewrite ?app_nil_r; split_and!; try done; try lia.
  all: try (match goal with He : is_empty (drop _ _) = true |- _ => apply is_empty_drop in He end).
  all: rewrite length_app, length_take, ?length_drop; lia.
Qed.

Definition put (b : bytes) (o : outcome (io_result nat)) : bytes :=
  match o with Ret (Ok k) => take k b | _ => [] end.

Lemma send_ledger f b w o w' : send f b w = (o, w') →
  sent f w' = sent f w ++ put b o ∧ received f w' = received f w ∧ volume f w' = volume f w.
Proof.
  intros Hr. apply on_socket_inv in Hr as [(Hf & -> & ->)|(i & s & s' & Hf & Hs & Hf' & _)].
  { by rewrite app_nil_r. }
  unfold sent, received, volume. rewrite Hf, Hf'. destruct s; unfold send_socket, wait in Hs; simpl in *.
  repeat (case_match; simplify_eq/=); rewrite ?app_nil_r; split_and!; try done. by rewrite take_ge.
Qed.

Lemma received_volume f w : length (received f w) ≤ volume f w.
Proof. unfold received, volume, volume_socket. destruct (find f w) as [[]|]; simpl; lia. Qed.

(** ** The reference: two queues between two sockets *)

(** What has been read from one side and not yet written to the other, what has
    been written to the local and to the remote side, and the kernel. *)
Record flow : Type := mk_flow {
  inq : bytes;
  outq : bytes;
  inward : bytes;
  outward : bytes;
  fl_world : World
}.

(** The copying goes on, is over with a result, or hangs in a system call. *)
Inductive status : Type := Going | Done (r : io_result unit) | Hung.

(** A write event: the socket is offered the whole queue, and what it took leaves
    the queue.  Nothing taken, or an error, ends the copying. *)
Definition forward_in (f : RawFd) (x : flow) : status * flow :=
  let same := mk_flow (inq x) (outq x) (inward x) (outward x) in
  match send f (inq x) (fl_world x) with
  | (Ret (Ok 0), w) => (Done (Ok tt), same w)
  | (Ret (Ok k), w) => (Going, mk_flow (drop k (inq x)) (outq x) (inward x ++ take k (inq x)) (outward x) w)
  | (Ret (Err e), w) => (Done (Err e), same w)
  | (_, w) => (Hung, same w)
  end.
Definition forward_out (g : RawFd) (x : flow) : status * flow :=
  let same := mk_flow (inq x) (outq x) (inward x) (outward x) in
  match send g (outq x) (fl_world x) with
  | (Ret (Ok 0), w) => (Done (Ok tt), same w)
  | (Ret (Ok k), w) => (Going, mk_flow (inq x) (drop k (outq x)) (inward x) (outward x ++ take k (outq x)) w)
  | (Ret (Err e), w) => (Done (Err e), same w)
  | (_, w) => (Hung, same w)
  end.

(** A read event: what the socket delivers joins the queue to the other side.
    The end of the stream, or an error, ends the copying. *)
Definition fetch_out (f : RawFd) (x : flow) : status * flow :=
  let same := mk_flow (inq x) (outq x) (inward x) (outward x) in
  match recv f READ_BUFFER_SIZE (fl_world x) with
  | (Ret (Ok []), w) => (Done (Ok tt), same w)
  | (Ret (Ok b), w) => (Going, mk_flow (inq x) (outq x ++ b) (inward x) (outward x) w)
  | (Ret (Err e), w) => (Done (Err e), same w)
  | (_, w) => (Hung, same w)
  end.
Definition fetch_in (g : RawFd) (x : flow) : status * flow :=
  let same := mk_flow (inq x) (outq x) (inward x) (outward x) in
  match recv g READ_BUFFER_SIZE (fl_world x) with
  | (Ret (Ok []), w) => (Done (Ok tt), same w)
  | (Ret (Ok b), w) => (Going, mk_flow (inq x ++ b) (outq x) (inward x) (outward x) w)
  | (Ret (Err e), w) => (Done (Err e), same w)
  | (_, w) => (Hung, same w)
  end.

(** One step after another, as long as the copying goes on. *)
Definition after (p : status * flow) (k : flow → status * flow) : status * flow :=
  match p with (Going, x) => k x | other => other end.

Definition when (c : bool) (k : flow → status * flow) (x : flow) : status * flow :=
  if c then k x else (Going, x).

(** An event is a resource and what became of it; the local side is [f] and has
    the identifier [int_id], the remote side is [g] and has [ext_id]. *)
Definition copy_event `{IoTypeApi} {Id : Type} `{EqDecision Id} (f g : RawFd) (int_id ext_id : Id)
    (e : Id * result IoFail IoType) (x : flow) : status * flow :=
  match e.2 with
  | Ok ev =>
      if bool_decide (e.1 = int_id) then
        after (when (wants_write ev) (forward_in f) x) (when (wants_read ev) (fetch_out f))
      else if bool_decide (e.1 = ext_id) then
        after (when (wants_write ev) (forward_out g) x) (when (wants_read ev) (fetch_in g))
      else (Going, x)
  | Err (Connectivity _) => (Done (Ok tt), x)
  | Err (FailOs _) => (Done (Err (error_from BrokenPipe)), x)
  end.

Fixpoint copy `{IoTypeApi} {Id : Type} `{EqDecision Id} (f g : RawFd) (int_id ext_id : Id)
    (evs : list (Id * result IoFail IoType)) (x : flow) : status * flow :=
  match evs with
  | [] => (Going, x)
  | e :: evs => after (copy_event f g int_id ext_id e x) (copy f g int_id ext_id evs)
  end.

Lemma copy_app `{IoTypeApi} {Id : Type} `{EqDecision Id} f g (int_id ext_id : Id) evs1 evs2 x :
  copy f g int_id ext_id (evs1 ++ evs2) x = after (copy f g int_id ext_id evs1 x) (copy f g int_id ext_id evs2).
Proof.
  revert x. induction evs1 as [|e evs1 IH]; intros x; [done|]. simpl.
  destruct (copy_event _ _ _ _ e x) as [[] y]; simpl; [apply IH|done..].
Qed.

(** What a poller has handed out so far, in a relation that [next] extends and
    no other operation changes. *)
Class PollHistory `{IoTypeApi} (P : Type) `{!PollApi P}
    (happened : P → list (ResourceId P * result IoFail IoType) → Prop) : Prop := {
  history_register f t p l : happened p l → happened (register f t p).2 l;
  history_interest id t p l : happened p l → happened (set_interest id t p) l;
  history_poll t p w l : happened p l → happened (poll t p w).2 l;
  history_next p l : happened p l →
    happened (next p).2 (l ++ match (next p).1 with Some e => [e] | None => [] end)
}.

(** A poller whose history can be read. *)
Class ObservedPoll `{IoTypeApi} (P : Type) `{!PollApi P} := {
  seen : P → list (ResourceId P * result IoFail IoType);
  seen_register f t p : seen (register f t p).2 = seen p;
  seen_interest id t p : seen (set_interest id t p) = seen p;
  seen_poll t p w : seen (poll t p w).2 = seen p;
  seen_next p : seen (next p).2 = seen p ++ match (next p).1 with Some e => [e] | None => [] end
}.

(** Every poller can be equipped with a log. *)
Record logged `{IoTypeApi} (P : Type) `{!PollApi P} : Type := mk_logged {
  under : P;
  log_of : list (ResourceId P * result IoFail IoType)
}.
Arguments mk_logged {_ P _} _ _.
Arguments under {_ P _} _.
Arguments log_of {_ P _} _.

#[export] Instance logged_poll `{IoTypeApi} (P : Type) `{!PollApi P} : PollApi (logged P) := {|
  ResourceId := ResourceId P;
  register f t p := let '(id, q) := register f t (under p) in (id, mk_logged q (log_of p));
  set_interest id t p := mk_logged (set_interest id t (under p)) (log_of p);
  poll t p w := let '(o, q) := poll t (under p) w in (o, mk_logged q (log_of p));
  next p := let '(e, q) := next (under p) in
            (e, mk_logged q (log_of p ++ match e with Some e => [e] | None => [] end))
|}.

#[export] Instance logged_observed `{IoTypeApi} (P : Type) `{!PollApi P} : ObservedPoll (logged P).
Proof.
  refine (Build_ObservedPoll _ (logged P) (logged_poll P) log_of _ _ _ _).
  - intros f t p. simpl. by destruct (register f t (under p)).
  - done.
  - intros t p w. simpl. by destruct (poll t (under p) w).
  - intros p. simpl. by destruct (next (under p)).
Defined.

Definition observed `{IoTypeApi} {P : Type} `{!PollApi P} `{!ObservedPoll P} (p : P)
    (l : list (ResourceId P * result IoFail IoType)) : Prop := seen p = l.

#[export] Instance observed_history `{IoTypeApi} (P : Type) `{!PollApi P} `{!ObservedPoll P} :
  PollHistory P observed.
Proof.
  split.
  - intros f t p l <-. apply seen_register.
  - intros id t p l <-. apply seen_interest.
  - intros t p w l <-. apply seen_poll.
  - intros p l <-. apply seen_next.
Qed.

(** No history is kept. *)
#[export] Instance no_history `{IoTypeApi} (P : Type) `{!PollApi P} : PollHistory P (λ _ _, True).
Proof. done. Qed.

(** ** The ledger *)

Section ledger.
Context `{BuildProfile} `{Fuel} `{Deque.Layout} `{IoTypeApi} {S P : Type} `{NetSession S} `{!PollApi P}
  `{!DirectSession S}.
Context (happened : P → list (ResourceId P * result IoFail IoType) → Prop) `{!PollHistory P happened}.

(** The two sides of the tunnel and what had passed through their sockets when
    the copying began. *)
Context (stream : TcpStream) (session : S) (table : gmap RawFd nat) (si ri se re : bytes).
Let f := fd stream.
Let g := direct_fd session.

(** [a] has been copied to the local side and [b] to the remote side; what is
    in the buffers has been read and not yet written; the counters count. *)
Record ledger (v : vars S P) (w : World) (a b : bytes) : Prop := mk_ledger {
  lg_stream : v_stream v = stream;
  lg_session : v_session v = session;
  lg_buf : length (v_buf v) = READ_BUFFER_SIZE;
  lg_fds : fds w = table;
  lg_sent_int : sent f w = si ++ a;
  lg_read_ext : received g w = re ++ a ++ vd_content (in_buf v);
  lg_sent_ext : sent g w = se ++ b;
  lg_read_int : received f w = ri ++ b ++ vd_content (out_buf v);
  lg_in : in_count v = Z.of_nat (length a);
  lg_out : out_count v = Z.of_nat (length b);
  lg_vol_int : (Z.of_nat (volume f w) < usize_modulus)%Z;
  lg_vol_ext : (Z.of_nat (volume g w) < usize_modulus)%Z
}.

(** The variables as a state of the reference. *)
Definition flow_of (v : vars S P) (w : World) (a b : bytes) : flow :=
  mk_flow (vd_content (in_buf v)) (vd_content (out_buf v)) a b w.

Definition status_of {A} (r : result Tunnels.exit A) : status :=
  match r with Ok _ => Going | Err (Ok _) => Done (Ok tt) | Err (Err e) => Done (Err e) end.

(** What holds when code of the body ends: the ledger, in the state [ref] of the
    reference, with the history [log] of the poller; and the code was either left
    with the current counters or an error, or goes on with an established
    session. *)
Definition settled {A} (log : list (ResourceId P * result IoFail IoType)) (ref : status * flow)
    (r : result Tunnels.exit A) (st : vars S P * World) : Prop :=
  ∃ a b, ledger st.1 st.2 a b ∧ happened (v_poller st.1) log ∧
    ref = (status_of r, flow_of st.1 st.2 a b) ∧
    match r with
    | Ok _ => is_established session st.2 = true
    | Err (Ok n) => n = (Z.of_nat (length a), Z.of_nat (length b))
    | Err (Err _) => True
    end.

Context (Hdistinct : ∀ w, fds w = table → distinct f g w).

(** Changes of the poller and the scratch buffer do not matter. *)
Lemma ledger_poller v w a b p : ledger v w a b → ledger (Tunnels.set_poller p v) w a b.
Proof. by intros []. Qed.

Lemma ledger_buf v w a b x :
  length x = READ_BUFFER_SIZE → ledger v w a b → ledger (Tunnels.set_buf x v) w a b.
Proof. by intros ? []. Qed.

(** *** The four system calls *)

Lemma ledger_recv_int n v w a b o w' :
  ledger v w a b → is_established session w = true → recv f n w = (o, w') →
  is_established session w' = true ∧ (∀ d, vd_content d = vd_content (out_buf v) ++ got o →
    ledger (mk_vars (v_stream v) (v_session v) (v_poller v) (in_buf v) d (in_count v) (out_count v) (v_buf v)) w' a b).
Proof.
  intros [] He Hr. pose proof (Hdistinct w lg_fds0) as Hd.
  destruct (on_socket_other _ g _ _ _ _ Hr Hd) as [Hfg Hfds].
  apply find_observers in Hfg as (Hs & Hrc & Hv & Hp). apply recv_ledger in Hr as (Hs' & Hr' & Hv').
  split; [by rewrite (direct_peer _ _ _ Hp)|]. intros d Hc. split; simpl; try done; try congruence.
  - rewrite Hr', lg_read_int0, Hc, <-!app_assoc. done.
  - lia.
Qed.

Lemma ledger_recv_ext n v w a b o w' :
  ledger v w a b → is_established session w = true → recv g n w = (o, w') →
  (is_empty (got o) = false → is_established session w' = true) ∧
  (∀ d, vd_content d = vd_content (in_buf v) ++ got o →
    ledger (mk_vars (v_stream v) (v_session v) (v_poller v) d (out_buf v) (in_count v) (out_count v) (v_buf v)) w' a b).
Proof.
  intros [] He Hr. pose proof (distinct_sym _ _ _ (Hdistinct w lg_fds0)) as Hd.
  destruct (on_socket_other _ f _ _ _ _ Hr Hd) as [Hfg Hfds].
  apply find_observers in Hfg as (Hs & Hrc & Hv & Hp).
  split.
  { intros Hg. destruct o as [[x|e]| |]; [|done..]. apply recv_ok in Hr as (_ & Hp' & _).
    by rewrite (direct_peer _ _ _ Hp'). }
  apply recv_ledger in Hr as (Hs' & Hr' & Hv').
  intros d Hc. split; simpl; try done; try congruence.
  - rewrite Hr', lg_read_ext0, Hc, <-!app_assoc. done.
  - lia.
Qed.

Lemma ledger_send_int v w a b o w' :
  ledger v w a b → is_established session w = true → send f (vd_content (in_buf v)) w = (o, w') →
  let x := put (vd_content (in_buf v)) o in
  is_established session w' = true ∧ (∀ d, vd_content (in_buf v) = x ++ vd_content d →
    ledger (mk_vars (v_stream v) (v_session v) (v_poller v) d (out_buf v)
      (in_count v + Z.of_nat (length x)) (out_count v) (v_buf v)) w' (a ++ x) b).
Proof.
  intros [] He Hr x. pose proof (Hdistinct w lg_fds0) as Hd.
  destruct (on_socket_other _ g _ _ _ _ Hr Hd) as [Hfg Hfds].
  apply find_observers in Hfg as (Hs & Hrc & Hv & Hp). apply send_ledger in Hr as (Hs' & Hr' & Hv').
  split; [by rewrite (direct_peer _ _ _ Hp)|]. intros d Hc. split; simpl; try done; try congruence.
  - by rewrite Hs', lg_sent_int0, <-app_assoc.
  - rewrite Hrc, lg_read_ext0, Hc. by rewrite <-!app_assoc.
  - rewrite lg_in0, length_app. lia.
Qed.

Lemma ledger_send_ext v w a b o w' :
  ledger v w a b → is_established session w = true → send g (vd_content (out_buf v)) w = (o, w') →
  let x := put (vd_content (out_buf v)) o in
  is_established session w' = true ∧ (∀ d, vd_content (out_buf v) = x ++ vd_content d →
    ledger (mk_vars (v_stream v) (v_session v) (v_poller v) (in_buf v) d
      (in_count v) (out_count v + Z.of_nat (length x)) (v_buf v)) w' a (b ++ x)).
Proof.
  intros [] He Hr x. pose proof (distinct_sym _ _ _ (Hdistinct w lg_fds0)) as Hd.
  destruct (on_socket_other _ f _ _ _ _ Hr Hd) as [Hfg Hfds].
  pose proof (send_keeps_peer _ _ _ _ _ Hr) as Hp'.
  apply find_observers in Hfg as (Hs & Hrc & Hv & Hp). apply send_ledger in Hr as (Hs' & Hr' & Hv').
  split; [by rewrite (direct_peer _ _ _ Hp')|]. intros d Hc. split; simpl; try done; try congruence.
  - by rewrite Hs', lg_sent_ext0, <-app_assoc.
  - rewrite Hrc, lg_read_int0, Hc. by rewrite <-!app_assoc.
  - rewrite lg_out0, length_app. lia.
Qed.

(** *** The body of the loop *)

Lemma wp_handle {A} (len : A → nat) call body (Q : result Tunnels.exit unit → vars S P * World → Prop) st :
  wp call (λ r st', match r with
    | Ok x => if bool_decide (len x = 0) then Q (Err (Ok (in_count st'.1, out_count st'.1))) st'
              else wp (body x) Q st'
    | Err e => Q (Err (Err e)) st'
    end) st →
  wp (Tunnels.handle len call body) Q st.
Proof.
  intros Hc. unfold Tunnels.handle. do 2 wp_step. eapply wp_mono; [exact Hc|]. clear Hc.
  intros [x|e] st' Hx; cbv beta iota in *; [|by wp_step]. destruct (bool_decide _); [by do 3 wp_step|done].
Qed.

Lemma wp_stream_write x (v : vars S P) w (Q : result io_error nat → vars S P * World → Prop) :
  (∀ r w', send (fd (v_stream v)) x w = (Ret r, w') →
     Q r (v, w')) →
  wp (Tunnels.on_stream (write x)) Q (v, w).
Proof.
  intros HQ. destruct v. unfold Tunnels.on_stream. wp_step. unfold wp. simpl. unfold on_world. simpl.
  destruct (send _ x w) as [[r|msg|] w'] eqn:Hr; [by apply HQ|by apply send_no_panic in Hr|done].
Qed.

Lemma wp_stream_read n (v : vars S P) w (Q : result io_error bytes → vars S P * World → Prop) :
  (∀ r w', recv (fd (v_stream v)) n w = (Ret r, w') →
     Q r (v, w')) →
  wp (Tunnels.on_stream (read n)) Q (v, w).
Proof.
  intros HQ. destruct v. unfold Tunnels.on_stream. wp_step. unfold wp. simpl. unfold on_world. simpl.
  destruct (recv _ n w) as [[r|msg|] w'] eqn:Hr; [by apply HQ|by apply recv_no_panic in Hr|done].
Qed.

Lemma wp_session_write x (v : vars S P) w (Q : result io_error nat → vars S P * World → Prop) :
  is_established (v_session v) w = true →
  (∀ r w', send (direct_fd (v_session v)) x w = (Ret r, w') →
     Q r (v, w')) →
  wp (Tunnels.on_session (write x)) Q (v, w).
Proof.
  intros He HQ. destruct v. unfold Tunnels.on_session. wp_step. unfold wp. rewrite direct_write by done.
  destruct (send _ x w) as [[r|msg|] w'] eqn:Hr; [by apply HQ|by apply send_no_panic in Hr|done].
Qed.

Lemma wp_session_read n (v : vars S P) w (Q : result io_error bytes → vars S P * World → Prop) :
  is_established (v_session v) w = true →
  (∀ r w', recv (direct_fd (v_session v)) n w = (Ret r, w') →
     Q r (v, w')) →
  wp (Tunnels.on_session (read n)) Q (v, w).
Proof.
  intros He HQ. destruct v. unfold Tunnels.on_session. wp_step. unfold wp. rewrite direct_read by done.
  destruct (recv _ n w) as [[r|msg|] w'] eqn:Hr; [by apply HQ|by apply recv_no_panic in Hr|done].
Qed.

(** A buffer from which [k] bytes are drained. *)
Lemma drained {E} k d : k ≤ Deque.len d →
  ∃ d', Deque.drain_to (E:=E) k d = (Ret (Ok (take k (vd_content d))), d') ∧
    vd_content d = take k (vd_content d) ++ vd_content d' ∧ vd_content d' = drop k (vd_content d).
Proof.
  intros Hk. destruct (Deque.drain_to_ok (E:=E) k d Hk) as (x & -> & _). eexists. split; [done|].
  simpl. by rewrite take_drop.
Qed.

Lemma count_fits v w a b : ledger v w a b →
  (Z.of_nat (length a) < usize_modulus)%Z ∧ (Z.of_nat (length b) < usize_modulus)%Z.
Proof.
  intros []. pose proof (received_volume f w) as Hf. pose proof (received_volume g w) as Hg.
  rewrite lg_read_int0, !length_app in Hf. rewrite lg_read_ext0, !length_app in Hg. lia.
Qed.

Lemma settled_exit {A} log ref v w a b : ledger v w a b → happened (v_poller v) log →
  ref = (Done (Ok tt), flow_of v w a b) →
  settled (A:=A) log ref (Err (Ok (in_count v, out_count v))) (v, w).
Proof. intros Hl Hlog ->. exists a, b. split_and!; [done..|]. destruct Hl. simpl. congruence. Qed.

Lemma settled_error {A} log ref v w a b e : ledger v w a b → happened (v_poller v) log →
  ref = (Done (Err e), flow_of v w a b) → settled (A:=A) log ref (Err (Err e)) (v, w).
Proof. intros Hl Hlog ->. by exists a, b. Qed.

Lemma settled_on {A} log ref v w a b (x : A) : ledger v w a b → happened (v_poller v) log →
  is_established session w = true → ref = (Going, flow_of v w a b) → settled log ref (Ok x) (v, w).
Proof. intros Hl Hlog He ->. by exists a, b. Qed.

Lemma wp_interest log ref id t v w a b :
  ledger v w a b → happened (v_poller v) log → is_established session w = true →
  ref = (Going, flow_of v w a b) → wp (Tunnels.set_interest_of id t) (settled log ref) (v, w).
Proof.
  intros Hl Hlog He Href. unfold Tunnels.set_interest_of, Tunnels.update. wp_step.
  eapply settled_on; [apply ledger_poller, Hl| |done|done]. by apply history_interest.
Qed.

Lemma ledger_contiguous_in v w a b : ledger v w a b →
  ledger (mk_vars (v_stream v) (v_session v) (v_poller v) (Deque.make_contiguous (in_buf v)) (out_buf v)
    (in_count v) (out_count v) (v_buf v)) w a b.
Proof. by intros []. Qed.

Lemma ledger_contiguous_out v w a b : ledger v w a b →
  ledger (mk_vars (v_stream v) (v_session v) (v_poller v) (in_buf v) (Deque.make_contiguous (out_buf v))
    (in_count v) (out_count v) (v_buf v)) w a b.
Proof. by intros []. Qed.

Lemma wp_stream_flush (v : vars S P) w (Q : result Tunnels.exit unit → vars S P * World → Prop) :
  Q (Ok tt) (v, w) → wp (Tunnels.try_ (Tunnels.on_stream flush)) Q (v, w).
Proof. intros HQ. by destruct v. Qed.

Lemma wp_session_flush (v : vars S P) w (Q : result Tunnels.exit unit → vars S P * World → Prop) :
  Q (Ok tt) (v, w) → wp (Tunnels.try_ (Tunnels.on_session flush)) Q (v, w).
Proof.
  intros HQ. destruct v. unfold Tunnels.try_. wp_step. unfold Tunnels.on_session. wp_step.
  unfold wp. by rewrite direct_flush.
Qed.

Lemma write_int_wp log id v w a b :
  ledger v w a b → happened (v_poller v) log → is_established session w = true →
  wp (Tunnels.write_int id) (settled log (forward_in f (flow_of v w a b))) (v, w).
Proof.
  intros Hl Hlog He. unfold Tunnels.write_int. wp_step. unfold Tunnels.on_in_buf at 1. do 2 wp_step.
  do 2 wp_step. apply ledger_contiguous_in in Hl. set (v1 := mk_vars _ _ _ _ _ _ _ _) in *.
  replace (forward_in f (flow_of v w a b)) with (forward_in f (flow_of v1 w a b)) by done.
  apply wp_handle, wp_stream_write. intros r w' Hs.
  rewrite (lg_stream _ _ _ _ Hl) in Hs. change (send f (vd_content (in_buf v1)) w = (Ret r, w')) in Hs.
  unfold forward_in. cbn [inq outq inward outward fl_world flow_of]. rewrite Hs.
  destruct (ledger_send_int _ _ _ _ _ _ Hl He Hs) as [He' Hl']. destruct r as [k|e].
  - pose proof (send_ok _ _ _ _ _ Hs) as (Hk & _). simpl in Hl'. case_bool_decide as Hz.
    + simpl in Hz. subst k. specialize (Hl' (in_buf v1) eq_refl). simpl in Hl'.
      rewrite Z.add_0_r, app_nil_r in Hl'. by eapply settled_exit.
    + destruct k as [|k]; [done|]. set (n := Datatypes.S k) in *.
      wp_step. apply wp_stream_flush. wp_step. unfold Tunnels.on_in_buf. wp_step. unfold wp at 1.
      destruct (drained (E:=Tunnels.exit) n (in_buf v1) Hk) as (d' & -> & Hd & Hrest). cbv beta iota.
      do 2 wp_step. specialize (Hl' d' Hd). rewrite length_take, Nat.min_l in Hl' by done.
      wp_step. unfold wp at 1. rewrite usize_add_small.
      2: { pose proof (count_fits _ _ _ _ Hl') as [Hc _]. pose proof (lg_in _ _ _ _ Hl') as Hi. simpl in *. lia. }
      wp_step. unfold Tunnels.update. wp_step. simpl.
      destruct (is_empty _); [eapply wp_interest|eapply settled_on]; try exact Hl'; try done;
        unfold flow_of; simpl; by rewrite Hrest.
  - specialize (Hl' (in_buf v1) eq_refl). simpl in Hl'.
    rewrite Z.add_0_r, app_nil_r in Hl'. by eapply settled_error.
Qed.

Lemma write_ext_wp log id v w a b :
  ledger v w a b → happened (v_poller v) log → is_established session w = true →
  wp (Tunnels.write_ext id) (settled log (forward_out g (flow_of v w a b))) (v, w).
Proof.
  intros Hl Hlog He. unfold Tunnels.write_ext. wp_step. unfold Tunnels.on_out_buf at 1. do 2 wp_step.
  do 2 wp_step. apply ledger_contiguous_out in Hl. set (v1 := mk_vars _ _ _ _ _ _ _ _) in *.
  replace (forward_out g (flow_of v w a b)) with (forward_out g (flow_of v1 w a b)) by done.
  apply wp_handle, wp_session_write; [by rewrite (lg_session _ _ _ _ Hl)|]. intros r w' Hs.
  rewrite (lg_session _ _ _ _ Hl) in Hs. change (send g (vd_content (out_buf v1)) w = (Ret r, w')) in Hs.
  unfold forward_out. cbn [inq outq inward outward fl_world flow_of]. rewrite Hs.
  destruct (ledger_send_ext _ _ _ _ _ _ Hl He Hs) as [He' Hl']. destruct r as [k|e].
  - pose proof (send_ok _ _ _ _ _ Hs) as (Hk & _). simpl in Hl'. case_bool_decide as Hz.
    + simpl in Hz. subst k. specialize (Hl' (out_buf v1) eq_refl). simpl in Hl'.
      rewrite Z.add_0_r, app_nil_r in Hl'. by eapply settled_exit.
    + destruct k as [|k]; [done|]. set (n := Datatypes.S k) in *.
      wp_step. apply wp_session_flush. wp_step. unfold Tunnels.on_out_buf. wp_step. unfold wp at 1.
      destruct (drained (E:=Tunnels.exit) n (out_buf v1) Hk) as (d' & -> & Hd & Hrest). cbv beta iota.
      do 2 wp_step. specialize (Hl' d' Hd). rewrite length_take, Nat.min_l in Hl' by done.
      wp_step. unfold wp at 1. rewrite usize_add_small.
      2: { pose proof (count_fits _ _ _ _ Hl') as [_ Hc]. pose proof (lg_out _ _ _ _ Hl') as Hi. simpl in *. lia. }
      wp_step. unfold Tunnels.update. wp_step. simpl.
      destruct (is_empty _); [eapply wp_interest|eapply settled_on]; try exact Hl'; try done;
        unfold flow_of; simpl; by rewrite Hrest.
  - specialize (Hl' (out_buf v1) eq_refl). simpl in Hl'.
    rewrite Z.add_0_r, app_nil_r in Hl'. by eapply settled_error.
Qed.

(** The bytes just read, through the shared buffer. *)
Lemma wp_filled x v w (Q : result Tunnels.exit bytes → vars S P * World → Prop) :
  length (v_buf v) = READ_BUFFER_SIZE → length x ≤ length (v_buf v) →
  (∀ y, length y = READ_BUFFER_SIZE → Q (Ok x) (Tunnels.set_buf y v, w)) → wp (Tunnels.filled x) Q (v, w).
Proof.
  intros Hl Hx HQ. unfold Tunnels.filled, Tunnels.update. do 4 wp_step. simpl. unfold slice_to.
  rewrite (proj2 (Nat.leb_le _ _)) by (rewrite length_app; lia). rewrite take_app_length. wp_step.
  apply HQ. rewrite length_app, length_drop. lia.
Qed.

Lemma read_int_wp log id v w a b :
  ledger v w a b → happened (v_poller v) log → is_established session w = true →
  wp (Tunnels.read_int id) (settled log (fetch_out f (flow_of v w a b))) (v, w).
Proof.
  intros Hl Hlog He. unfold Tunnels.read_int. do 2 wp_step. apply wp_handle, wp_stream_read.
  intros r w' Hr. rewrite (lg_stream _ _ _ _ Hl) in Hr. cbn [fst] in Hr.
  pose proof Hr as Href. rewrite (lg_buf _ _ _ _ Hl) in Href.
  change (recv f READ_BUFFER_SIZE (fl_world (flow_of v w a b)) = (Ret r, w')) in Href.
  unfold fetch_out. rewrite Href. cbn [inq outq inward outward flow_of].
  destruct (ledger_recv_int _ _ _ _ _ _ _ Hl He Hr) as [He' Hl'].
  assert (Hv : got (Ret r) = [] → ledger v w' a b).
  { intros Hg. destruct v. apply Hl'. by rewrite Hg, app_nil_r. }
  destruct r as [x|e]; [|by eapply settled_error; [apply Hv|..]]. case_bool_decide as Hz.
  - apply nil_length_inv in Hz as ->. by eapply settled_exit; [apply Hv|..].
  - apply recv_ok in Hr as [Hx _]. wp_step. apply wp_filled; [by destruct Hl|done|]. intros y Hy.
    unfold Tunnels.on_out_buf. do 2 wp_step. unfold wp at 1. cbn -[Tunnels.set_interest_of].
    eapply wp_interest; [exact (ledger_buf _ _ _ _ y Hy (Hl' (Deque.extend (out_buf v) x) eq_refl))|done|done|].
    by destruct x.
Qed.

Lemma read_ext_wp log id v w a b :
  ledger v w a b → happened (v_poller v) log → is_established session w = true →
  wp (Tunnels.read_ext id) (settled log (fetch_in g (flow_of v w a b))) (v, w).
Proof.
  intros Hl Hlog He. unfold Tunnels.read_ext. do 2 wp_step. apply wp_handle, wp_session_read;
    [by rewrite (lg_session _ _ _ _ Hl)|].
  intros r w' Hr. rewrite (lg_session _ _ _ _ Hl) in Hr. cbn [fst] in Hr.
  pose proof Hr as Href. rewrite (lg_buf _ _ _ _ Hl) in Href.
  change (recv g READ_BUFFER_SIZE (fl_world (flow_of v w a b)) = (Ret r, w')) in Href.
  unfold fetch_in. rewrite Href. cbn [inq outq inward outward flow_of].
  destruct (ledger_recv_ext _ _ _ _ _ _ _ Hl He Hr) as [He' Hl'].
  assert (Hv : got (Ret r) = [] → ledger v w' a b).
  { intros Hg. destruct v. apply Hl'. by rewrite Hg, app_nil_r. }
  destruct r as [x|e]; [|by eapply settled_error; [apply Hv|..]]. case_bool_decide as Hz.
  - apply nil_length_inv in Hz as ->. by eapply settled_exit; [apply Hv|..].
  - apply recv_ok in Hr as [Hx _]. wp_step. apply wp_filled; [by destruct Hl|done|]. intros y Hy.
    unfold Tunnels.on_in_buf. do 2 wp_step. unfold wp at 1. cbn -[Tunnels.set_interest_of].
    eapply wp_interest; [exact (ledger_buf _ _ _ _ y Hy (Hl' (Deque.extend (in_buf v) x) eq_refl))|done|apply He'; by destruct x|].
    by destruct x.
Qed.

(** Code of the body that keeps the ledger and follows a step of the reference. *)
Definition follows (m : M Tunnels.exit (vars S P * World) unit) (step : flow → status * flow) : Prop :=
  ∀ log v w a b, ledger v w a b → happened (v_poller v) log → is_established session w = true →
    wp m (settled log (step (flow_of v w a b))) (v, w).

(** Two steps in a row. *)
Lemma follows_seq m1 m2 step1 step2 :
  follows m1 step1 → follows m2 step2 → follows (run! m1 in m2) (λ x, after (step1 x) step2).
Proof.
  intros Hm1 Hm2 log v w a b Hl Hlog He. wp_step. eapply wp_mono; [by eapply Hm1|].
  intros r [v' w'] (a' & b' & Hl' & Hlog' & -> & Hr). destruct r as [[]|e]; simpl in *.
  - by eapply Hm2.
  - exists a', b'. by destruct e.
Qed.

Lemma follows_if (c : bool) m step : follows m step → follows (if c then m else ret tt) (when c step).
Proof.
  intros Hm log v w a b Hl Hlog He. destruct c; [by eapply Hm|]. wp_step. by eapply settled_on.
Qed.

Lemma handle_event_follows int_id ext_id id res :
  follows (Tunnels.handle_event int_id ext_id id res) (copy_event f g int_id ext_id (id, res)).
Proof.
  intros log v w a b Hl Hlog He. unfold Tunnels.handle_event, copy_event. simpl. wp_step.
  destruct res as [ev|[c|c]].
  - wp_step. case_bool_decide; [|case_bool_decide].
    + revert log v w a b Hl Hlog He. change (follows (run! (if wants_write ev then Tunnels.write_int int_id else ret tt) in
        (if wants_read ev then Tunnels.read_int ext_id else ret tt))
        (λ x, after (when (wants_write ev) (forward_in f) x) (when (wants_read ev) (fetch_out f)))).
      apply follows_seq; apply follows_if; intros log v w a b Hl Hlog He;
        [by apply write_int_wp|by apply read_int_wp].
    + revert log v w a b Hl Hlog He. change (follows (run! (if wants_write ev then Tunnels.write_ext ext_id else ret tt) in
        (if wants_read ev then Tunnels.read_ext int_id else ret tt))
        (λ x, after (when (wants_write ev) (forward_out g) x) (when (wants_read ev) (fetch_in g)))).
      apply follows_seq; apply follows_if; intros log v w a b Hl Hlog He;
        [by apply write_ext_wp|by apply read_ext_wp].
    + wp_step. by eapply settled_on.
  - do 3 wp_step. by eapply settled_exit.
  - wp_step. by eapply settled_error.
Qed.

(** The same for a loop: the reference has made the steps for the events that
    the poller has handed out meanwhile. *)
Definition settled_after {A} int_id ext_id log (x : flow) (r : result Tunnels.exit A)
    (st : vars S P * World) : Prop :=
  ∃ evs, settled (log ++ evs) (copy f g int_id ext_id evs x) r st.

Lemma settled_after_more {A} int_id ext_id evs log x y (r : result Tunnels.exit A) st :
  copy f g int_id ext_id evs x = (Going, y) →
  settled_after int_id ext_id (log ++ evs) y r st → settled_after int_id ext_id log x r st.
Proof.
  intros Hc (evs' & Hs). exists (evs ++ evs'). rewrite app_assoc, copy_app, Hc. exact Hs.
Qed.

Lemma settled_left {A} log ref e st :
  settled (A:=unit) log ref (Err e) st → settled (A:=A) log ref (Err e) st.
Proof. intros (a & b & ? & ? & ? & ?). by exists a, b. Qed.

Lemma events_wp fuel int_id ext_id log v w a b :
  ledger v w a b → happened (v_poller v) log → is_established session w = true →
  wp (Tunnels.events fuel int_id ext_id) (settled_after int_id ext_id log (flow_of v w a b)) (v, w).
Proof.
  revert log v w a b. induction fuel as [|fuel IH]; intros log v w a b Hl Hlog He; cbn [Tunnels.events];
    do 2 wp_step; pose proof (history_next (v_poller v) log Hlog) as Hn; destruct (next (v_poller v)) as [ev p];
    unfold Tunnels.update; do 2 wp_step; apply (ledger_poller _ _ _ _ p) in Hl; simpl in Hn;
    destruct ev as [[id res]|]; try done;
    try (wp_step; exists []; eapply settled_on; [exact Hl|done|done|done]).
  wp_step. eapply wp_mono; [by eapply handle_event_follows|].
  intros r [v' w'] Hs. destruct r as [[]|e].
  - destruct Hs as (a' & b' & Hl' & Hlog' & Hc & He'). eapply wp_mono; [by eapply IH|].
    intros r st Hr. eapply (settled_after_more _ _ [(id, res)]); [|exact Hr]. simpl.
    change (flow_of (Tunnels.set_poller p v) w a b) with (flow_of v w a b) in Hc. by rewrite Hc.
  - exists [(id, res)]. simpl.
    change (flow_of (Tunnels.set_poller p v) w a b) with (flow_of v w a b) in Hs.
    destruct Hs as (a' & b' & ? & ? & Hc & ?). exists a', b'. rewrite Hc. by destruct e.
Qed.

(** The main loop is left by an event that ends the copying, or by the poller. *)
Definition left_loop {A} int_id ext_id log (x : flow) (r : result Tunnels.exit A)
    (st : vars S P * World) : Prop :=
  settled_after int_id ext_id log x r st ∨
  ∃ e, r = Err (Err e) ∧ settled_after (A:=unit) int_id ext_id log x (Ok tt) st.

Lemma main_loop_wp fuel timeout int_id ext_id log v w a b :
  (∀ t p w o p', poll t p w = (o, p') → ∀ msg, o ≠ Panic msg) →
  ledger v w a b → happened (v_poller v) log → is_established session w = true →
  wp (Tunnels.main_loop fuel timeout int_id ext_id)
    (left_loop int_id ext_id log (flow_of v w a b)) (v, w).
Proof.
  intros Hpoll. revert log v w a b.
  induction fuel as [|fuel IH]; intros log v w a b Hl Hlog He; cbn [Tunnels.main_loop]; [done|].
  wp_step. unfold wp at 1, Tunnels.wait_events, Tunnels.try_, map_err. simpl.
  pose proof (history_poll (Some timeout) (v_poller v) w log Hlog) as Hseen.
  destruct (poll _ _ _) as [o p] eqn:Hp. simpl in Hseen. apply (ledger_poller _ _ _ _ p) in Hl.
  assert (Hnow : ∀ e, left_loop (A:=Empty_set) int_id ext_id log (flow_of v w a b) (Err (Err e))
    (Tunnels.set_poller p v, w)).
  { intros e. right. exists e. split; [done|]. exists []. rewrite app_nil_r. by eapply settled_on. }
  destruct o as [[n|e]|msg|]; [|done|by apply (Hpoll _ _ _ _ _ Hp msg)|done].
  case_bool_decide; [by wp_step|]. wp_step. eapply wp_mono; [by eapply events_wp|].
  change (flow_of (Tunnels.set_poller p v) w a b) with (flow_of v w a b).
  intros r [v' w'] (evs & Hs). destruct r as [[]|e].
  - destruct Hs as (a' & b' & Hl' & Hlog' & Hc & He'). eapply wp_mono; [by eapply IH|].
    intros r st [Hr|(e & -> & Hr)]; [left|right; exists e; split; [done|]];
      (eapply settled_after_more; [exact Hc|exact Hr]).
  - left. exists evs. by apply settled_left.
Qed.

End ledger.

(** ** Termination *)

(** A poller that hands out finitely many rounds of events. *)
Class FinitePoll `{IoTypeApi} (P : Type) `{!PollApi P} := {
  rounds_left : P → nat;
  queued : P → nat;
  queue_bound : nat;
  poll_returns t p w : ∃ r p', poll t p w = (Ret r, p') ∧
    (∀ n, r = Ok n → n ≠ 0 → rounds_left p' < rounds_left p ∧ queued p' ≤ queue_bound);
  next_event p e p' : next p = (Some e, p') → queued p' < queued p ∧ rounds_left p' ≤ rounds_left p;
  next_empty p p' : next p = (None, p') → rounds_left p' ≤ rounds_left p;
  interest_keeps id t p : queued (set_interest id t p) = queued p ∧
    rounds_left (set_interest id t p) = rounds_left p;
  register_keeps f t p : rounds_left (register f t p).2 ≤ rounds_left p
}.

Section termination.
Context `{BuildProfile} `{Fuel} `{Deque.Layout} `{IoTypeApi} {S P : Type} `{NetSession S} `{!PollApi P}
  `{!DirectSession S} `{!FinitePoll P}.
Context (stream : TcpStream) (session : S) (table : gmap RawFd nat).
Let f := fd stream.
Let g := direct_fd session.
Context (Hdistinct : ∀ w, fds w = table → distinct f g w).

Record calm (v : vars S P) (w : World) : Prop := mk_calm {
  ca_stream : v_stream v = stream;
  ca_session : v_session v = session;
  ca_fds : fds w = table;
  ca_int : patient f w;
  ca_ext : patient g w
}.

(** Code that goes on in a calm state with no more events than before. *)
Definition goes_on {A} (v0 : vars S P) (r : result Tunnels.exit A) (st : vars S P * World) : Prop :=
  is_ok r = true → calm st.1 st.2 ∧ is_established session st.2 = true ∧
    queued (v_poller st.1) ≤ queued (v_poller v0) ∧ rounds_left (v_poller st.1) ≤ rounds_left (v_poller v0).

Lemma patient_find h w w' : find h w' = find h w → patient h w → patient h w'.
Proof. unfold patient. by intros ->. Qed.

(** Neither a [recv] nor a [send] on one of the sockets hangs or disturbs the
    other. *)
Lemma calm_recv h n v w o w' :
  h = f ∨ h = g → calm v w → recv h n w = (o, w') → (∃ r, o = Ret r) ∧ calm v w'.
Proof.
  intros Hh [] Hr. pose proof (Hdistinct w ca_fds0) as Hd. destruct Hh as [-> | ->].
  - destruct (on_socket_other _ g _ _ _ _ Hr Hd) as [Hg Hfds].
    destruct (progress_patient _ _ _ _ ca_int0 (recv_progress _ _ _ _ _ Hr)) as (r & -> & Hp).
    split; [eauto|]. split; [done|done|congruence|done|by eapply patient_find].
  - destruct (on_socket_other _ f _ _ _ _ Hr (distinct_sym _ _ _ Hd)) as [Hg Hfds].
    destruct (progress_patient _ _ _ _ ca_ext0 (recv_progress _ _ _ _ _ Hr)) as (r & -> & Hp).
    split; [eauto|]. split; [done|done|congruence|by eapply patient_find|done].
Qed.

Lemma calm_send h x v w o w' :
  h = f ∨ h = g → calm v w → send h x w = (o, w') → (∃ r, o = Ret r) ∧ calm v w'.
Proof.
  intros Hh [] Hr. pose proof (Hdistinct w ca_fds0) as Hd. destruct Hh as [-> | ->].
  - destruct (on_socket_other _ g _ _ _ _ Hr Hd) as [Hg Hfds].
    destruct (progress_patient _ _ _ _ ca_int0 (send_progress _ _ _ _ _ Hr)) as (r & -> & Hp).
    split; [eauto|]. split; [done|done|congruence|done|by eapply patient_find].
  - destruct (on_socket_other _ f _ _ _ _ Hr (distinct_sym _ _ _ Hd)) as [Hg Hfds].
    destruct (progress_patient _ _ _ _ ca_ext0 (send_progress _ _ _ _ _ Hr)) as (r & -> & Hp).
    split; [eauto|]. split; [done|done|congruence|by eapply patient_find|done].
Qed.

Lemma twp_handle {A} (len : A → nat) call body (Q : result Tunnels.exit unit → vars S P * World → Prop) st :
  twp call (λ r st', match r with
    | Ok x => if bool_decide (len x = 0) then Q (Err (Ok (in_count st'.1, out_count st'.1))) st'
              else twp (body x) Q st'
    | Err e => Q (Err (Err e)) st'
    end) st →
  twp (Tunnels.handle len call body) Q st.
Proof.
  intros Hc. unfold Tunnels.handle. do 2 twp_step. eapply twp_mono; [exact Hc|]. clear Hc.
  intros [x|e] st' Hx; cbv beta iota in *; [|by twp_step]. destruct (bool_decide _); [|done].
  twp_step. by do 2 twp_step.
Qed.

Lemma twp_drain {E} k d (Q : result E bytes → VecDeque → Prop) :
  (∀ x d', Q (Ok x) d') → twp (Deque.drain_to k) Q d.
Proof. intros HQ. unfold twp, Deque.drain_to. destruct (_ <=? _); [apply HQ|done]. Qed.

Lemma twp_usize_add {E St} x y (Q : result E Z → St → Prop) st :
  (∀ z, Q (Ok z) st) → twp (usize_add x y) Q st.
Proof. intros HQ. unfold twp, usize_add. destruct (_ <? _)%Z; [apply HQ|]. destruct overflow_checks; [done|apply HQ]. Qed.

Lemma twp_slice {E St} n l (Q : result E bytes → St → Prop) st :
  (∀ x, Q (Ok x) st) → twp (slice_to n l) Q st.
Proof. intros HQ. unfold twp, slice_to. destruct (_ <=? _); [apply HQ|done]. Qed.

Lemma twp_interest id t v0 v w :
  calm v w → is_established session w = true →
  queued (v_poller v) ≤ queued (v_poller v0) → rounds_left (v_poller v) ≤ rounds_left (v_poller v0) →
  twp (Tunnels.set_interest_of id t) (goes_on v0) (v, w).
Proof.
  intros Hc He Hq Hr. unfold Tunnels.set_interest_of, Tunnels.update, twp, modify. simpl. intros _. simpl.
  destruct (interest_keeps id t (v_poller v)) as [Hq' Hr']. rewrite Hq', Hr'.
  split_and!; [by destruct Hc|done..].
Qed.

(** A call on a socket of the tunnel, with the peer of the session kept. *)
Lemma twp_stream_write x v w (Q : result io_error nat → vars S P * World → Prop) :
  calm v w → is_established session w = true →
  (∀ r w', calm v w' → is_established session w' = true → Q r (v, w')) →
  twp (Tunnels.on_stream (write x)) Q (v, w).
Proof.
  intros Hc He HQ. unfold Tunnels.on_stream. twp_step. unfold twp. simpl. unfold on_world. simpl.
  rewrite (ca_stream _ _ Hc). destruct (send _ x w) as [o w'] eqn:Hr.
  destruct (on_socket_other _ g _ _ _ _ Hr (Hdistinct w (ca_fds _ _ Hc))) as [Hg _].
  apply find_observers in Hg as (_ & _ & _ & Hp).
  destruct (calm_send f x v w o w' (or_introl eq_refl) Hc Hr) as [[r ->] Hc'].
  specialize (HQ r w' Hc'). rewrite (direct_peer _ _ _ Hp) in HQ. rewrite <-(ca_stream _ _ Hc). destruct v. by apply HQ.
Qed.

Lemma twp_session_write x v w (Q : result io_error nat → vars S P * World → Prop) :
  calm v w → is_established session w = true →
  (∀ r w', calm v w' → is_established session w' = true → Q r (v, w')) →
  twp (Tunnels.on_session (write x)) Q (v, w).
Proof.
  intros Hc He HQ. unfold Tunnels.on_session. twp_step. unfold twp. rewrite (ca_session _ _ Hc).
  rewrite direct_write by done. destruct (send _ x w) as [o w'] eqn:Hr.
  pose proof (send_keeps_peer _ _ _ _ _ Hr) as Hp.
  destruct (calm_send g x v w o w' (or_intror eq_refl) Hc Hr) as [[r ->] Hc'].
  specialize (HQ r w' Hc'). rewrite (direct_peer _ _ _ Hp) in HQ. rewrite <-(ca_session _ _ Hc). destruct v. by apply HQ.
Qed.

Lemma twp_stream_read n v w (Q : result io_error bytes → vars S P * World → Prop) :
  calm v w → is_established session w = true →
  (∀ r w', calm v w' → is_established session w' = true → Q r (v, w')) →
  twp (Tunnels.on_stream (read n)) Q (v, w).
Proof.
  intros Hc He HQ. unfold Tunnels.on_stream. twp_step. unfold twp. simpl. unfold on_world. simpl.
  rewrite (ca_stream _ _ Hc). destruct (recv _ n w) as [o w'] eqn:Hr.
  destruct (on_socket_other _ g _ _ _ _ Hr (Hdistinct w (ca_fds _ _ Hc))) as [Hg _].
  apply find_observers in Hg as (_ & _ & _ & Hp).
  destruct (calm_recv f n v w o w' (or_introl eq_refl) Hc Hr) as [[r ->] Hc'].
  specialize (HQ r w' Hc'). rewrite (direct_peer _ _ _ Hp) in HQ. rewrite <-(ca_stream _ _ Hc). destruct v. by apply HQ.
Qed.

Lemma twp_session_read n v w (Q : result io_error bytes → vars S P * World → Prop) :
  calm v w → is_established session w = true →
  (∀ r w', calm v w' → (is_ok r = true → is_established session w' = true) → Q r (v, w')) →
  twp (Tunnels.on_session (read n)) Q (v, w).
Proof.
  intros Hc He HQ. unfold Tunnels.on_session. twp_step. unfold twp. rewrite (ca_session _ _ Hc).
  rewrite direct_read by done. destruct (recv _ n w) as [o w'] eqn:Hr.
  destruct (calm_recv g n v w o w' (or_intror eq_refl) Hc Hr) as [[r ->] Hc'].
  assert (Hp : is_ok r = true → is_established session w' = true).
  { intros Hok. destruct r; [|done]. apply recv_ok in Hr as (_ & Hp & _). by rewrite (direct_peer _ _ _ Hp). }
  specialize (HQ r w' Hc' Hp). rewrite <-(ca_session _ _ Hc). by destruct v.
Qed.

(** A state with other buffers and counters is as calm. *)
Lemma calm_same v v' w : v_stream v' = v_stream v → v_session v' = v_session v → calm v w → calm v' w.
Proof. intros Hs Hse []. split; try done; congruence. Qed.

Ltac keep_calm :=
  match goal with Hc : calm _ ?w |- calm _ ?w => by refine (calm_same _ _ _ _ _ Hc) end.

Lemma goes_on_now {A} v0 v w (x : A) :
  calm v w → is_established session w = true → v_poller v = v_poller v0 → goes_on v0 (Ok x) (v, w).
Proof. intros Hc He Hp _. simpl. rewrite Hp. by split_and!. Qed.

Lemma write_int_twp int_id v w :
  calm v w → is_established session w = true → twp (Tunnels.write_int int_id) (goes_on v) (v, w).
Proof.
  intros Hc He. unfold Tunnels.write_int. twp_step. unfold Tunnels.on_in_buf at 1. do 2 twp_step. do 2 twp_step.
  apply twp_handle, twp_stream_write; [keep_calm|done|]. intros r w' Hc' He'.
  destruct r as [k|e]; [|done]. destruct (bool_decide _); [done|].
  twp_step. unfold Tunnels.try_, Tunnels.on_stream. do 2 twp_step. unfold twp at 1. simpl.
  twp_step. unfold Tunnels.on_in_buf. twp_step. apply twp_drain. intros x d'. do 2 twp_step.
  twp_step. apply twp_usize_add. intros z. unfold Tunnels.update. do 2 twp_step.
  destruct (is_empty _); [apply twp_interest|apply goes_on_now]; try done; keep_calm.
Qed.

Lemma write_ext_twp ext_id v w :
  calm v w → is_established session w = true → twp (Tunnels.write_ext ext_id) (goes_on v) (v, w).
Proof.
  intros Hc He. unfold Tunnels.write_ext. twp_step. unfold Tunnels.on_out_buf at 1. do 2 twp_step. do 2 twp_step.
  apply twp_handle, twp_session_write; [keep_calm|done|]. intros r w' Hc' He'.
  destruct r as [k|e]; [|done]. destruct (bool_decide _); [done|].
  twp_step. unfold Tunnels.try_, Tunnels.on_session. do 2 twp_step. unfold twp at 1. rewrite direct_flush.
  twp_step. unfold Tunnels.on_out_buf. twp_step. apply twp_drain. intros x d'. do 2 twp_step.
  twp_step. apply twp_usize_add. intros z. unfold Tunnels.update. do 2 twp_step.
  destruct (is_empty _); [apply twp_interest|apply goes_on_now]; try done; keep_calm.
Qed.

Lemma filled_twp x v w (Q : result Tunnels.exit bytes → vars S P * World → Prop) :
  (∀ y z, Q (Ok y) (Tunnels.set_buf z v, w)) → twp (Tunnels.filled x) Q (v, w).
Proof.
  intros HQ. unfold Tunnels.filled, Tunnels.update. do 2 twp_step. do 2 twp_step. apply twp_slice. auto.
Qed.

Lemma read_int_twp ext_id v w :
  calm v w → is_established session w = true → twp (Tunnels.read_int ext_id) (goes_on v) (v, w).
Proof.
  intros Hc He. unfold Tunnels.read_int. do 2 twp_step. apply twp_handle, twp_stream_read; [done|done|].
  intros r w' Hc' He'. destruct r as [x|e]; [|done]. destruct (bool_decide _); [done|].
  twp_step. apply filled_twp. intros y z. twp_step. unfold Tunnels.on_out_buf. twp_step.
  unfold twp at 1. cbn -[Tunnels.set_interest_of]. apply twp_interest; try done. keep_calm.
Qed.

Lemma read_ext_twp int_id v w :
  calm v w → is_established session w = true → twp (Tunnels.read_ext int_id) (goes_on v) (v, w).
Proof.
  intros Hc He. unfold Tunnels.read_ext. do 2 twp_step. apply twp_handle, twp_session_read; [done|done|].
  intros r w' Hc' He'. destruct r as [x|e]; [|done]. specialize (He' eq_refl). destruct (bool_decide _); [done|].
  twp_step. apply filled_twp. intros y z. twp_step. unfold Tunnels.on_in_buf. twp_step.
  unfold twp at 1. cbn -[Tunnels.set_interest_of]. apply twp_interest; try done. keep_calm.
Qed.

Lemma goes_on_seq (c1 c2 : bool) (m1 m2 : M Tunnels.exit (vars S P * World) unit) v w :
  (∀ v w, calm v w → is_established session w = true → twp m1 (goes_on v) (v, w)) →
  (∀ v w, calm v w → is_established session w = true → twp m2 (goes_on v) (v, w)) →
  calm v w → is_established session w = true →
  twp (run! (if c1 then m1 else ret tt) in (if c2 then m2 else ret tt)) (goes_on v) (v, w).
Proof.
  intros Hm1 Hm2 Hc He. twp_step.
  assert (Hfirst : twp (if c1 then m1 else ret tt) (goes_on v) (v, w)).
  { destruct c1; [by apply Hm1|]. twp_step. by apply goes_on_now. }
  eapply twp_mono; [exact Hfirst|]. intros [[]|e] [v1 w1] Hg; [|done].
  destruct (Hg eq_refl) as (Hc1 & He1 & Hq & Hr). simpl in *. destruct c2.
  - eapply twp_mono; [by apply Hm2|]. intros r st' Hg' Hok. destruct (Hg' Hok) as (? & ? & ? & ?).
    split_and!; [done|done|lia|lia].
  - twp_step. done.
Qed.

Lemma handle_event_twp int_id ext_id id res v w :
  calm v w → is_established session w = true →
  twp (Tunnels.handle_event int_id ext_id id res) (goes_on v) (v, w).
Proof.
  intros Hc He. unfold Tunnels.handle_event. twp_step. destruct res as [ev|[c|c]].
  - twp_step. case_bool_decide; [|case_bool_decide].
    + apply goes_on_seq; [intros; by apply write_int_twp|intros; by apply read_int_twp|done|done].
    + apply goes_on_seq; [intros; by apply write_ext_twp|intros; by apply read_ext_twp|done|done].
    + twp_step. by apply goes_on_now.
  - by do 3 twp_step.
  - by twp_step.
Qed.

(** The queue of a round is worked off, then the next round begins. *)
Lemma events_twp fuel int_id ext_id v w :
  calm v w → is_established session w = true → queued (v_poller v) < fuel →
  twp (Tunnels.events fuel int_id ext_id) (λ r st, is_ok r = true → calm st.1 st.2 ∧
    is_established session st.2 = true ∧ rounds_left (v_poller st.1) ≤ rounds_left (v_poller v)) (v, w).
Proof.
  revert v w. induction fuel as [|fuel IH]; intros v w Hc He Hq; [lia|]. cbn [Tunnels.events].
  do 2 twp_step. destruct (next (v_poller v)) as [ev p] eqn:Hn. unfold Tunnels.update. do 2 twp_step.
  assert (Hc1 : calm (Tunnels.set_poller p v) w) by keep_calm.
  destruct ev as [[id res]|].
  - apply next_event in Hn as [Hq1 Hr1]. twp_step. eapply twp_mono; [by apply handle_event_twp|].
    intros [[]|e] [v2 w2] Hg; [|done]. destruct (Hg eq_refl) as (Hc2 & He2 & Hq2 & Hr2). simpl in *.
    eapply twp_mono; [apply IH; [done|done|lia]|]. intros r st Hst Hok.
    destruct (Hst Hok) as (? & ? & ?). split_and!; [done|done|lia].
  - apply next_empty in Hn. twp_step. intros _. done.
Qed.

Lemma main_loop_twp fuel timeout int_id ext_id v w :
  calm v w → is_established session w = true → rounds_left (v_poller v) < fuel → queue_bound < loop_fuel →
  twp (Tunnels.main_loop fuel timeout int_id ext_id) (λ _ _, True) (v, w).
Proof.
  revert v w. induction fuel as [|fuel IH]; intros v w Hc He Hf Hb; [lia|]. cbn [Tunnels.main_loop].
  twp_step. unfold twp at 1, Tunnels.wait_events, Tunnels.try_, map_err. simpl.
  destruct (poll_returns (Some timeout) (v_poller v) w) as (r & p & -> & Hp). destruct r as [n|e]; [|done].
  destruct (bool_decide (n = 0)) eqn:Hn; [done|]. apply bool_decide_eq_false in Hn.
  destruct (Hp n eq_refl Hn) as [Hr Hq].
  twp_step. eapply twp_mono; [apply events_twp; [keep_calm|done|simpl; lia]|].
  intros [[]|e] [v1 w1] Hg; [|done]. destruct (Hg eq_refl) as (Hc1 & He1 & Hr1). simpl in *.
  apply IH; [done|done|lia|done].
Qed.

End termination.

(** ** Descriptors *)

Section descriptors.
Context `{BuildProfile} `{Fuel} `{Deque.Layout} `{IoTypeApi} {S P : Type} `{NetSession S} `{!PollApi P}
  `{!StableSession S}.

(** The descriptor table stays as it is. *)
Definition vars_fds : relation (vars S P * World) := λ st st', fds st'.2 = fds st.2.
#[local] Instance vars_fds_preorder : PreOrder vars_fds.
Proof. split; [done|]. intros ? ? ? H12 H23. unfold vars_fds in *. congruence. Qed.

Definition world_fds : relation (S * World) := λ st st', fds st'.2 = fds st.2.
#[local] Instance world_fds_preorder : PreOrder world_fds.
Proof. split; [done|]. intros ? ? ? H12 H23. unfold world_fds in *. congruence. Qed.

Lemma keeps_on_stream {A} (m : M io_error (TcpStream * World) A) :
  evolves (λ st st', fds st'.2 = fds st.2) m → evolves vars_fds (Tunnels.on_stream m).
Proof. unfold Tunnels.on_stream. by apply evolves_zoom. Qed.

Lemma keeps_on_session {A} (m : M io_error (S * World) A) :
  evolves same_fds m → evolves vars_fds (Tunnels.on_session m).
Proof. unfold Tunnels.on_session. apply evolves_zoom. by intros st t [? _]. Qed.

Lemma keeps_buffers {E A} (m : M E VecDeque A) :
  evolves vars_fds (Tunnels.on_in_buf m) ∧ evolves vars_fds (Tunnels.on_out_buf m).
Proof.
  unfold Tunnels.on_in_buf, Tunnels.on_out_buf.
  split; (eapply (evolves_zoom _ (λ _ _, True)); [done|by intros ? ? ? ?]).
Qed.

Lemma keeps_update {E} h : evolves vars_fds (Tunnels.update (E:=E) h).
Proof. by intros st o st' [= <- <-]. Qed.

Lemma keeps_try {A} (m : M io_error (vars S P * World) A) : evolves vars_fds m → evolves vars_fds (Tunnels.try_ m).
Proof.
  intros Hm st o st' Heq. unfold Tunnels.try_, map_err in Heq.
  destruct (m st) as [[[]| |] st1] eqn:Hr; apply Hm in Hr; by simplify_eq.
Qed.

Lemma keeps_usize_add {E} x y : evolves vars_fds (usize_add (E:=E) x y).
Proof. apply evolves_pure; [apply _|]. intros st. unfold usize_add. by repeat case_match; simplify_eq/=. Qed.

Lemma keeps_slice {E} n l : evolves vars_fds (slice_to (E:=E) n l).
Proof. apply evolves_pure; [apply _|]. intros st. unfold slice_to. by repeat case_match; simplify_eq/=. Qed.

Lemma tcp_keeps_read n : evolves (λ st st' : TcpStream * World, fds st'.2 = fds st.2) (read n).
Proof. intros [s w] o [s' w'] Hr. apply tcp_read_inv in Hr as [-> Hr]. by apply on_socket_fds in Hr. Qed.

Lemma tcp_keeps_write b : evolves (λ st st' : TcpStream * World, fds st'.2 = fds st.2) (write b).
Proof. intros [s w] o [s' w'] Hr. apply tcp_write_inv in Hr as [-> Hr]. by apply on_socket_fds in Hr. Qed.

Ltac keep := first
  [ apply keeps_on_stream; first [apply tcp_keeps_read | apply tcp_keeps_write | by intros st o st' [= <- <-]]
  | apply keeps_on_session; first [apply session_read_stable | apply session_write_stable | apply session_flush_stable]
  | apply keeps_buffers | apply keeps_update | apply keeps_usize_add | apply keeps_slice
  | apply keeps_try; keep ].

Lemma keeps_event int_id ext_id id res : evolves vars_fds (Tunnels.handle_event int_id ext_id id res).
Proof.
  unfold Tunnels.handle_event, Tunnels.write_int, Tunnels.read_int, Tunnels.write_ext, Tunnels.read_ext,
    Tunnels.filled, Tunnels.set_interest_of.
  destruct res as [ev|[c|c]]; evolve; try keep;
    match goal with |- evolves _ (match ?r with Ok _ => _ | Err _ => _ end) => destruct r end; evolve; keep.
Qed.

Lemma keeps_events fuel int_id ext_id : evolves vars_fds (Tunnels.events fuel int_id ext_id).
Proof.
  induction fuel as [|fuel IH]; cbn [Tunnels.events]; (apply evolves_bind; [apply _|by apply evolves_pure; [apply _|]|]);
    intros v; destruct (next (v_poller v)) as [[[id res]|] p];
    (apply evolves_bind; [apply _|apply keeps_update|intros _]); try by apply evolves_pure; [apply _|].
  apply evolves_bind; [apply _|apply keeps_event|intros _; apply IH].
Qed.

Lemma keeps_main_loop fuel timeout int_id ext_id : evolves vars_fds (Tunnels.main_loop fuel timeout int_id ext_id).
Proof.
  induction fuel as [|fuel IH]; cbn [Tunnels.main_loop]; evolve; [|apply keeps_events|apply IH].
  intros st o st' Heq. unfold Tunnels.wait_events, Tunnels.try_, map_err in Heq.
  destruct (poll _ _ _) as [[[]| |] p]; by simplify_eq/=.
Qed.

Lemma keeps_relay poller timeout stream : evolves world_fds (Tunnels.relay (S:=S) (P:=P) poller timeout stream).
Proof.
  intros [s w] o [s' w'] Heq. unfold Tunnels.relay, Tunnels.setup in Heq.
  destruct (register _ _ poller) as [int_id p1]. destruct (register _ _ p1) as [ext_id p2].
  destruct (Tunnels.main_loop _ _ _ _ _) as [[[[]|]| |] [v w1]] eqn:Hl; apply keeps_main_loop in Hl;
    by simplify_eq/=.
Qed.

Lemma keeps_configure timeout stream `{!StableOptions (Connection S)} :
  evolves world_fds (Tunnels.configure_pair (S:=S) timeout stream).
Proof.
  unfold Tunnels.configure_pair.
  assert (Hos : ∀ m : M io_error World unit, (∀ w o w', m w = (o, w') → fds w' = fds w) →
    evolves world_fds (zoom snd (λ w st, (st.1, w)) m)).
  { intros m Hm [s w] o st' Heq. unfold zoom in Heq. simpl in Heq.
    destruct (m w) as [r w1] eqn:Hr. injection Heq as <- <-. by eapply Hm. }
  repeat (apply evolves_bind; [apply _| |intros ?]); try (apply Hos; intros w o w').
  - apply configure_fds.
  - apply timeout_fds.
  - apply timeout_fds.
  - by apply evolves_pure; [apply _|].
  - apply stable_nonblocking.
  - apply stable_read_timeout.
  - apply stable_write_timeout.
Qed.

Lemma keeps_session stream poller timeout `{!StableOptions (Connection S)} :
  evolves world_fds (run! Tunnels.configure_pair timeout stream in
    Tunnels.relay (S:=S) (P:=P) poller timeout stream).
Proof. apply evolves_bind; [apply _|by apply keeps_configure|intros _; apply keeps_relay]. Qed.

End descriptors.

Lemma local_addr_fds l msg w o w' :
  expect_ok (StdListener.local_addr l) msg w = (o, w') → fds w' = fds w.
Proof.
  unfold expect_ok, StdListener.local_addr, inspect, bind, attempt.
  destruct (syscall_cases w) as ([[]|e] & w1 & -> & Hfds & _); [|by intros [= <- <-]].
  destruct (on_socket _ _ w1) as [o1 w2] eqn:Hr. pose proof (on_socket_fds _ _ _ _ _ Hr) as Hf2.
  destruct o1 as [[[a|]|e]| |]; simpl; intros [= <- <-]; congruence.
Qed.

Lemma accept_fds l w o w' : StdListener.accept l w = (o, w') →
  match o with
  | Ret (Ok (c, _)) => fds w !! fd c = None ∧ ∃ i, fds w' = <[fd c := i]> (fds w)
  | _ => fds w' = fds w
  end.
Proof.
  unfold StdListener.accept, accept_fd, bind. destruct (find (l_fd l) w) as [[i k]|]; [|by intros [= <- <-]].
  destruct (sk_backlog k); [|by intros [= <- <-]].
  destruct (sk_pending k) as [|[c|e] rest]; [| |by intros [= <- <-]].
  - unfold wait. destruct (_ || _); by intros [= <- <-].
  - destruct (open_socket_opened (socket_of c) w (set_socks (<[i := set_pending rest k]> (socks w)) w))
      as (f & w2 & -> & Hnew & j & Hj & _); [done|]. intros [= <- <-]. eauto.
Qed.

(** ** The contract *)

(** A poller that does not panic. *)
Class CalmPoll `{IoTypeApi} (P : Type) `{!PollApi P} :=
  poll_no_panic t (p : P) w o p' : poll t p w = (o, p') → ∀ msg, o ≠ Panic msg.

Module TunnelContract.
Section specs.
Context `{BuildProfile} `{Fuel} `{Deque.Layout} `{IoTypeApi} {S P : Type} `{NetSession S} `{!PollApi P}
  `{!DirectSession S}.

(** The loop, from the variables of [setup]. *)
Lemma relay_wp `{!CalmPoll P} happened `{!PollHistory P happened} (poller : P) log timeout stream (session : S) w :
  happened poller log →
  is_established session w = true → distinct (fd stream) (direct_fd session) w →
  (Z.of_nat (volume (fd stream) w) < usize_modulus)%Z →
  (Z.of_nat (volume (direct_fd session) w) < usize_modulus)%Z →
  let '(int_id, ext_id, start) := Tunnels.setup poller stream session in
  wp (Tunnels.relay poller timeout stream) (λ r st, st.1 = session ∧ ∃ v,
    Tunnels.main_loop loop_fuel timeout int_id ext_id (start, w) = (Ret (Err r), (v, st.2)) ∧
    left_loop (A:=Empty_set) happened stream session (fds w) (sent (fd stream) w) (received (fd stream) w)
      (sent (direct_fd session) w) (received (direct_fd session) w) int_id ext_id log
      (mk_flow [] [] [] [] w) (Err r) (v, st.2)) (session, w).
Proof.
  intros Hlog He Hd Hvf Hvg. unfold wp, Tunnels.relay.
  destruct (Tunnels.setup poller stream session) as [[int_id ext_id] start] eqn:Hsetup.
  unfold Tunnels.setup in Hsetup.
  pose proof (history_register (fd stream) read_only poller log Hlog) as Hlog1.
  destruct (register _ _ poller) as [i1 p1]. simpl in Hlog1.
  pose proof (history_register (as_raw_fd (as_connection session)) read_only p1 log Hlog1) as Hlog2.
  destruct (register _ _ p1) as [i2 p2]. injection Hsetup as -> -> Hstart.
  assert (Hl : ledger stream session (fds w) (sent (fd stream) w) (received (fd stream) w)
    (sent (direct_fd session) w) (received (direct_fd session) w) start w [] []).
  { subst start. split; simpl; rewrite ?app_nil_r; done || apply length_replicate. }
  assert (Hdw : ∀ w', fds w' = fds w → distinct (fd stream) (direct_fd session) w').
  { unfold distinct in *. by intros w' ->. }
  assert (Hls : happened (v_poller start) log) by by subst start.
  pose proof (main_loop_wp happened _ _ _ _ _ _ _ Hdw loop_fuel timeout int_id ext_id log _ _ _ _
    poll_no_panic Hl Hls He) as Hm.
  replace (flow_of start w [] []) with (mk_flow [] [] [] [] w) in Hm by by subst start.
  unfold wp in Hm. destruct (Tunnels.main_loop _ _ _ _ _) as [[[[]|r]|msg|] [v w1]]; [|done|done].
  split; [|by exists v]. simpl. by destruct Hm as [(evs & a & b & [] & _)|(e & _ & evs & a & b & [] & _)].
Qed.

(** How the state in which the reference ends decides the result: an event that
    ended the copying does, and otherwise the poller failed or timed out. *)
Definition result_of (s : status) (x : flow) (r : io_result (Z * Z)) : Prop :=
  match s with
  | Done (Ok _) => r = Ok (Z.of_nat (length (inward x)), Z.of_nat (length (outward x)))
  | Done (Err e) => r = Err e
  | Going => ∃ e, r = Err e
  | Hung => False
  end.

(** C4: the tunnel never panics, and copies as two queues do.  Its run is the
    run of the reference [copy] on the events the poller has handed out: every
    write event offers the whole queue to the socket and removes exactly what it
    took, and every read event appends exactly what was read.  Thus, when the
    copying ends, for whatever reason, the bytes delivered by one side are the
    bytes sent to the other, in order, followed by what is still in the buffer;
    and on a regular end the two counters are the numbers of bytes sent.  (What
    is in the buffers at that moment is given up.)  The session must be
    established and on another socket than the local stream, and less than 2^64
    bytes may arrive on each side. *)
Theorem relay_conserves `{!CalmPoll P} `{!ObservedPoll P} (poller : P) timeout stream (session : S) w :
  is_established session w = true → distinct (fd stream) (direct_fd session) w →
  (Z.of_nat (volume (fd stream) w) < usize_modulus)%Z →
  (Z.of_nat (volume (direct_fd session) w) < usize_modulus)%Z →
  let '(int_id, ext_id, start) := Tunnels.setup poller stream session in
  let f := fd stream in
  let g := direct_fd session in
  (∀ msg st', Tunnels.relay poller timeout stream (session, w) ≠ (Panic msg, st')) ∧
  (∀ r s' w', Tunnels.relay poller timeout stream (session, w) = (Ret r, (s', w')) →
    s' = session ∧ ∃ v evs st x,
      Tunnels.main_loop loop_fuel timeout int_id ext_id (start, w) = (Ret (Err r), (v, w')) ∧
      seen (v_poller v) = seen poller ++ evs ∧
      copy f g int_id ext_id evs (mk_flow [] [] [] [] w) = (st, x) ∧ result_of st x r ∧
      x = mk_flow (vd_content (in_buf v)) (vd_content (out_buf v)) (inward x) (outward x) w' ∧
      sent f w' = sent f w ++ inward x ∧ received g w' = received g w ++ inward x ++ inq x ∧
      sent g w' = sent g w ++ outward x ∧ received f w' = received f w ++ outward x ++ outq x).
Proof.
  intros He Hd Hvf Hvg.
  pose proof (relay_wp observed poller (seen poller) timeout stream session w eq_refl He Hd Hvf Hvg) as Hwp.
  destruct (Tunnels.setup poller stream session) as [[int_id ext_id] start]. cbv zeta.
  split; [intros msg st'; by eapply wp_no_panic|]. intros r s' w' Hr.
  destruct (wp_run _ _ _ _ _ Hwp Hr) as (Hs & v & Hm & Hleft). split; [done|]. exists v.
  destruct Hleft as [(evs & a & b & [] & Hseen & Hc & Hres)|(e & Hre & evs & a & b & [] & Hseen & Hc & _)];
    eexists evs, _, _; (split_and!; [done|done|exact Hc| |done..]).
  - destruct r; simpl in *; congruence.
  - injection Hre as ->. by exists e.
Qed.

(** C12: the copying ends.  When reads and writes on both sockets do not block
    forever and the poller hands out finitely many events before it times out,
    [tunnel_once] returns from its loop: fuel above the number of rounds and
    above the number of events of a round is enough. *)
Theorem relay_returns `{!CalmPoll P} `{!FinitePoll P} (poller : P) timeout stream (session : S) w :
  is_established session w = true → distinct (fd stream) (direct_fd session) w →
  (Z.of_nat (volume (fd stream) w) < usize_modulus)%Z →
  (Z.of_nat (volume (direct_fd session) w) < usize_modulus)%Z →
  patient (fd stream) w → patient (direct_fd session) w →
  rounds_left poller < loop_fuel → queue_bound < loop_fuel →
  ∃ r st', Tunnels.relay poller timeout stream (session, w) = (Ret r, st').
Proof.
  intros He Hd Hvf Hvg Hpf Hpg Hf Hq.
  pose proof (relay_wp (λ _ _, True) poller [] timeout stream session w I He Hd Hvf Hvg) as Hwp.
  destruct (Tunnels.setup poller stream session) as [[int0 ext0] start0].
  assert (Htwp : twp (Tunnels.relay poller timeout stream) (λ _ _, True) (session, w)).
  { clear Hwp. unfold twp, Tunnels.relay, Tunnels.setup.
    pose proof (register_keeps (fd stream) read_only poller) as Hr1.
    destruct (register _ _ poller) as [int_id p1].
    pose proof (register_keeps (as_raw_fd (as_connection session)) read_only p1) as Hr2.
    destruct (register _ _ p1) as [ext_id p2]. simpl in *. set (start := mk_vars _ _ _ _ _ _ _ _).
    assert (Hc : calm stream session (fds w) start w) by by split.
    assert (Hdw : ∀ w', fds w' = fds w → distinct (fd stream) (direct_fd session) w').
    { unfold distinct in *. by intros w' ->. }
    pose proof (main_loop_twp _ _ _ Hdw loop_fuel timeout int_id ext_id _ _ Hc He ltac:(simpl; lia) Hq) as Hm.
    unfold twp in Hm. by destruct (Tunnels.main_loop _ _ _ _ _) as [[[[]|r]|msg|] [v w1]]. }
  destruct (total _ _ _ _ Hwp Htwp) as (r & st' & Hr & _). by exists r, st'.
Qed.

(** C37: when the local side closes its half of the connection, the tunnel
    reports success at once: what it has read from there and not yet written to
    the session stays in [out_buf] and is never sent. *)
Theorem eof_abandons_buffer int_id ext_id ev v w w' :
  wants_write ev = false → wants_read ev = true →
  recv (fd (v_stream v)) (length (v_buf v)) w = (Ret (Ok []), w') →
  Tunnels.handle_event (S:=S) (P:=P) int_id ext_id int_id (Ok ev) (v, w) =
    (Ret (Err (Ok (in_count v, out_count v))), (v, w')) ∧
  (distinct (fd (v_stream v)) (direct_fd (v_session v)) w →
   sent (direct_fd (v_session v)) w' = sent (direct_fd (v_session v)) w).
Proof.
  intros Hw Hr Hrecv. split.
  - unfold Tunnels.handle_event. rewrite bind_ret_l, bool_decide_eq_true_2 by done.
    rewrite Hw, Hr, bind_ret_l. unfold Tunnels.read_int, bind, gets, Tunnels.handle, bind, attempt,
      Tunnels.on_stream, zoom. simpl. unfold on_world. simpl. rewrite Hrecv. by destruct v.
  - intros Hd. apply (on_socket_other _ (direct_fd (v_session v))) in Hrecv as [Hf _]; [|done].
    by apply find_observers in Hf as (-> & _).
Qed.

(** C20: whatever happens in [tunnel_once], the connection it accepted is
    closed when it comes back, by a return or by a panic, and no other
    descriptor is opened or closed. *)
Theorem tunnel_closes_connection `{!StableSession S} `{!StableOptions (Connection S)}
    (poller : P) timeout (t : Tunnel S) w o t' w' :
  Tunnels.tunnel_once poller timeout (t, w) = (o, (t', w')) → o ≠ NoReturn → fds w' = fds w.
Proof.
  unfold Tunnels.tunnel_once. rewrite bind_gets. unfold zoom at 1. cbn [fst snd].
  set (l := tun_listener t). intros Heq Ho.
  destruct (bind _ _ (tun_session t, w)) as [o1 [s1 w1]] eqn:Hb. injection Heq as -> <- <-.
  unfold bind at 1, zoom at 1 in Hb. cbn [fst snd] in Hb.
  destruct (expect_ok _ _ w) as [oa wa] eqn:Ha. apply local_addr_fds in Ha.
  destruct oa as [[adr|e]|msg|]; simplify_eq/=; try congruence.
  unfold bind at 1, zoom at 1 in Hb. cbn [fst snd] in Hb.
  destruct (StdListener.accept l wa) as [oc wc] eqn:Hc. apply accept_fds in Hc.
  destruct oc as [[[c p]|e]|msg|]; simplify_eq/=; try congruence.
  destruct Hc as (Hnew & i & Hi). unfold Tunnels.finally in Hb.
  destruct (bind _ _ (tun_session t, wc)) as [od [sd wd]] eqn:Hd.
  apply (keeps_session c poller timeout) in Hd. unfold world_fds in Hd. simpl in Hd.
  assert (w1 = (Tcp.drop (E:=io_error) c wd).2) as -> by (destruct od; by simplify_eq/=).
  simpl. rewrite Hd, Hi, Ha. apply delete_insert_id. congruence.
Qed.

End specs.
End TunnelContract.
