(* ===== verification/TunnelExamples.v ===== *)
(** * Concrete tunnels

    A poller that hands out a given list of rounds, and the witnesses of the
    theorems in [TunnelSpecs]. *)

From S2P Require Import Prelude Std Kernel Connection Listener Session SessionLaws Termination Cypher Descriptors.
From S2P Require Import Examples Transport TransportExamples Tunnel TunnelSpecs.

Module ToyTunnel.
Import Toy ToyTransport.

(** The rounds to come, and the events of the current one; a resource is known
    by its descriptor. *)
Definition toy_event : Type := nat * result IoFail (bool * bool).
Definition toy_poller : Type := list (list toy_event) * list toy_event.

#[export] Instance polling : PollApi toy_poller := {|
  ResourceId := nat;
  register f _ p := (f, p);
  set_interest _ _ p := p;
  poll _ p _ := match p.1 with
                | [] => (Ret (Ok 0), p)
                | round :: rounds => (Ret (Ok (length round)), (rounds, take 8 round))
                end;
  next p := match p.2 with
            | [] => (None, p)
            | e :: es => (Some e, (p.1, es))
            end
|}.

#[export] Instance polling_calm : CalmPoll toy_poller.
Proof. intros t [[|r rs] q] w o p' Hp msg; simpl in Hp; by injection Hp as <- <-. Qed.

#[export] Instance polling_finite : FinitePoll toy_poller.
Proof.
  refine {| rounds_left p := length p.1; queued p := length p.2; queue_bound := 8 |}.
  - intros t [[|r rs] q] w; simpl; eexists _, _; (split; [done|]); intros n [= <-] Hn; [done|].
    split; [simpl; lia|]. cbn [snd]. rewrite length_take. lia.
  - intros [rs [|e es]] e' p' Hn; simpl in Hn; [done|]. injection Hn as <- <-. simpl. lia.
  - intros [rs [|e es]] p' Hn; simpl in Hn; [|done]. by injection Hn as <-.
  - done.
  - done.
Defined.

(** The session on descriptor 3 and the local connection on descriptor 5. *)
Definition local : TcpStream := mk_tcp 5.
Definition two (rx3 rx5 : list rx_event) (tx5 : list tx_event) : World :=
  mk_world {[3 := 0; 5 := 1]} {[0 := tcp_socket rx3 []; 1 := tcp_socket rx5 tx5]} [] [].

(** Both sides have data; the local side takes it in two pieces. *)
Definition busy : World := two [RxData [x41; x42; x43]] [RxData [x61; x62]] [TxAccept 1].
Definition rounds : toy_poller :=
  ([[(3, Ok (true, false)); (5, Ok (true, false))]; [(5, Ok (false, true)); (3, Ok (false, true))];
    [(5, Ok (false, true))]], []).
Definition copied := Tunnels.relay rounds 1000%Z local (up, busy).

Lemma busy_distinct : distinct (fd local) (direct_fd up) busy.
Proof. exists 1, 0. split_and!; [vm_compute; reflexivity..|done]. Qed.

Example copies_both_ways :
  copied.1 = Ret (Err (error_from TimedOut)) ∧ sent 5 copied.2.2 = [x41; x42; x43] ∧ sent 3 copied.2.2 = [x61; x62].
Proof. vm_compute. done. Qed.

(** The local side closes while its last bytes are still in the buffer. *)
Definition closing : World := two [] [RxData [x61; x62]; RxEof] [].
Definition early_end : toy_poller := ([[(5, Ok (true, false))]; [(5, Ok (true, false)); (3, Ok (false, true))]], []).
Definition cut := Tunnels.relay early_end 1000%Z local (up, closing).

#[export] Instance logged_calm : CalmPoll (logged toy_poller).
Proof.
  intros t p w o p' Hp msg. unfold poll, logged_poll in Hp.
  destruct (poll t (under p) w) as [o1 q] eqn:Hq. injection Hp as <- <-. by eapply polling_calm.
Qed.

(** The same rounds, with a log. *)
Definition watched_rounds : logged toy_poller := mk_logged rounds [].

Lemma relay_conserves_witness :
  let '(int_id, ext_id, start) := Tunnels.setup watched_rounds local up in
  let f := fd local in
  let g := direct_fd up in
  (∀ msg st', Tunnels.relay watched_rounds 1000%Z local (up, busy) ≠ (Panic msg, st')) ∧
  (∀ r s' w', Tunnels.relay watched_rounds 1000%Z local (up, busy) = (Ret r, (s', w')) →
    s' = up ∧ ∃ v evs st x,
      Tunnels.main_loop loop_fuel 1000%Z int_id ext_id (start, busy) = (Ret (Err r), (v, w')) ∧
      seen (v_poller v) = seen watched_rounds ++ evs ∧
      copy f g int_id ext_id evs (mk_flow [] [] [] [] busy) = (st, x) ∧ TunnelContract.result_of st x r ∧
      x = mk_flow (vd_content (in_buf v)) (vd_content (out_buf v)) (inward x) (outward x) w' ∧
      sent f w' = sent f busy ++ inward x ∧ received g w' = received g busy ++ inward x ++ inq x ∧
      sent g w' = sent g busy ++ outward x ∧ received f w' = received f busy ++ outward x ++ outq x).
Proof.
  apply (TunnelContract.relay_conserves watched_rounds 1000%Z local up busy).
  - vm_compute; reflexivity.
  - exact busy_distinct.
  - vm_compute; reflexivity.
  - vm_compute; reflexivity.
Defined.

(** What the reference does with the events of these rounds. *)
Example reference_copies :
  let x := (copy (fd local) (direct_fd up) 5 3 (concat rounds.1) (mk_flow [] [] [] [] busy)).2 in
  inward x = [x41; x42; x43] ∧ outward x = [x61; x62] ∧ inq x = [] ∧ outq x = [].
Proof. vm_compute. done. Qed.

Lemma relay_returns_witness :
  ∃ r st', Tunnels.relay rounds 1000%Z local (up, busy) = (Ret r, st').
Proof.
  apply (TunnelContract.relay_returns rounds 1000%Z local up busy).
  - vm_compute; reflexivity.
  - exact busy_distinct.
  - vm_compute; reflexivity.
  - vm_compute; reflexivity.
  - intros i s Hf. vm_compute in Hf. injection Hf as <- <-. left. reflexivity.
  - intros i s Hf. vm_compute in Hf. injection Hf as <- <-. left. reflexivity.
  - apply Nat.ltb_lt. vm_compute. reflexivity.
  - apply Nat.ltb_lt. vm_compute. reflexivity.
Defined.

(** The end is reported as a success, with two bytes read and none sent. *)
Example cut_loses_bytes :
  cut.1 = Ret (Ok (0%Z, 0%Z)) ∧ received 5 cut.2.2 = [x61; x62] ∧ sent 3 cut.2.2 = [].
Proof. vm_compute. done. Qed.

(** The local variables at the moment of the end: two bytes wait to be sent. *)
Definition stuck : vars CypherSession toy_poller :=
  mk_vars local up ([], []) Deque.new (mk_deque [x61; x62] 2) 0%Z 0%Z (replicate 4 x00).
Definition int_id : @ResourceId io_types toy_poller polling := 5.
Definition ext_id : @ResourceId io_types toy_poller polling := 3.
Definition at_eof : World := two [] [RxEof] [].

Lemma eof_abandons_buffer_witness :
  Tunnels.handle_event (S:=CypherSession) (P:=toy_poller) int_id ext_id int_id (Ok (true, false)) (stuck, at_eof) =
    (Ret (Err (Ok (0%Z, 0%Z))), (stuck, (recv 5 4 at_eof).2)) ∧
  (distinct (fd local) (direct_fd up) at_eof →
   sent (direct_fd up) (recv 5 4 at_eof).2 = sent (direct_fd up) at_eof).
Proof.
  apply (TunnelContract.eof_abandons_buffer (S:=CypherSession) (P:=toy_poller) int_id ext_id (true, false) stuck at_eof
    (recv 5 4 at_eof).2); vm_compute; reflexivity.
Defined.

(** A whole call, with a listener on descriptor 7. *)
Definition served : World :=
  mk_world {[3 := 0; 7 := 2]} {[0 := tcp_socket [RxData [x41]] [];
    2 := set_local (Some me) (set_pending [Ok (mk_incoming peer me [RxData [x61]; RxEof] [])]
           (set_backlog (Some 128%Z) fresh_socket))]} [] [].
Definition tun : Tunnel CypherSession := mk_tunnel (mk_listener 7) up.
Definition once := Tunnels.tunnel_once rounds 1000%Z (tun, served).

Lemma tunnel_closes_connection_witness : fds once.2.2 = fds served.
Proof.
  apply (TunnelContract.tunnel_closes_connection rounds 1000%Z tun served once.1 once.2.1 once.2.2).
  - vm_compute; reflexivity.
  - vm_compute. discriminate.
Defined.

End ToyTunnel.
